(* ===== verification/_CoqProject ===== *)
-Q . S2P
Prelude.v
PgFmt.v
Identity.v
Schema.v
Db.v
KeyStore.v
Capture.v
Rotate.v
RotateFacts.v
RotateBatch.v
RotateProofs.v
RotateLife.v
RotateScenarios.v
Utf8.v
Json.v
Float.v
Text.v
Bm25.v
Mmr.v
Embed.v
Keeps.v
Reembed.v
ReembedFacts.v
ReembedProofs.v
ReembedLife.v
ReembedScenarios.v
UnionFind.v
Cluster.v
Civil.v
Temporal.v
Period.v
Slug.v
Entities.v
Relations.v
Output.v
Grounding.v
Vectors.v
Summaries.v
SummaryStore.v
Sources.v
Generate.v
Runner.v
Daily.v
Reads.v
History.v
Batch.v
Facts.v
Signals.v
Search.v
Retrieve.v
Finds.v
SearchFacts.v
RetrieveFacts.v
Passes.v
Gateway.v
GatewayFacts.v
GatewayClaims.v
Retry.v
RateLimit.v
