(* ===== verification/Prelude.v ===== *)
(** * HUPI: a verification development for the memory gateway

    HUPI stands between a chat client and a language model.  It retrieves what
    it remembers of earlier conversations, forwards the question with it,
    stores the exchange encrypted, and consolidates each day of exchanges into
    summaries, key facts, entities and relationships.  Operators rotate keys
    and re-embed rows.  This development translates that code ([src/internal],
    and the driver loops of [src/cmd]) into executable definitions and proves
    what it promises, and where it does not keep a promise, that it does not.

    ** How the program is modelled

    An operation is a function from a [world] to a result and a new world
    ([Db.M]): the world is the database ([Schema.db], one list or map per
    table), what the process keeps in memory (the key cache and a counter of
    what it drew from random sources, models and clocks) and an oracle that
    says which of the coming round trips fail.  A theorem about all worlds is
    thereby a theorem about every pattern of database, network and provider
    faults; an empty oracle is a run without faults.  [dbscope.Run] is
    [Db.Run]: an error anywhere, the commit included, restores the database.
    SQL statements are functions on the tables under row-level security and
    the constraints of [src/schema] that the operation can meet; a statement a
    constraint rejects is [Db.execChecked].  Runs are sequential: where the
    code takes a lock or relies on isolation, that is one round trip, and two
    transactions of one operation are two steps between which a theorem may
    place another operation's.  Integers are [Z] with Go's wrap-around where
    it can be reached; float64 and float32 are [SpecFloat]; strings are bytes,
    decoded to runes where Go does ([Utf8]).  A Go panic is [None] of a pure
    function and an error of an operation.  Code outside the repository is a
    class parameter: AES-GCM and the random reader ([AEAD], [Rand]), the
    Unicode tables, [math.Log], pgvector's distance, embedding and chat
    providers; what is relied on of it is a named hypothesis ([AEADLaws],
    [UnicodeLaws]), and every theorem with a hypothesis has a witness on
    concrete instances.

    ** Files

    - [PgFmt], [Identity], [Schema], [Db], [Keeps]: literals, scopes, tables,
      the monad with its weakest preconditions, and the two judgements ([keeps],
      [respects]) that check an operation against a relation on databases.
    - [KeyStore], [Capture]: field encryption, versioned keys, the episode
      write ([internal/crypto], [internal/store/capture.go]).
    - [Rotate], [RotateFacts], [RotateBatch], [RotateProofs], [RotateLife],
      [RotateScenarios]: online key rotation ([internal/rotate]).
    - [Utf8], [Json], [Float], [Civil]: what is used of Go's library.
    - [Text], [Bm25], [Mmr], [Embed], [Facts], [Signals], [Temporal]: the pure
      parts of retrieval ([internal/store]).
    - [Reembed], [ReembedFacts], [ReembedProofs], [ReembedLife],
      [ReembedScenarios]: re-embedding ([internal/reembed]).
    - [UnionFind], [Cluster], [Period], [Slug], [Entities], [Relations],
      [Output], [Grounding], [Vectors], [Summaries], [SummaryStore],
      [Sources], [Generate], [Runner], [Daily], [Reads], [History], [Batch]:
      consolidation ([internal/consolidation], [cmd/hupi-consolidate]).
    - [Search], [Retrieve], [Finds], [SearchFacts], [RetrieveFacts]: the
      searches and a turn's retrieval ([internal/store/retrieve.go]).
    - [Passes], [Gateway], [GatewayFacts], [GatewayClaims]: a chat turn
      ([internal/gateway]).
    - [Retry]: sending a request to a vendor ([internal/provider/retry.go]).
    - [RateLimit]: the demo's limiter per address ([internal/demo/ratelimit.go]).

    Within a component the definitions carry the names of the code; the file
    header of each says which source file it translates.

    ** Theorems

    - Storage: a captured exchange reads back as it was, a failed capture
      leaves nothing and fails only for the reasons listed; a rotation or a
      re-embedding may be interrupted anywhere without a reader noticing, and
      ends when nothing fails; pruning deletes no key a row needs.
    - Consolidation: storing a summary is atomic; upserts refine a pure merge;
      no run rewrites history; every period has one current version at most,
      and every version its own number and key facts; a fact counts as grounded
      only on a verdict about it; one scope's failure stops no other.
    - Retrieval: what a turn is given is stored, current, in the workspace and
      cited once; rankings, selections and excerpts do what they are for, the
      excerpt's panic included.
    - The turn: what the client was told is what is stored, before it is told
      that the turn is done; and without faults it is answered.
    - Around it: a request that may have been served is not sent twice, and the
      limiter lets no window have more than its limit.
    - Errors: what the code does not protect against, for every database and
      input on which it happens, each also listed as a finding: an episode
      captured during a prune, a deleted key that stays cached, an edge that
      ends others before they start, rollups that ignore corrections, a turn
      whose client leaves.

    ** Bounds and fuel

    Loops of the code that are not structural have fuel that is proved enough:
    the driver loops end within one more call than there are pending rows,
    union-find walks no longer than there are nodes, rollups cascade over four
    levels ([Batch.rollup_cascade_ends]), JSON takes one unit per value, member
    and element, and [centeredExcerpt] finds every occurrence of a term
    ([Text.termPositions_spec]).

    ** Not modelled

    HTTP, the decoding of request bodies, flags and configuration, metrics and
    logs, benchmarks, import and export, accounts, the demo's sessions,
    the vendors' formats, third-party parsers
    of documents, and the texts of the longer error messages.  True
    concurrency between requests is not modelled: theorems interleave whole
    transactions.  Index scans are exact, ties of an unstable sort or an
    unordered query come in table order.  The checks of the schema are
    modelled for episodes, summaries, key facts and relationships; that a
    scope's kind is one of two is checked where an episode is written.  The
    real column of an episode's importance is a double. *)

From Stdlib Require Export ZArith Lia Bool Ascii String List.
From stdpp Require Export base list strings option numbers sorting.
From stdpp Require Import gmap.

#[global] Open Scope Z_scope.
#[global] Open Scope list_scope.

(** Let [cbn] and [simpl] unfold concatenation of byte strings. *)
#[global] Arguments String.append : simpl nomatch.

(** ** Errors and results *)

(** A Go call that returns [(T, error)]: the value, or the error. *)
Inductive result (E T : Type) :=
| Ok (t : T)
| Err (e : E).
Arguments Ok {E T} t.
Arguments Err {E T} e.

#[export] Instance result_eq_dec {E T} `{EqDecision E, EqDecision T} :
  EqDecision (result E T).
Proof. solve_decision. Defined.

(** [if err != nil { return err }]: stdpp's [x ← r; k] notation over [result]. *)
#[export] Instance result_ret {E} : MRet (result E) := fun _ t => Ok t.
#[export] Instance result_bind {E} : MBind (result E) := fun _ _ f r =>
  match r with
  | Ok t => f t
  | Err e => Err e
  end.

Declare Scope hupi_scope.
Delimit Scope hupi_scope with hupi.
#[global] Open Scope hupi_scope.

Definition is_ok {E T} (r : result E T) : bool :=
  match r with Ok _ => true | Err _ => false end.

Lemma rbind_ok {E T U} (r : result E T) (f : T -> result E U) u :
  (r ≫= f) = Ok u <-> exists t, r = Ok t /\ f t = Ok u.
Proof.
  destruct r as [t|e]; split; [intros H; by exists t| | |].
  all: try (by intros (t' & [= ->] & H)). done.
Qed.

Lemma rbind_err {E T U} (r : result E T) (f : T -> result E U) e :
  (r ≫= f) = Err e <-> r = Err e \/ exists t, r = Ok t /\ f t = Err e.
Proof.
  destruct r as [t|e']; split; intros H.
  - right. by exists t.
  - destruct H as [?|(t' & [= ->] & H)]; done.
  - left. cbn in H. congruence.
  - destruct H as [?|(t' & ? & H)]; [cbn; congruence|done].
Qed.

(** ** Tactics of the development *)

(** Case analysis on every boolean test in the goal or the hypotheses, keeping
    the reflected propositions. *)
Ltac case_test :=
  match goal with
  | |- context [if ?b then _ else _] => destruct b eqn:?
  | H : context [if ?b then _ else _] |- _ => destruct b eqn:?
  | |- context [match ?b with Some _ => _ | None => _ end] => destruct b eqn:?
  | H : context [match ?b with Some _ => _ | None => _ end] |- _ => destruct b eqn:?
  end.

Ltac bool_to_prop :=
  repeat match goal with
  | H : (_ && _)%bool = true |- _ => apply andb_true_iff in H; destruct H
  | H : (_ || _)%bool = true |- _ => apply orb_true_iff in H
  | H : (_ && _)%bool = false |- _ => apply andb_false_iff in H
  | H : (_ || _)%bool = false |- _ => apply orb_false_iff in H; destruct H
  | H : negb _ = true |- _ => apply negb_true_iff in H
  | H : negb _ = false |- _ => apply negb_false_iff in H
  | H : (_ <? _)%Z = true |- _ => apply Z.ltb_lt in H
  | H : (_ <? _)%Z = false |- _ => apply Z.ltb_ge in H
  | H : (_ <=? _)%Z = true |- _ => apply Z.leb_le in H
  | H : (_ <=? _)%Z = false |- _ => apply Z.leb_gt in H
  | H : (_ =? _)%Z = true |- _ => apply Z.eqb_eq in H
  | H : (_ =? _)%Z = false |- _ => apply Z.eqb_neq in H
  | H : (_ =? _)%string = true |- _ => apply String.eqb_eq in H
  | H : (_ =? _)%string = false |- _ => apply String.eqb_neq in H
  | H : bool_decide _ = true |- _ => apply bool_decide_eq_true_1 in H
  | H : bool_decide _ = false |- _ => apply bool_decide_eq_false_1 in H
  end.

(** ** Concatenation of byte strings *)

Lemma sapp_nil_r s : s +:+ "" = s.
Proof. induction s as [|a s IH]; cbn; [done|by rewrite IH]. Qed.

Lemma sapp_assoc a b c : (a +:+ b) +:+ c = a +:+ (b +:+ c).
Proof. induction a as [|x a IH]; cbn; [done|by rewrite IH]. Qed.

Lemma sapp_length a b : String.length (a +:+ b) = (String.length a + String.length b)%nat.
Proof. induction a as [|x a IH]; cbn; [done|by rewrite IH]. Qed.

Lemma sapp_inj_l a b c : a +:+ b = a +:+ c -> b = c.
Proof. induction a as [|x a IH]; cbn; [done|]. intros [= H]. by apply IH. Qed.

(** ** Stable sorting: [sort.SliceStable(xs, less)]

    [less] is Go's comparison; an element stays before an equal later one. *)
Section StableSort.
Context {A : Type} (less : A -> A -> bool).

Fixpoint insert_by (x : A) (l : list A) : list A :=
  match l with
  | [] => [x]
  | y :: l' => if less y x then y :: insert_by x l' else x :: l
  end.

Fixpoint sort_by (l : list A) : list A :=
  match l with
  | [] => []
  | x :: l' => insert_by x (sort_by l')
  end.

Lemma insert_by_perm x l : insert_by x l ≡ₚ x :: l.
Proof.
  induction l as [|y l IH]; cbn; [done|].
  destruct (less y x); [|done]. rewrite IH. apply Permutation_swap.
Qed.

Lemma sort_by_perm l : sort_by l ≡ₚ l.
Proof. induction l as [|x l IH]; cbn; [done|]. by rewrite insert_by_perm, IH. Qed.

Lemma sort_by_length l : length (sort_by l) = length l.
Proof. apply Permutation_length, sort_by_perm. Qed.

Lemma elem_of_sort_by x l : x ∈ sort_by l <-> x ∈ l.
Proof. by rewrite sort_by_perm. Qed.

Lemma sort_by_NoDup l : NoDup (sort_by l) <-> NoDup l.
Proof. by rewrite sort_by_perm. Qed.
End StableSort.

(** What Go requires of [less]: a strict weak ordering. *)
Class StrictWeak {A} (less : A -> A -> bool) : Prop := {
  sw_irrefl : forall x, less x x = false;
  sw_trans : forall x y z, less x y = true -> less y z = true -> less x z = true;
  sw_cotrans : forall x y z, less x z = true -> less x y = true \/ less y z = true
}.

Section SortSorted.
Context {A : Type} (less : A -> A -> bool) `{!StrictWeak less}.

(** [nless a b]: [b] may not be placed before [a]. *)
Definition nless (a b : A) : Prop := less b a = false.

Lemma sw_asym x y : less x y = true -> less y x = false.
Proof.
  intros H. destruct (less y x) eqn:E; [|done].
  pose proof (sw_trans _ _ _ H E) as Hxx. by rewrite sw_irrefl in Hxx.
Qed.

#[local] Instance nless_trans : Transitive nless.
Proof.
  intros x y z Hxy Hyz. unfold nless in *.
  destruct (less z x) eqn:E; [|done].
  destruct (sw_cotrans z y x E); congruence.
Qed.

Lemma insert_by_sorted x l :
  StronglySorted nless l -> StronglySorted nless (insert_by less x l).
Proof.
  induction 1 as [|y l Hl IH Hy]; cbn; [repeat constructor|].
  destruct (less y x) eqn:E.
  - constructor; [done|]. rewrite insert_by_perm. constructor; [|done].
    by apply sw_asym.
  - constructor; [by constructor|]. constructor; [done|].
    eapply Forall_impl; [exact Hy|]. intros z Hz. by trans y.
Qed.

Lemma sort_by_sorted l : StronglySorted nless (sort_by less l).
Proof. induction l; cbn; [constructor|by apply insert_by_sorted]. Qed.

(** When distinct elements are never tied the sorted order does not depend on
    the order of the input, so neither stability nor the algorithm matters. *)
Lemma sort_by_canonical l l' :
  (forall x y, x ∈ l -> y ∈ l -> less x y = false -> less y x = false -> x = y) ->
  l ≡ₚ l' -> sort_by less l = sort_by less l'.
Proof.
  intros Htot Hp. apply (StronglySorted_unique_strong nless).
  - intros x y Hx Hy H1 H2. apply Htot; [| |done|done].
    + by apply elem_of_sort_by in Hx.
    + apply elem_of_sort_by in Hy. by rewrite Hp.
  - apply sort_by_sorted.
  - apply sort_by_sorted.
  - by rewrite !sort_by_perm.
Qed.
End SortSorted.

(** ** Go's order on strings: bytes, lexicographically *)

Lemma ascii_compare_spec a b :
  Ascii.compare a b = N.compare (N_of_ascii a) (N_of_ascii b).
Proof. done. Qed.

Lemma str_ltb_cons a s b t :
  String.ltb (String a s) (String b t) = true <->
  (N_of_ascii a < N_of_ascii b)%N \/ (a = b /\ String.ltb s t = true).
Proof.
  unfold String.ltb. cbn. rewrite ascii_compare_spec.
  destruct (N.compare_spec (N_of_ascii a) (N_of_ascii b)) as [E|E|E].
  - assert (a = b) as -> by (rewrite <- (ascii_N_embedding a), <- (ascii_N_embedding b); by f_equal).
    destruct (String.compare s t); split; intros; try done; try (by right); destruct H as [?|[_ ?]]; try done; lia.
  - split; [by left|done].
  - split; [done|]. intros [?|[-> _]]; lia.
Qed.

Lemma str_ltb_nil s : String.ltb s "" = false.
Proof. by destruct s. Qed.

#[export] Instance str_ltb_sw : StrictWeak String.ltb.
Proof.
  split.
  - intros s. apply not_true_is_false. induction s as [|a s IH]; [done|].
    rewrite str_ltb_cons. intros [?|[_ ?]]; [lia|done].
  - induction x as [|a x IH]; intros [|b y] [|c z] Hxy Hyz; try done.
    rewrite str_ltb_cons in *. destruct Hxy as [?|[-> ?]], Hyz as [?|[-> ?]];
      [left; lia|by left|by left|right; split; [done|by eapply IH]].
  - induction x as [|a x IH]; intros [|b y] [|c z] Hxz; try done; try (by left); try (by right).
    rewrite !str_ltb_cons in *. destruct (N.lt_total (N_of_ascii a) (N_of_ascii b)) as [?|[E|?]].
    + left; by left.
    + assert (a = b) as -> by (rewrite <- (ascii_N_embedding a), <- (ascii_N_embedding b); by f_equal).
      destruct Hxz as [?|[-> Hxz]]; [by right; left|]. destruct (IH y z Hxz); [left|right]; by right.
    + destruct Hxz as [?|[-> _]]; right; left; lia.
Qed.

Lemma str_ltb_total s t : String.ltb s t = false -> String.ltb t s = false -> s = t.
Proof.
  revert t. induction s as [|a s IH]; intros [|b t] H1%not_true_iff_false H2%not_true_iff_false; try done.
  rewrite str_ltb_cons in H1, H2.
  assert (N_of_ascii a = N_of_ascii b) as E by lia.
  assert (a = b) as -> by (rewrite <- (ascii_N_embedding a), <- (ascii_N_embedding b); by f_equal).
  f_equal. apply IH; apply not_true_iff_false; intros ?; [apply H1|apply H2]; by right.
Qed.

Lemma NoDup_map_inj {A B} (g : A -> B) l x y :
  NoDup (map g l) -> x ∈ l -> y ∈ l -> g x = g y -> x = y.
Proof.
  intros Hnd Hx Hy E.
  apply list_elem_of_lookup_1 in Hx as [i Hi]. apply list_elem_of_lookup_1 in Hy as [j Hj].
  assert (i = j) as ->.
  { eapply (NoDup_lookup (map g l)); [done|by erewrite list_lookup_fmap, Hi|].
    by erewrite list_lookup_fmap, Hj, E. }
  congruence.
Qed.

Lemma NoDup_map_filter {A B} (g : A -> B) (P : A -> Prop) `{forall x, Decision (P x)} l :
  NoDup (map g l) -> NoDup (map g (filter P l)).
Proof.
  induction l as [|x l IH]; [done|]. intros Hnd. cbn [map] in Hnd.
  apply NoDup_cons in Hnd as [Hn Hnd]. rewrite filter_cons. destruct (decide (P x)); [|by apply IH]. cbn. constructor; [|by apply IH].
  intros (y & E & Hy)%list_elem_of_fmap. apply Hn. rewrite E.
  apply list_elem_of_fmap_2. by apply list_elem_of_filter in Hy as [_ Hy].
Qed.

(** Sorting looks at [less] on the elements of the list only. *)
Lemma insert_by_ext {A} (f g : A -> A -> bool) x l :
  (forall y, y ∈ l -> f y x = g y x) -> insert_by f x l = insert_by g x l.
Proof.
  induction l as [|y l IH]; intros H; cbn; [done|].
  rewrite (H y) by by left. case_match; [|done]. f_equal. apply IH. intros; apply H; by right.
Qed.

Lemma sort_by_ext {A} (f g : A -> A -> bool) l :
  (forall x y, x ∈ l -> y ∈ l -> f x y = g x y) -> sort_by f l = sort_by g l.
Proof.
  induction l as [|x l IH]; intros H; cbn; [done|].
  rewrite IH by (intros; apply H; by right). apply insert_by_ext.
  intros y Hy. apply H; [right|by left]. by apply elem_of_sort_by in Hy.
Qed.
