(* ===== verification/PgFmt.v ===== *)
(** * PgFmt: Postgres literals ([src/internal/pgfmt/pgfmt.go])

    [TextArray] and [ParseTextArray] over Go byte strings, and [Nullable].
    The parser is the source's scan over quote/escape state, one record field
    per local variable of the loop. *)

From S2P Require Import Prelude.
#[local] Open Scope string_scope.
#[local] Open Scope list_scope.
#[local] Open Scope Z_scope.

(** ** The string operations of the Go library the package uses *)

(** [strings.ReplaceAll(s, string(c), r)] for a one-byte [old]. *)
Fixpoint ReplaceAllByte (c : ascii) (r s : string) : string :=
  match s with
  | EmptyString => EmptyString
  | String a s' =>
      if Ascii.eqb a c then r +:+ ReplaceAllByte c r s'
      else String a (ReplaceAllByte c r s')
  end.

(** [strings.Join]. *)
Fixpoint Join (items : list string) (sep : string) : string :=
  match items with
  | [] => ""
  | [s] => s
  | s :: items' => s +:+ sep +:+ Join items' sep
  end.

(** [strings.TrimPrefix(s, string(c))]. *)
Definition TrimPrefixByte (c : ascii) (s : string) : string :=
  match s with
  | String a s' => if Ascii.eqb a c then s' else s
  | EmptyString => s
  end.

(** [strings.TrimSuffix(s, string(c))]. *)
Fixpoint TrimSuffixByte (c : ascii) (s : string) : string :=
  match s with
  | EmptyString => EmptyString
  | String a EmptyString => if Ascii.eqb a c then EmptyString else s
  | String a s' => String a (TrimSuffixByte c s')
  end.

(** ** TextArray *)

Definition backslash : ascii := "092".
Definition dquote : ascii := "034".
Definition comma : ascii := ",".

Definition quoteItem (it : string) : string :=
  let escaped := ReplaceAllByte backslash (String backslash (String backslash "")) it in
  let escaped := ReplaceAllByte dquote (String backslash (String dquote "")) escaped in
  String dquote "" +:+ escaped +:+ String dquote "".

Definition TextArray (items : list string) : string :=
  match items with
  | [] => "{}"
  | _ => "{" +:+ Join (map quoteItem items) "," +:+ "}"
  end.

(** ** ParseTextArray *)

Record scan := Scan {
  out : list string;
  current : string;
  inQuotes : bool;
  escaped : bool
}.

Definition scanByte (st : scan) (c : ascii) : scan :=
  if st.(escaped) then
    Scan st.(out) (st.(current) +:+ String c "") st.(inQuotes) false
  else if Ascii.eqb c backslash then
    Scan st.(out) st.(current) st.(inQuotes) true
  else if Ascii.eqb c dquote then
    Scan st.(out) st.(current) (negb st.(inQuotes)) false
  else if Ascii.eqb c comma && negb st.(inQuotes) then
    Scan (st.(out) ++ [st.(current)])%list "" st.(inQuotes) false
  else
    Scan st.(out) (st.(current) +:+ String c "") st.(inQuotes) false.

Fixpoint scanBytes (st : scan) (s : string) : scan :=
  match s with
  | EmptyString => st
  | String c s' => scanBytes (scanByte st c) s'
  end.

Definition ParseTextArray (literal : string) : list string :=
  let trimmed := TrimSuffixByte "}" (TrimPrefixByte "{" literal) in
  if String.eqb trimmed "" then []
  else
    let st := scanBytes (Scan [] "" false false) trimmed in
    (st.(out) ++ [st.(current)])%list.

(** ** Nullable *)

(** SQL NULL for the empty string. *)
Definition Nullable (s : string) : option string :=
  if String.eqb s "" then None else Some s.

(** ** Lemmas *)

Lemma string_app_assoc (a b c : string) : (a +:+ b) +:+ c = a +:+ (b +:+ c).
Proof. induction a; cbn; [done|by f_equal]. Qed.

Lemma string_app_nil_r (a : string) : a +:+ "" = a.
Proof. induction a; cbn; [done|by f_equal]. Qed.

Lemma scanBytes_app st a b : scanBytes st (a +:+ b) = scanBytes (scanBytes st a) b.
Proof. revert st. induction a; intros; cbn; [done|apply IHa]. Qed.

Lemma TrimSuffixByte_app c s : TrimSuffixByte c (s +:+ String c "") = s.
Proof.
  induction s as [|a s IH]; cbn; [by rewrite Ascii.eqb_refl|].
  rewrite IH. by destruct s.
Qed.

(** Scanning an escaped body inside quotes appends exactly the original text. *)
Lemma scan_escaped out cur it :
  scanBytes (Scan out cur true false)
    (ReplaceAllByte dquote (String backslash (String dquote ""))
       (ReplaceAllByte backslash (String backslash (String backslash "")) it))
  = Scan out (cur +:+ it) true false.
Proof.
  revert cur. induction it as [|a it IH]; intros cur; cbn [ReplaceAllByte scanBytes].
  { by rewrite string_app_nil_r. }
  destruct (Ascii.eqb a backslash) eqn:Hb; [apply Ascii.eqb_eq in Hb as ->|].
  - cbn. rewrite IH. by rewrite string_app_assoc.
  - cbn [ReplaceAllByte]. destruct (Ascii.eqb a dquote) eqn:Hd.
    + apply Ascii.eqb_eq in Hd as ->. cbn. rewrite IH. by rewrite string_app_assoc.
    + cbn [scanBytes]. unfold scanByte. cbn. rewrite Hb, Hd, andb_false_r. cbn.
      rewrite IH. by rewrite string_app_assoc.
Qed.

Lemma scan_quoteItem out it :
  scanBytes (Scan out "" false false) (quoteItem it) = Scan out it false false.
Proof.
  unfold quoteItem. rewrite !scanBytes_app.
  change (scanBytes (Scan out "" false false) (String dquote ""))
    with (Scan out "" true false).
  by rewrite scan_escaped.
Qed.

Lemma scan_join out it items :
  let st := scanBytes (Scan out "" false false) (Join (map quoteItem (it :: items)) ",") in
  (st.(PgFmt.out) ++ [st.(current)] = out ++ it :: items)%list.
Proof.
  revert out it. induction items as [|it' items IH]; intros out it.
  - cbn -[quoteItem]. by rewrite scan_quoteItem.
  - cbn [map Join]. rewrite !scanBytes_app, scan_quoteItem.
    change (scanBytes (Scan out it false false) ",")
      with (Scan (out ++ [it])%list "" false false).
    etrans; [apply (IH (out ++ [it])%list it')|]. by rewrite <- app_assoc.
Qed.

Lemma Join_quoted_nonempty it items :
  String.eqb (Join (map quoteItem (it :: items)) ",") "" = false.
Proof. destruct items; done. Qed.

(** ** Properties *)

(** C38: [ParseTextArray] reverses [TextArray] on every list of byte strings,
    commas, quotes, backslashes, braces and empty items included; the empty
    (or nil) slice comes back as the nil slice. *)
Theorem text_array_round_trip (items : list string) :
  ParseTextArray (TextArray items) = items.
Proof.
  destruct items as [|it items]; [done|].
  unfold ParseTextArray, TextArray.
  cbn [String.append TrimPrefixByte]. rewrite Ascii.eqb_refl.
  rewrite TrimSuffixByte_app, Join_quoted_nonempty. apply scan_join.
Qed.
