(* ===== verification/Identity.v ===== *)
(** * Identity: scopes, callers and references ([src/internal/identity]) *)

From stdpp Require Import countable.
From S2P Require Import Prelude.
#[local] Open Scope string_scope.
#[local] Open Scope list_scope.
#[local] Open Scope Z_scope.

Definition ScopeKindPrivate : string := "private".
Definition ScopeKindShared : string := "shared".

(** Which owner's memory a record or a request belongs to. *)
Record Scope := MkScope { Kind : string; Owner : string }.

#[export] Instance Scope_eq_dec : EqDecision Scope.
Proof. solve_decision. Defined.

#[export] Instance Scope_countable : Countable Scope.
Proof.
  refine (inj_countable' (fun s => (s.(Kind), s.(Owner))) (fun p => MkScope p.1 p.2) _).
  by intros [].
Defined.

Definition DefaultUserID : string := "user:default".
Definition DefaultScope : Scope := MkScope ScopeKindPrivate DefaultUserID.

Definition RefKindSummary : string := "summary".
Definition RefKindEntity : string := "entity".
Definition RefKindEpisode : string := "episode".

(** A scope-qualified reference. *)
Record Ref := MkRef { ref_kind : string; ref_scope : Scope; ref_id : string }.

#[export] Instance Ref_eq_dec : EqDecision Ref.
Proof. solve_decision. Defined.

(** The authenticated caller of a request. *)
Record Identity := MkIdentity { UserID : string; TeamIDs : list string }.

Definition PrivateScope (i : Identity) : Scope := MkScope ScopeKindPrivate i.(UserID).

Fixpoint hasTeam (teams : list string) (teamID : string) : bool :=
  match teams with
  | [] => false
  | t :: teams' => if String.eqb t teamID then true else hasTeam teams' teamID
  end.

Definition HasTeam (i : Identity) (teamID : string) : bool := hasTeam i.(TeamIDs) teamID.

Lemma HasTeam_spec i teamID : HasTeam i teamID = true <-> teamID ∈ i.(TeamIDs).
Proof.
  unfold HasTeam. induction (TeamIDs i) as [|t ts IH]; cbn.
  { split; [done|by intros ?%elem_of_nil]. }
  rewrite elem_of_cons. destruct (String.eqb_spec t teamID) as [->|Hne]; [by split; [left|]|].
  rewrite IH. split; [by right|]. by intros [->|?].
Qed.
