(* ===== verification/Schema.v ===== *)
(** * Schema: the rows the Go code reads and writes

    One record per table the modelled statements touch, with the columns they
    use ([src/schema/*.sql] names them; the mapped Go code is the SQL text in
    the operations).  Encrypted columns are [option string]: [None] is SQL
    NULL, which the driver hands to Go as a nil [[]byte].  Primary keys are
    stated by [db_ok], not built into the container, because the update
    statements are translated as the row-wise maps they are. *)

From Stdlib Require Import SpecFloat.
From stdpp Require Import gmap.
From S2P Require Import Prelude Identity.
#[local] Open Scope string_scope.
#[local] Open Scope list_scope.
#[local] Open Scope Z_scope.

Record EpisodeRow := MkEpisodeRow {
  e_id : string;
  e_scope : Scope;
  e_ts : Z;
  e_type : string;
  e_vendor : option string;
  e_model : option string;
  e_input : option string;
  e_output : option string;
  e_note : option string;
  e_key_version : Z;
  e_importance : spec_float;
  e_hash : string;
  e_truncated : bool;
  e_gate : option string;
  e_refers_to : option string;
  e_rating : option string;
  e_refs : list Ref;
  e_embedding : option string;
  e_embedding_model : option string
}.

(** The columns of a summary that are neither encrypted nor a vector. *)
Record SummaryInfo := MkSummaryInfo {
  i_period : string;
  i_level : string;
  i_vendor : string;
  i_model : string;
  i_source_episode_ids : list string;
  i_source_summary_periods : list string;
  i_entities_touched : list string;
  i_correction_reason : option string;
  i_created_at : Z
}.

Record SummaryRow := MkSummaryRow {
  s_id : string;
  s_scope : Scope;
  s_text : option string;
  s_key_version : Z;
  s_supersedes : option string;
  s_embedding : option string;
  s_embedding_model : option string;
  s_info : SummaryInfo
}.

Record KeyFactRow := MkKeyFactRow {
  f_id : Z;
  f_summary_id : string;
  f_scope : Scope;
  f_fact : option string;
  f_key_version : Z;
  f_grounded : bool;
  f_embedding : option string;
  f_embedding_model : option string;
  f_source_episode_ids : list string
}.

(** The days an entity was first and last touched, as day numbers. *)
Record EntityDates := MkEntityDates { first_seen : Z; last_updated : Z }.

Record EntityRow := MkEntityRow {
  n_id : string;
  n_scope : Scope;
  n_kind : string;
  n_name : string;
  n_attributes : option string;
  n_key_version : Z;
  n_embedding : option string;
  n_embedding_model : option string;
  n_dates : EntityDates
}.

(** [entity_relationships]; dates are day numbers, and [None] is an unknown
    start or an edge still current. *)
Record RelRow := MkRelRow {
  rel_id : string;
  rel_scope : Scope;
  rel_subject : string;
  rel_predicate : string;
  rel_object : string;
  rel_from : option Z;
  rel_until : option Z;
  rel_source : option string
}.

#[export] Instance RelRow_eq_dec : EqDecision RelRow.
Proof. solve_decision. Defined.

(** [key_rotations]: live progress, one row per scope. *)
Inductive RotStatus := StatusInProgress | StatusCompleted | StatusFailed.

#[export] Instance RotStatus_eq_dec : EqDecision RotStatus.
Proof. solve_decision. Defined.

Record RotationRow := MkRotationRow {
  r_from : Z;
  r_to : Z;
  r_status : RotStatus;
  r_cursor_table : string;
  r_cursor_id : string
}.

(** [audit_log]; the JSON detail as its key/value pairs. *)
Inductive jval := JInt (z : Z) | JString (s : string).

Record AuditEntry := MkAudit {
  EventType : string;
  Actor : string;
  ActingScope : Scope;
  WorkspaceScope : Scope;
  TargetRef : option Ref;
  Detail : list (string * jval)
}.

(** [scope_corpus_size]: what a scope held when last counted. *)
Record CorpusSize := MkCorpusSize { episode_count : Z; summary_count : Z }.

Record db := MkDb {
  episodes : list EpisodeRow;
  summaries : list SummaryRow;
  key_facts : list KeyFactRow;
  entities : list EntityRow;
  relationships : list RelRow;
  scope_keys : gmap (Scope * Z) string;
  key_rotations : gmap Scope RotationRow;
  audit_log : list AuditEntry;
  corpus_sizes : gmap Scope CorpusSize
}.

Definition set_episodes (f : list EpisodeRow -> list EpisodeRow) (d : db) : db :=
  MkDb (f d.(episodes)) d.(summaries) d.(key_facts) d.(entities) d.(relationships)
    d.(scope_keys) d.(key_rotations) d.(audit_log) d.(corpus_sizes).
Definition set_summaries (f : list SummaryRow -> list SummaryRow) (d : db) : db :=
  MkDb d.(episodes) (f d.(summaries)) d.(key_facts) d.(entities) d.(relationships)
    d.(scope_keys) d.(key_rotations) d.(audit_log) d.(corpus_sizes).
Definition set_key_facts (f : list KeyFactRow -> list KeyFactRow) (d : db) : db :=
  MkDb d.(episodes) d.(summaries) (f d.(key_facts)) d.(entities) d.(relationships)
    d.(scope_keys) d.(key_rotations) d.(audit_log) d.(corpus_sizes).
Definition set_entities (f : list EntityRow -> list EntityRow) (d : db) : db :=
  MkDb d.(episodes) d.(summaries) d.(key_facts) (f d.(entities)) d.(relationships)
    d.(scope_keys) d.(key_rotations) d.(audit_log) d.(corpus_sizes).
Definition set_relationships (f : list RelRow -> list RelRow) (d : db) : db :=
  MkDb d.(episodes) d.(summaries) d.(key_facts) d.(entities) (f d.(relationships))
    d.(scope_keys) d.(key_rotations) d.(audit_log) d.(corpus_sizes).
Definition set_scope_keys (f : gmap (Scope * Z) string -> gmap (Scope * Z) string)
    (d : db) : db :=
  MkDb d.(episodes) d.(summaries) d.(key_facts) d.(entities) d.(relationships)
    (f d.(scope_keys)) d.(key_rotations) d.(audit_log) d.(corpus_sizes).
Definition set_key_rotations (f : gmap Scope RotationRow -> gmap Scope RotationRow)
    (d : db) : db :=
  MkDb d.(episodes) d.(summaries) d.(key_facts) d.(entities) d.(relationships)
    d.(scope_keys) (f d.(key_rotations)) d.(audit_log) d.(corpus_sizes).
Definition set_audit_log (f : list AuditEntry -> list AuditEntry) (d : db) : db :=
  MkDb d.(episodes) d.(summaries) d.(key_facts) d.(entities) d.(relationships)
    d.(scope_keys) d.(key_rotations) (f d.(audit_log)) d.(corpus_sizes).
Definition set_corpus_sizes (f : gmap Scope CorpusSize -> gmap Scope CorpusSize) (d : db) : db :=
  MkDb d.(episodes) d.(summaries) d.(key_facts) d.(entities) d.(relationships)
    d.(scope_keys) d.(key_rotations) d.(audit_log) (f d.(corpus_sizes)).

(** Primary keys, and the foreign key with its scope copy from [0018]. *)
Record db_ok (d : db) : Prop := {
  ok_episodes : NoDup (map e_id d.(episodes));
  ok_summaries : NoDup (map s_id d.(summaries));
  ok_key_facts : NoDup (map f_id d.(key_facts));
  ok_entities : NoDup (map (fun n => (n.(n_scope), n.(n_id))) d.(entities));
  ok_fact_parent : forall f, f ∈ d.(key_facts) ->
    exists s, s ∈ d.(summaries) /\ s.(s_id) = f.(f_summary_id) /\ s.(s_scope) = f.(f_scope)
}.
