(* ===== verification/Db.v ===== *)
(** * Db: effects, transactions and sessions ([src/internal/dbscope])

    An operation of the Go program is a function from the world (the database,
    this process's memory, and an oracle that decides which database round
    trips fail) to a result and a new world.  [Run] is [dbscope.Run]: the body
    sees the two session scopes row-level security filters by, and an error
    anywhere, the commit included, restores the database it started from while
    what the process keeps in memory stays.  An exhausted oracle means no
    further fault. *)

From stdpp Require Import gmap.
From S2P Require Import Prelude Identity Schema.
#[local] Open Scope string_scope.
#[local] Open Scope list_scope.
#[local] Open Scope Z_scope.

(** ** Errors: sentinels, messages and [%w] wrapping *)

Inductive error :=
| ErrDB
| ErrNoRows
| ErrRand
| ErrCipher
| ErrRLS
| ErrKeyVersionNotFound
| ErrFeedbackEpisodeNotFound
| ErrMsg (m : string)
| Wrap (m : string) (e : error).

#[export] Instance error_eq_dec : EqDecision error.
Proof. solve_decision. Defined.

(** [errors.Is]: the chain of wrapped errors contains the sentinel. *)
Fixpoint errors_Is (e target : error) : bool :=
  if decide (e = target) then true
  else match e with
       | Wrap _ e' => errors_Is e' target
       | _ => false
       end.

(** ** The world and the monad *)

Record process := MkProcess {
  cache : gmap (Scope * Z) string;
  draws : nat
}.

Record world := MkWorld {
  w_db : db;
  w_proc : process;
  w_faults : list bool
}.

Definition set_db (f : db -> db) (w : world) : world :=
  MkWorld (f w.(w_db)) w.(w_proc) w.(w_faults).
Definition set_proc (f : process -> process) (w : world) : world :=
  MkWorld w.(w_db) (f w.(w_proc)) w.(w_faults).

Definition M (A : Type) : Type := world -> result error A * world.

#[export] Instance M_ret : MRet M := fun _ a w => (Ok a, w).
#[export] Instance M_bind : MBind M := fun _ _ f m w =>
  match m w with
  | (Ok a, w') => f a w'
  | (Err e, w') => (Err e, w')
  end.

Definition throw {A} (e : error) : M A := fun w => (Err e, w).

(** [fmt.Errorf("...: %w", err)] on the error path. *)
Definition wrapErr {A} (msg : string) (m : M A) : M A := fun w =>
  match m w with
  | (Err e, w') => (Err (Wrap msg e), w')
  | r => r
  end.

(** The result with its error made a value, for code that inspects [err]. *)
Definition catch {A} (m : M A) : M (result error A) := fun w =>
  let (r, w') := m w in (Ok r, w').

Definition lift {A} (r : result error A) : M A := fun w => (r, w).

(** One round trip to the server: the oracle decides whether it fails. *)
Definition roundTrip : M () := fun w =>
  match w.(w_faults) with
  | true :: fs => (Err ErrDB, MkWorld w.(w_db) w.(w_proc) fs)
  | false :: fs => (Ok tt, MkWorld w.(w_db) w.(w_proc) fs)
  | [] => (Ok tt, w)
  end.

Definition getDb {A} (f : db -> A) : M A := fun w => (Ok (f w.(w_db)), w).
Definition modDb (f : db -> db) : M () := fun w => (Ok tt, set_db f w).
Definition getProc {A} (f : process -> A) : M A := fun w => (Ok (f w.(w_proc)), w).
Definition modProc (f : process -> process) : M () := fun w => (Ok tt, set_proc f w).

Definition query {A} (f : db -> A) : M A := roundTrip ;; getDb f.

(** [QueryRow(...).Scan(...)]: no row is [sql.ErrNoRows]. *)
Definition queryRow {A} (f : db -> option A) : M A :=
  o ← query f;
  match o with
  | Some a => mret a
  | None => throw ErrNoRows
  end.

Definition exec (f : db -> db) : M () := roundTrip ;; modDb f.

(** A statement the server may reject: [None]. *)
Definition execChecked (f : db -> option db) : M () :=
  roundTrip ;;
  o ← getDb f;
  match o with
  | Some d => modDb (fun _ => d)
  | None => throw (ErrMsg "constraint violation")
  end.

Fixpoint forM {A} (l : list A) (f : A -> M ()) : M () :=
  match l with
  | [] => mret tt
  | a :: l' => f a ;; forM l' f
  end.

(** ** Sessions and row-level security *)

Record session := MkSession { acting : Scope; workspace : Scope }.

(** The [using] clause of every [scope_isolation] policy. *)
Definition visible (se : session) (s : Scope) : bool :=
  bool_decide (s = se.(acting)) || bool_decide (s = se.(workspace)).

(** The [with check] clause. *)
Definition writable (se : session) (s : Scope) : bool :=
  bool_decide (s = se.(workspace)).


(** A session of one scope sees that scope. *)
Lemma visible_same s x : visible (MkSession s s) x = true <-> x = s.
Proof.
  unfold visible. cbn. destruct (decide (x = s)) as [->|Hx].
  - by rewrite bool_decide_eq_true_2.
  - by rewrite bool_decide_eq_false_2.
Qed.

(** [SetSession]: the four [set_config] calls are one round trip. *)
Definition SetSession (actingUser ws : Scope) : M session :=
  roundTrip ;; mret (MkSession actingUser ws).

(** [defer tx.Rollback()]: what an unfinished transaction wrote is gone. *)
Definition rollbackOnErr {A} (m : M A) : M A := fun w =>
  match m w with
  | (Ok a, w2) => (Ok a, w2)
  | (Err e, w2) => (Err e, MkWorld w.(w_db) w2.(w_proc) w2.(w_faults))
  end.

Definition Run {A} (actingUser ws : Scope) (fn : session -> M A) : M A :=
  wrapErr "dbscope: begin transaction" roundTrip ;;
  rollbackOnErr (
    se ← wrapErr "dbscope: set session scope" (SetSession actingUser ws);
    a ← fn se;
    wrapErr "dbscope: commit" roundTrip ;;
    mret a).

(** ** Audit rows ([src/internal/audit/audit.go]) *)

(** [audit.Write]: the insert's own policy requires the entry's scopes to be
    the session's. *)
Definition Write (se : session) (e : AuditEntry) : M () :=
  wrapErr "audit: insert" (
    if bool_decide (e.(ActingScope) = se.(acting)) &&
       bool_decide (e.(WorkspaceScope) = se.(workspace))
    then exec (set_audit_log (fun l => l ++ [e])%list)
    else roundTrip ;; throw ErrRLS).

Definition LogStandalone (e : AuditEntry) : M () :=
  Run e.(ActingScope) e.(WorkspaceScope) (fun se => Write se e).

(** ** Reasoning about operations *)

(** What holds of the result and the world an operation ends in. *)
Definition wp {A} (m : M A) (Q : result error A -> world -> Prop) (w : world) : Prop :=
  let (r, w') := m w in Q r w'.

Lemma wp_run {A} (m : M A) Q w r w' : m w = (r, w') -> wp m Q w -> Q r w'.
Proof. unfold wp. by intros ->. Qed.

Lemma wp_intro {A} (m : M A) (Q : result error A -> world -> Prop) w :
  (forall r w', m w = (r, w') -> Q r w') -> wp m Q w.
Proof. unfold wp. destruct (m w) as [r w'] eqn:E. intros H. by apply H. Qed.

(** What holds of every outcome holds of the outcome. *)
Lemma wp_apply {A} (m : M A) (P : result error A * world -> Prop) w :
  wp m (fun r w' => P (r, w')) w -> P (m w).
Proof. unfold wp. by destruct (m w). Qed.

Lemma wp_mono {A} (m : M A) (Q Q' : result error A -> world -> Prop) w :
  wp m Q w -> (forall r w', Q r w' -> Q' r w') -> wp m Q' w.
Proof. unfold wp. destruct (m w). auto. Qed.

Lemma wp_ret {A} (a : A) Q w : Q (Ok a) w -> wp (mret a) Q w.
Proof. done. Qed.

Lemma wp_throw {A} e (Q : result error A -> world -> Prop) w :
  Q (Err e) w -> wp (throw e) Q w.
Proof. done. Qed.

Lemma wp_lift {A} (r : result error A) Q w : Q r w -> wp (lift r) Q w.
Proof. done. Qed.

Lemma wp_bind {A B} (m : M A) (f : A -> M B) Q w :
  wp m (fun r w' => match r with Ok a => wp (f a) Q w' | Err e => Q (Err e) w' end) w ->
  wp (m ≫= f) Q w.
Proof.
  unfold wp, mbind, M_bind. destruct (m w) as [[a|e] w'] eqn:E; [|done].
  by destruct (f a w').
Qed.

Lemma wp_wrap {A} msg (m : M A) Q w :
  wp m (fun r w' => match r with Ok a => Q (Ok a) w' | Err e => Q (Err (Wrap msg e)) w' end) w ->
  wp (wrapErr msg m) Q w.
Proof. unfold wp, wrapErr. by destruct (m w) as [[a|e] w']. Qed.

Lemma wp_catch {A} (m : M A) Q w :
  wp m (fun r w' => Q (Ok r) w') w -> wp (catch m) Q w.
Proof. unfold wp, catch. by destruct (m w). Qed.

Lemma wp_rollback {A} (m : M A) Q w :
  wp m (fun r w' => match r with
                    | Ok a => Q (Ok a) w'
                    | Err e => Q (Err e) (MkWorld w.(w_db) w'.(w_proc) w'.(w_faults))
                    end) w ->
  wp (rollbackOnErr m) Q w.
Proof. unfold wp, rollbackOnErr. by destruct (m w) as [[a|e] w']. Qed.

Lemma wp_getProc {A} (f : process -> A) Q w :
  Q (Ok (f w.(w_proc))) w -> wp (getProc f) Q w.
Proof. done. Qed.

Lemma wp_modProc f Q w : Q (Ok tt) (set_proc f w) -> wp (modProc f) Q w.
Proof. done. Qed.

(** A round trip consumes one answer of the oracle, and can only fail if there
    is one. *)
Lemma wp_trip Q d p fs :
  Q (Ok tt) (MkWorld d p (tail fs)) ->
  (fs <> [] -> Q (Err ErrDB) (MkWorld d p (tail fs))) ->
  wp roundTrip Q (MkWorld d p fs).
Proof. intros H1 H2. destruct fs as [|[] fs]; cbn in *; auto. Qed.

Lemma wp_query {A} (f : db -> A) Q d p fs :
  Q (Ok (f d)) (MkWorld d p (tail fs)) ->
  (fs <> [] -> Q (Err ErrDB) (MkWorld d p (tail fs))) ->
  wp (query f) Q (MkWorld d p fs).
Proof. intros H1 H2. unfold query. apply wp_bind, wp_trip; auto. Qed.

Lemma wp_exec (f : db -> db) Q d p fs :
  Q (Ok tt) (MkWorld (f d) p (tail fs)) ->
  (fs <> [] -> Q (Err ErrDB) (MkWorld d p (tail fs))) ->
  wp (exec f) Q (MkWorld d p fs).
Proof. intros H1 H2. unfold exec. apply wp_bind, wp_trip; auto. Qed.

Lemma wp_execChecked (f : db -> option db) Q d p fs :
  (forall d', f d = Some d' -> Q (Ok tt) (MkWorld d' p (tail fs))) ->
  (f d = None -> Q (Err (ErrMsg "constraint violation")) (MkWorld d p (tail fs))) ->
  (fs <> [] -> Q (Err ErrDB) (MkWorld d p (tail fs))) ->
  wp (execChecked f) Q (MkWorld d p fs).
Proof.
  intros H1 H2 H3. unfold execChecked. apply wp_bind, wp_trip; [|by auto].
  apply wp_bind. unfold wp at 1. cbn. destruct (f d) eqn:E; [by apply H1|by apply H2].
Qed.

(** [fs'] is what is left of an oracle that started as [fs]. *)
Definition quiet (fs fs' : list bool) : Prop := fs = [] -> fs' = [].

Lemma quiet_refl fs : quiet fs fs.
Proof. by unfold quiet. Qed.
Lemma quiet_tail fs fs' : quiet fs fs' -> quiet fs (tail fs').
Proof. unfold quiet. intros H E. by rewrite (H E). Qed.
Lemma quiet_trans fs1 fs2 fs3 : quiet fs1 fs2 -> quiet fs2 fs3 -> quiet fs1 fs3.
Proof. unfold quiet. auto. Qed.
Lemma quiet_not_nil fs fs' : quiet fs fs' -> fs' <> [] -> fs <> [].
Proof. unfold quiet. intros H H' ->. by apply H', H. Qed.

(** Closes the goals about what is left of the oracle. *)
Ltac oracle_step :=
  match goal with
  | H : [] = [] -> _ |- _ => specialize (H eq_refl)
  | H : ?x = [] -> _, H' : ?x = [] |- _ => specialize (H H')
  | H : tail [] = [] -> _ |- _ => specialize (H eq_refl)
  | H : ?x = [] |- _ => is_var x; subst x
  end.
Ltac oracle :=
  solve [ unfold quiet, not in *; intros; subst; cbn in *; repeat (oracle_step; cbn in *); subst;
          cbn in *; first [ congruence | done
            | match goal with fs : list bool |- _ => destruct fs; cbn in *; congruence end ] ].

(** A transaction: an error inside it, or in opening or committing it, leaves
    the database it started from. *)
Lemma wp_Run {A} act ws (fn : session -> M A) Q d p fs :
  (forall msg fs', fs <> [] -> quiet fs fs' -> Q (Err (Wrap msg ErrDB)) (MkWorld d p fs')) ->
  (forall fs', quiet fs fs' ->
     wp (fn (MkSession act ws))
       (fun r w' =>
          quiet fs' w'.(w_faults) /\
          forall fs'', quiet w'.(w_faults) fs'' ->
          match r with
          | Ok a =>
              Q (Ok a) (MkWorld w'.(w_db) w'.(w_proc) fs'') /\
              (fs <> [] -> forall msg, Q (Err (Wrap msg ErrDB)) (MkWorld d w'.(w_proc) fs''))
          | Err e => Q (Err e) (MkWorld d w'.(w_proc) fs'')
          end)
       (MkWorld d p fs')) ->
  wp (Run act ws fn) Q (MkWorld d p fs).
Proof.
  intros Herr Hfn. unfold Run. apply wp_bind, wp_wrap, wp_trip.
  2: { intros Hfs. apply Herr; oracle. }
  apply wp_rollback, wp_bind, wp_wrap. unfold SetSession. apply wp_bind, wp_trip.
  2: { intros Hfs. apply Herr; [destruct fs; oracle|oracle]. }
  apply wp_ret, wp_bind. eapply wp_mono; [apply Hfn; oracle|].
  intros [a|e] [d' p' gs] [Hq HQ]; cbn in Hq, HQ.
  - apply wp_bind, wp_wrap, wp_trip.
    + apply wp_ret. apply HQ. oracle.
    + intros Hgs. apply HQ; oracle.
  - apply HQ. oracle.
Qed.

(** A loop: an invariant of the elements still to come, kept by every step. *)
Lemma wp_forM {A} (l : list A) (f : A -> M ()) (I : list A -> world -> Prop) E Q w :
  I l w ->
  (forall a l' w1, I (a :: l') w1 ->
     wp (f a) (fun r w2 => match r with Ok _ => I l' w2 | Err e => E e w2 end) w1) ->
  (forall w', I [] w' -> Q (Ok tt) w') ->
  (forall e w', E e w' -> Q (Err e) w') ->
  wp (forM l f) Q w.
Proof.
  intros HI Hstep Hend Herr. revert w HI. induction l as [|a l IH]; intros w HI; cbn.
  { by apply Hend. }
  apply wp_bind. eapply wp_mono; [by apply Hstep|].
  intros [[]|e] w'; [apply IH|apply Herr].
Qed.
