(* ===== verification/KeyStore.v ===== *)
(** * KeyStore: field encryption and versioned keys ([src/internal/crypto])

    AES-256-GCM and the system's random source are Go library code: [AEAD] is
    sealing and opening under a key and a nonce, [Rand] is the byte strings the
    random reader returns, and [AEADLaws] is what the package relies on.  An
    [Encryptor] is its key.  [KeyStore] operations read [scope_keys] and keep
    unwrapped keys in the process's cache. *)

From stdpp Require Import gmap.
From S2P Require Import Prelude Identity Schema Db.
#[local] Open Scope string_scope.
#[local] Open Scope list_scope.
#[local] Open Scope Z_scope.

Class AEAD := {
  Seal : string -> string -> string -> string;
  Open : string -> string -> string -> option string
}.

(** The [i]-th read of [n] bytes, or the reader's failure. *)
Class Rand := { rand_read : nat -> nat -> option string }.

Definition NonceSize : nat := 12.

Class AEADLaws `{AEAD, Rand} : Prop := {
  Open_Seal : forall k nonce pt, Open k nonce (Seal k nonce pt) = Some pt;
  rand_length : forall i n s, rand_read i n = Some s -> String.length s = n
}.

(** ** field.go *)

(** An [Encryptor] is its 32-byte key. *)
Abbreviation Encryptor := string (only parsing).

Definition NewEncryptor (key : string) : result error Encryptor :=
  if (String.length key =? 32)%nat then Ok key
  else Err (ErrMsg "crypto: key must be 32 bytes for AES-256").

(** [io.ReadFull(rand.Reader, make([]byte, n))] *)
Definition readRand `{Rand} (n : nat) : M string :=
  i ← getProc draws;
  modProc (fun p => MkProcess p.(cache) (S p.(draws))) ;;
  match rand_read i n with
  | Some s => mret s
  | None => throw ErrRand
  end.

Definition Encrypt `{AEAD, Rand} (e : Encryptor) (plaintext : string) : M string :=
  nonce ← wrapErr "crypto: generate nonce" (readRand NonceSize);
  mret (nonce +:+ Seal e nonce plaintext).

(** A byte slice: nil, or bytes. *)
Definition blobBytes (blob : option string) : string := default "" blob.

Definition Decrypt `{AEAD} (e : Encryptor) (blob : option string) : result error string :=
  let b := blobBytes blob in
  if (String.length b =? 0)%nat then Ok ""
  else if (String.length b <? NonceSize)%nat
       then Err (ErrMsg "crypto: ciphertext shorter than nonce, corrupt or wrong key")
  else
    let nonce := String.substring 0 NonceSize b in
    let ciphertext := String.substring NonceSize (String.length b - NonceSize) b in
    match Open e nonce ciphertext with
    | Some plaintext => Ok plaintext
    | None => Err (Wrap "crypto: decrypt" ErrCipher)
    end.

Definition GenerateDEK `{Rand} : M string :=
  wrapErr "crypto: generate DEK" (readRand 32).

Definition WrapDEK `{AEAD, Rand} (kek dek : string) : M string :=
  enc ← wrapErr "crypto: wrap DEK" (lift (NewEncryptor kek));
  Encrypt enc dek.

Definition wrapRes {A} (msg : string) (r : result error A) : result error A :=
  match r with
  | Ok a => Ok a
  | Err e => Err (Wrap msg e)
  end.

Definition UnwrapDEK `{AEAD} (kek wrapped : string) : result error string :=
  enc ← wrapRes "crypto: unwrap DEK" (NewEncryptor kek);
  wrapRes "crypto: unwrap DEK" (Decrypt enc (Some wrapped)).

(** ** keystore.go *)

Section KeyStore.
Context `{HA : AEAD, HR : Rand}.
Variable kek : string.

Definition cached (key : Scope * Z) : M (option Encryptor) :=
  getProc (fun p => p.(cache) !! key).

Definition store (key : Scope * Z) (enc : Encryptor) : M () :=
  modProc (fun p => MkProcess (<[key := enc]> p.(cache)) p.(draws)).

Definition Evict (scope : Scope) (version : Z) : M () :=
  modProc (fun p => MkProcess (delete (scope, version) p.(cache)) p.(draws)).

Definition unwrap (wrapped : string) : result error Encryptor :=
  dek ← wrapRes "crypto: unwrap DEK (wrong KEK?)" (UnwrapDEK kek wrapped);
  NewEncryptor dek.

Definition GetVersion (scope : Scope) (version : Z) : M Encryptor :=
  hit ← cached (scope, version);
  match hit with
  | Some enc => mret enc
  | None =>
      row ← query (fun d => d.(scope_keys) !! (scope, version));
      match row with
      | None => throw (Wrap "version not found" ErrKeyVersionNotFound)
      | Some wrapped =>
          enc ← lift (unwrap wrapped);
          store (scope, version) enc ;;
          mret enc
      end
  end.

(** [select version from scope_keys where scope_kind = .. and scope_owner = ..] *)
Definition versionsOf (scope : Scope) (d : db) : list Z :=
  map (fun kv => kv.1.2)
    (filter (fun kv : (Scope * Z) * string => kv.1.1 = scope) (map_to_list d.(scope_keys))).

(** [coalesce(max(version), 0)] *)
Definition maxVersion (vs : list Z) : Z :=
  match vs with
  | [] => 0
  | v :: vs' => foldr Z.max v vs'
  end.

Definition currentVersionOf (scope : Scope) (d : db) : Z := maxVersion (versionsOf scope d).

Definition CurrentVersion (scope : Scope) : M Z :=
  wrapErr "crypto: determine current key version" (query (currentVersionOf scope)).

(** [insert ... on conflict (scope_kind, scope_owner, version) do nothing] *)
Definition insertScopeKey (key : Scope * Z) (wrapped : string) (d : db) : db :=
  match d.(scope_keys) !! key with
  | Some _ => d
  | None => set_scope_keys (fun m => <[key := wrapped]> m) d
  end.

Definition createVersion (scope : Scope) (version : Z) : M Z :=
  dek ← GenerateDEK;
  wrapped ← wrapErr "crypto: wrap DEK" (WrapDEK kek dek);
  wrapErr "crypto: persist DEK" (exec (insertScopeKey (scope, version) wrapped)) ;;
  wrapErr "crypto: reload DEK" (GetVersion scope version) ;;
  mret version.

Definition GetOrCreate (scope : Scope) : M (Encryptor * Z) :=
  v ← CurrentVersion scope;
  version ← (if decide (v = 0) then createVersion scope 1 else mret v);
  enc ← GetVersion scope version;
  mret (enc, version).

Definition CreateNextVersion (scope : Scope) : M Z :=
  current ← CurrentVersion scope;
  if decide (current = 0) then throw (ErrMsg "crypto: no existing key to rotate")
  else createVersion scope (current + 1).
End KeyStore.

(** ** Lemmas *)

(** *** Byte strings *)

Lemma substring_prefix_app (a b : string) :
  String.substring 0 (String.length a) (a +:+ b) = a.
Proof. induction a as [|x a IH]; cbn; [by destruct b|by rewrite IH]. Qed.

Lemma substring_all (b : string) : String.substring 0 (String.length b) b = b.
Proof. induction b as [|x b IH]; cbn; [done|by rewrite IH]. Qed.

Lemma substring_suffix_app (a b : string) n :
  n = String.length b -> String.substring (String.length a) n (a +:+ b) = b.
Proof. intros ->. induction a as [|x a IH]; cbn; [apply substring_all|done]. Qed.

Lemma length_append (a b : string) :
  String.length (a +:+ b) = (String.length a + String.length b)%nat.
Proof. induction a; cbn; auto. Qed.

(** *** Field encryption *)

Section FieldLemmas.
Context `{HA : AEAD, HR : Rand, HL : !AEADLaws}.

(** Random bytes are never refused. *)
Definition rand_ok : Prop := forall i n, is_Some (rand_read i n).

Lemma wp_readRand n Q d c i fs :
  (forall s, String.length s = n -> Q (Ok s) (MkWorld d (MkProcess c (S i)) fs)) ->
  (~ rand_ok -> Q (Err ErrRand) (MkWorld d (MkProcess c (S i)) fs)) ->
  wp (readRand n) Q (MkWorld d (MkProcess c i) fs).
Proof.
  intros H1 H2. unfold readRand. apply wp_bind, wp_getProc, wp_bind, wp_modProc. cbn.
  destruct (rand_read i n) eqn:E.
  - apply wp_ret, H1. by eapply rand_length.
  - apply wp_throw, H2. intros Hr. destruct (Hr i n). congruence.
Qed.

Lemma Decrypt_Seal e nonce pt :
  String.length nonce = NonceSize ->
  Decrypt e (Some (nonce +:+ Seal e nonce pt)) = Ok pt.
Proof.
  intros Hn. unfold Decrypt.
  change (blobBytes (Some (nonce +:+ Seal e nonce pt)))
    with (nonce +:+ Seal e nonce pt). cbv zeta.
  rewrite length_append, Hn.
  rewrite (proj2 (Nat.eqb_neq _ _)) by (unfold NonceSize; lia).
  rewrite (proj2 (Nat.ltb_ge _ _)) by lia.
  rewrite <- Hn at 1. rewrite substring_prefix_app.
  rewrite <- Hn at 1. rewrite substring_suffix_app by lia.
  by rewrite Open_Seal.
Qed.

Lemma wp_Encrypt e pt Q d c i fs :
  (forall ct, Decrypt e (Some ct) = Ok pt ->
     Q (Ok ct) (MkWorld d (MkProcess c (S i)) fs)) ->
  (forall err, ~ rand_ok -> Q (Err err) (MkWorld d (MkProcess c (S i)) fs)) ->
  wp (Encrypt e pt) Q (MkWorld d (MkProcess c i) fs).
Proof.
  intros H1 H2. unfold Encrypt. apply wp_bind, wp_wrap, wp_readRand; [|by auto].
  intros s Hs. apply wp_ret, H1. by apply Decrypt_Seal.
Qed.
End FieldLemmas.

(** *** Versions *)

Lemma versionsOf_spec scope v d :
  v ∈ versionsOf scope d <-> is_Some (d.(scope_keys) !! (scope, v)).
Proof.
  unfold versionsOf. rewrite list_elem_of_fmap. split.
  - intros ([[s v'] wr] & -> & [Hs Hin]%list_elem_of_filter). cbn in *. subst.
    apply elem_of_map_to_list in Hin. by eexists.
  - intros [wr Hwr]. exists ((scope, v), wr). split; [done|].
    apply list_elem_of_filter. split; [done|]. by apply elem_of_map_to_list.
Qed.

Lemma foldr_max_spec v vs :
  foldr Z.max v vs ∈ v :: vs /\ forall u, u ∈ v :: vs -> u <= foldr Z.max v vs.
Proof.
  induction vs as [|u vs [IH1 IH2]]; cbn.
  { split; [by left|]. intros u ->%list_elem_of_singleton. lia. }
  split.
  - destruct (Z.max_spec u (foldr Z.max v vs)) as [[_ ->]|[_ ->]].
    + apply elem_of_cons in IH1 as [->|IH1]; [by left|]. by right; right.
    + by right; left.
  - intros w [->|[->|Hw]%elem_of_cons]%elem_of_cons.
    + specialize (IH2 v ltac:(by left)). lia.
    + lia.
    + specialize (IH2 w ltac:(by right)). lia.
Qed.

Lemma maxVersion_ub vs v : v ∈ vs -> v <= maxVersion vs.
Proof. destruct vs as [|u vs]; [by intros ?%elem_of_nil|]. apply foldr_max_spec. Qed.

Lemma maxVersion_elem vs : maxVersion vs <> 0 -> maxVersion vs ∈ vs.
Proof. destruct vs as [|u vs]; [done|]. intros _. apply foldr_max_spec. Qed.

(** The current version exists, and no version exceeds it. *)
Lemma currentVersion_exists scope d :
  currentVersionOf scope d <> 0 ->
  is_Some (d.(scope_keys) !! (scope, currentVersionOf scope d)).
Proof. intros Hv. by apply versionsOf_spec, maxVersion_elem. Qed.

Lemma currentVersion_ub scope v d :
  is_Some (d.(scope_keys) !! (scope, v)) -> v <= currentVersionOf scope d.
Proof. intros Hv. by apply maxVersion_ub, versionsOf_spec. Qed.

Lemma currentVersion_unique scope v d :
  is_Some (d.(scope_keys) !! (scope, v)) ->
  (forall u, is_Some (d.(scope_keys) !! (scope, u)) -> u <= v) ->
  currentVersionOf scope d = v.
Proof.
  intros Hv Hub. apply Z.le_antisymm; [|by apply currentVersion_ub].
  apply Hub. apply versionsOf_spec. unfold currentVersionOf.
  apply versionsOf_spec in Hv. destruct (versionsOf scope d); [by apply elem_of_nil in Hv|].
  apply foldr_max_spec.
Qed.

(** *** The store's invariants *)

Definition resToOption {A} (r : result error A) : option A :=
  match r with Ok a => Some a | Err _ => None end.

Section StoreLemmas.
Context `{HA : AEAD, HR : Rand, HL : !AEADLaws}.
Variable kek : string.

(** The key a row of [scope_keys] wraps. *)
Definition keyOf (d : db) (s : Scope) (v : Z) : option Encryptor :=
  wr ← d.(scope_keys) !! (s, v); resToOption (unwrap kek wr).

(** What a reader gets from an encrypted column of a row of scope [s] that
    records key version [v]. *)
Definition readField (d : db) (s : Scope) (v : Z) (ct : option string) : option string :=
  k ← keyOf d s v; resToOption (Decrypt k ct).

(** Every stored key unwraps under the KEK, and versions start at 1. *)
Definition keysInv (d : db) : Prop :=
  forall s v wr, d.(scope_keys) !! (s, v) = Some wr ->
    1 <= v /\ exists k, unwrap kek wr = Ok k.

(** The cache never disagrees with a key that is stored. *)
Definition coherent (d : db) (c : gmap (Scope * Z) string) : Prop :=
  forall key k wr, c !! key = Some k -> d.(scope_keys) !! key = Some wr ->
    unwrap kek wr = Ok k.

Lemma keyOf_present d s v :
  keysInv d -> is_Some (d.(scope_keys) !! (s, v)) -> is_Some (keyOf d s v).
Proof.
  intros Hinv [wr Hwr]. unfold keyOf. rewrite Hwr. cbn.
  destruct (Hinv s v wr Hwr) as [_ [k ->]]. by eexists.
Qed.

Lemma coherent_insert d c s v wr k :
  coherent d c -> d.(scope_keys) !! (s, v) = Some wr -> unwrap kek wr = Ok k ->
  coherent d (<[(s, v) := k]> c).
Proof.
  intros Hc Hwr Hk key k' wr' Hin Hwr'.
  destruct (decide (key = (s, v))) as [->|Hne].
  - rewrite lookup_insert_eq in Hin. congruence.
  - rewrite lookup_insert_ne in Hin by done. by eapply Hc.
Qed.

(** [GetVersion] only adds to the cache, and what it returns for a stored
    version is that version's key; it can fail on a stored key only by a fault
    or a wrong KEK. *)
Lemma wp_GetVersion s v Q d c i fs :
  coherent d c ->
  (forall k c' fs', quiet fs fs' -> coherent d c' -> c ⊆ c' -> c' !! (s, v) = Some k ->
     (forall wr, d.(scope_keys) !! (s, v) = Some wr -> keyOf d s v = Some k) ->
     Q (Ok k) (MkWorld d (MkProcess c' i) fs')) ->
  (forall e fs', quiet fs fs' ->
     fs <> [] \/ keyOf d s v = None ->
     Q (Err e) (MkWorld d (MkProcess c i) fs')) ->
  wp (GetVersion kek s v) Q (MkWorld d (MkProcess c i) fs).
Proof.
  intros Hc HOk HErr. unfold GetVersion. apply wp_bind, wp_getProc. cbn.
  destruct (c !! (s, v)) as [k|] eqn:Ec.
  { apply wp_ret, HOk; [oracle|done|done|done|].
    intros wr Hwr. unfold keyOf. rewrite Hwr. cbn. by rewrite (Hc _ _ _ Ec Hwr). }
  apply wp_bind, wp_query; [|intros; apply HErr; [oracle|by left]].
  destruct (scope_keys d !! (s, v)) as [wr|] eqn:Ewr.
  2: { apply wp_throw, HErr; [oracle|]. right. unfold keyOf. by rewrite Ewr. }
  assert (HkeyOf : keyOf d s v = resToOption (unwrap kek wr))
    by (unfold keyOf; by rewrite Ewr).
  apply wp_bind, wp_lift. destruct (unwrap kek wr) as [k|e] eqn:Ek.
  2: { apply HErr; [oracle|]. by right. }
  unfold store. apply wp_bind, wp_modProc, wp_ret. apply HOk; [oracle| | |by apply lookup_insert_eq|].
  - by eapply coherent_insert.
  - by apply insert_subseteq.
  - intros wr' _. done.
Qed.

Lemma unwrap_wrapped dek wrapped :
  String.length dek = 32%nat -> String.length kek = 32%nat ->
  Decrypt kek (Some wrapped) = Ok dek -> unwrap kek wrapped = Ok dek.
Proof.
  intros Hd Hk HD. unfold unwrap, UnwrapDEK, NewEncryptor. rewrite Hk. cbn.
  rewrite HD. cbn. by rewrite Hd.
Qed.

Lemma NewEncryptor_ok key enc :
  NewEncryptor key = Ok enc <-> String.length key = 32%nat /\ enc = key.
Proof.
  unfold NewEncryptor. destruct (Nat.eqb_spec (String.length key) 32) as [E|E].
  - split; [intros [= <-]|intros [_ ->]]; done.
  - split; [done|by intros []].
Qed.

Lemma wp_WrapDEK dek Q d c i fs :
  String.length dek = 32%nat ->
  (forall ct, unwrap kek ct = Ok dek -> Q (Ok ct) (MkWorld d (MkProcess c (S i)) fs)) ->
  (forall e j, ~ (rand_ok /\ String.length kek = 32%nat) ->
     Q (Err e) (MkWorld d (MkProcess c j) fs)) ->
  wp (WrapDEK kek dek) Q (MkWorld d (MkProcess c i) fs).
Proof.
  intros Hdek HOk HErr. unfold WrapDEK. apply wp_bind, wp_wrap, wp_lift.
  destruct (NewEncryptor kek) as [enc|e] eqn:E.
  - apply NewEncryptor_ok in E as [Hk ->].
    apply wp_Encrypt; [|intros e Hr; apply HErr; by intros []].
    intros ct Hct. apply HOk. by apply unwrap_wrapped.
  - apply HErr. intros [_ Hk]. unfold NewEncryptor in E. by rewrite Hk in E.
Qed.

(** What an insert of a fresh version does to the key table. *)
Lemma insertScopeKey_lookup key wr d :
  (insertScopeKey key wr d).(scope_keys) !! key =
    Some (default wr (d.(scope_keys) !! key)).
Proof.
  unfold insertScopeKey. destruct (scope_keys d !! key) eqn:E; cbn; [by rewrite E|].
  by rewrite lookup_insert_eq.
Qed.

Lemma insertScopeKey_lookup_ne key key' wr d :
  key <> key' -> (insertScopeKey key wr d).(scope_keys) !! key' = d.(scope_keys) !! key'.
Proof.
  intros Hne. unfold insertScopeKey. destruct (scope_keys d !! key); cbn; [done|].
  by rewrite lookup_insert_ne.
Qed.

Lemma insertScopeKey_subseteq key wr d :
  d.(scope_keys) ⊆ (insertScopeKey key wr d).(scope_keys).
Proof.
  unfold insertScopeKey. destruct (scope_keys d !! key) eqn:E; cbn; [done|].
  by apply insert_subseteq.
Qed.

(** Two databases that differ only in [scope_keys]. *)
Definition same_rows (d d' : db) : Prop := d' = set_scope_keys (fun _ => d'.(scope_keys)) d.

Lemma insertScopeKey_same_rows key wr d : same_rows d (insertScopeKey key wr d).
Proof.
  unfold same_rows, insertScopeKey.
  destruct (scope_keys d !! key); cbn; [by destruct d|done].
Qed.

Lemma keysInv_insert s v wr k d :
  1 <= v -> unwrap kek wr = Ok k -> keysInv d -> keysInv (insertScopeKey (s, v) wr d).
Proof.
  intros Hv Hk Hinv s' v' wr' Hin.
  destruct (decide ((s, v) = (s', v'))) as [[= <- <-]|Hne].
  - rewrite insertScopeKey_lookup in Hin. injection Hin as <-.
    destruct (scope_keys d !! (s, v)) eqn:E; cbn; [by eapply Hinv|eauto].
  - rewrite insertScopeKey_lookup_ne in Hin by done. by eapply Hinv.
Qed.

(** A cache that is coherent stays so when a version it has no entry for is
    inserted. *)
Lemma coherent_insertScopeKey s v wr d c :
  coherent d c -> c !! (s, v) = None \/ is_Some (d.(scope_keys) !! (s, v)) ->
  coherent (insertScopeKey (s, v) wr d) c.
Proof.
  intros Hc Hor key k wr' Hin Hwr'.
  destruct (decide ((s, v) = key)) as [<-|Hne].
  - destruct Hor as [Hor|[wr0 Hor]]; [congruence|].
    rewrite insertScopeKey_lookup, Hor in Hwr'. injection Hwr' as <-. by eapply Hc.
  - rewrite insertScopeKey_lookup_ne in Hwr' by done. by eapply Hc.
Qed.
(** The invariant of the store: the keys, a cache that agrees with them, and no
    cache entry beyond a scope's current version. *)
Record storeInv (d : db) (c : gmap (Scope * Z) string) : Prop := {
  si_keys : keysInv d;
  si_coherent : coherent d c;
  si_bound : forall s v, is_Some (c !! (s, v)) -> v <= currentVersionOf s d
}.

Lemma currentVersion_nonneg s d : keysInv d -> 0 <= currentVersionOf s d.
Proof.
  intros Hinv. destruct (decide (currentVersionOf s d = 0)) as [->|Hne]; [done|].
  destruct (currentVersion_exists s d Hne) as [wr Hwr]. apply Hinv in Hwr. lia.
Qed.

Lemma currentVersion_mono s d d' :
  keysInv d' -> d.(scope_keys) ⊆ d'.(scope_keys) ->
  currentVersionOf s d <= currentVersionOf s d'.
Proof.
  intros Hinv Hsub. destruct (decide (currentVersionOf s d = 0)) as [->|Hne].
  { by apply currentVersion_nonneg. }
  destruct (currentVersion_exists s d Hne) as [wr Hwr].
  apply currentVersion_ub. exists wr. by eapply lookup_weaken.
Qed.

Lemma storeInv_insert s v wr k d c :
  1 <= v -> unwrap kek wr = Ok k -> storeInv d c ->
  is_Some (d.(scope_keys) !! (s, v)) \/ currentVersionOf s d < v ->
  storeInv (insertScopeKey (s, v) wr d) c.
Proof.
  intros Hv Hk [Hkeys Hcoh Hb] Hor.
  assert (keysInv (insertScopeKey (s, v) wr d)) by by eapply keysInv_insert.
  split; [done| |].
  - apply coherent_insertScopeKey; [done|].
    destruct Hor as [?|Hlt]; [by right|left].
    destruct (c !! (s, v)) eqn:E; [|done].
    specialize (Hb s v ltac:(eauto)). lia.
  - intros s' v' Hin. etrans; [by apply Hb|].
    apply currentVersion_mono; [done|]. apply insertScopeKey_subseteq.
Qed.

Lemma storeInv_cache d c s v k :
  storeInv d c -> is_Some (d.(scope_keys) !! (s, v)) -> keyOf d s v = Some k ->
  storeInv d (<[(s, v) := k]> c).
Proof.
  intros [Hkeys Hcoh Hb] [wr Hwr] Hk. split; [done| |].
  - eapply coherent_insert; [done|done|]. unfold keyOf in Hk. rewrite Hwr in Hk. cbn in Hk.
    destruct (unwrap kek wr); cbn in Hk; congruence.
  - intros s' v' Hin. destruct (decide ((s, v) = (s', v'))) as [[= <- <-]|Hne].
    + apply currentVersion_ub. eauto.
    + rewrite lookup_insert_ne in Hin by done. by apply Hb.
Qed.

Lemma storeInv_same_keys d d' c :
  d'.(scope_keys) = d.(scope_keys) -> storeInv d c -> storeInv d' c.
Proof.
  intros E [Hk Hc Hb]. split.
  - intros s v wr Hin. rewrite E in Hin. by apply (Hk s v).
  - intros key k wr Hin Hwr. rewrite E in Hwr. by eapply Hc.
  - intros s v Hin. unfold currentVersionOf, versionsOf. rewrite E. by apply Hb.
Qed.

(** [GetVersion] of a stored version. *)
Lemma wp_GetVersion_stored s v k Q d c i fs :
  storeInv d c -> keyOf d s v = Some k ->
  (forall c' fs', quiet fs fs' -> storeInv d c' -> c ⊆ c' -> c' !! (s, v) = Some k ->
     Q (Ok k) (MkWorld d (MkProcess c' i) fs')) ->
  (forall e fs', quiet fs fs' -> fs <> [] -> Q (Err e) (MkWorld d (MkProcess c i) fs')) ->
  wp (GetVersion kek s v) Q (MkWorld d (MkProcess c i) fs).
Proof.
  intros Hinv Hk HOk HErr.
  assert (is_Some (d.(scope_keys) !! (s, v))) as [wr Hwr].
  { unfold keyOf in Hk. destruct (scope_keys d !! (s, v)); [by eexists|done]. }
  unfold GetVersion. apply wp_bind, wp_getProc. cbn.
  destruct (c !! (s, v)) as [k'|] eqn:Ec.
  - pose proof (si_coherent _ _ Hinv _ _ _ Ec Hwr) as Hu.
    unfold keyOf in Hk. rewrite Hwr in Hk. cbn in Hk. rewrite Hu in Hk.
    injection Hk as <-. apply wp_ret, HOk; [oracle|done..].
  - apply wp_bind, wp_query; [|intros; apply HErr; oracle]. rewrite Hwr.
    assert (unwrap kek wr = Ok k) as Hu.
    { unfold keyOf in Hk. rewrite Hwr in Hk. cbn in Hk. destruct (unwrap kek wr); cbn in Hk; congruence. }
    rewrite Hu. apply wp_bind, wp_lift. unfold store. apply wp_bind, wp_modProc, wp_ret.
    apply HOk; [oracle| |by apply insert_subseteq|by apply lookup_insert_eq].
    apply storeInv_cache; eauto.
Qed.

(** [createVersion]: afterwards the slot holds a key, the one that was there
    first if there was one. *)
Lemma wp_createVersion s v Q d c i fs :
  storeInv d c -> 1 <= v ->
  is_Some (d.(scope_keys) !! (s, v)) \/ currentVersionOf s d < v ->
  (forall k wr c' j fs', quiet fs fs' ->
     let d' := insertScopeKey (s, v) wr d in
     storeInv d' c' -> c ⊆ c' -> keyOf d' s v = Some k -> c' !! (s, v) = Some k ->
     Q (Ok v) (MkWorld d' (MkProcess c' j) fs')) ->
  (forall e d' j fs', quiet fs fs' ->
     (d' = d \/ exists wr, d' = insertScopeKey (s, v) wr d) -> storeInv d' c ->
     fs <> [] \/ ~ (rand_ok /\ String.length kek = 32%nat) ->
     Q (Err e) (MkWorld d' (MkProcess c j) fs')) ->
  wp (createVersion kek s v) Q (MkWorld d (MkProcess c i) fs).
Proof.
  intros Hinv Hv Hor HOk HErr. unfold createVersion, GenerateDEK.
  apply wp_bind, wp_wrap, wp_readRand.
  2: { intros Hr. apply HErr; [oracle|by left|done|]. right. by intros []. }
  intros dek Hdek. apply wp_bind, wp_wrap, wp_WrapDEK; [done| |].
  2: { intros e j Hr. apply HErr; [oracle|by left|done|by right]. }
  intros wr Hwr.
  assert (Hinv' : storeInv (insertScopeKey (s, v) wr d) c) by by eapply storeInv_insert.
  apply wp_bind, wp_wrap, wp_exec.
  2: { intros Hf. apply HErr; [oracle|by left|done|by left]. }
  destruct (keyOf_present _ s v (si_keys _ _ Hinv')) as [k Hk].
  { rewrite insertScopeKey_lookup. eauto. }
  apply wp_bind, wp_wrap. eapply wp_GetVersion_stored; [done|exact Hk| |].
  - intros c' fs' Hq Hi Hsub Hck. apply wp_ret. eapply HOk; eauto. oracle.
  - intros e fs' Hq Hf. apply HErr; [oracle|eauto|done|]. left. destruct fs; oracle.
Qed.
End StoreLemmas.

(** ** A concrete AEAD and random source

    For evaluating the model: the ciphertext is the key followed by the
    plaintext, and opening checks the key; the random reader returns [n] copies
    of a byte that counts the reads. *)

Module Toy.

Fixpoint repeatByte (c : ascii) (n : nat) : string :=
  match n with
  | O => ""
  | S n' => String c (repeatByte c n')
  end.

#[export] Instance toyAEAD : AEAD := {|
  Seal k nonce pt := k +:+ pt;
  Open k nonce ct :=
    if String.prefix k ct
    then Some (String.substring (String.length k) (String.length ct - String.length k) ct)
    else None
|}.

#[export] Instance toyRand : Rand := {|
  rand_read i n := Some (repeatByte (ascii_of_nat (65 + i)) n)
|}.

Lemma prefix_app (a b : string) : String.prefix a (a +:+ b) = true.
Proof.
  induction a as [|x a IH]; [by destruct b|]. cbn.
  by destruct (ascii_dec x x).
Qed.

Lemma length_repeatByte c n : String.length (repeatByte c n) = n.
Proof. induction n; cbn; auto. Qed.

#[export] Instance toyLaws : AEADLaws.
Proof.
  split.
  - intros k nonce pt. cbn. rewrite prefix_app, length_append. f_equal.
    apply substring_suffix_app. lia.
  - intros i n s [= <-]. apply length_repeatByte.
Qed.

Definition kek : string := repeatByte "k" 32.

Lemma rand_ok_toy : rand_ok.
Proof. intros i n. by eexists. Qed.

Definition emptyDb : db := MkDb [] [] [] [] [] ∅ ∅ [] ∅.
Definition world0 : world := MkWorld emptyDb (MkProcess ∅ 0) [].

Lemma storeInv_empty : storeInv kek emptyDb ∅.
Proof.
  split.
  - intros s v wr Hin. cbn in Hin. by rewrite lookup_empty in Hin.
  - intros key k wr Hin. by rewrite lookup_empty in Hin.
  - intros s v [k Hin]. by rewrite lookup_empty in Hin.
Qed.

End Toy.

(** ** Properties *)

Section Properties.
Context `{HA : AEAD, HR : Rand, HL : !AEADLaws}.

(** Whatever [Encrypt] returns, [Decrypt] under the same key gives back the
    plaintext, and the column that was never written decrypts to the empty
    string. *)
Theorem decrypt_encrypt (e pt : string) (w w' : world) (ct : string) :
  Encrypt e pt w = (Ok ct, w') ->
  Decrypt e (Some ct) = Ok pt /\ Decrypt e None = Ok "".
Proof.
  intros HE. split; [|done]. destruct w as [d [c i] fs].
  refine (wp_run (Encrypt e pt) (fun r _ => r = Ok ct -> Decrypt e (Some ct) = Ok pt)
            _ _ _ HE _ eq_refl).
  apply wp_Encrypt; [|done]. by intros ct' H [= ->].
Qed.

(** What [GetOrCreate] promises; see the theorem. *)
Definition getOrCreatePost (kek : string) (s : Scope) (w : world)
    (r : result error (string * Z)) (w' : world) : Prop :=
  storeInv kek w'.(w_db) w'.(w_proc).(cache) /\
  same_rows w.(w_db) w'.(w_db) /\
  w.(w_db).(scope_keys) ⊆ w'.(w_db).(scope_keys) /\
  (currentVersionOf s w.(w_db) <> 0 -> w'.(w_db) = w.(w_db)) /\
  quiet w.(w_faults) w'.(w_faults) /\
  match r with
  | Ok (enc, v) =>
      v = currentVersionOf s w'.(w_db) /\ 1 <= v /\ keyOf kek w'.(w_db) s v = Some enc
  | Err _ => w.(w_faults) <> [] \/ ~ (rand_ok /\ String.length kek = 32%nat)
  end.

Lemma same_rows_refl d : same_rows d d.
Proof. by destruct d. Qed.

Lemma currentVersion_created kek s v wr d c :
  storeInv kek (insertScopeKey (s, v) wr d) c -> currentVersionOf s d <= v ->
  currentVersionOf s (insertScopeKey (s, v) wr d) = v.
Proof.
  intros Hinv Hle. apply currentVersion_unique.
  - rewrite insertScopeKey_lookup. eauto.
  - intros u [wr' Hu]. destruct (decide ((s, v) = (s, u))) as [[= <-]|Hne]; [done|].
    rewrite insertScopeKey_lookup_ne in Hu by done.
    etrans; [|exact Hle]. apply currentVersion_ub. eauto.
Qed.

Lemma wp_GetOrCreate (kek : string) (s : Scope) (w : world) :
  storeInv kek w.(w_db) w.(w_proc).(cache) ->
  wp (GetOrCreate kek s) (getOrCreatePost kek s w) w.
Proof.
  destruct w as [d [c i] fs]. cbn. intros Hinv. unfold GetOrCreate, CurrentVersion.
  assert (Herr0 : forall e (fs' : list bool), quiet fs fs' -> fs <> [] ->
    getOrCreatePost kek s (MkWorld d (MkProcess c i) fs) (Err e) (MkWorld d (MkProcess c i) fs')).
  { intros e fs' Hq Hf. unfold getOrCreatePost. cbn.
    split_and!; [done|apply same_rows_refl|done|done|oracle|by left]. }
  apply wp_bind, wp_wrap, wp_query; [|by intros; apply Herr0; [oracle|]].
  destruct (decide (currentVersionOf s d = 0)) as [E|E].
  - apply wp_bind, wp_createVersion; [done|lia|right; lia| |].
    + intros k wr c' j fs' Hq d' Hi Hsub Hk Hck. apply wp_bind.
      eapply wp_GetVersion_stored; [done|exact Hk| |].
      * intros c'' fs'' Hq' Hi' _ _. apply wp_ret. unfold getOrCreatePost. cbn.
        split; [done|]. split; [apply insertScopeKey_same_rows|].
        split; [apply insertScopeKey_subseteq|]. split; [done|]. split; [oracle|].
        split; [|done]. symmetry. eapply currentVersion_created; [done|lia].
      * intros e fs'' Hq' Hf. unfold getOrCreatePost. cbn. split; [done|]. split; [apply insertScopeKey_same_rows|].
        split; [apply insertScopeKey_subseteq|]. split; [done|]. split; [oracle|].
        left. destruct fs; oracle.
    + intros e d' j fs' Hq Hd' Hi Hf. unfold getOrCreatePost. cbn. split; [done|].
      split; [destruct Hd' as [->|[wr ->]]; auto using same_rows_refl, insertScopeKey_same_rows|].
      split; [destruct Hd' as [->|[wr ->]]; auto using insertScopeKey_subseteq|].
      split; [done|]. split; [oracle|]. destruct Hf; [left; destruct fs; oracle|by right].
  - apply wp_bind, wp_ret, wp_bind.
    destruct (keyOf_present kek d s _ (si_keys _ _ _ Hinv) (currentVersion_exists s d E)) as [k Hk].
    eapply wp_GetVersion_stored; [done|exact Hk| |].
    + intros c' fs' Hq Hi _ _. apply wp_ret. unfold getOrCreatePost. cbn. split; [done|].
      split; [apply same_rows_refl|]. split; [done|]. split; [done|]. split; [oracle|].
      split; [done|]. split; [|done].
      pose proof (currentVersion_nonneg kek s d (si_keys _ _ _ Hinv)). lia.
    + intros e fs' Hq Hf. apply Herr0; [oracle|destruct fs; oracle].
Qed.

(** C23: [GetOrCreate] returns the scope's current version and exactly the key
    the database stores for it; every key stored before is still stored, no
    other table changes, and when the scope already had a key nothing is
    written. With a working database and random source and a 32-byte KEK it
    always succeeds. *)
Theorem get_or_create_current (kek : string) (s : Scope) (w : world) :
  storeInv kek w.(w_db) w.(w_proc).(cache) ->
  wp (GetOrCreate kek s) (getOrCreatePost kek s w) w.
Proof. apply wp_GetOrCreate. Qed.
End Properties.

Import Toy.

Definition toyScope : Scope := MkScope "private" "user:a".

Lemma get_or_create_current_witness :
  storeInv Toy.kek Toy.world0.(w_db) Toy.world0.(w_proc).(cache) /\
  wp (GetOrCreate Toy.kek toyScope) (getOrCreatePost Toy.kek toyScope Toy.world0) Toy.world0 /\
  fst (GetOrCreate Toy.kek toyScope Toy.world0) = Ok (Toy.repeatByte "A" 32, 1).
Proof.
  split; [apply Toy.storeInv_empty|]. split.
  - apply (get_or_create_current Toy.kek toyScope Toy.world0). apply Toy.storeInv_empty.
  - vm_compute. reflexivity.
Defined.

Lemma decrypt_encrypt_witness :
  exists ct, fst (Encrypt Toy.kek "secret" Toy.world0) = Ok ct /\
    Decrypt Toy.kek (Some ct) = Ok "secret".
Proof.
  eexists. split; [vm_compute; reflexivity|].
  refine (proj1 (decrypt_encrypt Toy.kek "secret" Toy.world0
    (snd (Encrypt Toy.kek "secret" Toy.world0)) _ _)).
  vm_compute. reflexivity.
Defined.
