(* ===== verification/Capture.v ===== *)
(** * Capture: the episode write ([src/internal/store/capture.go])

    [Capture] encrypts under the scope's current key and inserts the row and
    its audit entry in one transaction; a feedback row must refer to an episode
    row-level security lets the transaction see. *)

From Stdlib Require Import SpecFloat.
From stdpp Require Import gmap.
From S2P Require Import Prelude Identity PgFmt Schema Db KeyStore.
#[local] Open Scope string_scope.
#[local] Open Scope list_scope.
#[local] Open Scope Z_scope.

(** [gateway.Episode] ([handler.go]). *)
Record Episode := MkEpisode {
  ID : string;
  TS : Z;
  Type_ : string;
  ProviderVendor : string;
  ProviderModel : string;
  InputText : string;
  OutputText : string;
  Importance : spec_float;
  Hash : string;
  Truncated : bool;
  MemoryGate : string;
  RetrievedRefs : list Ref;
  ActorUserID : string;
  RefersTo : string;
  Rating : string;
  Note : string
}.

Section Capture.
Context `{HA : AEAD, HR : Rand}.
Variable kek : string.

(** The checks the schema puts on an episode ([0001_init.sql], and
    [0002_tier3_phase1_identity.sql] for the scope): its type, the importance
    between 0 and 1, and the columns that may be null. *)
Definition episodeTypes : list string := ["interaction"; "note"; "event"; "feedback"].
Definition memoryGates : list string := ["skipped"; "partial"; "full"].
Definition episodeRatings : list string := ["memory_correct"; "memory_wrong"; "memory_missing"].
Definition scopeKinds : list string := [ScopeKindPrivate; ScopeKindShared].

Definition oneOf (vals : list string) (v : option string) : bool :=
  match v with Some x => bool_decide (x ∈ vals) | None => true end.

(** [between 0 and 1], which a NaN is not. *)
Definition unitInterval (x : spec_float) : bool :=
  SFleb (S754_zero false) x && SFleb x (binary_normalize 53 1024 1 0 false).

Definition episodeChecks (row : EpisodeRow) : bool :=
  bool_decide (row.(e_type) ∈ episodeTypes) && unitInterval row.(e_importance) &&
  oneOf memoryGates row.(e_gate) && oneOf episodeRatings row.(e_rating) &&
  bool_decide (row.(e_scope).(Kind) ∈ scopeKinds).

(** [refers_to text references episodes(id)]: any scope's episode, or the row
    itself. *)
Definition refersToExists (row : EpisodeRow) (d : db) : bool :=
  oneOf (row.(e_id) :: map e_id d.(episodes)) row.(e_refers_to).

(** [insert into episodes (...) values (...) on conflict (id) do nothing]: the
    checks come first; the primary key is the id alone, across scopes; the
    reference is checked of a row that is inserted. *)
Definition insertEpisode (row : EpisodeRow) (d : db) : option db :=
  if negb (episodeChecks row) then None
  else if bool_decide (row.(e_id) ∈ map e_id d.(episodes)) then Some d
  else if refersToExists row d then Some (set_episodes (fun l => l ++ [row])%list d)
  else None.

(** [select exists(select 1 from episodes where id = $1)] under row-level
    security. *)
Definition episodeVisible (se : session) (id : string) (d : db) : bool :=
  existsb (fun r => String.eqb r.(e_id) id && visible se r.(e_scope)) d.(episodes).

Definition episodeRow (scope : Scope) (ep : Episode) (inputCT outputCT : string)
    (noteCT : option string) (keyVersion : Z) : EpisodeRow := {|
  e_id := ep.(ID); e_scope := scope; e_ts := ep.(TS); e_type := ep.(Type_);
  e_vendor := Nullable ep.(ProviderVendor); e_model := Nullable ep.(ProviderModel);
  e_input := Some inputCT; e_output := Some outputCT; e_note := noteCT;
  e_key_version := keyVersion;
  e_importance := ep.(Importance); e_hash := ep.(Hash); e_truncated := ep.(Truncated);
  e_gate := Nullable ep.(MemoryGate);
  e_refers_to := Nullable ep.(RefersTo); e_rating := Nullable ep.(Rating);
  e_refs := ep.(RetrievedRefs);
  e_embedding := None; e_embedding_model := None |}.

Definition captureActor (scope : Scope) (ep : Episode) : string :=
  if String.eqb ep.(ActorUserID) "" then scope.(Owner) else ep.(ActorUserID).

Definition captureEntry (scope : Scope) (ep : Episode) : AuditEntry := {|
  EventType := "capture";
  Actor := captureActor scope ep;
  ActingScope := scope;
  WorkspaceScope := scope;
  TargetRef := Some (MkRef RefKindEpisode scope ep.(ID));
  Detail := [("episode_type", JString ep.(Type_))] |}.

(** The feedback check at the top of the transaction. *)
Definition checkFeedbackRef (ep : Episode) (se : session) : M () :=
  if String.eqb ep.(Type_) "feedback" && negb (String.eqb ep.(RefersTo) "") then
    found ← wrapErr "check feedback episode_id exists"
      (query (episodeVisible se ep.(RefersTo)));
    if found : bool then mret tt else throw ErrFeedbackEpisodeNotFound
  else mret tt.

(** The transaction, given the ciphertexts. *)
Definition captureTx (scope : Scope) (ep : Episode) (row : EpisodeRow) : M () :=
  wrapErr ("store: insert episode " +:+ ep.(ID)) (
    Run scope scope (fun se =>
      checkFeedbackRef ep se ;;
      execChecked (insertEpisode row) ;;
      Write se (captureEntry scope ep))).

(** What [Capture] does once the key is resolved. *)
Definition captureWith (ev : Encryptor * Z) (scope : Scope) (ep : Episode) : M () :=
  inputCT ← wrapErr "store: encrypt input_text" (Encrypt ev.1 ep.(InputText));
  outputCT ← wrapErr "store: encrypt output_text" (Encrypt ev.1 ep.(OutputText));
  noteCT ← (if String.eqb ep.(Type_) "feedback"
            then ct ← wrapErr "store: encrypt note" (Encrypt ev.1 ep.(Note)); mret (Some ct)
            else mret None);
  captureTx scope ep (episodeRow scope ep inputCT outputCT noteCT ev.2).

Definition Capture (scope : Scope) (ep : Episode) : M () :=
  ev ← wrapErr "store: resolve encryption key" (GetOrCreate kek scope);
  captureWith ev scope ep.
End Capture.

(** ** Lemmas *)

Section CaptureLemmas.
Context `{HA : AEAD, HR : Rand, HL : !AEADLaws}.
Variable kek : string.

(** The feedback check passes exactly when the reference is visible. *)
Definition feedbackRefOk (scope : Scope) (ep : Episode) (d : db) : Prop :=
  ep.(Type_) = "feedback" -> ep.(RefersTo) <> "" ->
  exists r, r ∈ d.(episodes) /\ r.(e_id) = ep.(RefersTo) /\ r.(e_scope) = scope.

Lemma episodeVisible_spec scope id d :
  episodeVisible (MkSession scope scope) id d = true <->
  exists r, r ∈ d.(episodes) /\ r.(e_id) = id /\ r.(e_scope) = scope.
Proof.
  unfold episodeVisible. rewrite existsb_exists. unfold visible. cbn. split.
  - intros (r & Hin & [Hid Hs]%andb_true_iff). exists r.
    rewrite list_elem_of_In. apply String.eqb_eq in Hid.
    by apply orb_true_iff in Hs as [Hs%bool_decide_eq_true_1|Hs%bool_decide_eq_true_1].
  - intros (r & Hin & Hid & Hs). exists r. split; [by apply list_elem_of_In|].
    apply andb_true_iff. split; [by apply String.eqb_eq|].
    apply orb_true_iff. left. by apply bool_decide_eq_true_2.
Qed.

Lemma wp_checkFeedbackRef scope ep Q d p fs :
  (forall fs', quiet fs fs' -> feedbackRefOk scope ep d -> Q (Ok tt) (MkWorld d p fs')) ->
  (forall e fs', quiet fs fs' ->
     fs <> [] \/ (e = ErrFeedbackEpisodeNotFound /\ ~ feedbackRefOk scope ep d) ->
     Q (Err e) (MkWorld d p fs')) ->
  wp (checkFeedbackRef ep (MkSession scope scope)) Q (MkWorld d p fs).
Proof.
  intros HOk HErr. unfold checkFeedbackRef.
  destruct (String.eqb_spec (Type_ ep) "feedback") as [Ht|Ht]; cbn.
  2: { apply wp_ret, HOk; [oracle|]. by intros ?. }
  destruct (String.eqb_spec (RefersTo ep) "") as [Hr|Hr]; cbn.
  { apply wp_ret, HOk; [oracle|]. by intros ? ?. }
  apply wp_bind, wp_wrap, wp_query; [|intros; apply HErr; [oracle|by left]].
  destruct (episodeVisible _ _ _) eqn:E.
  - apply wp_ret, HOk; [oracle|]. intros _ _. by apply episodeVisible_spec.
  - apply wp_throw, HErr; [oracle|]. right. split; [done|]. intros Hok.
    specialize (Hok Ht Hr). apply episodeVisible_spec in Hok. congruence.
Qed.

(** What the table accepts of an episode. *)
Definition admissible (scope : Scope) (ep : Episode) (d : db) : Prop :=
  ep.(Type_) ∈ episodeTypes /\ unitInterval ep.(Importance) = true /\
  (ep.(MemoryGate) = "" \/ ep.(MemoryGate) ∈ memoryGates) /\
  (ep.(Rating) = "" \/ ep.(Rating) ∈ episodeRatings) /\
  scope.(Kind) ∈ scopeKinds /\
  (ep.(ID) ∈ map e_id d.(episodes) \/ ep.(RefersTo) = "" \/ ep.(RefersTo) = ep.(ID) \/
   ep.(RefersTo) ∈ map e_id d.(episodes)).

Definition withEpisode (row : EpisodeRow) (d : db) : db :=
  if bool_decide (row.(e_id) ∈ map e_id d.(episodes)) then d
  else set_episodes (fun l => l ++ [row])%list d.

Lemma oneOf_Nullable vals s : oneOf vals (Nullable s) = true <-> s = "" \/ s ∈ vals.
Proof.
  unfold Nullable. destruct (String.eqb_spec s "") as [->|Hs]; cbn; [by split; [left|]|].
  rewrite bool_decide_eq_true. split; [by right|by intros [?|?]].
Qed.

(** The insert succeeds exactly on what the table accepts. *)
Lemma insertEpisode_spec scope ep inCT outCT noteCT v d :
  let row := episodeRow scope ep inCT outCT noteCT v in
  match insertEpisode row d with
  | Some d' => admissible scope ep d /\ d' = withEpisode row d
  | None => ~ admissible scope ep d
  end.
Proof.
  intros row. unfold insertEpisode, withEpisode, admissible.
  assert (Hc : episodeChecks row = true <->
    ep.(Type_) ∈ episodeTypes /\ unitInterval ep.(Importance) = true /\
    (ep.(MemoryGate) = "" \/ ep.(MemoryGate) ∈ memoryGates) /\
    (ep.(Rating) = "" \/ ep.(Rating) ∈ episodeRatings) /\ scope.(Kind) ∈ scopeKinds).
  { unfold episodeChecks. rewrite !andb_true_iff, !bool_decide_eq_true. cbn.
    rewrite !oneOf_Nullable. tauto. }
  destruct (episodeChecks row); cbn [negb]; [|by intros (? & ? & ? & ? & ? & _); intuition].
  destruct (proj1 Hc eq_refl) as (H1 & H2 & H3 & H4 & H5). cbn [row episodeRow e_id].
  destruct (bool_decide (ID ep ∈ _)) eqn:E; [apply bool_decide_eq_true in E|apply bool_decide_eq_false in E].
  { split; [|done]. split_and!; [done..|by left]. }
  unfold refersToExists. cbn [row episodeRow e_id e_refers_to].
  destruct (oneOf _ _) eqn:Er.
  - split; [|done]. apply oneOf_Nullable in Er. rewrite elem_of_cons in Er. tauto.
  - intros (_ & _ & _ & _ & _ & Href). apply not_true_iff_false in Er. apply Er.
    apply oneOf_Nullable. rewrite elem_of_cons. tauto.
Qed.

(** What the transaction leaves behind. *)
Definition captured (scope : Scope) (ep : Episode) (row : EpisodeRow) (d : db) : db :=
  set_audit_log (fun l => l ++ [captureEntry scope ep])%list (withEpisode row d).

Lemma wp_captureTx scope ep inCT outCT noteCT v Q d p fs :
  let row := episodeRow scope ep inCT outCT noteCT v in
  (forall fs', quiet fs fs' -> feedbackRefOk scope ep d -> admissible scope ep d ->
     Q (Ok tt) (MkWorld (captured scope ep row d) p fs')) ->
  (forall e fs', quiet fs fs' ->
     fs <> [] \/ (errors_Is e ErrFeedbackEpisodeNotFound = true /\ ~ feedbackRefOk scope ep d) \/
     ~ admissible scope ep d ->
     Q (Err e) (MkWorld d p fs')) ->
  wp (captureTx scope ep row) Q (MkWorld d p fs).
Proof.
  intros row HOk HErr. unfold captureTx. apply wp_wrap, wp_Run.
  { intros e fs' Hf Hq. apply HErr; [done|by left]. }
  intros fs' Hq. apply wp_bind, (wp_checkFeedbackRef scope).
  2: { intros e fs'' Hq' Hor. split; [oracle|]. intros gs Hgs. apply HErr; [oracle|].
       destruct Hor as [Hf|[-> Hn]]; [left; oracle|right; left; split; [done|done]]. }
  intros fs1 Hq1 Href. pose proof (insertEpisode_spec scope ep inCT outCT noteCT v d) as Hins.
  cbv zeta in Hins. fold row in Hins.
  apply wp_bind, wp_execChecked.
  2: { intros E. rewrite E in Hins. split; [oracle|]. intros gs Hgs.
       apply HErr; [oracle|by right; right]. }
  2: { intros Hf. split; [oracle|]. intros gs Hgs. apply HErr; [oracle|left; oracle]. }
  intros d1 E. rewrite E in Hins. destruct Hins as [Hadm ->].
  unfold Write. cbn [ActingScope WorkspaceScope captureEntry acting workspace].
  rewrite !bool_decide_eq_true_2 by done. cbn. apply wp_wrap, wp_exec.
  - split; [oracle|]. intros gs Hgs. split; [apply HOk; [oracle|done..]|].
    intros Hf e. apply HErr; [oracle|by left].
  - intros Hf. split; [oracle|]. intros gs Hgs. apply HErr; [oracle|left].
    destruct fs1; oracle.
Qed.
End CaptureLemmas.

(** ** Properties *)

Section CaptureProperties.
Context `{HA : AEAD, HR : Rand, HL : !AEADLaws}.
Variable kek : string.

(** The row [Capture] has to have written: it is [ep]'s, in [scope], and what a
    reader decrypts from it under the version it records is [ep]'s text. *)
Definition capturedRow (scope : Scope) (ep : Episode) (d : db) (row : EpisodeRow) : Prop :=
  row.(e_id) = ep.(ID) /\ row.(e_scope) = scope /\ row.(e_type) = ep.(Type_) /\
  row.(e_hash) = ep.(Hash) /\ row.(e_refs) = ep.(RetrievedRefs) /\
  row.(e_key_version) = currentVersionOf scope d /\
  readField kek d scope row.(e_key_version) row.(e_input) = Some ep.(InputText) /\
  readField kek d scope row.(e_key_version) row.(e_output) = Some ep.(OutputText) /\
  (if String.eqb ep.(Type_) "feedback"
   then readField kek d scope row.(e_key_version) row.(e_note) = Some ep.(Note)
   else row.(e_note) = None).

(** What [Capture] promises; see the theorem. *)
Definition capturePost (scope : Scope) (ep : Episode) (w : world)
    (r : result error ()) (w' : world) : Prop :=
  storeInv kek w'.(w_db) w'.(w_proc).(cache) /\
  match r with
  | Ok _ =>
      feedbackRefOk scope ep w.(w_db) /\ admissible scope ep w.(w_db) /\
      w'.(w_db).(audit_log) = w.(w_db).(audit_log) ++ [captureEntry scope ep] /\
      (ep.(ID) ∈ map e_id w.(w_db).(episodes) ->
         w'.(w_db).(episodes) = w.(w_db).(episodes)) /\
      (ep.(ID) ∉ map e_id w.(w_db).(episodes) ->
         exists row, w'.(w_db).(episodes) = w.(w_db).(episodes) ++ [row] /\
                     capturedRow scope ep w'.(w_db) row)
  | Err e =>
      same_rows w.(w_db) w'.(w_db) /\
      (w.(w_faults) <> [] \/ ~ (rand_ok /\ String.length kek = 32%nat) \/
       (errors_Is e ErrFeedbackEpisodeNotFound = true /\
        ~ feedbackRefOk scope ep w.(w_db)) \/
       ~ admissible scope ep w.(w_db))
  end.

Lemma readField_of d s v k ct pt :
  keyOf kek d s v = Some k -> Decrypt k ct = Ok pt -> readField kek d s v ct = Some pt.
Proof. intros Hk HD. unfold readField. rewrite Hk. cbn. by rewrite HD. Qed.

Lemma captured_keys scope ep row d :
  (captured scope ep row d).(scope_keys) = d.(scope_keys).
Proof. unfold captured, withEpisode. by destruct (bool_decide _). Qed.

Lemma same_rows_episodes d d' : same_rows d d' ->
  d'.(episodes) = d.(episodes) /\ d'.(audit_log) = d.(audit_log).
Proof. unfold same_rows. intros ->. by destruct d. Qed.

(** The transaction step, from ciphertexts that decrypt to the texts. *)
Lemma capture_committed scope ep (w : world) d1 c1 i1 fs1 inCT outCT noteCT k :
  storeInv kek d1 c1 -> same_rows w.(w_db) d1 -> quiet w.(w_faults) fs1 ->
  keyOf kek d1 scope (currentVersionOf scope d1) = Some k ->
  Decrypt k (Some inCT) = Ok ep.(InputText) -> Decrypt k (Some outCT) = Ok ep.(OutputText) ->
  (if String.eqb ep.(Type_) "feedback"
   then Decrypt k noteCT = Ok ep.(Note) else noteCT = None) ->
  wp (captureTx scope ep (episodeRow scope ep inCT outCT noteCT (currentVersionOf scope d1)))
    (capturePost scope ep w) (MkWorld d1 (MkProcess c1 i1) fs1).
Proof.
  intros Hst Hsame Hq Hk Hin Hout Hnote.
  destruct (same_rows_episodes _ _ Hsame) as [Hep Hau].
  assert (Href : feedbackRefOk scope ep d1 <-> feedbackRefOk scope ep w.(w_db))
    by (unfold feedbackRefOk; by rewrite Hep).
  assert (Hadm : admissible scope ep d1 <-> admissible scope ep w.(w_db))
    by (unfold admissible; by rewrite Hep).
  set (row := episodeRow scope ep inCT outCT noteCT (currentVersionOf scope d1)).
  apply wp_captureTx; fold row.
  - intros fs' Hq' Hok Had. unfold capturePost. cbn [w_db].
    set (d2 := captured scope ep row d1).
    assert (Hk2 : forall s v, keyOf kek d2 s v = keyOf kek d1 s v)
      by (intros; unfold keyOf, d2; by rewrite captured_keys).
    assert (Hcv : currentVersionOf scope d2 = currentVersionOf scope d1)
      by (unfold currentVersionOf, versionsOf, d2; by rewrite captured_keys).
    split; [eapply storeInv_same_keys; [|exact Hst]; apply captured_keys|].
    split; [by apply Href|]. split; [by apply Hadm|]. rewrite <- Hep, <- Hau.
    split; [by unfold d2, captured, withEpisode; destruct (bool_decide _)|].
    split; intros Hmem; [by unfold d2, captured, withEpisode; rewrite bool_decide_eq_true_2|].
    exists row. split; [by unfold d2, captured, withEpisode; rewrite bool_decide_eq_false_2|].
    unfold capturedRow. rewrite Hcv. split_and!; try done.
    1-2: eapply readField_of; [rewrite Hk2; exact Hk|done].
    destruct (String.eqb _ _); [|done]. eapply readField_of; [rewrite Hk2; exact Hk|done].
  - intros e fs' Hq' Hor. unfold capturePost. split; [done|]. split; [done|].
    rewrite Href, Hadm in Hor. destruct Hor as [Hf|?]; [left; oracle|by right; right].
Qed.

(** The steps after the key: three encryptions and the transaction. *)
Lemma wp_captureWith k v scope ep Q d c i fs :
  (forall inCT outCT noteCT j,
     Decrypt k (Some inCT) = Ok ep.(InputText) -> Decrypt k (Some outCT) = Ok ep.(OutputText) ->
     (if String.eqb ep.(Type_) "feedback" then Decrypt k noteCT = Ok ep.(Note) else noteCT = None) ->
     wp (captureTx scope ep (episodeRow scope ep inCT outCT noteCT v)) Q (MkWorld d (MkProcess c j) fs)) ->
  (forall e j, ~ rand_ok -> Q (Err e) (MkWorld d (MkProcess c j) fs)) ->
  wp (captureWith (k, v) scope ep) Q (MkWorld d (MkProcess c i) fs).
Proof.
  intros HTx Hfail. unfold captureWith.
  apply wp_bind, wp_wrap, wp_Encrypt; [intros inCT HinCT|by intros; apply Hfail].
  apply wp_bind, wp_wrap, wp_Encrypt; [intros outCT HoutCT|by intros; apply Hfail].
  apply wp_bind. destruct (String.eqb (Type_ ep) "feedback") eqn:Ef.
  - apply wp_bind, wp_wrap, wp_Encrypt; [intros noteCT HnoteCT|by intros; apply Hfail].
    by apply wp_ret, HTx.
  - by apply wp_ret, HTx.
Qed.

Lemma wp_Capture (scope : Scope) (ep : Episode) (w : world) :
  storeInv kek w.(w_db) w.(w_proc).(cache) ->
  wp (Capture kek scope ep) (capturePost scope ep w) w.
Proof.
  intros Hinv. unfold Capture. apply wp_bind, wp_wrap.
  eapply wp_mono; [by apply wp_GetOrCreate|].
  intros [[k v]|e] [d1 [c1 i1] fs1] (Hi & Hsame & _ & _ & Hq & Hr); cbn in *.
  2: { split; [done|]. split; [done|]. destruct Hr; auto. }
  destruct Hr as (-> & Hv & Hk). apply wp_captureWith; [intros; by eapply capture_committed|].
  intros e j Hr. split; [done|]. split; [done|]. right. left. by intros [].
Qed.

(** C22: capture is durable, readable and atomic. When [Capture] succeeds the
    episode satisfies the checks of the table, and its row is in the scope
    (unless a row with that id already existed), recorded under the scope's
    current key version and decrypting to exactly the captured texts, with its
    audit entry. When it fails, no row and no audit entry was written; and it
    fails only by a fault of a round trip, a random source or KEK failure, a
    feedback reference that names no episode of the scope, or an episode the
    table rejects: its type, importance, gate, rating or scope kind is not one
    of those allowed, or its reference names no episode at all. *)
Theorem capture_durable (scope : Scope) (ep : Episode) (w : world) :
  storeInv kek w.(w_db) w.(w_proc).(cache) ->
  wp (Capture kek scope ep) (capturePost scope ep w) w.
Proof. apply wp_Capture. Qed.
End CaptureProperties.

Import Toy.

Definition toyEpisode : Episode := {|
  ID := "ep1"; TS := 0; Type_ := "interaction"; ProviderVendor := "v"; ProviderModel := "";
  InputText := "hi"; OutputText := "hello"; Importance := S754_zero false; Hash := "h";
  Truncated := false; MemoryGate := "full"; RetrievedRefs := []; ActorUserID := "";
  RefersTo := ""; Rating := ""; Note := "" |}.

Lemma capture_durable_witness :
  wp (Capture Toy.kek toyScope toyEpisode) (capturePost Toy.kek toyScope toyEpisode Toy.world0)
    Toy.world0 /\
  fst (Capture Toy.kek toyScope toyEpisode Toy.world0) = Ok tt.
Proof.
  split; [|vm_compute; reflexivity].
  apply (capture_durable Toy.kek toyScope toyEpisode Toy.world0). apply Toy.storeInv_empty.
Defined.

(** The checks reject an importance above one. *)
Example capture_rejects :
  let ep := {| ID := "ep2"; TS := 0; Type_ := "note"; ProviderVendor := ""; ProviderModel := "";
    InputText := "hi"; OutputText := ""; Importance := binary_normalize 53 1024 2 0 false; Hash := "h";
    Truncated := false; MemoryGate := ""; RetrievedRefs := []; ActorUserID := "";
    RefersTo := ""; Rating := ""; Note := "" |} in
  is_ok (fst (Capture Toy.kek toyScope ep Toy.world0)) = false /\
  (snd (Capture Toy.kek toyScope ep Toy.world0)).(w_db).(episodes) = [].
Proof. split; vm_compute; reflexivity. Qed.
