(* ===== verification/Rotate.v ===== *)
(** * Rotate: online key rotation ([src/internal/rotate/rotate.go])

    The state machine of a scope's [key_rotations] row and the batches that
    move rows from the old key version to the new one.  Every statement of the
    Go code is one [query] or [exec] of the model, each of which may fail; the
    driver loop of [cmd/hupi-rotate-key] is [rotateLoop].  The order of a batch
    is by id; timestamps of the rotation row are left out. *)

From stdpp Require Import gmap.
From S2P Require Import Prelude Identity Schema Db KeyStore.
#[local] Open Scope string_scope.
#[local] Open Scope list_scope.
#[local] Open Scope Z_scope.

Definition tableOrder : list string := ["episodes"; "summaries"; "entities"].
Definition MaxBatchSize : Z := 5000.

Definition clampBatchSize (n : Z) : Z :=
  if n <=? 0 then 1
  else if n >? MaxBatchSize then MaxBatchSize
  else n.

Fixpoint nextTableIn (order : list string) (current : string) : string :=
  match order with
  | [] => "done"
  | t :: rest =>
      if String.eqb t current then
        match rest with
        | t' :: _ => t'
        | [] => "done"
        end
      else nextTableIn rest current
  end.

Definition nextTable (current : string) : string := nextTableIn tableOrder current.

(** [update key_rotations set .. where scope = ..] *)
Definition updRotation (s : Scope) (f : RotationRow -> RotationRow) : db -> db :=
  set_key_rotations (alter f s).

Definition setCursorId (id : string) (r : RotationRow) : RotationRow :=
  MkRotationRow r.(r_from) r.(r_to) r.(r_status) r.(r_cursor_table) id.
Definition setCursorTableRow (table : string) (r : RotationRow) : RotationRow :=
  MkRotationRow r.(r_from) r.(r_to) r.(r_status) table "".
Definition setCompleted (r : RotationRow) : RotationRow :=
  MkRotationRow r.(r_from) r.(r_to) StatusCompleted r.(r_cursor_table) r.(r_cursor_id).

(** ** The rows of a batch: [select .. order by id limit n] *)

Definition idLess (a b : string) : bool := String.ltb a b.

Definition selectEpisodes (se : session) (s : Scope) (from n : Z) (d : db) : list EpisodeRow :=
  take (Z.to_nat n) (sort_by (fun a b => idLess a.(e_id) b.(e_id))
    (filter (fun r => visible se r.(e_scope) = true /\ r.(e_scope) = s /\
                      r.(e_key_version) = from) d.(episodes))).

Definition selectSummaries (se : session) (s : Scope) (from n : Z) (d : db) : list SummaryRow :=
  take (Z.to_nat n) (sort_by (fun a b => idLess a.(s_id) b.(s_id))
    (filter (fun r => visible se r.(s_scope) = true /\ r.(s_scope) = s /\
                      r.(s_key_version) = from) d.(summaries))).

Definition selectEntities (se : session) (s : Scope) (from n : Z) (d : db) : list EntityRow :=
  take (Z.to_nat n) (sort_by (fun a b => idLess a.(n_id) b.(n_id))
    (filter (fun r => visible se r.(n_scope) = true /\ r.(n_scope) = s /\
                      r.(n_key_version) = from) d.(entities))).

Definition selectKeyFacts (se : session) (summaryID : string) (from : Z) (d : db) :
    list KeyFactRow :=
  filter (fun r => visible se r.(f_scope) = true /\ r.(f_summary_id) = summaryID /\
                   r.(f_key_version) = from) d.(key_facts).

(** ** The updates of a row *)

Definition recryptEpisode (input output : string) (note : option string) (v : Z)
    (r : EpisodeRow) : EpisodeRow := {|
  e_id := r.(e_id); e_scope := r.(e_scope); e_ts := r.(e_ts); e_type := r.(e_type);
  e_vendor := r.(e_vendor); e_model := r.(e_model);
  e_input := Some input; e_output := Some output; e_note := note; e_key_version := v;
  e_importance := r.(e_importance); e_hash := r.(e_hash); e_truncated := r.(e_truncated);
  e_gate := r.(e_gate); e_refers_to := r.(e_refers_to); e_rating := r.(e_rating);
  e_refs := r.(e_refs); e_embedding := r.(e_embedding);
  e_embedding_model := r.(e_embedding_model) |}.

Definition recryptSummary (text : string) (v : Z) (r : SummaryRow) : SummaryRow :=
  MkSummaryRow r.(s_id) r.(s_scope) (Some text) v r.(s_supersedes) r.(s_embedding)
    r.(s_embedding_model) r.(s_info).

Definition recryptKeyFact (fact : string) (v : Z) (r : KeyFactRow) : KeyFactRow :=
  MkKeyFactRow r.(f_id) r.(f_summary_id) r.(f_scope) (Some fact) v r.(f_grounded)
    r.(f_embedding) r.(f_embedding_model) r.(f_source_episode_ids).

Definition recryptEntity (attrs : string) (v : Z) (r : EntityRow) : EntityRow :=
  MkEntityRow r.(n_id) r.(n_scope) r.(n_kind) r.(n_name) (Some attrs) v r.(n_embedding)
    r.(n_embedding_model) r.(n_dates).

(** [update .. where ..]: the rows the policy lets the session see and the
    [where] clause selects. *)
Definition updateWhere {R} (cond : R -> bool) (f : R -> R) (l : list R) : list R :=
  map (fun r => if cond r then f r else r) l.

(** The [where] clauses of the updates, under the policy. *)
Definition episodeWhere (se : session) (s : Scope) (id : string) (r : EpisodeRow) : bool :=
  visible se r.(e_scope) && (String.eqb r.(e_id) id && bool_decide (r.(e_scope) = s)).
Definition summaryWhere (se : session) (id : string) (r : SummaryRow) : bool :=
  visible se r.(s_scope) && String.eqb r.(s_id) id.
Definition keyFactWhere (se : session) (id : Z) (r : KeyFactRow) : bool :=
  visible se r.(f_scope) && (r.(f_id) =? id).
Definition entityWhere (se : session) (s : Scope) (id : string) (r : EntityRow) : bool :=
  visible se r.(n_scope) && (String.eqb r.(n_id) id && bool_decide (r.(n_scope) = s)).

Section Rotate.
Context `{HA : AEAD, HR : Rand}.
Variable kek : string.

(** ** One row: decrypt under the old key, encrypt under the new, update *)

Definition recrypt (fromEnc toEnc : Encryptor) (what : string) (ct : option string) : M string :=
  pt ← lift (wrapRes ("decrypt " +:+ what) (Decrypt fromEnc ct));
  wrapErr ("re-encrypt " +:+ what) (Encrypt toEnc pt).

Definition migrateEpisode (se : session) (s : Scope) (fromEnc toEnc : Encryptor) (toVersion : Z)
    (rr : EpisodeRow) : M () :=
  newInputCT ← recrypt fromEnc toEnc "episode input_text" rr.(e_input);
  newOutputCT ← recrypt fromEnc toEnc "episode output_text" rr.(e_output);
  newNoteCT ← (match rr.(e_note) with
               | None => mret None
               | Some noteCT =>
                   ct ← recrypt fromEnc toEnc "episode note" (Some noteCT); mret (Some ct)
               end);
  wrapErr "update episode" (exec (set_episodes (updateWhere (episodeWhere se s rr.(e_id))
    (recryptEpisode newInputCT newOutputCT newNoteCT toVersion)))).

Definition migrateKeyFact (se : session) (fromEnc toEnc : Encryptor) (toVersion : Z)
    (rr : KeyFactRow) : M () :=
  newCT ← recrypt fromEnc toEnc "key fact" rr.(f_fact);
  wrapErr "update key fact" (exec (set_key_facts (updateWhere (keyFactWhere se rr.(f_id))
    (recryptKeyFact newCT toVersion)))).

Definition migrateKeyFacts (se : session) (fromEnc toEnc : Encryptor) (summaryID : string)
    (fromVersion toVersion : Z) : M () :=
  rows ← wrapErr "query key facts" (query (selectKeyFacts se summaryID fromVersion));
  forM rows (migrateKeyFact se fromEnc toEnc toVersion).

Definition migrateSummary (se : session) (fromEnc toEnc : Encryptor)
    (fromVersion toVersion : Z) (rr : SummaryRow) : M () :=
  newCT ← recrypt fromEnc toEnc "summary" rr.(s_text);
  wrapErr "update summary" (exec (set_summaries (updateWhere (summaryWhere se rr.(s_id))
    (recryptSummary newCT toVersion)))) ;;
  wrapErr "migrate key facts"
    (migrateKeyFacts se fromEnc toEnc rr.(s_id) fromVersion toVersion).

Definition migrateEntity (se : session) (s : Scope) (fromEnc toEnc : Encryptor) (toVersion : Z)
    (rr : EntityRow) : M () :=
  newCT ← recrypt fromEnc toEnc "entity" rr.(n_attributes);
  wrapErr "update entity" (exec (set_entities (updateWhere (entityWhere se s rr.(n_id))
    (recryptEntity newCT toVersion)))).

(** ** Batches *)

(** [if len(rows) > 0 { update key_rotations set cursor_id = .. }] *)
Definition advanceCursor (s : Scope) (ids : list string) : M () :=
  match last ids with
  | None => mret tt
  | Some id => wrapErr "advance cursor" (exec (updRotation s (setCursorId id)))
  end.

Definition migrateEpisodeBatch (s : Scope) (fromEnc toEnc : Encryptor)
    (fromVersion toVersion batchSize : Z) : M Z :=
  Run s s (fun se =>
    rows ← wrapErr "query episodes" (query (selectEpisodes se s fromVersion batchSize));
    forM rows (migrateEpisode se s fromEnc toEnc toVersion) ;;
    advanceCursor s (map e_id rows) ;;
    mret (Z.of_nat (length rows))).

Definition migrateSummaryBatch (s : Scope) (fromEnc toEnc : Encryptor)
    (fromVersion toVersion batchSize : Z) : M Z :=
  Run s s (fun se =>
    rows ← wrapErr "query summaries" (query (selectSummaries se s fromVersion batchSize));
    forM rows (migrateSummary se fromEnc toEnc fromVersion toVersion) ;;
    advanceCursor s (map s_id rows) ;;
    mret (Z.of_nat (length rows))).

Definition migrateEntityBatch (s : Scope) (fromEnc toEnc : Encryptor)
    (fromVersion toVersion batchSize : Z) : M Z :=
  Run s s (fun se =>
    rows ← wrapErr "query entities" (query (selectEntities se s fromVersion batchSize));
    forM rows (migrateEntity se s fromEnc toEnc toVersion) ;;
    advanceCursor s (map n_id rows) ;;
    mret (Z.of_nat (length rows))).

(** ** The rotation's life *)

Definition Status (s : Scope) : M (option RotationRow) :=
  r ← catch (Run s s (fun _ => queryRow (fun d => d.(key_rotations) !! s)));
  match r with
  | Ok st => mret (Some st)
  | Err e => if errors_Is e ErrNoRows then mret None
             else throw (Wrap "rotate: load status" e)
  end.

Definition rotationEntry (s : Scope) (actor : string) (detail : list (string * jval)) : AuditEntry :=
  {| EventType := "key_rotation"; Actor := actor; ActingScope := s; WorkspaceScope := s;
     TargetRef := None; Detail := detail |}.

(** [insert into key_rotations .. on conflict (scope) do update set ..] *)
Definition upsertRotation (s : Scope) (from to : Z) : db -> db :=
  set_key_rotations (fun m => <[s := MkRotationRow from to StatusInProgress "episodes" ""]> m).

Definition startLocked (s : Scope) (actor : string) : M (Z * Z) :=
  existing ← Status s;
  match existing with
  | Some (MkRotationRow from to StatusInProgress _ _) => mret (from, to)
  | _ =>
      fromVersion ← CurrentVersion s;
      if decide (fromVersion = 0) then throw (ErrMsg "rotate: no key yet")
      else
        toVersion ← CreateNextVersion kek s;
        wrapErr "rotate: start rotation" (Run s s (fun se =>
          wrapErr "insert key_rotations row" (exec (upsertRotation s fromVersion toVersion)) ;;
          Write se (rotationEntry s actor
            [("action", JString "start"); ("from_version", JInt fromVersion);
             ("to_version", JInt toVersion)]))) ;;
        mret (fromVersion, toVersion)
  end.

(** [defer]: runs whatever happened, its own failure only logged. *)
Definition deferring {A} (m : M A) (cleanup : M ()) : M A := fun w =>
  let (r, w1) := m w in
  let (_, w2) := cleanup w1 in
  (r, w2).

Definition Start (s : Scope) (actor : string) : M (Z * Z) :=
  wrapErr "rotate: acquire connection for start lock" roundTrip ;;
  wrapErr "rotate: acquire start lock" roundTrip ;;
  deferring (startLocked s actor) roundTrip.

Definition setCursorTable (s : Scope) (table : string) : M () :=
  Run s s (fun _ => exec (updRotation s (setCursorTableRow table))).

Definition markCompleted (s : Scope) (actor : string) : M () :=
  Run s s (fun se =>
    wrapErr "mark completed" (exec (updRotation s setCompleted)) ;;
    Write se (rotationEntry s actor [("action", JString "completed")])).

(** The [for table != "done"] loop; four tables at most, see [tableOrder]. *)
Fixpoint continueFrom (fuel : nat) (s : Scope) (fromEnc toEnc : Encryptor)
    (fromVersion toVersion batchSize : Z) (actor table : string) : M (Z * bool) :=
  if String.eqb table "done" then markCompleted s actor ;; mret (0, true)
  else
    match fuel with
    | O => throw (ErrMsg "rotate: table order exhausted")
    | S fuel' =>
        n ← wrapErr "rotate: migrate" (
          if String.eqb table "episodes"
          then migrateEpisodeBatch s fromEnc toEnc fromVersion toVersion batchSize
          else if String.eqb table "summaries"
          then migrateSummaryBatch s fromEnc toEnc fromVersion toVersion batchSize
          else if String.eqb table "entities"
          then migrateEntityBatch s fromEnc toEnc fromVersion toVersion batchSize
          else throw (ErrMsg "rotate: unknown cursor_table"));
        if n >? 0 then mret (n, false)
        else
          let table' := nextTable table in
          setCursorTable s table' ;;
          continueFrom fuel' s fromEnc toEnc fromVersion toVersion batchSize actor table'
    end.

Definition Continue (s : Scope) (batchSize : Z) (actor : string) : M (Z * bool) :=
  let batchSize := clampBatchSize batchSize in
  st ← Status s;
  match st with
  | None => throw (ErrMsg "rotate: no rotation - call Start first")
  | Some st =>
      if bool_decide (st.(r_status) = StatusInProgress) then
        fromEnc ← GetVersion kek s st.(r_from);
        toEnc ← GetVersion kek s st.(r_to);
        continueFrom 3 s fromEnc toEnc st.(r_from) st.(r_to) batchSize actor st.(r_cursor_table)
      else mret (0, true)
  end.

(** The driver loop of [cmd/hupi-rotate-key]; [None] when the fuel runs out. *)
Fixpoint rotateLoop (fuel : nat) (s : Scope) (batchSize : Z) (actor : string) (total : Z) :
    M (option Z) :=
  match fuel with
  | O => mret None
  | S fuel' =>
      pd ← Continue s batchSize actor;
      let total := total + pd.1 in
      if pd.2 : bool then mret (Some total) else rotateLoop fuel' s batchSize actor total
  end.

(** ** Prune *)

(** The count over the four tables. *)
Definition stillReferenced (se : session) (s : Scope) (v : Z) (d : db) : Z :=
  Z.of_nat (length (filter (fun r => visible se r.(e_scope) = true /\ r.(e_scope) = s /\
              r.(e_key_version) < v) d.(episodes))) +
  Z.of_nat (length (filter (fun r => visible se r.(s_scope) = true /\ r.(s_scope) = s /\
              r.(s_key_version) < v) d.(summaries))) +
  Z.of_nat (length (filter (fun r => visible se r.(n_scope) = true /\ r.(n_scope) = s /\
              r.(n_key_version) < v) d.(entities))) +
  Z.of_nat (length (filter (fun p : KeyFactRow * SummaryRow =>
              visible se p.1.(f_scope) = true /\ visible se p.2.(s_scope) = true /\
              p.2.(s_id) = p.1.(f_summary_id) /\ p.2.(s_scope) = s /\
              p.1.(f_key_version) < v)
              (f ← d.(key_facts); su ← d.(summaries); [(f, su)]))).

(** [delete from scope_keys where scope = .. and version < ..] *)
Definition prunable (s : Scope) (v : Z) (key : Scope * Z) : bool :=
  bool_decide (key.1 = s) && (key.2 <? v).

Definition deleteScopeKeys (s : Scope) (v : Z) : db -> db :=
  set_scope_keys (filter (fun kv => prunable s v kv.1 = false)).

Definition prunedCount (s : Scope) (v : Z) (d : db) : Z :=
  Z.of_nat (length (filter (fun kv : (Scope * Z) * string => prunable s v kv.1 = true)
    (map_to_list d.(scope_keys)))).

(** The status test and the count, each in a transaction of its own. *)
Definition pruneCheck (s : Scope) : M RotationRow :=
  st ← Status s;
  match st with
  | None => throw (ErrMsg "rotate: no rotation record")
  | Some st =>
      if bool_decide (st.(r_status) = StatusCompleted) then
        n ← wrapErr "rotate: verify no row still needs an old key"
          (Run s s (fun se => query (stillReferenced se s st.(r_to))));
        if n >? 0 then throw (ErrMsg "rotate: rows still reference an older key version")
        else mret st
      else throw (ErrMsg "rotate: not completed - refusing to prune")
  end.

Definition pruneDelete (s : Scope) (actor : string) (toVersion : Z) : M Z :=
  wrapErr "rotate: prune old keys" (Run s s (fun se =>
    pruned ← query (prunedCount s toVersion);
    modDb (deleteScopeKeys s toVersion) ;;
    Write se (rotationEntry s actor
      [("action", JString "prune"); ("pruned_versions", JInt pruned);
       ("kept_from_version", JInt toVersion)]) ;;
    mret pruned)).

(** [for v := st.FromVersion; v < st.ToVersion; v++ { Evict }] *)
Fixpoint evictFrom (n : nat) (s : Scope) (v : Z) : M () :=
  match n with
  | O => mret tt
  | S n' => Evict s v ;; evictFrom n' s (v + 1)
  end.

Definition Prune (s : Scope) (actor : string) : M Z :=
  st ← pruneCheck s;
  pruned ← pruneDelete s actor st.(r_to);
  evictFrom (Z.to_nat (st.(r_to) - st.(r_from))) s st.(r_from) ;;
  mret pruned.
End Rotate.
