(* ===== verification/RotateFacts.v ===== *)
(** * RotateFacts: invariants and lemmas of key rotation

    What a migration batch may do to a database ([dbStep]): rows of the scope
    move from the old version to the new one with the plaintext a reader gets
    unchanged, every other row is left byte for byte as it was, and the key
    table is untouched. *)

From stdpp Require Import gmap.
From S2P Require Import Prelude Identity Schema Db KeyStore Rotate.
#[local] Open Scope string_scope.
#[local] Open Scope list_scope.
#[local] Open Scope Z_scope.

(** ** Plaintext views *)

Section Views.
Context `{HA : AEAD}.
(** The key of each scope and version. *)
Variable K : Scope -> Z -> option string.

Definition readWith (s : Scope) (v : Z) (ct : option string) : option string :=
  k ← K s v; resToOption (Decrypt k ct).

(** A row with its ciphertexts replaced by what a reader gets, and its key
    version erased. *)
Definition plainEpisode (r : EpisodeRow) : EpisodeRow := {|
  e_id := r.(e_id); e_scope := r.(e_scope); e_ts := r.(e_ts); e_type := r.(e_type);
  e_vendor := r.(e_vendor); e_model := r.(e_model);
  e_input := readWith r.(e_scope) r.(e_key_version) r.(e_input);
  e_output := readWith r.(e_scope) r.(e_key_version) r.(e_output);
  e_note := (ct ← r.(e_note); readWith r.(e_scope) r.(e_key_version) (Some ct));
  e_key_version := 0;
  e_importance := r.(e_importance); e_hash := r.(e_hash); e_truncated := r.(e_truncated);
  e_gate := r.(e_gate); e_refers_to := r.(e_refers_to); e_rating := r.(e_rating);
  e_refs := r.(e_refs); e_embedding := r.(e_embedding);
  e_embedding_model := r.(e_embedding_model) |}.

Definition plainSummary (r : SummaryRow) : SummaryRow :=
  MkSummaryRow r.(s_id) r.(s_scope) (readWith r.(s_scope) r.(s_key_version) r.(s_text)) 0
    r.(s_supersedes) r.(s_embedding) r.(s_embedding_model) r.(s_info).

Definition plainKeyFact (r : KeyFactRow) : KeyFactRow :=
  MkKeyFactRow r.(f_id) r.(f_summary_id) r.(f_scope)
    (readWith r.(f_scope) r.(f_key_version) r.(f_fact)) 0 r.(f_grounded)
    r.(f_embedding) r.(f_embedding_model) r.(f_source_episode_ids).

Definition plainEntity (r : EntityRow) : EntityRow :=
  MkEntityRow r.(n_id) r.(n_scope) r.(n_kind) r.(n_name)
    (readWith r.(n_scope) r.(n_key_version) r.(n_attributes)) 0
    r.(n_embedding) r.(n_embedding_model) r.(n_dates).

(** Everything a reader can get out of the four tables. *)
Definition plainDb (d : db) :=
  (map plainEpisode d.(episodes), map plainSummary d.(summaries),
   map plainKeyFact d.(key_facts), map plainEntity d.(entities)).
End Views.

(** The reader's view under the keys stored in the database itself. *)
Definition view `{AEAD} (kek : string) (d : db) := plainDb (keyOf kek d) d.

(** ** Steps of rows and databases *)

Section Steps.
Context `{HA : AEAD}.
Variable K : Scope -> Z -> option string.
Variables (s : Scope) (from to : Z).

Definition rowStep {R P} (scope : R -> Scope) (kv : R -> Z) (plain : R -> P) (r r' : R) : Prop :=
  r' = r \/ (scope r = s /\ kv r = from /\ kv r' = to /\ plain r' = plain r).

Definition epStep := rowStep e_scope e_key_version (plainEpisode K).
Definition suStep := rowStep s_scope s_key_version (plainSummary K).
Definition faStep := rowStep f_scope f_key_version (plainKeyFact K).
Definition enStep := rowStep n_scope n_key_version (plainEntity K).

(** What happens to the progress rows: only the scope's own, and never its
    two versions. *)
Definition rotStep (m m' : gmap Scope RotationRow) : Prop :=
  (forall s', s' <> s -> m' !! s' = m !! s') /\
  (fun r => (r.(r_from), r.(r_to))) <$> m' !! s = (fun r => (r.(r_from), r.(r_to))) <$> m !! s.

Record dbStep (d d' : db) : Prop := {
  st_keys : d'.(scope_keys) = d.(scope_keys);
  st_episodes : Forall2 epStep d.(episodes) d'.(episodes);
  st_summaries : Forall2 suStep d.(summaries) d'.(summaries);
  st_key_facts : Forall2 faStep d.(key_facts) d'.(key_facts);
  st_entities : Forall2 enStep d.(entities) d'.(entities);
  st_rotations : rotStep d.(key_rotations) d'.(key_rotations);
  st_audit : d.(audit_log) `prefix_of` d'.(audit_log)
}.

Context (Hne : from <> to).

#[export] Instance rowStep_refl {R P} sc kv (pl : R -> P) : Reflexive (rowStep sc kv pl).
Proof. intros r. by left. Qed.

#[export] Instance rowStep_trans {R P} sc kv (pl : R -> P) : Transitive (rowStep sc kv pl).
Proof.
  intros r1 r2 r3 [->|(? & ? & ? & ?)] [->|(? & ? & ? & ?)].
  - by left.
  - by right.
  - by right.
  - congruence.
Qed.

#[export] Instance rotStep_refl : Reflexive rotStep.
Proof. by split. Qed.

#[export] Instance rotStep_trans : Transitive rotStep.
Proof.
  intros m1 m2 m3 [H1 H1'] [H2 H2']. split; [|congruence].
  intros s' Hs'. rewrite H2 by done. by apply H1.
Qed.

#[export] Instance dbStep_refl : Reflexive dbStep.
Proof. intros d. by split. Qed.

#[export] Instance dbStep_trans : Transitive dbStep.
Proof.
  intros d1 d2 d3 [] []. split; try (etrans; eassumption).
Qed.

Lemma updateWhere_step {R P} sc kv (pl : R -> P) cond f l :
  (forall r, r ∈ l -> cond r = true -> rowStep sc kv pl r (f r)) ->
  Forall2 (rowStep sc kv pl) l (updateWhere cond f l).
Proof.
  intros H. unfold updateWhere. induction l as [|r l IH]; cbn; constructor.
  - destruct (cond r) eqn:E; [|by left]. apply H; [by left|done].
  - apply IH. intros r' Hr'. apply H. by right.
Qed.

Lemma rowStep_pred {R P} sc kv (pl : R -> P) (l l' : list R) r' :
  Forall2 (rowStep sc kv pl) l l' -> r' ∈ l' ->
  exists r, r ∈ l /\ rowStep sc kv pl r r'.
Proof.
  intros HF [i Hi]%list_elem_of_lookup_1.
  destruct (Forall2_lookup_r _ _ _ _ _ HF Hi) as (r & Hr & Hst).
  exists r. split; [by eapply list_elem_of_lookup_2|done].
Qed.

(** A row still on the old version after a step was there before it. *)
Lemma rowStep_pending_pred {R P} sc kv (pl : R -> P) (l l' : list R) r :
  Forall2 (rowStep sc kv pl) l l' -> r ∈ l' -> kv r = from -> r ∈ l.
Proof.
  intros HF Hr Hv. destruct (rowStep_pred _ _ _ _ _ _ HF Hr) as (r0 & Hr0 & [->|(_ & _ & Hto & _)]);
    [done|congruence].
Qed.

Lemma rowStep_map {R P X} sc kv (pl : R -> P) (g : R -> X) (h : P -> X) (l l' : list R) :
  (forall r, g r = h (pl r)) -> Forall2 (rowStep sc kv pl) l l' -> map g l' = map g l.
Proof.
  intros Hg. induction 1 as [|r r' l l' Hst _ IH]; cbn; [done|]. f_equal; [|done].
  destruct Hst as [->|(_ & _ & _ & Hp)]; [done|]. by rewrite !Hg, Hp.
Qed.

(** A step shows a reader the same four tables. *)
Lemma dbStep_plain d d' : dbStep d d' -> plainDb K d' = plainDb K d.
Proof.
  intros []. unfold plainDb.
  by rewrite (rowStep_map _ _ (plainEpisode K) (plainEpisode K) id _ _ (fun _ => eq_refl) st_episodes0),
    (rowStep_map _ _ (plainSummary K) (plainSummary K) id _ _ (fun _ => eq_refl) st_summaries0),
    (rowStep_map _ _ (plainKeyFact K) (plainKeyFact K) id _ _ (fun _ => eq_refl) st_key_facts0),
    (rowStep_map _ _ (plainEntity K) (plainEntity K) id _ _ (fun _ => eq_refl) st_entities0).
Qed.

(** Primary and foreign keys survive a step. *)
Lemma dbStep_ok d d' : dbStep d d' -> db_ok d -> db_ok d'.
Proof.
  intros [] [].
  pose proof (rowStep_map _ _ (plainEpisode K) e_id e_id _ _ (fun _ => eq_refl) st_episodes0) as He.
  pose proof (rowStep_map _ _ (plainSummary K) s_id s_id _ _ (fun _ => eq_refl) st_summaries0) as Hs.
  pose proof (rowStep_map _ _ (plainKeyFact K) f_id f_id _ _ (fun _ => eq_refl) st_key_facts0) as Hf.
  pose proof (rowStep_map _ _ (plainEntity K) (fun n => (n_scope n, n_id n)) (fun n => (n_scope n, n_id n))
    _ _ (fun _ => eq_refl) st_entities0) as Hn.
  split; [by rewrite He|by rewrite Hs|by rewrite Hf|by rewrite Hn|].
  intros f' Hf'. destruct (rowStep_pred _ _ _ _ _ _ st_key_facts0 Hf') as (f & Hfin & Hst).
  destruct (ok_fact_parent f Hfin) as (su & Hsu & Hid & Hsc).
  apply list_elem_of_lookup_1 in Hsu as [i Hi].
  destruct (Forall2_lookup_l _ _ _ _ _ st_summaries0 Hi) as (su' & Hi' & Hst').
  exists su'. split; [by eapply list_elem_of_lookup_2|].
  assert (f_summary_id f' = f_summary_id f /\ f_scope f' = f_scope f) as [-> ->].
  { destruct Hst as [->|(_ & _ & _ & Hp)]; [done|].
    split; [by apply (f_equal f_summary_id) in Hp|by apply (f_equal f_scope) in Hp]. }
  destruct Hst' as [->|(_ & _ & _ & Hp)]; [done|].
  split; [by apply (f_equal s_id) in Hp; cbn in Hp; congruence|].
  by apply (f_equal s_scope) in Hp; cbn in Hp; congruence.
Qed.
End Steps.

(** ** A batch: the loop over the selected rows *)

Section Loop.
Context `{HA : AEAD}.
Context {R P X : Type} (scope : R -> Scope) (kv : R -> Z) (plain : R -> P) (key : R -> X).
Variables (s : Scope) (from to : Z) (Hne : from <> to).
Variables (rowsOf : db -> list R) (Rel : db -> db -> Prop) (Inv : db -> Prop).
Context `{!Reflexive Rel, !Transitive Rel}.
Hypothesis Rel_rows : forall d d', Rel d d' ->
  Forall2 (rowStep s from to scope kv plain) (rowsOf d) (rowsOf d').
(** Why a step on a row may fail. *)
Variable blame : R -> Prop.
Variable m : R -> M ().

Definition rowDone (rr : R) (d : db) : Prop :=
  forall x, x ∈ rowsOf d -> key x = key rr -> kv x <> from.

(** One row: the step keeps the invariant, moves the row off the old version
    and leaves the rows with other keys in place. *)
Definition rowSpec (c : gmap (Scope * Z) string) (rr : R) : Prop :=
  forall d i fs, Inv d -> rr ∈ rowsOf d ->
  wp (m rr) (fun r w' =>
    quiet fs w'.(w_faults) /\ w'.(w_proc).(cache) = c /\
    match r with
    | Ok _ => Inv w'.(w_db) /\ Rel d w'.(w_db) /\ rowDone rr w'.(w_db) /\
              (forall x, x ∈ rowsOf d -> key x <> key rr -> x ∈ rowsOf w'.(w_db))
    | Err _ => fs <> [] \/ blame rr
    end) (MkWorld d (MkProcess c i) fs).

Lemma rowDone_step rr d d' : Rel d d' -> rowDone rr d -> rowDone rr d'.
Proof.
  intros HR Hd x Hx Hk. destruct (rowStep_pred _ _ _ _ _ _ _ _ _ (Rel_rows _ _ HR) Hx)
    as (y & Hy & Hst).
  destruct Hst as [->|(_ & _ & Hto & _)]; [by apply Hd|congruence].
Qed.

Lemma wp_batch_loop c (rows : list R) d i fs Q :
  (forall rr, rr ∈ rows -> rowSpec c rr) ->
  Inv d -> NoDup (map key rows) -> (forall rr, rr ∈ rows -> rr ∈ rowsOf d) ->
  (forall d' j fs', quiet fs fs' -> Inv d' -> Rel d d' ->
     (forall rr, rr ∈ rows -> rowDone rr d') ->
     (forall x, x ∈ rowsOf d -> key x ∉ map key rows -> x ∈ rowsOf d') ->
     Q (Ok tt) (MkWorld d' (MkProcess c j) fs')) ->
  (forall e d' j fs', quiet fs fs' -> fs <> [] \/ (exists rr, rr ∈ rows /\ blame rr) ->
     Q (Err e) (MkWorld d' (MkProcess c j) fs')) ->
  wp (forM rows m) Q (MkWorld d (MkProcess c i) fs).
Proof.
  revert d i fs Q. induction rows as [|rr rows IH]; intros d i fs Q Hspec Hinv Hnd Hin HOk HErr.
  { apply wp_ret. apply HOk; [oracle|done|done|by intros ? ?%elem_of_nil|done]. }
  cbn in Hnd. apply NoDup_cons in Hnd as [Hnin Hnd]. cbn [forM].
  apply wp_bind. eapply wp_mono; [apply Hspec; [by left|done|apply Hin; by left]|].
  intros [[]|e] [d1 [c1 i1] fs1] (Hq & Hc & Hr); cbn in Hq, Hc, Hr; subst c1.
  2: { apply HErr; [done|]. destruct Hr; [by left|right]. exists rr. split; [by left|done]. }
  destruct Hr as (Hinv1 & HR1 & Hdone & Hframe).
  apply IH; [intros; apply Hspec; by right|done|done| | |].
  - intros r Hr. apply Hframe; [apply Hin; by right|]. intros E. apply Hnin.
    rewrite <- E. by apply list_elem_of_fmap_2.
  - intros d2 j fs2 Hq2 Hinv2 HR2 Hd2 Hf2. apply HOk; [oracle|done|by etrans| |].
    + intros r [->|Hr]%elem_of_cons; [by eapply rowDone_step|by apply Hd2].
    + intros x Hx Hk. cbn in Hk. apply not_elem_of_cons in Hk as [Hk1 Hk2].
      apply Hf2; [by apply Hframe|done].
  - intros e d' j fs2 Hq2 [Hf|(r & Hr & Hb)]; apply HErr; [oracle|left; oracle|oracle|].
    right. exists r. split; [by right|done].
Qed.
End Loop.

(** ** One row of each table *)

Section Rows.
Context `{HA : AEAD, HR : Rand, HL : !AEADLaws}.
Variable K : Scope -> Z -> option string.
Variables (s : Scope) (from to : Z) (fk tk : string).
Hypothesis Hne : from <> to.
Hypothesis Hfk : K s from = Some fk.
Hypothesis Htk : K s to = Some tk.

Lemma wp_recrypt what ct Q d c i fs :
  (forall pt ct', Decrypt fk ct = Ok pt -> Decrypt tk (Some ct') = Ok pt ->
     Q (Ok ct') (MkWorld d (MkProcess c (S i)) fs)) ->
  (forall e j, ~ rand_ok \/ resToOption (Decrypt fk ct) = None ->
     Q (Err e) (MkWorld d (MkProcess c j) fs)) ->
  wp (recrypt fk tk what ct) Q (MkWorld d (MkProcess c i) fs).
Proof.
  intros HOk HErr. unfold recrypt. apply wp_bind, wp_lift.
  destruct (Decrypt fk ct) as [pt|e] eqn:E; cbn.
  - apply wp_wrap, wp_Encrypt; [intros; by eapply HOk|intros; apply HErr; by left].
  - apply HErr. by right.
Qed.

Lemma readWith_from ct : readWith K s from ct = resToOption (Decrypt fk ct).
Proof. unfold readWith. by rewrite Hfk. Qed.
Lemma readWith_to ct : readWith K s to ct = resToOption (Decrypt tk ct).
Proof. unfold readWith. by rewrite Htk. Qed.

(** The columns a migration reads. *)
Definition epReadable (r : EpisodeRow) : Prop :=
  is_Some (readWith K r.(e_scope) r.(e_key_version) r.(e_input)) /\
  is_Some (readWith K r.(e_scope) r.(e_key_version) r.(e_output)) /\
  (r.(e_note) <> None -> is_Some (readWith K r.(e_scope) r.(e_key_version) r.(e_note))).
Definition suReadable (r : SummaryRow) : Prop :=
  is_Some (readWith K r.(s_scope) r.(s_key_version) r.(s_text)).
Definition faReadable (r : KeyFactRow) : Prop :=
  is_Some (readWith K r.(f_scope) r.(f_key_version) r.(f_fact)).
Definition enReadable (r : EntityRow) : Prop :=
  is_Some (readWith K r.(n_scope) r.(n_key_version) r.(n_attributes)).

(** *** The invariant of a batch *)

(** Key facts record their summary's key version. *)
Definition lockstep (d : db) : Prop :=
  forall f su, f ∈ d.(key_facts) -> su ∈ d.(summaries) ->
    su.(s_id) = f.(f_summary_id) -> f.(f_key_version) = su.(s_key_version).

(** Only one table differs. *)
Definition onlyEpisodes (d d' : db) : Prop :=
  d' = set_episodes (fun _ => d'.(episodes)) d /\ Forall2 (epStep K s from to) d.(episodes) d'.(episodes).
Definition onlyEntities (d d' : db) : Prop :=
  d' = set_entities (fun _ => d'.(entities)) d /\ Forall2 (enStep K s from to) d.(entities) d'.(entities).
Definition onlyFacts (d d' : db) : Prop :=
  d' = set_key_facts (fun _ => d'.(key_facts)) d /\ Forall2 (faStep K s from to) d.(key_facts) d'.(key_facts).

#[export] Instance onlyEpisodes_refl : Reflexive onlyEpisodes.
Proof. intros d. split; [by destruct d|reflexivity]. Qed.
#[export] Instance onlyEntities_refl : Reflexive onlyEntities.
Proof. intros d. split; [by destruct d|reflexivity]. Qed.
#[export] Instance onlyFacts_refl : Reflexive onlyFacts.
Proof. intros d. split; [by destruct d|reflexivity]. Qed.

#[local] Instance rs_trans {R P} sc kv (pl : R -> P) : Transitive (rowStep s from to sc kv pl).
Proof. by apply rowStep_trans. Qed.

#[local] Instance onlyEpisodes_trans : Transitive onlyEpisodes.
Proof. intros d1 d2 d3 [E1 F1] [E2 F2]. split; [rewrite E2, E1; done|by etrans]. Qed.
#[local] Instance onlyEntities_trans : Transitive onlyEntities.
Proof. intros d1 d2 d3 [E1 F1] [E2 F2]. split; [rewrite E2, E1; done|by etrans]. Qed.
#[local] Instance onlyFacts_trans : Transitive onlyFacts.
Proof. intros d1 d2 d3 [E1 F1] [E2 F2]. split; [rewrite E2, E1; done|by etrans]. Qed.

Lemma onlyEpisodes_dbStep d d' : onlyEpisodes d d' -> dbStep K s from to d d'.
Proof. intros [-> F]. by split. Qed.
Lemma onlyEntities_dbStep d d' : onlyEntities d d' -> dbStep K s from to d d'.
Proof. intros [-> F]. by split. Qed.
Lemma onlyFacts_dbStep d d' : onlyFacts d d' -> dbStep K s from to d d'.
Proof. intros [-> F]. by split. Qed.

(** *** Updating by primary key *)

(** The rows after [update .. set .. where key = k]. *)
Lemma updateWhere_elem {R} (cond : R -> bool) f l x :
  x ∈ updateWhere cond f l <-> exists y, y ∈ l /\ x = if cond y then f y else y.
Proof. unfold updateWhere. rewrite list_elem_of_fmap. naive_solver. Qed.

Lemma updateWhere_frame {R} (cond : R -> bool) f l x :
  x ∈ l -> cond x = false -> x ∈ updateWhere cond f l.
Proof. intros Hx Hc. apply updateWhere_elem. exists x. by rewrite Hc. Qed.

(** An update by primary key: a step of the table, which moves that row off
    the old version and leaves the others. *)
Lemma updated_row {R P X} sc kv (pl : R -> P) (key : R -> X) (cond : R -> bool) f rr (l : list R) :
  NoDup (map key l) -> rr ∈ l -> cond rr = true ->
  (forall x, x ∈ l -> cond x = true -> key x = key rr) ->
  rowStep s from to sc kv pl rr (f rr) -> kv (f rr) <> from ->
  Forall2 (rowStep s from to sc kv pl) l (updateWhere cond f l) /\
  (forall x, x ∈ updateWhere cond f l -> key x = key rr -> kv x <> from) /\
  (forall x, x ∈ l -> key x <> key rr -> x ∈ updateWhere cond f l).
Proof.
  intros Hnd Hin Hself Hcond Hst Hto.
  assert (Hc : forall x, x ∈ l -> cond x = true -> x = rr)
    by (intros; eapply (NoDup_map_inj key); eauto).
  split_and!.
  - apply updateWhere_step. intros x Hx Hcx. by rewrite (Hc x Hx Hcx).
  - intros x Hx Hk. apply updateWhere_elem in Hx as (y & Hy & ->).
    destruct (cond y) eqn:E; [by rewrite (Hc y Hy E)|].
    assert (y = rr) as -> by (by eapply (NoDup_map_inj key)). congruence.
  - intros x Hx Hk. apply updateWhere_frame; [done|].
    destruct (cond x) eqn:E; [|done]. by rewrite (Hc x Hx E) in Hk.
Qed.

(** *** Episodes *)

Definition epInv (ks : gmap (Scope * Z) string) (d : db) : Prop :=
  d.(scope_keys) = ks /\ db_ok d.

Lemma epStep_recrypt rr input output note ptI ptO :
  rr.(e_scope) = s -> rr.(e_key_version) = from ->
  Decrypt fk rr.(e_input) = Ok ptI -> Decrypt tk (Some input) = Ok ptI ->
  Decrypt fk rr.(e_output) = Ok ptO -> Decrypt tk (Some output) = Ok ptO ->
  match rr.(e_note), note with
  | None, None => True
  | Some ct, Some ct' => exists pt, Decrypt fk (Some ct) = Ok pt /\ Decrypt tk (Some ct') = Ok pt
  | _, _ => False
  end ->
  epStep K s from to rr (recryptEpisode input output note to rr).
Proof.
  intros Hs Hv HI HI' HO HO' HN. right. split_and!; [done|done|done|].
  unfold plainEpisode. cbn [recryptEpisode e_id e_scope e_ts e_type e_vendor e_model e_input
    e_output e_note e_key_version e_importance e_hash e_truncated e_gate e_refers_to e_rating
    e_refs e_embedding e_embedding_model].
  rewrite Hs, Hv, !readWith_from, !readWith_to, HI, HI', HO, HO'. f_equal.
  destruct (e_note rr) as [ct|], note as [ct'|]; try done. cbn.
  destruct HN as (pt & HN & HN'). by rewrite readWith_from, readWith_to, HN, HN'.
Qed.

Definition epBlame (rr : EpisodeRow) : Prop :=
  rr.(e_scope) = s -> rr.(e_key_version) = from -> ~ rand_ok \/ ~ epReadable rr.

Lemma unreadable_input rr : resToOption (Decrypt fk rr.(e_input)) = None -> epBlame rr.
Proof.
  intros Hn Hs Hv. right. intros ([x Hx] & _). rewrite Hs, Hv, readWith_from in Hx. congruence.
Qed.
Lemma unreadable_output rr : resToOption (Decrypt fk rr.(e_output)) = None -> epBlame rr.
Proof.
  intros Hn Hs Hv. right. intros (_ & [x Hx] & _). rewrite Hs, Hv, readWith_from in Hx. congruence.
Qed.
Lemma unreadable_note rr ct : rr.(e_note) = Some ct ->
  resToOption (Decrypt fk (Some ct)) = None -> epBlame rr.
Proof.
  intros Hc Hn Hs Hv. right. intros (_ & _ & H). rewrite Hc in H. destruct (H ltac:(done)) as [x Hx].
  rewrite Hs, Hv, readWith_from in Hx. congruence.
Qed.

Lemma rowSpec_episode ks c rr :
  rr.(e_scope) = s -> rr.(e_key_version) = from ->
  rowSpec e_key_version e_id from episodes onlyEpisodes (epInv ks) epBlame
    (migrateEpisode (MkSession s s) s fk tk to) c rr.
Proof.
  intros Hs Hv d i fs [Hks Hok] Hin. unfold migrateEpisode.
  assert (Hblame : ~ rand_ok \/ epBlame rr -> quiet fs fs /\ c = c /\ (fs <> [] \/ epBlame rr)).
  { intros [Hr|Hr]; (split_and!; [oracle|done|right]); [|done]. intros _ _. by left. }
  apply wp_bind, wp_recrypt; [intros ptI inCT HI HI'|].
  2: { intros e j [Hr|Hr]; apply Hblame; [by left|right; by apply unreadable_input]. }
  apply wp_bind, wp_recrypt; [intros ptO outCT HO HO'|].
  2: { intros e j [Hr|Hr]; apply Hblame; [by left|right; by apply unreadable_output]. }
  apply wp_bind.
  enough (Hfin : forall note j,
    match rr.(e_note), note with
    | None, None => True
    | Some ct, Some ct' => exists pt, Decrypt fk (Some ct) = Ok pt /\ Decrypt tk (Some ct') = Ok pt
    | _, _ => False
    end ->
    wp (wrapErr "update episode" (exec (set_episodes (updateWhere
      (episodeWhere (MkSession s s) s rr.(e_id)) (recryptEpisode inCT outCT note to)))))
    (fun r w' =>
      quiet fs w'.(w_faults) /\ w'.(w_proc).(cache) = c /\
      match r with
      | Ok _ => epInv ks w'.(w_db) /\ onlyEpisodes d w'.(w_db) /\
                rowDone e_key_version e_id from episodes rr w'.(w_db) /\
                (forall x, x ∈ d.(episodes) -> x.(e_id) <> rr.(e_id) -> x ∈ w'.(w_db).(episodes))
      | Err _ => fs <> [] \/ epBlame rr
      end) (MkWorld d (MkProcess c j) fs)).
  { destruct (e_note rr) as [noteCT|] eqn:Enote; [|by apply wp_ret, Hfin].
    apply wp_bind, wp_recrypt; [intros ptN nCT HN HN'|].
    + apply wp_ret, Hfin. by exists ptN.
    + intros e j [Hr|Hr]; apply Hblame; [by left|right; by eapply unreadable_note]. }
  intros note j Hnote. apply wp_wrap, wp_exec; [|intros Hf; split_and!; [oracle|done|by left]].
  destruct (updated_row e_scope e_key_version (plainEpisode K) e_id
    (episodeWhere (MkSession s s) s rr.(e_id)) (recryptEpisode inCT outCT note to) rr (episodes d))
    as (HF & Hd & Hfr).
  - apply Hok.
  - done.
  - unfold episodeWhere, visible. cbn. by rewrite String.eqb_refl, !bool_decide_eq_true_2 by done.
  - intros x Hx Hc. unfold episodeWhere in Hc. by bool_to_prop.
  - by eapply epStep_recrypt.
  - cbn. done.
  - assert (HR' : onlyEpisodes d (set_episodes (updateWhere
      (episodeWhere (MkSession s s) s rr.(e_id)) (recryptEpisode inCT outCT note to)) d)) by by split.
    split_and!; [oracle|done|split; [done|]|done|done|done].
    eapply dbStep_ok; [by apply onlyEpisodes_dbStep|done].
Qed.

(** *** Entities *)

Definition enBlame (rr : EntityRow) : Prop :=
  rr.(n_scope) = s -> rr.(n_key_version) = from -> ~ rand_ok \/ ~ enReadable rr.

Definition enKey (r : EntityRow) : Scope * string := (r.(n_scope), r.(n_id)).

Lemma enStep_recrypt rr attrs pt :
  rr.(n_scope) = s -> rr.(n_key_version) = from ->
  Decrypt fk rr.(n_attributes) = Ok pt -> Decrypt tk (Some attrs) = Ok pt ->
  enStep K s from to rr (recryptEntity attrs to rr).
Proof.
  intros Hs Hv HD HD'. right. split_and!; [done|done|done|].
  unfold plainEntity. cbn [recryptEntity n_id n_scope n_kind n_name n_attributes n_key_version
    n_embedding n_embedding_model].
  by rewrite Hs, Hv, readWith_from, readWith_to, HD, HD'.
Qed.

Lemma rowSpec_entity ks c rr :
  rr.(n_scope) = s -> rr.(n_key_version) = from ->
  rowSpec n_key_version enKey from entities onlyEntities (epInv ks) enBlame
    (migrateEntity (MkSession s s) s fk tk to) c rr.
Proof.
  intros Hs Hv d i fs [Hks Hok] Hin. unfold migrateEntity.
  apply wp_bind, wp_recrypt; [intros pt ct HD HD'|].
  2: { intros e j Hr. split_and!; [oracle|done|right]. intros _ _. destruct Hr as [Hr|Hr]; [by left|].
       right. intros [x Hx]. rewrite Hs, Hv, readWith_from in Hx. congruence. }
  apply wp_wrap, wp_exec; [|intros Hf; split_and!; [oracle|done|by left]].
  destruct (updated_row n_scope n_key_version (plainEntity K) enKey
    (entityWhere (MkSession s s) s rr.(n_id)) (recryptEntity ct to) rr (entities d))
    as (HF & Hd & Hfr).
  - apply Hok.
  - done.
  - unfold entityWhere, visible. cbn. by rewrite String.eqb_refl, !bool_decide_eq_true_2 by done.
  - intros x Hx Hc. unfold entityWhere in Hc. bool_to_prop. unfold enKey. congruence.
  - by eapply enStep_recrypt.
  - cbn. done.
  - assert (HR' : onlyEntities d (set_entities (updateWhere
      (entityWhere (MkSession s s) s rr.(n_id)) (recryptEntity ct to)) d)) by by split.
    split_and!; [oracle|done|split; [done|]|done|done|done].
    eapply dbStep_ok; [by apply onlyEntities_dbStep|done].
Qed.

(** *** Key facts *)

Definition faBlame (rr : KeyFactRow) : Prop :=
  rr.(f_scope) = s -> rr.(f_key_version) = from -> ~ rand_ok \/ ~ faReadable rr.

Lemma faStep_recrypt rr fact pt :
  rr.(f_scope) = s -> rr.(f_key_version) = from ->
  Decrypt fk rr.(f_fact) = Ok pt -> Decrypt tk (Some fact) = Ok pt ->
  faStep K s from to rr (recryptKeyFact fact to rr).
Proof.
  intros Hs Hv HD HD'. right. split_and!; [done|done|done|].
  unfold plainKeyFact. cbn [recryptKeyFact f_id f_summary_id f_scope f_fact f_key_version
    f_grounded f_embedding f_embedding_model].
  by rewrite Hs, Hv, readWith_from, readWith_to, HD, HD'.
Qed.

Lemma rowSpec_keyFact ks c rr :
  rr.(f_scope) = s -> rr.(f_key_version) = from ->
  rowSpec f_key_version f_id from key_facts onlyFacts (epInv ks) faBlame
    (migrateKeyFact (MkSession s s) fk tk to) c rr.
Proof.
  intros Hs Hv d i fs [Hks Hok] Hin. unfold migrateKeyFact.
  apply wp_bind, wp_recrypt; [intros pt ct HD HD'|].
  2: { intros e j Hr. split_and!; [oracle|done|right]. intros _ _. destruct Hr as [Hr|Hr]; [by left|].
       right. intros [x Hx]. rewrite Hs, Hv, readWith_from in Hx. congruence. }
  apply wp_wrap, wp_exec; [|intros Hf; split_and!; [oracle|done|by left]].
  destruct (updated_row f_scope f_key_version (plainKeyFact K) f_id
    (keyFactWhere (MkSession s s) rr.(f_id)) (recryptKeyFact ct to) rr (key_facts d))
    as (HF & Hd & Hfr).
  - apply Hok.
  - done.
  - unfold keyFactWhere, visible. cbn. by rewrite Z.eqb_refl, bool_decide_eq_true_2 by done.
  - intros x Hx Hc. unfold keyFactWhere in Hc. by bool_to_prop.
  - by eapply faStep_recrypt.
  - cbn. done.
  - assert (HR' : onlyFacts d (set_key_facts (updateWhere
      (keyFactWhere (MkSession s s) rr.(f_id)) (recryptKeyFact ct to)) d)) by by split.
    split_and!; [oracle|done|split; [done|]|done|done|done].
    eapply dbStep_ok; [by apply onlyFacts_dbStep|done].
Qed.
(** *** Summaries, with their key facts *)

Definition onlySums (d d' : db) : Prop :=
  d' = set_key_facts (fun _ => d'.(key_facts)) (set_summaries (fun _ => d'.(summaries)) d) /\
  Forall2 (suStep K s from to) d.(summaries) d'.(summaries) /\
  Forall2 (faStep K s from to) d.(key_facts) d'.(key_facts).

#[export] Instance onlySums_refl : Reflexive onlySums.
Proof. intros d. split_and!; [by destruct d|reflexivity|reflexivity]. Qed.
#[local] Instance onlySums_trans : Transitive onlySums.
Proof.
  intros d1 d2 d3 (E1 & F1 & G1) (E2 & F2 & G2). split_and!; [rewrite E2, E1; done|by etrans|by etrans].
Qed.
Lemma onlySums_dbStep d d' : onlySums d d' -> dbStep K s from to d d'.
Proof. intros (-> & F & G). by split. Qed.

Lemma onlyFacts_rows d d' : onlyFacts d d' ->
  Forall2 (faStep K s from to) d.(key_facts) d'.(key_facts).
Proof. by intros []. Qed.
Lemma onlyEpisodes_rows d d' : onlyEpisodes d d' ->
  Forall2 (epStep K s from to) d.(episodes) d'.(episodes).
Proof. by intros []. Qed.
Lemma onlyEntities_rows d d' : onlyEntities d d' ->
  Forall2 (enStep K s from to) d.(entities) d'.(entities).
Proof. by intros []. Qed.
Lemma onlySums_rows d d' : onlySums d d' ->
  Forall2 (suStep K s from to) d.(summaries) d'.(summaries).
Proof. by intros (_ & ? & _). Qed.

(** The facts the rotation started from, for blaming an unreadable one. *)
Variable F0 : list KeyFactRow.

Definition suInv (ks : gmap (Scope * Z) string) (d : db) : Prop :=
  epInv ks d /\ lockstep d /\ Forall2 (faStep K s from to) F0 d.(key_facts).

Definition suBlame (rr : SummaryRow) : Prop :=
  rr.(s_scope) = s -> rr.(s_key_version) = from ->
  ~ rand_ok \/ ~ suReadable rr \/
  exists f, f ∈ F0 /\ f.(f_scope) = s /\ f.(f_key_version) = from /\ ~ faReadable f.

Lemma suStep_recrypt rr text pt :
  rr.(s_scope) = s -> rr.(s_key_version) = from ->
  Decrypt fk rr.(s_text) = Ok pt -> Decrypt tk (Some text) = Ok pt ->
  suStep K s from to rr (recryptSummary text to rr).
Proof.
  intros Hs Hv HD HD'. right. split_and!; [done|done|done|].
  unfold plainSummary. cbn [recryptSummary s_id s_scope s_text s_key_version s_supersedes
    s_embedding s_embedding_model].
  by rewrite Hs, Hv, readWith_from, readWith_to, HD, HD'.
Qed.


(** All the facts of a summary on the old version are selected. *)
Lemma wp_migrateKeyFacts ks c summaryID d i fs Q :
  epInv ks d -> Forall2 (faStep K s from to) F0 d.(key_facts) ->
  (forall d' j fs', quiet fs fs' -> epInv ks d' -> onlyFacts d d' ->
     (forall f, f ∈ d'.(key_facts) -> f.(f_summary_id) = summaryID -> f.(f_scope) = s ->
        f.(f_key_version) <> from) ->
     (forall f, f ∈ d.(key_facts) -> f.(f_summary_id) <> summaryID -> f ∈ d'.(key_facts)) ->
     Q (Ok tt) (MkWorld d' (MkProcess c j) fs')) ->
  (forall e d' j fs', quiet fs fs' ->
     fs <> [] \/ ~ rand_ok \/
     (exists f, f ∈ F0 /\ f.(f_scope) = s /\ f.(f_key_version) = from /\ ~ faReadable f) ->
     Q (Err e) (MkWorld d' (MkProcess c j) fs')) ->
  wp (migrateKeyFacts (MkSession s s) fk tk summaryID from to) Q (MkWorld d (MkProcess c i) fs).
Proof.
  intros Hinv HF0 HOk HErr. unfold migrateKeyFacts.
  apply wp_bind, wp_wrap, wp_query; [|intros Hf; apply HErr; [oracle|by left]].
  set (rows := selectKeyFacts _ _ _ d).
  assert (Hrows : forall f, f ∈ rows <->
    f ∈ d.(key_facts) /\ f.(f_scope) = s /\ f.(f_summary_id) = summaryID /\ f.(f_key_version) = from).
  { intros f. unfold rows, selectKeyFacts. rewrite list_elem_of_filter, visible_same. by split; intros ?; destruct_and?. }
  eapply (wp_batch_loop f_scope f_key_version (plainKeyFact K) f_id
    s from to Hne key_facts onlyFacts (epInv ks) onlyFacts_rows faBlame).
  - intros rr (_ & Hs & _ & Hv)%Hrows. by apply rowSpec_keyFact.
  - done.
  - apply NoDup_map_filter, Hinv.
  - by intros rr (? & _)%Hrows.
  - intros d' j fs' Hq Hi HRel Hd Hfr. apply HOk; [oracle|done|done| |].
    + intros f Hf Hid Hs Hv.
      destruct (rowStep_pred _ _ _ _ _ _ _ _ _ (proj2 HRel) Hf) as (f0 & Hf0 & [->|(_ & _ & Hto & _)]).
      * eapply Hd; [apply Hrows; eauto|done|done|done].
      * congruence.
    + intros f Hf Hid. apply Hfr; [done|]. intros (f2 & E & Hf2)%list_elem_of_fmap.
      apply Hrows in Hf2 as (Hf2 & _ & Hid2 & _).
      assert (f = f2) as -> by (eapply (NoDup_map_inj f_id); [apply Hinv|..]; done). done.
  - intros e d' j fs' Hq [Hf|(f & (Hf & Hs & _ & Hv)%Hrows & Hb)]; apply HErr; [oracle|left; oracle|oracle|].
    destruct (Hb Hs Hv) as [Hr|Hr]; [by right; left|]. right; right.
    destruct (rowStep_pred _ _ _ _ _ _ _ _ _ HF0 Hf) as (f0 & Hf0 & [->|(_ & _ & Hto & _)]); [|congruence].
    by exists f0.
Qed.

(** A summary and all its facts move together, so they stay in lockstep. *)
Lemma lockstep_moved (d d2 : db) rr sums' :
  db_ok d -> lockstep d -> rr ∈ d.(summaries) -> rr.(s_scope) = s -> rr.(s_key_version) = from ->
  d2.(summaries) = sums' -> NoDup (map f_id d2.(key_facts)) ->
  (forall x, x ∈ sums' -> x.(s_id) = rr.(s_id) -> x.(s_key_version) = to) ->
  (forall x, x ∈ sums' -> x.(s_id) <> rr.(s_id) -> x ∈ d.(summaries)) ->
  Forall2 (faStep K s from to) d.(key_facts) d2.(key_facts) ->
  (forall f, f ∈ d2.(key_facts) -> f.(f_summary_id) = rr.(s_id) -> f.(f_scope) = s ->
     f.(f_key_version) <> from) ->
  (forall f, f ∈ d.(key_facts) -> f.(f_summary_id) <> rr.(s_id) -> f ∈ d2.(key_facts)) ->
  lockstep d2.
Proof.
  intros Hok Hlock Hrr Hs Hv <- Hnd Hself Hother HF Hmoved Hframe f su Hf Hsu Hid.
  destruct (rowStep_pred _ _ _ _ _ _ _ _ _ HF Hf) as (f0 & Hf0 & Hst).
  assert (f_summary_id f = f_summary_id f0 /\ f_scope f = f_scope f0 /\ f_id f = f_id f0)
    as (Hfs & Hfsc & Hfid).
  { destruct Hst as [->|(_ & _ & _ & Hp)]; [done|].
    split_and!; [by apply (f_equal f_summary_id) in Hp|by apply (f_equal f_scope) in Hp|
                 by apply (f_equal f_id) in Hp]. }
  destruct (decide (f_summary_id f = s_id rr)) as [E|E].
  - rewrite (Hself su Hsu) by congruence.
    destruct Hst as [->|(_ & _ & Hto & _)]; [|done]. exfalso.
    destruct (ok_fact_parent _ Hok f0 Hf0) as (pa & Hpa & Hpid & Hpsc).
    assert (pa = rr) as -> by (eapply (NoDup_map_inj s_id); [apply Hok|..]; congruence).
    apply (Hmoved f0); [done|done|congruence|]. rewrite (Hlock f0 rr); done.
  - assert (f = f0) as ->.
    { eapply (NoDup_map_inj f_id); [exact Hnd|done| |done]. apply Hframe; congruence. }
    apply Hlock; [done| |done]. apply Hother; congruence.
Qed.

Lemma rowSpec_summary ks c rr :
  rr.(s_scope) = s -> rr.(s_key_version) = from ->
  rowSpec s_key_version s_id from summaries onlySums (suInv ks) suBlame
    (migrateSummary (MkSession s s) fk tk from to) c rr.
Proof.
  intros Hs Hv d i fs ([Hks Hok] & Hlock & HF0) Hin. unfold migrateSummary.
  apply wp_bind, wp_recrypt; [intros pt ct HD HD'|].
  2: { intros e j Hr. split_and!; [oracle|done|right]. intros _ _. destruct Hr as [Hr|Hr]; [by left|].
       right; left. intros [x Hx]. rewrite Hs, Hv, readWith_from in Hx. congruence. }
  apply wp_bind, wp_wrap, wp_exec; [|intros Hf; split_and!; [oracle|done|by left]].
  set (f := recryptSummary ct to). set (cond := summaryWhere (MkSession s s) rr.(s_id)).
  destruct (updated_row s_scope s_key_version (plainSummary K) s_id cond f rr (summaries d))
    as (HF & Hd & Hfr).
  { apply Hok. } { done. }
  { unfold cond, summaryWhere, visible. cbn. by rewrite String.eqb_refl, bool_decide_eq_true_2. }
  { intros x Hx Hc. unfold cond, summaryWhere in Hc. by bool_to_prop. }
  { by eapply suStep_recrypt. } { cbn. done. }
  set (d1 := set_summaries (updateWhere cond f) d).
  assert (HR1 : onlySums d d1) by by split_and!.
  assert (Hinv1 : epInv ks d1) by (split; [done|]; eapply dbStep_ok; [by apply onlySums_dbStep|done]).
  apply wp_wrap, (wp_migrateKeyFacts ks); [done|done| |].
  - intros d2 j fs' Hq [Hks2 Hok2] [E2 HF2] Hmoved Hframe.
    assert (HR2 : onlySums d d2).
    { split_and!; [rewrite E2; done|by rewrite E2|done]. }
    split_and!; [oracle|done|(split; [by split|split])|done| |].
    + apply (lockstep_moved d d2 rr (updateWhere cond f (summaries d)));
        [done|done|done|done|done|by rewrite E2|apply Hok2| | |done|done|done].
      * intros x Hx Hid. destruct (proj1 (updateWhere_elem _ _ _ _) Hx) as (y & Hy & Exy).
        destruct (cond y) eqn:Ec; [by subst x|]. exfalso.
        assert (y = rr) as -> by (eapply (NoDup_map_inj s_id); [apply Hok|..]; congruence).
        unfold cond, summaryWhere, visible in Ec. cbn in Ec.
        by rewrite String.eqb_refl, bool_decide_eq_true_2 in Ec.
      * intros x Hx Hid. apply updateWhere_elem in Hx as (y & Hy & ->).
        destruct (cond y) eqn:Ec; [|done]. unfold cond, summaryWhere in Ec. bool_to_prop.
        by cbn in Hid.
    + by etrans.
    + rewrite E2. intros x Hx Hk. by apply Hd.
    + rewrite E2. intros x Hx Hk. by apply Hfr.
  - intros e d' j fs' Hq Hor. split_and!; [oracle|done|].
    destruct Hor as [Hf|[Hr|Hr]]; [left; oracle|right|right]; intros _ _; [by left|by right; right].
Qed.
End Rows.
