(* ===== verification/RotateBatch.v ===== *)
(** * RotateBatch: the batches and the table loop of a rotation

    Each batch, whatever faults it meets, either takes the database through a
    [dbStep] and lowers the number of rows left on the old version, or leaves
    it unchanged; the loop over the tables composes them. *)

From stdpp Require Import gmap.
From S2P Require Import Prelude Identity Schema Db KeyStore Rotate RotateFacts.
#[local] Open Scope string_scope.
#[local] Open Scope list_scope.
#[local] Open Scope Z_scope.

(** ** How many rows are left *)

Section Pending.
Context {R P X : Type} (scope : R -> Scope) (kv : R -> Z) (plain : R -> P) (key : R -> X).
Variables (s : Scope) (from to : Z).

Definition pendingRows (l : list R) : list R := filter (fun r => scope r = s /\ kv r = from) l.
Definition pending (l : list R) : nat := length (pendingRows l).

Context (Hne : from <> to).

Lemma pending_cons r l :
  pending (r :: l) = ((if decide (scope r = s /\ kv r = from) then 1 else 0) + pending l)%nat.
Proof. unfold pending, pendingRows. rewrite filter_cons. by destruct (decide _). Qed.

Lemma pending_step_le l l' :
  Forall2 (rowStep s from to scope kv plain) l l' -> (pending l' <= pending l)%nat.
Proof.
  induction 1 as [|r r' l l' Hst HF IH]; [done|]. rewrite !pending_cons.
  destruct Hst as [->|(_ & _ & Hto & _)]; [lia|].
  rewrite (decide_False (P := scope r' = s /\ kv r' = from)); [lia|]. intros [_ ?]. congruence.
Qed.

(** A pending row that has been dealt with makes the count smaller. *)
Lemma pending_step_lt l l' r :
  Forall2 (rowStep s from to scope kv plain) l l' -> r ∈ pendingRows l ->
  (forall x, x ∈ l' -> key x = key r -> kv x <> from) ->
  (pending l' < pending l)%nat.
Proof.
  intros HF Hr Hd. unfold pendingRows in Hr. apply list_elem_of_filter in Hr as [[Hs Hv] Hr].
  induction HF as [|r0 r' l l' Hst HF IH]; [by apply elem_of_nil in Hr|].
  pose proof (pending_step_le _ _ HF) as Hle.
  rewrite !pending_cons. apply elem_of_cons in Hr as [->|Hr].
  - rewrite (decide_True (P := scope r0 = s /\ kv r0 = from)) by done.
    rewrite (decide_False (P := scope r' = s /\ kv r' = from)); [lia|].
    intros [_ Hv']. destruct Hst as [->|(_ & _ & Hto & _)]; [|congruence].
    apply (Hd r0); [by left|done|done].
  - assert (Hlt : (pending l' < pending l)%nat).
    { apply IH; [done|]. intros x Hx. apply Hd. by right. }
    destruct Hst as [->|(_ & _ & Hto & _)]; [lia|].
    rewrite (decide_False (P := scope r' = s /\ kv r' = from)); [lia|]. intros [_ ?]. congruence.
Qed.

Lemma pending_zero l r : pending l = 0%nat -> r ∈ l -> scope r = s -> kv r <> from.
Proof.
  intros H0 Hr Hs Hv. unfold pending in H0. apply length_zero_iff_nil in H0.
  assert (r ∈ pendingRows l) as Hin by (by apply list_elem_of_filter).
  rewrite H0 in Hin. by apply elem_of_nil in Hin.
Qed.
End Pending.

(** The selected rows: some of the pending ones, and none only if there are
    none. *)
Section Select.
Context {R : Type} (scope : R -> Scope) (kv : R -> Z) (less : R -> R -> bool).
Variables (s : Scope) (from n : Z).

Definition selectRows (l : list R) : list R :=
  take (Z.to_nat n) (sort_by less (filter (fun r =>
    visible (MkSession s s) (scope r) = true /\ scope r = s /\ kv r = from) l)).

Lemma selectRows_elem l r : r ∈ selectRows l -> r ∈ pendingRows scope kv s from l.
Proof.
  intros Hr. apply elem_of_take in Hr as (i & Hr & _).
  apply list_elem_of_lookup_2, elem_of_sort_by, list_elem_of_filter in Hr as [(_ & ? & ?) Hin].
  by apply list_elem_of_filter.
Qed.

Lemma selectRows_in l r : r ∈ selectRows l -> r ∈ l /\ scope r = s /\ kv r = from.
Proof. intros [[] ]%selectRows_elem%list_elem_of_filter. done. Qed.

Lemma selectRows_nil l : 1 <= n -> selectRows l = [] -> pending scope kv s from l = 0%nat.
Proof.
  intros Hn E. unfold pending. apply length_zero_iff_nil.
  unfold selectRows in E. set (l' := filter _ l) in E.
  assert (l' = []) as E'.
  { destruct (sort_by less l') as [|x xs] eqn:Es.
    - apply Permutation_nil. rewrite <- Es. apply sort_by_perm.
    - destruct (Z.to_nat n) eqn:En; [lia|done]. }
  destruct (pendingRows scope kv s from l) as [|x xs] eqn:Ep; [done|]. exfalso.
  assert (x ∈ pendingRows scope kv s from l) as Hx by (rewrite Ep; by left).
  apply list_elem_of_filter in Hx as [[Hs Hv] Hx].
  assert (x ∈ l') as Hin.
  { apply list_elem_of_filter. split; [|done]. split; [by apply visible_same|done]. }
  rewrite E' in Hin. by apply elem_of_nil in Hin.
Qed.

Lemma selectRows_NoDup {X} (key : R -> X) l : NoDup (map key l) -> NoDup (map key (selectRows l)).
Proof.
  intros Hnd. unfold selectRows.
  rewrite (fmap_take key).
  eapply sublist_NoDup; [|apply sublist_take].

  rewrite sort_by_perm.
  by apply NoDup_map_filter.
Qed.
End Select.

Section Batches.
Context `{HA : AEAD, HR : Rand, HL : !AEADLaws}.
Variable K : Scope -> Z -> option string.
Variables (s : Scope) (from to n : Z) (fk tk : string).
Hypothesis Hne : from <> to.
Hypothesis Hfk : K s from = Some fk.
Hypothesis Htk : K s to = Some tk.
Hypothesis Hn : 1 <= n.

Definition pendEp (d : db) : nat := pending e_scope e_key_version s from d.(episodes).
Definition pendSu (d : db) : nat := pending s_scope s_key_version s from d.(summaries).
Definition pendEn (d : db) : nat := pending n_scope n_key_version s from d.(entities).
(** The rows a rotation still has to move (key facts move with summaries). *)
Definition pendingTotal (d : db) : nat := (pendEp d + pendSu d + pendEn d)%nat.

Lemma pending_dbStep d d' : dbStep K s from to d d' ->
  (pendEp d' <= pendEp d)%nat /\ (pendSu d' <= pendSu d)%nat /\ (pendEn d' <= pendEn d)%nat.
Proof.
  intros []. unfold pendEp, pendSu, pendEn.
  split_and!; eapply pending_step_le; eassumption.
Qed.

(** A pending row of the scope, or a fact moving with one, that no reader can
    decrypt. *)
Definition unreadable (d : db) : Prop :=
  (exists r, r ∈ d.(episodes) /\ r.(e_scope) = s /\ r.(e_key_version) = from /\ ~ epReadable K r) \/
  (exists r, r ∈ d.(summaries) /\ r.(s_scope) = s /\ r.(s_key_version) = from /\ ~ suReadable K r) \/
  (exists r, r ∈ d.(key_facts) /\ r.(f_scope) = s /\ r.(f_key_version) = from /\ ~ faReadable K r) \/
  (exists r, r ∈ d.(entities) /\ r.(n_scope) = s /\ r.(n_key_version) = from /\ ~ enReadable K r).

Definition rotMeta (d : db) : option (Z * Z * RotStatus * string) :=
  (fun r => (r.(r_from), r.(r_to), r.(r_status), r.(r_cursor_table))) <$> d.(key_rotations) !! s.

(** The invariant of a rotation between statements. *)
Definition rowsInv (d : db) : Prop := db_ok d /\ lockstep d.

(** What a batch does when it reports [k] rows. *)
Definition batchDone (pend : db -> nat) (d : db) (k : Z) (d' : db) : Prop :=
  rowsInv d' /\ dbStep K s from to d d' /\ rotMeta d' = rotMeta d /\
  d'.(audit_log) = d.(audit_log) /\
  (0 < k -> (pendingTotal d' < pendingTotal d)%nat) /\
  (k <= 0 -> d' = d /\ pend d = 0%nat).

(** *** The shape all three batches share *)

Section Shape.
Context {R P X : Type} (scope : R -> Scope) (kv : R -> Z) (plain : R -> P) (key : R -> X).
Variables (rowsOf : db -> list R) (less : R -> R -> bool).
Variables (Rel : db -> db -> Prop) (Inv : db -> Prop) (blame : R -> Prop) (m : session -> R -> M ()).
Variables (sel : session -> db -> list R) (ids : list R -> list string).
Context `{!Reflexive Rel, !Transitive Rel}.
Hypothesis Rel_rows : forall d d', Rel d d' ->
  Forall2 (rowStep s from to scope kv plain) (rowsOf d) (rowsOf d').
Hypothesis sel_rows : forall d, sel (MkSession s s) d = selectRows scope kv less s from n (rowsOf d).
Hypothesis Inv_keys : forall d, Inv d -> NoDup (map key (rowsOf d)).
Hypothesis ids_nil : ids [] = [].

Lemma wp_batch msg c d i fs Q :
  (forall rr, scope rr = s -> kv rr = from -> rowSpec kv key from rowsOf Rel Inv blame (m (MkSession s s)) c rr) ->
  Inv d ->
  (forall k d1 d' j fs', quiet fs fs' -> Inv d1 -> Rel d d1 ->
     d' = d1 \/ (exists id, d' = updRotation s (setCursorId id) d1) ->
     (0 < k -> (pending scope kv s from (rowsOf d1) < pending scope kv s from (rowsOf d))%nat) ->
     (k <= 0 -> d' = d /\ pending scope kv s from (rowsOf d) = 0%nat) ->
     Q (Ok k) (MkWorld d' (MkProcess c j) fs')) ->
  (forall e j fs', quiet fs fs' ->
     fs <> [] \/ (exists r, r ∈ rowsOf d /\ scope r = s /\ kv r = from /\ blame r) ->
     Q (Err e) (MkWorld d (MkProcess c j) fs')) ->
  wp (Run s s (fun se =>
        rows ← wrapErr msg (query (sel se));
        forM rows (m se) ;;
        advanceCursor s (ids rows) ;;
        mret (Z.of_nat (length rows)))) Q (MkWorld d (MkProcess c i) fs).
Proof.
  intros Hspec Hinv HOk HErr. apply wp_Run; [intros; apply HErr; [done|by left]|].
  intros fs0 Hq0. apply wp_bind, wp_wrap, wp_query.
  2: { intros Hf. split; [oracle|]. intros gs Hgs. apply HErr; [oracle|left; oracle]. }
  assert (Hrows : forall r, r ∈ sel (MkSession s s) d -> r ∈ rowsOf d /\ scope r = s /\ kv r = from).
  { intros r Hr. rewrite sel_rows in Hr. by eapply selectRows_in. }
  assert (Hnd : NoDup (map key (sel (MkSession s s) d))) by (rewrite sel_rows; by apply selectRows_NoDup, Inv_keys).
  apply wp_bind. destruct (sel (MkSession s s) d) as [|r0 rows] eqn:Esel.
  { apply wp_ret, wp_bind. rewrite ids_nil. apply wp_ret, wp_ret. split; [oracle|].
    assert (pending scope kv s from (rowsOf d) = 0%nat).
    { eapply selectRows_nil; [done|]. by rewrite <- sel_rows. }
    intros gs Hgs. split; [|intros Hf e; apply HErr; [oracle|by left]].
    eapply HOk; [oracle|done|done|by left|done|done]. }
  apply (wp_batch_loop scope kv plain key s from to Hne rowsOf Rel Inv Rel_rows blame).
  - intros rr Hrr. apply Hspec; by apply Hrows.
  - done.
  - done.
  - intros rr Hrr. by apply Hrows.
  - intros d1 j fs1 Hq1 Hi1 HRel Hdone _.
    assert (Hpos : (pending scope kv s from (rowsOf d1) < pending scope kv s from (rowsOf d))%nat).
    { apply (pending_step_lt scope kv plain key s from to Hne _ _ r0); [by apply Rel_rows| |].
      - apply list_elem_of_filter. destruct (Hrows r0 ltac:(by left)) as (? & ? & ?). done.
      - apply Hdone. by left. }
    assert (Hend : forall d' gs, d' = d1 \/ (exists id, d' = updRotation s (setCursorId id) d1) ->
      quiet fs1 gs -> Q (Ok (Z.of_nat (length (r0 :: rows)))) (MkWorld d' (MkProcess c j) gs)).
    { intros d' gs Hd' Hgs. eapply HOk; [oracle|exact Hi1|exact HRel|done|done|]. cbn. lia. }
    apply wp_bind. unfold advanceCursor. destruct (last (ids (r0 :: rows))) as [id|].
    + apply wp_wrap, wp_exec.
      * apply wp_ret. split; [oracle|]. intros gs Hgs.
        split; [apply Hend; [by right; exists id|oracle]|].
        intros Hf e. apply HErr; [oracle|by left].
      * intros Hf. split; [oracle|]. intros gs Hgs. apply HErr; [oracle|left; oracle].
    + apply wp_ret, wp_ret. split; [oracle|]. intros gs Hgs.
      split; [apply Hend; [by left|oracle]|]. intros Hf e. apply HErr; [oracle|by left].
  - intros e d' j fs1 Hq1 Hor. split; [oracle|]. intros gs Hgs. apply HErr; [oracle|].
    destruct Hor as [Hf|(r & Hr & Hb)]; [left; oracle|right]. exists r.
    destruct (Hrows r Hr) as (? & ? & ?). done.
Qed.
End Shape.

(** *** The three tables *)

#[local] Instance oep_trans : Transitive (onlyEpisodes K s from to).
Proof. by apply onlyEpisodes_trans. Qed.
#[local] Instance oen_trans : Transitive (onlyEntities K s from to).
Proof. by apply onlyEntities_trans. Qed.
#[local] Instance osu_trans : Transitive (onlySums K s from to).
Proof. by apply onlySums_trans. Qed.

Lemma selectEpisodes_rows d :
  selectEpisodes (MkSession s s) s from n d =
  selectRows e_scope e_key_version (fun a b => idLess a.(e_id) b.(e_id)) s from n d.(episodes).
Proof. reflexivity. Qed.
Lemma selectSummaries_rows d :
  selectSummaries (MkSession s s) s from n d =
  selectRows s_scope s_key_version (fun a b => idLess a.(s_id) b.(s_id)) s from n d.(summaries).
Proof. reflexivity. Qed.
Lemma selectEntities_rows d :
  selectEntities (MkSession s s) s from n d =
  selectRows n_scope n_key_version (fun a b => idLess a.(n_id) b.(n_id)) s from n d.(entities).
Proof. reflexivity. Qed.
(** Changing only the progress row. *)
Definition onlyCursor (f : RotationRow -> RotationRow) (d d' : db) : Prop :=
  d' = updRotation s f d.

Lemma updRotation_step f d :
  (forall r, r_from (f r) = r_from r /\ r_to (f r) = r_to r) ->
  dbStep K s from to d (updRotation s f d).
Proof.
  intros Hf. split; try done. split.
  - intros s' Hs'. cbn. by rewrite lookup_alter_ne.
  - cbn. rewrite lookup_alter_eq. destruct (key_rotations d !! s) as [r|]; cbn; [|done].
    destruct (Hf r) as [-> ->]. done.
Qed.

Lemma cursorId_meta id d : rotMeta (updRotation s (setCursorId id) d) = rotMeta d.
Proof.
  unfold rotMeta, updRotation. cbn. rewrite lookup_alter_eq.
  by destruct (key_rotations d !! s).
Qed.

(** From the table's own lemma to [batchDone]. *)
Lemma batchDone_intro pend d k d1 d' :
  rowsInv d1 -> dbStep K s from to d d1 -> rotMeta d1 = rotMeta d ->
  d1.(audit_log) = d.(audit_log) ->
  d' = d1 \/ (exists id, d' = updRotation s (setCursorId id) d1) ->
  (0 < k -> (pendingTotal d1 < pendingTotal d)%nat) ->
  (k <= 0 -> d' = d /\ pend d = 0%nat) ->
  batchDone pend d k d'.
Proof.
  intros [Hok Hlock] Hst Hm Hau Hd' Hpos Hz.
  assert (Hd1 : dbStep K s from to d1 d' /\ rotMeta d' = rotMeta d1 /\
    d'.(audit_log) = d1.(audit_log) /\ pendingTotal d' = pendingTotal d1 /\ lockstep d').
  { destruct Hd' as [->|[id ->]]; [done|].
    split_and!; [by apply updRotation_step|apply cursorId_meta|done|done|done]. }
  destruct Hd1 as (Hst' & Hm' & Hau' & Hp' & Hlock'). unfold batchDone.
  split_and!; [split; [by eapply dbStep_ok|done]|by eapply (dbStep_trans K s from to Hne)|congruence|congruence| |done].
  intros Hk. rewrite Hp'. by apply Hpos.
Qed.

Ltac batch_err := intros e j fs' Hq Hor; match goal with HErr : _ |- _ => apply HErr; [done|] end;
  destruct Hor as [Hf|(r & Hr & Hs & Hv & Hb)]; [by left|].

Lemma wp_episodeBatch c d i fs Q :
  rowsInv d ->
  (forall k d' j fs', quiet fs fs' -> batchDone pendEp d k d' ->
     Q (Ok k) (MkWorld d' (MkProcess c j) fs')) ->
  (forall e j fs', quiet fs fs' -> fs <> [] \/ ~ rand_ok \/ unreadable d ->
     Q (Err e) (MkWorld d (MkProcess c j) fs')) ->
  wp (migrateEpisodeBatch s fk tk from to n) Q (MkWorld d (MkProcess c i) fs).
Proof.
  intros [Hok Hlock] HOk HErr. unfold migrateEpisodeBatch.
  apply (wp_batch e_scope e_key_version (plainEpisode K) e_id episodes
    (fun a b => idLess a.(e_id) b.(e_id)) (onlyEpisodes K s from to)
    (epInv d.(scope_keys)) (epBlame K s from) (fun se => migrateEpisode se s fk tk to)
    (fun se => selectEpisodes se s from n) (map e_id)
    (onlyEpisodes_rows K s from to) selectEpisodes_rows).
  - intros d0 [_ H0]. apply H0.
  - done.
  - intros rr Hs Hv. by apply rowSpec_episode.
  - by split.
  - intros k d1 d' j fs' Hq [Hks Hok1] HRel Hd' Hpos Hz. apply HOk; [done|].
    pose proof (onlyEpisodes_dbStep K s from to _ _ HRel) as Hst.
    destruct HRel as [E F].
    apply (batchDone_intro _ _ _ d1); try done; [split; [done|]| | |].
    + rewrite E. done.
    + unfold rotMeta. by rewrite E.
    + by rewrite E.
    + intros Hk. specialize (Hpos Hk). unfold pendingTotal.
      assert (pendSu d1 = pendSu d /\ pendEn d1 = pendEn d) as [-> ->] by (rewrite E; done).
      unfold pendEp. lia.
  - batch_err. destruct (Hb Hs Hv) as [?|?]; [by right; left|]. right; right. left. eauto.
Qed.

Lemma wp_entityBatch c d i fs Q :
  rowsInv d ->
  (forall k d' j fs', quiet fs fs' -> batchDone pendEn d k d' ->
     Q (Ok k) (MkWorld d' (MkProcess c j) fs')) ->
  (forall e j fs', quiet fs fs' -> fs <> [] \/ ~ rand_ok \/ unreadable d ->
     Q (Err e) (MkWorld d (MkProcess c j) fs')) ->
  wp (migrateEntityBatch s fk tk from to n) Q (MkWorld d (MkProcess c i) fs).
Proof.
  intros [Hok Hlock] HOk HErr. unfold migrateEntityBatch.
  apply (wp_batch n_scope n_key_version (plainEntity K) enKey entities
    (fun a b => idLess a.(n_id) b.(n_id)) (onlyEntities K s from to)
    (epInv d.(scope_keys)) (enBlame K s from) (fun se => migrateEntity se s fk tk to)
    (fun se => selectEntities se s from n) (map n_id)
    (onlyEntities_rows K s from to) selectEntities_rows).
  - intros d0 [_ H0]. apply H0.
  - done.
  - intros rr Hs Hv. by apply rowSpec_entity.
  - by split.
  - intros k d1 d' j fs' Hq [Hks Hok1] HRel Hd' Hpos Hz. apply HOk; [done|].
    pose proof (onlyEntities_dbStep K s from to _ _ HRel) as Hst.
    destruct HRel as [E F].
    apply (batchDone_intro _ _ _ d1); try done; [split; [done|]| | |].
    + rewrite E. done.
    + unfold rotMeta. by rewrite E.
    + by rewrite E.
    + intros Hk. specialize (Hpos Hk). unfold pendingTotal.
      assert (pendSu d1 = pendSu d /\ pendEp d1 = pendEp d) as [-> ->] by (rewrite E; done).
      unfold pendEn. lia.
  - batch_err. destruct (Hb Hs Hv) as [?|?]; [by right; left|]. right; right. right; right; right. eauto.
Qed.

Lemma wp_summaryBatch c d i fs Q :
  rowsInv d ->
  (forall k d' j fs', quiet fs fs' -> batchDone pendSu d k d' ->
     Q (Ok k) (MkWorld d' (MkProcess c j) fs')) ->
  (forall e j fs', quiet fs fs' -> fs <> [] \/ ~ rand_ok \/ unreadable d ->
     Q (Err e) (MkWorld d (MkProcess c j) fs')) ->
  wp (migrateSummaryBatch s fk tk from to n) Q (MkWorld d (MkProcess c i) fs).
Proof.
  intros [Hok Hlock] HOk HErr. unfold migrateSummaryBatch.
  apply (wp_batch s_scope s_key_version (plainSummary K) s_id summaries
    (fun a b => idLess a.(s_id) b.(s_id)) (onlySums K s from to)
    (suInv K s from to d.(key_facts) d.(scope_keys)) (suBlame K s from d.(key_facts))
    (fun se => migrateSummary se fk tk from to)
    (fun se => selectSummaries se s from n) (map s_id)
    (onlySums_rows K s from to) selectSummaries_rows).
  - intros d0 [[_ H0] _]. apply H0.
  - done.
  - intros rr Hs Hv. by apply rowSpec_summary.
  - split; [by split|split; [done|reflexivity]].
  - intros k d1 d' j fs' Hq ([Hks Hok1] & Hlock1 & _) HRel Hd' Hpos Hz. apply HOk; [done|].
    pose proof (onlySums_dbStep K s from to _ _ HRel) as Hst.
    destruct HRel as (E & F & G).
    apply (batchDone_intro _ _ _ d1); try done; [| |].
    + unfold rotMeta. by rewrite E.
    + by rewrite E.
    + intros Hk. specialize (Hpos Hk). unfold pendingTotal.
      assert (pendEp d1 = pendEp d /\ pendEn d1 = pendEn d) as [-> ->] by (rewrite E; done).
      unfold pendSu. lia.
  - batch_err. destruct (Hb Hs Hv) as [?|[?|(f & ? & ? & ? & ?)]]; [by right; left| |];
      right; right; right; [left|right; left]; eauto 6.
Qed.
End Batches.
