(* ===== verification/RotateProofs.v ===== *)
(** * RotateProofs: what a key rotation guarantees *)

From stdpp Require Import gmap.
From S2P Require Import Prelude Identity Schema Db KeyStore Rotate RotateFacts RotateBatch.
#[local] Open Scope string_scope.
#[local] Open Scope list_scope.
#[local] Open Scope Z_scope.

Lemma errors_Is_wrap m e t : t <> Wrap m e -> errors_Is (Wrap m e) t = errors_Is e t.
Proof. intros Hne. cbn. by rewrite decide_False by congruence. Qed.

Lemma wp_Status s Q d p fs :
  (forall fs', quiet fs fs' -> Q (Ok (d.(key_rotations) !! s)) (MkWorld d p fs')) ->
  (forall e fs', quiet fs fs' -> fs <> [] -> Q (Err e) (MkWorld d p fs')) ->
  wp (Status s) Q (MkWorld d p fs).
Proof.
  intros HOk HErr. unfold Status. apply wp_bind, wp_catch, wp_Run.
  { intros msg fs' Hf Hq. cbn. by apply HErr. }
  intros fs' Hq. unfold queryRow. apply wp_bind, wp_query.
  2: { intros Hf. split; [oracle|]. intros gs Hgs. cbn. apply HErr; [oracle|oracle]. }
  destruct (key_rotations d !! s) as [row|] eqn:E.
  - apply wp_ret. split; [oracle|]. intros gs Hgs.
    split; [apply HOk; oracle|]. intros Hf msg. cbn. apply HErr; [oracle|done].
  - apply wp_throw. split; [oracle|]. intros gs Hgs. apply HOk. oracle.
Qed.

Section Continue.
Context `{HA : AEAD, HR : Rand, HL : !AEADLaws}.
Variable K : Scope -> Z -> option string.
Variables (s : Scope) (from to n : Z) (fk tk actor : string).
Hypothesis Hne : from <> to.
Hypothesis Hfk : K s from = Some fk.
Hypothesis Htk : K s to = Some tk.
Hypothesis Hn : 1 <= n.

(** Tables before the cursor have nothing left on the old version. *)
Definition cursorOk (t : string) (d : db) : Prop :=
  t = "episodes" \/
  (t = "summaries" /\ pendEp s from d = 0%nat) \/
  (t = "entities" /\ pendEp s from d = 0%nat /\ pendSu s from d = 0%nat) \/
  (t = "done" /\ pendingTotal s from d = 0%nat).

(** The tables left, as fuel. *)
Definition tablesLeft (t : string) : nat :=
  if String.eqb t "episodes" then 3%nat
  else if String.eqb t "summaries" then 2%nat
  else if String.eqb t "entities" then 1%nat else 0%nat.

Definition validTable (t : string) : Prop := t ∈ tableOrder ++ ["done"].

Lemma cursorOk_step t d d' : dbStep K s from to d d' -> cursorOk t d -> cursorOk t d'.
Proof.
  intros Hst Hc. destruct (pending_dbStep K s from to Hne d d' Hst) as (H1 & H2 & H3).
  unfold cursorOk, pendingTotal in *. intuition lia.
Qed.

Definition inProgressAt (t : string) (d : db) : Prop :=
  rotMeta s d = Some (from, to, StatusInProgress, t).

(** The rotation after a call, in terms of the cursor before it. *)
Definition stillInProgress (t : string) (d d' : db) : Prop :=
  exists t', inProgressAt t' d' /\ validTable t' /\ (cursorOk t d -> cursorOk t' d').

Definition contPost (t : string) (d : db) (r : result error (Z * bool)) (d' : db) : Prop :=
  rowsInv d' /\ dbStep K s from to d d' /\
  match r with
  | Ok (k, false) =>
      0 < k /\ (pendingTotal s from d' < pendingTotal s from d)%nat /\ stillInProgress t d d'
  | Ok (k, true) =>
      k = 0 /\ (exists t', rotMeta s d' = Some (from, to, StatusCompleted, t')) /\
      (cursorOk t d -> pendingTotal s from d' = 0%nat)
  | Err _ => stillInProgress t d d'
  end.

Lemma rowsInv_rotation f d : rowsInv d -> rowsInv (updRotation s f d).
Proof. intros [[] Hlock]. split; [|done]. by split. Qed.

Lemma rotMeta_upd f d t st t' st' :
  (forall r, f r = MkRotationRow r.(r_from) r.(r_to) (r_status (f r)) (r_cursor_table (f r)) (r_cursor_id (f r))) ->
  (forall r, r.(r_status) = st -> r.(r_cursor_table) = t ->
     (f r).(r_status) = st' /\ (f r).(r_cursor_table) = t') ->
  rotMeta s d = Some (from, to, st, t) ->
  rotMeta s (updRotation s f d) = Some (from, to, st', t').
Proof.
  unfold rotMeta, updRotation. cbn. rewrite lookup_alter_eq. intros Hf Hst.
  destruct (key_rotations d !! s) as [r|]; cbn; [|done]. intros [= <- <- <- <-].
  destruct (Hst r eq_refl eq_refl) as [<- <-]. by rewrite (Hf r).
Qed.

Lemma wp_setCursorTable t t' Q d p fs :
  inProgressAt t d ->
  (forall d' fs', quiet fs fs' -> rowsInv d -> d' = updRotation s (setCursorTableRow t') d ->
     inProgressAt t' d' -> Q (Ok tt) (MkWorld d' p fs')) ->
  (forall e fs', quiet fs fs' -> fs <> [] -> Q (Err e) (MkWorld d p fs')) ->
  rowsInv d ->
  wp (setCursorTable s t') Q (MkWorld d p fs).
Proof.
  intros Hin HOk HErr Hinv. unfold setCursorTable. apply wp_Run; [intros; by apply HErr|].
  intros fs' Hq. apply wp_exec.
  - split; [oracle|]. intros gs Hgs. split; [|intros; apply HErr; [oracle|done]].
    apply HOk; [oracle|done|done|]. eapply rotMeta_upd; [..|exact Hin]; [done|].
    by intros r ? ?.
  - intros Hf. split; [oracle|]. intros gs Hgs. apply HErr; oracle.
Qed.

Lemma wp_markCompleted t Q d p fs :
  inProgressAt t d -> rowsInv d ->
  (forall d' fs', quiet fs fs' -> rowsInv d' -> dbStep K s from to d d' ->
     rotMeta s d' = Some (from, to, StatusCompleted, t) ->
     Q (Ok tt) (MkWorld d' p fs')) ->
  (forall e fs', quiet fs fs' -> fs <> [] -> Q (Err e) (MkWorld d p fs')) ->
  wp (markCompleted s actor) Q (MkWorld d p fs).
Proof.
  intros Hin Hinv HOk HErr. unfold markCompleted. apply wp_Run; [intros; by apply HErr|].
  intros fs' Hq. apply wp_bind, wp_wrap, wp_exec.
  2: { intros Hf. split; [oracle|]. intros gs Hgs. apply HErr; oracle. }
  unfold Write. cbn [ActingScope WorkspaceScope rotationEntry acting workspace].
  rewrite !bool_decide_eq_true_2 by done. cbn [andb]. apply wp_wrap, wp_exec.
  - split; [oracle|]. intros gs Hgs. split; [|intros; apply HErr; [oracle|done]].
    apply HOk; [oracle| | |].
    + pose proof (rowsInv_rotation setCompleted d Hinv) as [[] ?]. split; [|done]. by split.
    + destruct (updRotation_step K s from to setCompleted d) as []; [done|].
      split; try done. cbn. by eexists.
    + unfold rotMeta. cbn. change (alter setCompleted s (key_rotations d) !! s)
        with (key_rotations (updRotation s setCompleted d) !! s).
      change (rotMeta s (updRotation s setCompleted d) = Some (from, to, StatusCompleted, t)).
      eapply rotMeta_upd; [..|exact Hin]; [done|]. by intros r ? ?.
  - intros Hf. split; [oracle|]. intros gs Hgs. apply HErr; oracle.
Qed.

Lemma stillInProgress_refl t d : inProgressAt t d -> validTable t -> stillInProgress t d d.
Proof. intros Hin Hv. by exists t. Qed.

Lemma contPost_trans t t1 d d1 r d2 :
  dbStep K s from to d d1 -> (pendingTotal s from d1 <= pendingTotal s from d)%nat ->
  (cursorOk t d -> cursorOk t1 d1) ->
  contPost t1 d1 r d2 -> contPost t d r d2.
Proof.
  intros Hst Hle Hc (Hinv & Hst2 & Hr). split; [done|].
  split; [by eapply (dbStep_trans K s from to Hne)|].
  assert (Hsip : stillInProgress t1 d1 d2 -> stillInProgress t d d2).
  { intros (t' & ? & ? & ?). exists t'. auto. }
  destruct r as [[k []]|e]; [| |by apply Hsip].
  - destruct Hr as (-> & Hm & Hz). auto.
  - destruct Hr as (Hk & Hlt & Hs'). split_and!; [done|lia|by apply Hsip].
Qed.

(** What one batch of table [t] passes on: [pend] is the table's count. *)
Definition tablePend (t : string) : db -> nat :=
  if String.eqb t "episodes" then pendEp s from
  else if String.eqb t "summaries" then pendSu s from
  else pendEn s from.

Lemma cursorOk_next t d :
  t ∈ tableOrder -> cursorOk t d -> tablePend t d = 0%nat -> cursorOk (nextTable t) d.
Proof.
  unfold tableOrder. rewrite !elem_of_cons. unfold cursorOk, tablePend, pendingTotal.
  intros [->|[->|[->|[]%elem_of_nil]]] Hc Hz; cbn in *.
  - right; left. done.
  - right; right; left. split; [done|]. intuition congruence.
  - right; right; right. split; [done|]. destruct Hc as [?|[(?&?)|[(_&->&->)|(?&?)]]]; [congruence..|lia|congruence].
Qed.

Lemma nextTable_valid t : t ∈ tableOrder ->
  validTable (nextTable t) /\ tablesLeft t = S (tablesLeft (nextTable t)) /\ t <> "done".
Proof.
  unfold tableOrder, validTable. rewrite !elem_of_cons. intros [->|[->|[->|[]%elem_of_nil]]]; cbn;
    (split; [|done]); set_solver.
Qed.

(** The dispatch on the cursor's table. *)
Lemma wp_tableBatch t c d i fs Q :
  t ∈ tableOrder -> rowsInv d ->
  (forall k d' j fs', quiet fs fs' -> batchDone K s from to (tablePend t) d k d' ->
     Q (Ok k) (MkWorld d' (MkProcess c j) fs')) ->
  (forall e j fs', quiet fs fs' -> fs <> [] \/ ~ rand_ok \/ unreadable K s from d ->
     Q (Err e) (MkWorld d (MkProcess c j) fs')) ->
  wp (if String.eqb t "episodes" then migrateEpisodeBatch s fk tk from to n
      else if String.eqb t "summaries" then migrateSummaryBatch s fk tk from to n
      else if String.eqb t "entities" then migrateEntityBatch s fk tk from to n
      else throw (ErrMsg "rotate: unknown cursor_table")) Q (MkWorld d (MkProcess c i) fs).
Proof.
  unfold tableOrder. rewrite !elem_of_cons. intros [->|[->|[->|[]%elem_of_nil]]] Hinv HOk HErr; cbn.
  - by apply (wp_episodeBatch K s from to n fk tk).
  - by apply (wp_summaryBatch K s from to n fk tk).
  - by apply (wp_entityBatch K s from to n fk tk).
Qed.

Lemma wp_continueDone fuel c d i fs Q :
  rowsInv d -> inProgressAt "done" d ->
  (forall r d' j fs', quiet fs fs' -> contPost "done" d r d' ->
     match r with Ok _ => True | Err _ => fs <> [] \/ ~ rand_ok \/ unreadable K s from d end ->
     Q r (MkWorld d' (MkProcess c j) fs')) ->
  wp (continueFrom fuel s fk tk from to n actor "done") Q (MkWorld d (MkProcess c i) fs).
Proof.
  intros Hinv Hin HQ. destruct fuel; cbn [continueFrom String.eqb Ascii.eqb Bool.eqb];
    (apply wp_bind, (wp_markCompleted "done"); [done|done| |]).
  1,3: intros d' fs' Hq Hinv' Hst Hm; apply wp_ret, HQ; [done| |done];
      split_and!; [done|done|done|by eexists|];
      intros Hc; destruct (pending_dbStep K s from to Hne d d' Hst) as (? & ? & ?);
      destruct Hc as [?|[(?&?)|[(?&?&?)|(_&Hz)]]]; [done..|]; unfold pendingTotal in *; lia.
  all: intros e fs' Hq Hf; apply HQ; [done| |by left];
      split_and!; [done|reflexivity|apply stillInProgress_refl; [done|]];
      unfold validTable, tableOrder; set_solver.
Qed.

Lemma wp_continueFrom fuel t c d i fs Q :
  (tablesLeft t <= fuel)%nat -> validTable t -> rowsInv d -> inProgressAt t d ->
  (forall r d' j fs', quiet fs fs' -> contPost t d r d' ->
     match r with Ok _ => True | Err _ => fs <> [] \/ ~ rand_ok \/ unreadable K s from d end ->
     Q r (MkWorld d' (MkProcess c j) fs')) ->
  wp (continueFrom fuel s fk tk from to n actor t) Q (MkWorld d (MkProcess c i) fs).
Proof.
  revert t d i fs Q. induction fuel as [|fuel IH]; intros t d i fs Q Hfuel Hval Hinv Hin HQ.
  all: assert (Ht : t = "done" \/ t ∈ tableOrder)
    by (unfold validTable in Hval; apply elem_of_app in Hval as [?|Hd];
        [by right|left; by apply list_elem_of_singleton in Hd]).
  all: destruct Ht as [->|Ht]; [by apply wp_continueDone|].
  - exfalso. destruct (nextTable_valid t Ht) as (_ & Hleft & _). lia.
  - cbn [continueFrom].
    destruct (nextTable_valid t Ht) as (Hval' & Hleft & Hnd).
    rewrite (proj2 (String.eqb_neq t "done") Hnd). apply wp_bind, wp_wrap, wp_tableBatch; [done|done| |].
    2: { intros e j fs' Hq Hor. apply HQ; [done| |done].
         split_and!; [done|reflexivity|by apply stillInProgress_refl]. }
    intros k d1 j fs1 Hq (Hinv1 & Hst1 & Hm1 & Hau1 & Hpos & Hz).
    assert (Hin1 : inProgressAt t d1) by (unfold inProgressAt; by rewrite Hm1).
    destruct (k >? 0) eqn:Ek.
    + apply wp_ret, HQ; [done| |done]. split; [done|]. split; [done|].
      split_and!; [lia|apply Hpos; lia|]. exists t. split_and!; [done|done|by apply cursorOk_step].
    + destruct (Hz ltac:(lia)) as [-> Hz0]. apply wp_bind, (wp_setCursorTable t); [done| | |done].
      * intros d2 fs2 Hq2 _ Hd2 Hin2.
        assert (Hst2 : dbStep K s from to d d2).
        { rewrite Hd2. by apply updRotation_step. }
        assert (Hinv2 : rowsInv d2) by (rewrite Hd2; by apply rowsInv_rotation).
        apply IH; [lia|done|done|done|].
        intros r d3 j3 fs3 Hq3 Hpost Hr. apply HQ; [oracle| |].
        -- eapply contPost_trans; [exact Hst2| | |exact Hpost].
           ++ rewrite Hd2. done.
           ++ intros Hc. apply (cursorOk_step _ d d2); [done|]. by apply cursorOk_next.
        -- destruct r; [done|]. destruct Hr as [Hf|[Hr|Hr]]; [left; oracle|by right; left|].
           right; right. revert Hr. rewrite Hd2. done.
      * intros e fs2 Hq2 Hf. apply HQ; [oracle| |left; oracle].
        split_and!; [done|reflexivity|by apply stillInProgress_refl].
Qed.
End Continue.

(** ** The whole call *)

Section Service.
Context `{HA : AEAD, HR : Rand, HL : !AEADLaws}.
Variable kek : string.

Lemma keyOf_same_keys d d' : d'.(scope_keys) = d.(scope_keys) -> keyOf kek d' = keyOf kek d.
Proof. intros E. unfold keyOf. by rewrite E. Qed.

Lemma view_step s from to d d' :
  dbStep (keyOf kek d) s from to d d' -> view kek d' = view kek d.
Proof.
  intros Hst. unfold view. rewrite (keyOf_same_keys d d') by apply Hst.
  by eapply dbStep_plain.
Qed.

(** A rotation's target version is stored and above its source; one in
    progress still has its source, and a table of the schema's list. *)
Definition rotKeysOk (s : Scope) (d : db) : Prop :=
  forall r, d.(key_rotations) !! s = Some r ->
    r.(r_from) < r.(r_to) /\ is_Some (d.(scope_keys) !! (s, r.(r_to))) /\
    (r.(r_status) = StatusInProgress ->
       is_Some (d.(scope_keys) !! (s, r.(r_from))) /\ validTable r.(r_cursor_table)).

Record serviceInv (s : Scope) (w : world) : Prop := {
  sv_store : storeInv kek w.(w_db) w.(w_proc).(cache);
  sv_rows : rowsInv w.(w_db);
  sv_rot : rotKeysOk s w.(w_db)
}.

(** Reading the meta data back. *)
Lemma rotMeta_in_progress s d from to t :
  rotMeta s d = Some (from, to, StatusInProgress, t) ->
  exists r, d.(key_rotations) !! s = Some r /\ r.(r_from) = from /\ r.(r_to) = to /\
            r.(r_status) = StatusInProgress /\ r.(r_cursor_table) = t.
Proof.
  unfold rotMeta. destruct (key_rotations d !! s) as [r|]; cbn; [|done].
  intros [= <- <- ? <-]. by exists r.
Qed.

Lemma rotKeysOk_step s from to d d' t :
  dbStep (keyOf kek d) s from to d d' -> from < to ->
  is_Some (d.(scope_keys) !! (s, from)) -> is_Some (d.(scope_keys) !! (s, to)) ->
  stillInProgress s from to t d d' -> rotKeysOk s d'.
Proof.
  intros [] Hlt Hf Ht (t' & Hin & Hv & _) r Hr.
  destruct (rotMeta_in_progress _ _ _ _ _ Hin) as (r' & Hr' & <- & <- & _ & <-).
  assert (r = r') as -> by congruence. rewrite st_keys. done.
Qed.

Lemma rotKeysOk_completed s from to d d' t :
  dbStep (keyOf kek d) s from to d d' -> from < to -> is_Some (d.(scope_keys) !! (s, to)) ->
  rotMeta s d' = Some (from, to, StatusCompleted, t) -> rotKeysOk s d'.
Proof.
  intros [] Hlt Ht Hm r Hr. unfold rotMeta in Hm. rewrite Hr in Hm. cbn in Hm.
  injection Hm as <- <- Hst _. rewrite st_keys. split_and!; [done|done|]. congruence.
Qed.

Lemma clampBatchSize_bounds n : 1 <= clampBatchSize n <= MaxBatchSize.
Proof. unfold clampBatchSize, MaxBatchSize. repeat case_test; lia. Qed.

(** [Continue] on a rotation in progress. *)
Lemma wp_Continue s n actor r0 w Q :
  serviceInv s w -> w.(w_db).(key_rotations) !! s = Some r0 ->
  r0.(r_status) = StatusInProgress ->
  (forall r w', quiet w.(w_faults) w'.(w_faults) -> serviceInv s w' ->
     contPost (keyOf kek w.(w_db)) s r0.(r_from) r0.(r_to) r0.(r_cursor_table) w.(w_db) r w'.(w_db) ->
     match r with
     | Ok _ => True
     | Err _ => w.(w_faults) <> [] \/ ~ rand_ok \/
                unreadable (keyOf kek w.(w_db)) s r0.(r_from) w.(w_db)
     end -> Q r w') ->
  wp (Continue kek s n actor) Q w.
Proof.
  destruct w as [d [c i] fs]. cbn. intros [Hstore Hrows Hrot] Hr0 Hst0 HQ. cbn in *.
  destruct (Hrot r0 Hr0) as (Hlt & Ht & Hprog). destruct (Hprog Hst0) as [Hf Hval].
  assert (Hin : inProgressAt s (r_from r0) (r_to r0) (r_cursor_table r0) d).
  { unfold inProgressAt, rotMeta. rewrite Hr0. cbn. by rewrite Hst0. }
  assert (Herr : forall e c' j fs', quiet fs fs' -> fs <> [] -> storeInv kek d c' ->
    Q (Err e) (MkWorld d (MkProcess c' j) fs')).
  { intros e c' j fs' Hq Hfs Hs'. apply HQ; [done|by split| |by left].
    split_and!; [done|reflexivity|by apply stillInProgress_refl]. }
  unfold Continue. apply wp_bind, wp_Status; [|intros; by apply Herr].
  intros fs1 Hq1. rewrite Hr0, bool_decide_eq_true_2 by done.
  destruct (keyOf_present kek d _ _ (si_keys _ _ _ Hstore) Hf) as [fk Hfk].
  destruct (keyOf_present kek d _ _ (si_keys _ _ _ Hstore) Ht) as [tk Htk].
  apply wp_bind. eapply wp_GetVersion_stored; [done|exact Hfk| |intros; apply Herr; [oracle|oracle|done]].
  intros c1 fs2 Hq2 Hs1 _ _.
  apply wp_bind. eapply wp_GetVersion_stored; [done|exact Htk| |intros; apply Herr; [oracle|oracle|done]].
  intros c2 fs3 Hq3 Hs2 _ _.
  apply (wp_continueFrom (keyOf kek d) s (r_from r0) (r_to r0) (clampBatchSize n) fk tk actor);
    [lia|done|done|apply clampBatchSize_bounds| |done|done|done|].
  { unfold tablesLeft. repeat case_test; lia. }
  intros r d' j fs4 Hq4 Hpost Hr. apply HQ; [oracle| |done|].
  - destruct Hpost as (Hinv' & Hst' & Hp). split; cbn; [by eapply storeInv_same_keys; [apply Hst'|]|done|].
    destruct r as [[k []]|e].
    + destruct Hp as (_ & (t' & Hm) & _). by eapply rotKeysOk_completed.
    + destruct Hp as (_ & _ & Hp). by eapply rotKeysOk_step.
    + by eapply rotKeysOk_step.
  - destruct r; [done|]. destruct Hr as [Hfs|Hr]; [left; oracle|by right].
Qed.

(** ** Safety under faults *)

(** What one call of [Continue] may do to the world. *)
Definition continueSafe (s : Scope) (w : world) (_ : result error (Z * bool)) (w' : world) : Prop :=
  serviceInv s w' /\
  view kek w'.(w_db) = view kek w.(w_db) /\
  w'.(w_db).(scope_keys) = w.(w_db).(scope_keys) /\
  match w.(w_db).(key_rotations) !! s with
  | Some r => dbStep (keyOf kek w.(w_db)) s r.(r_from) r.(r_to) w.(w_db) w'.(w_db)
  | None => w'.(w_db) = w.(w_db)
  end.

Lemma continueSafe_unchanged s w r w' :
  serviceInv s w -> w'.(w_db) = w.(w_db) -> w'.(w_proc).(cache) = w.(w_proc).(cache) ->
  continueSafe s w r w'.
Proof.
  intros [] Hd Hc. unfold continueSafe. rewrite Hd. split_and!; [|done|done|].
  - split; rewrite ?Hd, ?Hc; done.
  - destruct (_ !! s); [reflexivity|done].
Qed.

Lemma wp_Continue_safe (s : Scope) (n : Z) (actor : string) (w : world) :
  serviceInv s w -> wp (Continue kek s n actor) (continueSafe s w) w.
Proof.
  intros Hinv. destruct (key_rotations (w_db w) !! s) as [r0|] eqn:E0.
  - destruct (decide (r_status r0 = StatusInProgress)) as [Hst|Hst].
    + apply (wp_Continue s n actor r0); [done|done|done|].
      intros r w' _ Hinv' (_ & Hstep & _) _. unfold continueSafe. rewrite E0.
      split_and!; [done|by eapply view_step|apply Hstep|done].
    + destruct w as [d [c i] fs]. unfold Continue. apply wp_bind, wp_Status.
      * intros fs' _. cbn in E0. rewrite E0, bool_decide_eq_false_2 by done.
        by apply wp_ret, continueSafe_unchanged.
      * intros. by apply continueSafe_unchanged.
  - destruct w as [d [c i] fs]. unfold Continue. apply wp_bind, wp_Status.
    + intros fs' _. cbn in E0. rewrite E0. by apply wp_throw, continueSafe_unchanged.
    + intros. by apply continueSafe_unchanged.
Qed.

(** C1: rotation never loses or exposes anything. Whatever database and random
    faults one call of [Continue] meets, and whatever it returns, every reader
    sees exactly the plaintexts it saw before in all four tables; the key table
    is untouched; rows change only by moving from the rotation's old version to
    its new one, in the rotated scope; and the call leaves a state from which
    it can be called again. *)
Theorem continue_preserves (s : Scope) (n : Z) (actor : string) (w : world) :
  serviceInv s w -> wp (Continue kek s n actor) (continueSafe s w) w.
Proof. apply wp_Continue_safe. Qed.

Lemma continueSafe_inv s n actor w :
  serviceInv s w -> wp (Continue kek s n actor) (fun _ w' => serviceInv s w') w.
Proof.
  intros Hinv. eapply wp_mono; [by apply wp_Continue_safe|]. by intros r w' (? & _).
Qed.

(** ** Completion *)

Lemma unreadable_step K s from to d d' :
  from <> to -> dbStep K s from to d d' -> unreadable K s from d' -> unreadable K s from d.
Proof.
  intros Hne [] [(r & Hr & Hs & Hv & Hn)|[(r & Hr & Hs & Hv & Hn)|[(r & Hr & Hs & Hv & Hn)|(r & Hr & Hs & Hv & Hn)]]];
    [left|right; left|right; right; left|right; right; right]; exists r; (split; [|done]).
  - by eapply (rowStep_pending_pred s from to Hne e_scope).
  - by eapply (rowStep_pending_pred s from to Hne s_scope).
  - by eapply (rowStep_pending_pred s from to Hne f_scope).
  - by eapply (rowStep_pending_pred s from to Hne n_scope).
Qed.

(** The work is done: nothing in the scope is left on the old version. *)
Definition migrated (s : Scope) (from : Z) (d : db) : Prop :=
  (forall r, r ∈ d.(episodes) -> r.(e_scope) = s -> r.(e_key_version) <> from) /\
  (forall r, r ∈ d.(summaries) -> r.(s_scope) = s -> r.(s_key_version) <> from) /\
  (forall r, r ∈ d.(key_facts) -> r.(f_scope) = s -> r.(f_key_version) <> from) /\
  (forall r, r ∈ d.(entities) -> r.(n_scope) = s -> r.(n_key_version) <> from).

Lemma pendingTotal_zero s from d : rowsInv d -> pendingTotal s from d = 0%nat -> migrated s from d.
Proof.
  intros [Hok Hlock] Hz. unfold pendingTotal in Hz.
  assert (Hsu : forall r, r ∈ d.(summaries) -> r.(s_scope) = s -> r.(s_key_version) <> from).
  { intros r Hr Hs. eapply (pending_zero s_scope s_key_version s from); [|exact Hr|exact Hs].
    unfold pendSu in Hz. lia. }
  split_and!; [|done| |].
  - intros r Hr Hs. eapply (pending_zero e_scope e_key_version s from); [|exact Hr|exact Hs].
    unfold pendEp in Hz. lia.
  - intros f Hf Hs. destruct (ok_fact_parent _ Hok f Hf) as (su & Hin & Hid & Hsc).
    rewrite (Hlock f su Hf Hin Hid). apply Hsu; congruence.
  - intros r Hr Hs. eapply (pending_zero n_scope n_key_version s from); [|exact Hr|exact Hs].
    unfold pendEn in Hz. lia.
Qed.

(** What a finished driver loop leaves. *)
Definition rotationDone (s : Scope) (from to : Z) (d d' : db) : Prop :=
  rowsInv d' /\ dbStep (keyOf kek d) s from to d d' /\ view kek d' = view kek d /\
  migrated s from d' /\
  (fun r => (r.(r_from), r.(r_to), r.(r_status))) <$> d'.(key_rotations) !! s =
    Some (from, to, StatusCompleted).

Lemma rotateLoop_spec fuel s n actor total r0 w :
  serviceInv s w -> w.(w_faults) = [] -> rand_ok ->
  w.(w_db).(key_rotations) !! s = Some r0 -> r0.(r_status) = StatusInProgress ->
  cursorOk s r0.(r_from) r0.(r_cursor_table) w.(w_db) ->
  ~ unreadable (keyOf kek w.(w_db)) s r0.(r_from) w.(w_db) ->
  (pendingTotal s r0.(r_from) w.(w_db) < fuel)%nat ->
  wp (rotateLoop kek fuel s n actor total)
    (fun r w' => (exists t, r = Ok (Some t)) /\
       rotationDone s r0.(r_from) r0.(r_to) w.(w_db) w'.(w_db)) w.
Proof.
  revert total r0 w. induction fuel as [|fuel IH]; intros total r0 w Hinv Hf Hrand Hr0 Hst Hcur Hread Hlt; [lia|].
  cbn [rotateLoop]. apply wp_bind, (wp_Continue s n actor r0); [done|done|done|].
  intros r w1 Hq Hinv1 (Hrows1 & Hstep1 & Hp) Herr.
  assert (Hne : r_from r0 <> r_to r0) by (destruct (sv_rot _ _ Hinv r0 Hr0); lia).
  destruct r as [[k dn]|e].
  2: { exfalso. destruct Herr as [?|[?|?]]; auto. }
  destruct dn.
  - destruct Hp as (-> & (t' & Hm) & Hz). apply wp_ret. split; [by eexists|].
    split_and!; [done|done|by eapply view_step|by apply pendingTotal_zero, Hz|].
    unfold rotMeta in Hm. destruct (key_rotations (w_db w1) !! s) as [r1|]; cbn in *; [congruence|done].
  - destruct Hp as (Hk & Hless & (t' & Hin & Hval & Hcur')).
    destruct (rotMeta_in_progress _ _ _ _ _ Hin) as (r1 & Hr1 & Hf1 & Ht1 & Hst1 & Htab1).
    assert (HK : keyOf kek (w_db w1) = keyOf kek (w_db w))
      by (apply keyOf_same_keys, Hstep1).
    eapply wp_mono; [apply (IH (total + k) r1 w1); try done|].
    + by apply Hq.
    + rewrite Hf1, Htab1. by apply Hcur'.
    + rewrite Hf1, HK. intros Hu. apply Hread. by eapply unreadable_step.
    + rewrite Hf1. lia.
    + intros r w2 [Hok (Hr2 & Hs2 & Hv2 & Hm2 & Hrot2)]. rewrite Hf1, Ht1 in *. rewrite HK in Hs2.
      split; [done|]. split_and!; [done| | |done|done].
      * by eapply (dbStep_trans _ _ _ _ Hne).
      * rewrite Hv2. by eapply view_step.
Qed.

(** C2: with a working database and random source, and rows that can be
    decrypted, the driver loop terminates within one call per remaining row
    plus one, reports completion, and then no episode, summary, key fact or
    entity of the scope is left on the old version, while every reader still
    sees the same plaintexts. *)
Theorem rotation_completes (s : Scope) (n : Z) (actor : string) (r0 : RotationRow) (w : world) :
  serviceInv s w -> w.(w_faults) = [] -> rand_ok ->
  w.(w_db).(key_rotations) !! s = Some r0 -> r0.(r_status) = StatusInProgress ->
  cursorOk s r0.(r_from) r0.(r_cursor_table) w.(w_db) ->
  ~ unreadable (keyOf kek w.(w_db)) s r0.(r_from) w.(w_db) ->
  wp (rotateLoop kek (S (pendingTotal s r0.(r_from) w.(w_db))) s n actor 0)
    (fun r w' => (exists t, r = Ok (Some t)) /\
       rotationDone s r0.(r_from) r0.(r_to) w.(w_db) w'.(w_db)) w.
Proof. intros. apply rotateLoop_spec; auto. Qed.
End Service.
