(* ===== verification/RotateLife.v ===== *)
(** * RotateLife: starting a rotation and pruning after it

    [Start] is idempotent while a rotation runs; [Prune] removes only keys no
    row of the scope needs.  The last part runs the operations on concrete
    worlds: what [Prune]'s two transactions and its cache eviction miss. *)

From Stdlib Require Import SpecFloat.
From stdpp Require Import gmap.
From S2P Require Import Prelude Identity Schema Db KeyStore Capture Rotate RotateFacts.
From S2P Require Import RotateBatch RotateProofs.
#[local] Open Scope string_scope.
#[local] Open Scope list_scope.
#[local] Open Scope Z_scope.

Lemma wp_deferring {A} (m : M A) (u : M ()) Q w :
  wp m (fun r w1 => wp u (fun _ w2 => Q r w2) w1) w -> wp (deferring m u) Q w.
Proof.
  unfold wp, deferring. destruct (m w) as [r w1]. by destruct (u w1).
Qed.

(** The four tables of rows. *)
Definition same_tables (d d' : db) : Prop :=
  d'.(episodes) = d.(episodes) /\ d'.(summaries) = d.(summaries) /\
  d'.(key_facts) = d.(key_facts) /\ d'.(entities) = d.(entities).

Lemma same_tables_refl d : same_tables d d.
Proof. done. Qed.

Lemma same_rows_tables d d' : same_rows d d' -> same_tables d d' /\
  d'.(key_rotations) = d.(key_rotations) /\ d'.(audit_log) = d.(audit_log).
Proof. unfold same_rows. intros ->. by destruct d. Qed.

Lemma rowsInv_same_tables d d' : same_tables d d' -> rowsInv d -> rowsInv d'.
Proof.
  intros (He & Hs & Hf & Hn) [[] Hlock]. split; [split|]; rewrite ?He, ?Hs, ?Hf, ?Hn; try done.
  unfold lockstep. by rewrite Hs, Hf.
Qed.

Lemma wp_Write se e Q d p fs :
  e.(ActingScope) = se.(acting) -> e.(WorkspaceScope) = se.(workspace) ->
  Q (Ok tt) (MkWorld (set_audit_log (fun l => l ++ [e]) d) p (tail fs)) ->
  (fs <> [] -> Q (Err (Wrap "audit: insert" ErrDB)) (MkWorld d p (tail fs))) ->
  wp (Write se e) Q (MkWorld d p fs).
Proof.
  intros Ha Hw HOk HErr. unfold Write. rewrite Ha, Hw, !bool_decide_eq_true_2 by done. cbn [andb].
  apply wp_wrap, wp_exec; auto.
Qed.

Section Start.
Context `{HA : AEAD, HR : Rand, HL : !AEADLaws}.
Variable kek : string.

(** What [Start] promises; see the theorem. *)
Definition startPost (s : Scope) (w : world) (r : result error (Z * Z)) (w' : world) : Prop :=
  serviceInv kek s w' /\
  same_tables w.(w_db) w'.(w_db) /\
  w.(w_db).(scope_keys) ⊆ w'.(w_db).(scope_keys) /\
  match r with
  | Ok (from, to) =>
      (exists row, w'.(w_db).(key_rotations) !! s = Some row /\ row.(r_from) = from /\
         row.(r_to) = to /\ row.(r_status) = StatusInProgress) /\
      ((w'.(w_db) = w.(w_db)) \/
       (from = currentVersionOf s w.(w_db) /\ to = from + 1 /\
        to = currentVersionOf s w'.(w_db) /\
        (forall row, w.(w_db).(key_rotations) !! s = Some row ->
           row.(r_status) <> StatusInProgress) /\
        w'.(w_db).(key_rotations) !! s = Some (MkRotationRow from to StatusInProgress "episodes" "")))
  | Err _ =>
      w'.(w_db).(key_rotations) = w.(w_db).(key_rotations) /\
      (w.(w_faults) <> [] \/ ~ (rand_ok /\ String.length kek = 32%nat) \/
       currentVersionOf s w.(w_db) = 0)
  end.

Lemma rotKeysOk_keys s d d' :
  d.(scope_keys) ⊆ d'.(scope_keys) -> d'.(key_rotations) = d.(key_rotations) ->
  rotKeysOk s d -> rotKeysOk s d'.
Proof.
  intros Hsub E Hrot r Hr. rewrite E in Hr. destruct (Hrot r Hr) as (Hlt & [wr Ht] & Hp).
  split_and!; [done|exists wr; by eapply lookup_weaken|].
  intros Hst. destruct (Hp Hst) as [[wr' Hf] Hv]. split; [|done].
  exists wr'. by eapply lookup_weaken.
Qed.

Lemma serviceInv_grown s w d' c' j fs' :
  serviceInv kek s w -> storeInv kek d' c' -> same_rows w.(w_db) d' ->
  w.(w_db).(scope_keys) ⊆ d'.(scope_keys) ->
  serviceInv kek s (MkWorld d' (MkProcess c' j) fs').
Proof.
  intros [] Hst Hsame Hsub. destruct (same_rows_tables _ _ Hsame) as (Ht & Hr & _).
  split; cbn; [done|by eapply rowsInv_same_tables|by eapply rotKeysOk_keys].
Qed.

(** The row written at the end. *)
Lemma wp_insertRotation s actor from to w d' c' j fs' Q :
  serviceInv kek s (MkWorld d' (MkProcess c' j) fs') ->
  from < to -> is_Some (d'.(scope_keys) !! (s, from)) -> is_Some (d'.(scope_keys) !! (s, to)) ->
  quiet w.(w_faults) fs' ->
  (forall d2 fs2, quiet fs' fs2 -> serviceInv kek s (MkWorld d2 (MkProcess c' j) fs2) ->
     same_tables d' d2 -> d2.(scope_keys) = d'.(scope_keys) ->
     d2.(key_rotations) !! s = Some (MkRotationRow from to StatusInProgress "episodes" "") ->
     Q (Ok (from, to)) (MkWorld d2 (MkProcess c' j) fs2)) ->
  (forall e fs2, quiet fs' fs2 -> fs' <> [] -> Q (Err e) (MkWorld d' (MkProcess c' j) fs2)) ->
  wp (wrapErr "rotate: start rotation" (Run s s (fun se =>
        wrapErr "insert key_rotations row" (exec (upsertRotation s from to)) ;;
        Write se (rotationEntry s actor
          [("action", JString "start"); ("from_version", JInt from); ("to_version", JInt to)]))) ;;
      mret (from, to)) Q (MkWorld d' (MkProcess c' j) fs').
Proof.
  intros [Hs Hr Hrot] Hlt Hf Ht Hq HOk HErr. cbn in *.
  apply wp_bind, wp_wrap, wp_Run; [intros; apply HErr; [oracle|done]|].
  intros fs1 Hq1. apply wp_bind, wp_wrap, wp_exec.
  2: { intros Hfs. split; [oracle|]. intros gs Hgs. apply HErr; oracle. }
  apply wp_Write; [done|done| |].
  - split; [oracle|]. intros gs Hgs. split; [|intros; apply HErr; [oracle|done]].
    apply wp_ret, HOk; [oracle| |done|done|cbn; apply lookup_insert_eq].
    split; cbn; [by eapply storeInv_same_keys; [|exact Hs]|by eapply rowsInv_same_tables; [|exact Hr]|].
    intros r Hr'. cbn in Hr'. rewrite lookup_insert_eq in Hr'. injection Hr' as <-. cbn.
    split_and!; [done|done|]. intros _. split; [done|]. unfold validTable, tableOrder. set_solver.
  - intros Hfs. split; [oracle|]. intros gs Hgs. apply HErr; oracle.
Qed.

Lemma wp_CreateNextVersion s w d c i fs Q :
  w = MkWorld d (MkProcess c i) fs ->
  storeInv kek d c -> currentVersionOf s d <> 0 ->
  (forall wr k c' j fs', quiet fs fs' ->
     let d' := insertScopeKey (s, currentVersionOf s d + 1) wr d in
     storeInv kek d' c' -> keyOf kek d' s (currentVersionOf s d + 1) = Some k ->
     Q (Ok (currentVersionOf s d + 1)) (MkWorld d' (MkProcess c' j) fs')) ->
  (forall e d' j fs', quiet fs fs' -> same_rows d d' -> d.(scope_keys) ⊆ d'.(scope_keys) ->
     storeInv kek d' c -> fs <> [] \/ ~ (rand_ok /\ String.length kek = 32%nat) ->
     Q (Err e) (MkWorld d' (MkProcess c j) fs')) ->
  wp (CreateNextVersion kek s) Q w.
Proof.
  intros -> Hinv Hcv HOk HErr. unfold CreateNextVersion, CurrentVersion.
  apply wp_bind, wp_wrap, wp_query.
  2: { intros Hf. apply HErr; [oracle|apply same_rows_refl|done|done|by left]. }
  rewrite decide_False by done.
  pose proof (currentVersion_nonneg kek s d (si_keys _ _ _ Hinv)).
  apply wp_createVersion; [done|lia|right; lia| |].
  - intros k wr c' j fs' Hq d' Hi Hsub Hk Hck. eapply HOk; [oracle|done|done].
  - intros e d' j fs' Hq Hd' Hi Hor. apply HErr; [oracle| | |done|].
    + destruct Hd' as [->|[wr ->]]; auto using same_rows_refl, insertScopeKey_same_rows.
    + destruct Hd' as [->|[wr ->]]; auto using insertScopeKey_subseteq.
    + destruct Hor; [left; oracle|by right].
Qed.

Lemma wp_startLocked s actor w d c i fs :
  serviceInv kek s (MkWorld d (MkProcess c i) fs) -> w.(w_db) = d -> quiet w.(w_faults) fs ->
  wp (startLocked kek s actor) (fun r w' => forall fs'', startPost s w r
      (MkWorld w'.(w_db) w'.(w_proc) fs'')) (MkWorld d (MkProcess c i) fs).
Proof.
  intros Hinv Hwd Hqw. pose proof Hinv as [Hs Hr Hrot]. cbn in Hs, Hr, Hrot.
  assert (Herr : forall e d' c' j fs' fs'', same_rows d d' -> d.(scope_keys) ⊆ d'.(scope_keys) ->
    storeInv kek d' c' ->
    fs <> [] \/ ~ (rand_ok /\ String.length kek = 32%nat) \/ currentVersionOf s d = 0 ->
    startPost s w (Err e) (MkWorld (w_db (MkWorld d' (MkProcess c' j) fs'))
      (MkProcess c' j) fs'')).
  { intros e d' c' j fs' fs'' Hsame Hsub Hs' Hor.
    destruct (same_rows_tables _ _ Hsame) as (Ht & Hk & _).
    unfold startPost. rewrite Hwd. cbn. split_and!; [|done|done|done|].
    - by eapply (serviceInv_grown s (MkWorld d (MkProcess c i) fs)).
    - destruct Hor as [?|?]; [left; oracle|by right]. }
  unfold startLocked. apply wp_bind, wp_Status.
  2: { intros e fs' Hq Hf fs''. apply (Herr e d c i fs'); [apply same_rows_refl|done|done|left; oracle]. }
  intros fs1 Hq1.
  assert (Hfresh : (forall row, key_rotations d !! s = Some row -> r_status row <> StatusInProgress) ->
    wp (fromVersion ← CurrentVersion s;
        if decide (fromVersion = 0) then throw (ErrMsg "rotate: no key yet")
        else
          toVersion ← CreateNextVersion kek s;
          wrapErr "rotate: start rotation" (Run s s (fun se =>
            wrapErr "insert key_rotations row" (exec (upsertRotation s fromVersion toVersion)) ;;
            Write se (rotationEntry s actor
              [("action", JString "start"); ("from_version", JInt fromVersion);
               ("to_version", JInt toVersion)]))) ;;
          mret (fromVersion, toVersion))
      (fun r w' => forall fs'', startPost s w r (MkWorld w'.(w_db) w'.(w_proc) fs''))
      (MkWorld d (MkProcess c i) fs1)).
  { intros Hnot. unfold CurrentVersion at 1. apply wp_bind, wp_wrap, wp_query.
    2: { intros Hf fs''. apply (Herr _ d c i fs1); [apply same_rows_refl|done|done|left; oracle]. }
    destruct (decide (currentVersionOf s d = 0)) as [E|E].
    { apply wp_throw. intros fs''. apply (Herr _ d c i fs1); [apply same_rows_refl|done|done|by right; right]. }
    apply wp_bind. eapply wp_CreateNextVersion; [done|done|done| |].
    - intros wr k c' j fs2 Hq2 d' Hs' Hk.
      assert (Hto : is_Some (scope_keys d' !! (s, currentVersionOf s d + 1))).
      { unfold d'. rewrite insertScopeKey_lookup. by eexists. }
      assert (Hsub : scope_keys d ⊆ scope_keys d') by apply insertScopeKey_subseteq.
      assert (Hsame : same_rows d d') by apply insertScopeKey_same_rows.
      apply (wp_insertRotation s actor _ _ w).
      + by eapply (serviceInv_grown s (MkWorld d (MkProcess c i) fs)).
      + lia.
      + destruct (currentVersion_exists s d E) as [wr0 Hwr0]. exists wr0. by eapply lookup_weaken.
      + done.
      + oracle.
      + intros d2 fs3 Hq3 [Hs2 Hr2 Hrot2] Ht2 Hk2 Hrow fs''. cbn in *.
        destruct (same_rows_tables _ _ Hsame) as (Ht & _ & _).
        unfold startPost. rewrite Hwd. cbn. split_and!.
        * by split.
        * destruct Ht as (?&?&?&?), Ht2 as (?&?&?&?). split_and!; congruence.
        * by rewrite Hk2.
        * eexists. split; [exact Hrow|]. done.
        * right. split_and!; [done|done| |done|done].
          unfold currentVersionOf, versionsOf. rewrite Hk2.
          change (currentVersionOf s d + 1 = currentVersionOf s d'). symmetry.
          eapply currentVersion_created; [exact Hs'|lia].
      + intros e fs3 Hq3 Hf fs''. apply (Herr e d' c' j fs3); [done|done|done|left; oracle].
    - intros e d' j fs2 Hq2 Hsame Hsub Hs' Hor fs''.
      apply (Herr e d' c j fs2); [done|done|done|]. destruct Hor; [left; oracle|by right; left]. }
  destruct (key_rotations d !! s) as [row|] eqn:Erow; [|apply Hfresh; by intros ? ?].
  destruct row as [from to [] tab cid]; [|apply Hfresh; by intros ? [= <-]..].
  apply wp_ret. intros fs''. unfold startPost. rewrite Hwd. cbn.
  split_and!; [by split|done|done| |by left]. eexists. split; [exact Erow|]. done.
Qed.

Lemma wp_Start (s : Scope) (actor : string) (w : world) :
  serviceInv kek s w -> wp (Start kek s actor) (startPost s w) w.
Proof.
  destruct w as [d [c i] fs]. intros Hinv. pose proof Hinv as [Hs Hr Hrot].
  assert (Herr : forall e fs', quiet fs fs' -> fs <> [] ->
    startPost s (MkWorld d (MkProcess c i) fs) (Err e) (MkWorld d (MkProcess c i) fs')).
  { intros e fs' Hq Hf. unfold startPost. cbn. split_and!; [by split|done|done|done|by left]. }
  unfold Start. apply wp_bind, wp_wrap, wp_trip; [|intros; by apply Herr; [oracle|]].
  apply wp_bind, wp_wrap, wp_trip; [|intros; apply Herr; oracle].
  apply wp_deferring. eapply wp_mono;
    [apply (wp_startLocked s actor (MkWorld d (MkProcess c i) fs)); [|done|]|].
  - split; [exact Hs|exact Hr|exact Hrot].
  - cbn. oracle.
  - intros r [d' p' fs'] Hpost. apply wp_trip; [apply Hpost|intros _; apply Hpost].
Qed.

(** C3: starting a rotation is idempotent and additive. While one is in
    progress [Start] changes nothing in the database and returns its versions;
    otherwise it creates exactly the version after the scope's current one,
    which becomes the current one, and records the pair in progress from the
    first table. No stored key and no row is lost or changed on any path, and
    a failed start leaves the progress table as it was. *)
Theorem start_idempotent (s : Scope) (actor : string) (w : world) :
  serviceInv kek s w -> wp (Start kek s actor) (startPost s w) w.
Proof. apply wp_Start. Qed.
End Start.

(** ** Prune *)

Section Prune.
Context `{HA : AEAD, HR : Rand, HL : !AEADLaws}.
Variable kek : string.

(** No row of the scope records a version below [v]. *)
Definition nothingBelow (s : Scope) (v : Z) (d : db) : Prop :=
  (forall r, r ∈ d.(episodes) -> r.(e_scope) = s -> v <= r.(e_key_version)) /\
  (forall r, r ∈ d.(summaries) -> r.(s_scope) = s -> v <= r.(s_key_version)) /\
  (forall r, r ∈ d.(key_facts) -> r.(f_scope) = s -> v <= r.(f_key_version)) /\
  (forall r, r ∈ d.(entities) -> r.(n_scope) = s -> v <= r.(n_key_version)).

Lemma filter_length_zero {A} (P : A -> Prop) `{forall x, Decision (P x)} l :
  Z.of_nat (length (filter P l)) = 0 -> forall x, x ∈ l -> ~ P x.
Proof.
  intros Hz x Hx HP. assert (filter P l = []) as E by (apply length_zero_iff_nil; lia).
  assert (x ∈ filter P l) as Hin by (by apply list_elem_of_filter).
  rewrite E in Hin. by apply elem_of_nil in Hin.
Qed.

Lemma stillReferenced_zero s v d :
  db_ok d -> stillReferenced (MkSession s s) s v d <= 0 -> nothingBelow s v d.
Proof.
  intros Hok Hz. unfold stillReferenced in Hz.
  assert (Hv : visible (MkSession s s) s = true) by by apply visible_same.
  match type of Hz with Z.of_nat ?a + Z.of_nat ?b + Z.of_nat ?c + Z.of_nat ?e <= 0 =>
    assert (Z.of_nat a = 0 /\ Z.of_nat b = 0 /\ Z.of_nat c = 0 /\ Z.of_nat e = 0)
      as (Ha & Hb & Hc & He) by lia end.
  split_and!.
  - intros r Hr Hs. apply Z.nlt_ge. intros Hlt.
    eapply filter_length_zero; [exact Ha|exact Hr|]. cbn. by rewrite Hs.
  - intros r Hr Hs. apply Z.nlt_ge. intros Hlt.
    eapply filter_length_zero; [exact Hb|exact Hr|]. cbn. by rewrite Hs.
  - intros f Hf Hs. apply Z.nlt_ge. intros Hlt.
    destruct (ok_fact_parent _ Hok f Hf) as (su & Hsu & Hid & Hsc).
    eapply filter_length_zero with (x := (f, su)); [exact He| |].
    + apply list_elem_of_bind. exists f. split; [|done]. apply list_elem_of_bind.
      exists su. split; [by apply list_elem_of_singleton|done].
    + cbn. rewrite Hsc, Hs. done.
  - intros r Hr Hs. apply Z.nlt_ge. intros Hlt.
    eapply filter_length_zero; [exact Hc|exact Hr|]. cbn. by rewrite Hs.
Qed.

Lemma filter_none {A} (P : A -> Prop) `{forall x, Decision (P x)} l :
  (forall x, x ∈ l -> ~ P x) -> length (filter P l) = O.
Proof.
  intros Hno. apply length_zero_iff_nil. destruct (filter P l) as [|x xs] eqn:E; [done|].
  assert (x ∈ filter P l) as [HP Hx]%list_elem_of_filter by (rewrite E; by left). by destruct (Hno x Hx).
Qed.

(** The count is zero when nothing is below. *)
Lemma nothingBelow_zero s v d :
  nothingBelow s v d -> stillReferenced (MkSession s s) s v d = 0.
Proof.
  intros (He & Hs & Hf & Hn). unfold stillReferenced. rewrite !filter_none; [done|..].
  - intros [f su] Hin (Hv1 & _ & _ & _ & Hlt). cbn in *. apply visible_same in Hv1.
    apply list_elem_of_bind in Hin as (f' & Hin & Hf').
    apply list_elem_of_bind in Hin as (su' & [= -> ->]%list_elem_of_singleton & _).
    specialize (Hf _ Hf' Hv1). lia.
  - intros r Hr (_ & Hsc & Hlt). specialize (Hn r Hr Hsc). lia.
  - intros r Hr (_ & Hsc & Hlt). specialize (Hs r Hr Hsc). lia.
  - intros r Hr (_ & Hsc & Hlt). specialize (He r Hr Hsc). lia.
Qed.

Lemma deleteScopeKeys_lookup s v d key :
  (deleteScopeKeys s v d).(scope_keys) !! key =
    if prunable s v key then None else d.(scope_keys) !! key.
Proof.
  unfold deleteScopeKeys. cbn. destruct (prunable s v key) eqn:E.
  - apply map_lookup_filter_None. right. intros x Hx Hp. cbn in Hp. congruence.
  - destruct (scope_keys d !! key) as [wr|] eqn:Ek.
    + by apply map_lookup_filter_Some.
    + apply map_lookup_filter_None. by left.
Qed.

Lemma prunable_spec s v s' v' : prunable s v (s', v') = true <-> s' = s /\ v' < v.
Proof.
  unfold prunable. cbn. by rewrite andb_true_iff, Z.ltb_lt, bool_decide_eq_true.
Qed.

Lemma keyOf_pruned s v d s' v' :
  s' <> s \/ v <= v' -> keyOf kek (deleteScopeKeys s v d) s' v' = keyOf kek d s' v'.
Proof.
  intros Hor. unfold keyOf. rewrite deleteScopeKeys_lookup.
  destruct (prunable s v (s', v')) eqn:E; [|done]. apply prunable_spec in E. destruct E, Hor; [done|lia].
Qed.

(** Deleting keys no row needs changes nothing a reader sees. *)
Lemma view_pruned s v d :
  nothingBelow s v d -> view kek (deleteScopeKeys s v d) = view kek d.
Proof.
  intros (He & Hs & Hf & Hn).
  assert (Hread : forall s' v' ct, s' <> s \/ v <= v' ->
    readWith (keyOf kek (deleteScopeKeys s v d)) s' v' ct = readWith (keyOf kek d) s' v' ct).
  { intros s' v' ct Hor. unfold readWith. by rewrite keyOf_pruned. }
  unfold view, plainDb. cbn [deleteScopeKeys set_scope_keys episodes summaries key_facts entities].
  f_equal; [f_equal; [f_equal|]|]; apply map_ext_in; intros r Hr%list_elem_of_In.
  - assert (Hor : e_scope r <> s \/ v <= e_key_version r)
      by (destruct (decide (e_scope r = s)); [right; by apply He|by left]).
    unfold plainEpisode. rewrite !Hread by done. f_equal.
    destruct (e_note r); cbn; [by apply Hread|done].
  - assert (Hor : s_scope r <> s \/ v <= s_key_version r)
      by (destruct (decide (s_scope r = s)); [right; by apply Hs|by left]).
    unfold plainSummary. by rewrite !Hread.
  - assert (Hor : f_scope r <> s \/ v <= f_key_version r)
      by (destruct (decide (f_scope r = s)); [right; by apply Hf|by left]).
    unfold plainKeyFact. by rewrite !Hread.
  - assert (Hor : n_scope r <> s \/ v <= n_key_version r)
      by (destruct (decide (n_scope r = s)); [right; by apply Hn|by left]).
    unfold plainEntity. by rewrite !Hread.
Qed.

Lemma storeInv_pruned s v d c :
  is_Some (d.(scope_keys) !! (s, v)) -> storeInv kek d c ->
  storeInv kek (deleteScopeKeys s v d) c.
Proof.
  intros Hv [Hk Hc Hb].
  assert (Hkeep : forall s' v' wr, (deleteScopeKeys s v d).(scope_keys) !! (s', v') = Some wr ->
    d.(scope_keys) !! (s', v') = Some wr).
  { intros s' v' wr. rewrite deleteScopeKeys_lookup. by destruct (prunable s v (s', v')). }
  split.
  - intros s' v' wr Hin. eapply Hk. by apply Hkeep.
  - intros [s' v'] k wr Hin Hwr. eapply Hc; [exact Hin|]. by apply Hkeep.
  - intros s' v' Hin. etrans; [by apply Hb|].
    destruct (decide (currentVersionOf s' d = 0)) as [E|E].
    + rewrite E. apply (currentVersion_nonneg kek). intros s0 v0 wr Hin0.
      eapply Hk. by apply Hkeep.
    + apply currentVersion_ub. rewrite deleteScopeKeys_lookup.
      destruct (prunable s v (s', currentVersionOf s' d)) eqn:Ep.
      * apply prunable_spec in Ep as [-> Hlt].
        pose proof (currentVersion_ub s v d Hv). lia.
      * by apply currentVersion_exists.
Qed.

Lemma storeInv_evict s v d c : storeInv kek d c -> storeInv kek d (delete (s, v) c).
Proof.
  intros [Hk Hc Hb]. split; [done| |].
  - intros key k wr Hin Hwr. apply lookup_delete_Some in Hin as [_ Hin]. by eapply Hc.
  - intros s' v' [k Hin]. apply lookup_delete_Some in Hin as [_ Hin]. apply Hb. by eexists.
Qed.

Lemma wp_evictFrom m s v Q d c i fs :
  storeInv kek d c ->
  (forall c', storeInv kek d c' ->
     (forall u, v <= u < v + Z.of_nat m -> c' !! (s, u) = None) ->
     (forall key, c !! key = None -> c' !! key = None) ->
     Q (Ok tt) (MkWorld d (MkProcess c' i) fs)) ->
  wp (evictFrom m s v) Q (MkWorld d (MkProcess c i) fs).
Proof.
  revert v c. induction m as [|m IH]; intros v c Hinv HQ; cbn [evictFrom].
  { apply wp_ret, HQ; [done| |done]. intros u Hu. lia. }
  apply wp_bind. unfold Evict. apply wp_modProc. cbn. apply IH; [by apply storeInv_evict|].
  intros c' Hinv' Hnone Hkeep. apply HQ; [done| |].
  - intros u Hu. destruct (decide (u = v)) as [->|Hne].
    + apply Hkeep, lookup_delete_eq.
    + apply Hnone. lia.
  - intros key Hkey. apply Hkeep. apply lookup_delete_None. by right.
Qed.

(** What [Prune] promises; see the theorem. *)
Definition prunePost (s : Scope) (w : world) (r : result error Z) (w' : world) : Prop :=
  serviceInv kek s w' /\ same_tables w.(w_db) w'.(w_db) /\
  view kek w'.(w_db) = view kek w.(w_db) /\
  match r with
  | Ok k =>
      exists row, w.(w_db).(key_rotations) !! s = Some row /\ row.(r_status) = StatusCompleted /\
        k = prunedCount s row.(r_to) w.(w_db) /\
        nothingBelow s row.(r_to) w.(w_db) /\
        (forall v, v < row.(r_to) -> w'.(w_db).(scope_keys) !! (s, v) = None) /\
        (forall s' v, s' <> s \/ row.(r_to) <= v ->
           w'.(w_db).(scope_keys) !! (s', v) = w.(w_db).(scope_keys) !! (s', v)) /\
        (forall v, row.(r_from) <= v < row.(r_to) -> w'.(w_proc).(cache) !! (s, v) = None)
  | Err _ => w'.(w_db) = w.(w_db)
  end.

Lemma rotKeysOk_pruned s row d :
  d.(key_rotations) !! s = Some row -> row.(r_status) = StatusCompleted ->
  rotKeysOk s d -> rotKeysOk s (deleteScopeKeys s row.(r_to) d).
Proof.
  intros Hrow Hst Hrot r Hr. cbn in Hr. assert (r = row) as -> by congruence.
  destruct (Hrot row Hrow) as (Hlt & Ht & _). split_and!; [done| |congruence].
  rewrite deleteScopeKeys_lookup. destruct (prunable _ _ _) eqn:E; [|done].
  apply prunable_spec in E. lia.
Qed.

(** When nothing keeps the keys before the rotation's target. *)
Definition prunableNow (s : Scope) (d : db) : Prop :=
  exists row, d.(key_rotations) !! s = Some row /\ row.(r_status) = StatusCompleted /\
    nothingBelow s row.(r_to) d.

Lemma wp_pruneCheck s Q d p fs :
  db_ok d ->
  (forall row fs', quiet fs fs' -> d.(key_rotations) !! s = Some row ->
     row.(r_status) = StatusCompleted -> nothingBelow s row.(r_to) d ->
     Q (Ok row) (MkWorld d p fs')) ->
  (forall e fs', quiet fs fs' -> fs <> [] \/ ~ prunableNow s d -> Q (Err e) (MkWorld d p fs')) ->
  wp (pruneCheck s) Q (MkWorld d p fs).
Proof.
  intros Hok HOk HErr. unfold pruneCheck. apply wp_bind, wp_Status;
    [|intros; apply HErr; [done|by left]].
  intros fs1 Hq1. destruct (key_rotations d !! s) as [row|] eqn:Erow.
  2: { apply wp_throw, HErr; [done|right]. intros (row & E & _). congruence. }
  destruct (decide (r_status row = StatusCompleted)) as [Hst|Hst].
  2: { rewrite bool_decide_eq_false_2 by done. apply wp_throw, HErr; [done|right].
       intros (row' & E & Hst' & _). congruence. }
  rewrite bool_decide_eq_true_2 by done.
  apply wp_bind, wp_wrap, wp_Run; [intros; apply HErr; [oracle|left; oracle]|].
  intros fs2 Hq2. apply wp_query.
  2: { intros Hf. split; [oracle|]. intros gs Hgs. apply HErr; [oracle|left; oracle]. }
  split; [oracle|]. intros gs Hgs. split; [|intros; apply HErr; [oracle|left; oracle]].
  destruct (_ >? 0) eqn:E.
  - apply wp_throw, HErr; [oracle|right]. intros (row' & Er & _ & Hnb).
    assert (row' = row) as -> by congruence. rewrite nothingBelow_zero in E by done. lia.
  - apply wp_ret, HOk; [oracle|done|done|]. apply stillReferenced_zero; [done|]. lia.
Qed.

Lemma wp_pruneDelete s actor v Q d p fs :
  (forall d' fs', quiet fs fs' -> same_tables d d' -> d'.(key_rotations) = d.(key_rotations) ->
     d'.(scope_keys) = (deleteScopeKeys s v d).(scope_keys) ->
     Q (Ok (prunedCount s v d)) (MkWorld d' p fs')) ->
  (forall e fs', quiet fs fs' -> fs <> [] -> Q (Err e) (MkWorld d p fs')) ->
  wp (pruneDelete s actor v) Q (MkWorld d p fs).
Proof.
  intros HOk HErr. unfold pruneDelete. apply wp_wrap, wp_Run; [intros; apply HErr; oracle|].
  intros fs1 Hq1. apply wp_bind, wp_query.
  2: { intros Hf. split; [oracle|]. intros gs Hgs. apply HErr; oracle. }
  apply wp_bind. apply wp_intro. intros r w' [= <- <-]. cbn.
  apply wp_bind, wp_Write; [done|done| |].
  - apply wp_ret. split; [oracle|]. intros gs Hgs. split; [|intros; apply HErr; oracle].
    by apply HOk; [oracle|..].
  - intros Hf. split; [oracle|]. intros gs Hgs. apply HErr; oracle.
Qed.

Lemma wp_Prune (s : Scope) (actor : string) (w : world) :
  serviceInv kek s w -> wp (Prune s actor) (prunePost s w) w.
Proof.
  destruct w as [d [c i] fs]. intros [Hs Hr Hrot]. cbn in Hs, Hr, Hrot.
  assert (Herr : forall e c' fs', storeInv kek d c' ->
    prunePost s (MkWorld d (MkProcess c i) fs) (Err e) (MkWorld d (MkProcess c' i) fs')).
  { intros e c' fs' Hs'. by split. }
  unfold Prune. apply wp_bind, wp_pruneCheck; [apply Hr| |intros; by apply Herr].
  intros row fs1 Hq1 Hrow Hst Hnb.
  apply wp_bind, wp_pruneDelete; [|intros; by apply Herr].
  intros d' fs2 Hq2 Htab Hrot' Hk'. destruct (Hrot row Hrow) as (Hlt & Ht & _).
  assert (Hs' : storeInv kek d' c).
  { eapply storeInv_same_keys; [exact Hk'|]. by apply storeInv_pruned. }
  apply wp_bind, wp_evictFrom; [done|]. intros c' Hs'' Hnone _. apply wp_ret.
  unfold prunePost. cbn. split_and!.
  - split; cbn; [done|by eapply rowsInv_same_tables|].
    pose proof (rotKeysOk_pruned s row d Hrow Hst Hrot) as Hrot2.
    intros r Hr'. rewrite Hrot' in Hr'. destruct (Hrot2 r Hr') as (? & ? & ?).
    rewrite Hk'. done.
  - done.
  - rewrite <- (view_pruned s (r_to row) d Hnb). unfold view.
    rewrite (keyOf_same_keys _ (deleteScopeKeys s (r_to row) d) d') by done.
    destruct Htab as (E1 & E2 & E3 & E4). unfold plainDb.
    by rewrite E1, E2, E3, E4.
  - exists row. split_and!; [done|done|done|done| | |].
    + intros v Hv. rewrite Hk', deleteScopeKeys_lookup.
      by rewrite (proj2 (prunable_spec s (r_to row) s v)).
    + intros s' v Hor. rewrite Hk', deleteScopeKeys_lookup.
      destruct (prunable _ _ _) eqn:E; [|done]. apply prunable_spec in E.
      destruct Hor; [by destruct E|lia].
    + intros v Hv. apply Hnone. lia.
Qed.

(** C4: pruning never makes a row unreadable. On every outcome every reader
    still sees the same plaintexts and no row changes. When it succeeds the
    rotation was completed, no row of the scope was on an older version, and
    exactly the scope's keys below the target version are gone from the
    database, with the rotation's own old versions gone from this process's
    cache; every other key, other scopes' included, is kept. When it refuses
    or fails, the database is unchanged. *)
Theorem prune_keeps_readable (s : Scope) (actor : string) (w : world) :
  serviceInv kek s w -> wp (Prune s actor) (prunePost s w) w.
Proof. apply wp_Prune. Qed.
End Prune.
