(* ===== verification/RotateScenarios.v ===== *)
(** * RotateScenarios: what Prune does not protect, and concrete rotations

    Two things [Prune] leaves open, for every database: a capture that commits
    between its two transactions, and a cached key older than the last
    rotation.  Then a scope with one captured episode, rotated and pruned under
    the concrete AEAD of [KeyStore.Toy]: the instances at which the theorems of
    the rotation are applied. *)

From Stdlib Require Import SpecFloat.
From stdpp Require Import gmap.
From S2P Require Import Prelude Identity Schema Db KeyStore Capture Rotate RotateFacts.
From S2P Require Import RotateBatch RotateProofs RotateLife.
Import KeyStore.Toy.
#[local] Open Scope string_scope.
#[local] Open Scope list_scope.
#[local] Open Scope Z_scope.

(** ** What Prune does not protect *)

Section Hazards.
Context `{HA : AEAD, HR : Rand, HL : !AEADLaws}.
Variable kek : string.

(** The steps of [Prune] and of a [Capture] that has resolved its key, when the
    capture's transaction commits between the two of [Prune]. *)
Definition captureDuringPrune (s : Scope) (actor : string) (ev : Encryptor * Z) (ep : Episode) : M Z :=
  st ← pruneCheck s;
  captureWith ev s ep ;;
  pruneDelete s actor st.(r_to).

(** C24: [Prune] counts the rows on older versions and deletes the older keys in
    two separate transactions. Let a rotation be completed and no row be on an
    older version, so that the count passes; and let a capture have resolved an
    older version [v], with key [k], before. If it commits between the two
    transactions, everything reports success when no round trip fails: the
    episode is stored, sealed under [k] and recorded under [v], readable while
    [v] is stored; and then the key of [v] is gone, and nothing in the database
    opens the episode's texts any more. *)
Theorem prune_race_loses_episode (s : Scope) (actor : string) (ep : Episode) (k : Encryptor) (v : Z)
    (row : RotationRow) (w : world) :
  serviceInv kek s w -> w.(w_faults) = [] -> rand_ok ->
  w.(w_db).(key_rotations) !! s = Some row -> row.(r_status) = StatusCompleted ->
  nothingBelow s row.(r_to) w.(w_db) -> v < row.(r_to) ->
  ep.(ID) ∉ map e_id w.(w_db).(episodes) -> admissible s ep w.(w_db) -> feedbackRefOk s ep w.(w_db) ->
  wp (captureDuringPrune s actor (k, v) ep)
    (fun r w' => (exists n, r = Ok n) /\
       exists e, w'.(w_db).(episodes) = w.(w_db).(episodes) ++ [e] /\
         e.(e_id) = ep.(ID) /\ e.(e_scope) = s /\ e.(e_key_version) = v /\
         (keyOf kek w.(w_db) s v = Some k ->
            readField kek w.(w_db) s v e.(e_input) = Some ep.(InputText) /\
            readField kek w.(w_db) s v e.(e_output) = Some ep.(OutputText)) /\
         readField kek w'.(w_db) s v e.(e_input) = None /\
         readField kek w'.(w_db) s v e.(e_output) = None) w.
Proof.
  destruct w as [d [c i] fs]. cbn [w_db w_proc w_faults]. intros [_ Hr _] -> Hrand Hrow Hst Hnb Hv Hid Hadm Href.
  cbn in Hr. assert (Hp : prunableNow s d) by by exists row.
  unfold captureDuringPrune. apply wp_bind, wp_pruneCheck; [apply Hr| |].
  2: { intros e fs' _ [?|?]; done. }
  intros row' fs1 Hq1 Hrow' _ _. assert (row' = row) as -> by congruence. rewrite Hq1 by done.
  apply wp_bind, wp_captureWith; [|by intros].
  intros inCT outCT noteCT j Hin Hout _. apply wp_captureTx.
  2: { intros e fs' _ [?|[[_ ?]|?]]; done. }
  intros fs2 Hq2 _ _. rewrite Hq2 by done. set (e := episodeRow s ep inCT outCT noteCT v).
  apply wp_pruneDelete; [|by intros]. intros d' fs3 _ (Ee & _) _ Hk.
  assert (Hgone : keyOf kek d' s v = None).
  { unfold keyOf. rewrite Hk, deleteScopeKeys_lookup. by rewrite (proj2 (prunable_spec s (r_to row) s v)). }
  split; [by eexists|]. exists e. split.
  { cbn [w_db]. rewrite Ee. unfold captured, withEpisode. by rewrite bool_decide_eq_false_2. }
  split_and!; try done.
  - intros Hkey. split; eapply readField_of; done.
  - unfold readField. cbn [w_db]. by rewrite Hgone.
  - unfold readField. cbn [w_db]. by rewrite Hgone.
Qed.

(** Eviction touches the versions it is told to evict only. *)
Lemma wp_evictFrom_other m s v Q d c i fs :
  (forall c', (forall u, u < v -> c' !! (s, u) = c !! (s, u)) -> Q (Ok tt) (MkWorld d (MkProcess c' i) fs)) ->
  wp (evictFrom m s v) Q (MkWorld d (MkProcess c i) fs).
Proof.
  revert v c. induction m as [|m IH]; intros v c HQ; cbn [evictFrom]; [by apply wp_ret, HQ|].
  apply wp_bind, wp_modProc. cbn. apply IH. intros c' Hc'. apply HQ. intros u Hu.
  rewrite Hc' by lia. rewrite lookup_delete_ne; [done|]. intros [=]. lia.
Qed.

(** C25: [Prune] deletes every key of the scope below the rotation's target
    version, but evicts from the cache only the versions from the rotation's
    own source on. A version before that source which the process has cached
    (two rotations without a prune in between are enough) is gone from the
    database after a successful prune, and yet [GetVersion] goes on answering
    with its key, without a round trip. A prune fails only by a fault, or when
    the rotation is not completed or rows are on older versions. *)
Theorem prune_leaves_cached_key (s : Scope) (actor : string) (row : RotationRow) (v : Z) (k : Encryptor) (w : world) :
  serviceInv kek s w -> w.(w_db).(key_rotations) !! s = Some row -> v < row.(r_from) ->
  w.(w_proc).(cache) !! (s, v) = Some k ->
  wp (Prune s actor)
    (fun r w' => match r with
                 | Ok _ => w'.(w_db).(scope_keys) !! (s, v) = None /\ GetVersion kek s v w' = (Ok k, w')
                 | Err _ => w.(w_faults) <> [] \/ ~ prunableNow s w.(w_db)
                 end) w.
Proof.
  destruct w as [d [c i] fs]. cbn [w_db w_proc w_faults cache]. intros [_ Hr Hrot] Hrow Hv Hc. cbn in Hr, Hrot.
  destruct (Hrot row Hrow) as (Hlt & _). unfold Prune. apply wp_bind, wp_pruneCheck; [apply Hr| |by intros].
  intros row' fs1 Hq1 Hrow' _ _. assert (row' = row) as -> by congruence.
  apply wp_bind, wp_pruneDelete; [|intros; left; oracle]. intros d' fs2 _ _ _ Hk.
  apply wp_bind, wp_evictFrom_other. intros c' Hc'. apply wp_ret. split.
  - cbn [w_db]. rewrite Hk, deleteScopeKeys_lookup. rewrite (proj2 (prunable_spec s (r_to row) s v)); [done|split; [done|lia]].
  - unfold GetVersion, cached, getProc. unfold mbind, M_bind. cbn [w_proc cache]. by rewrite Hc', Hc.
Qed.
End Hazards.

(** ** A rotation in progress, reached by the operations *)

Definition captured0 : world := snd (Capture kek toyScope toyEpisode world0).
Definition started : world := snd (Start kek toyScope "op" captured0).
Definition rotated : world := snd (rotateLoop kek 3 toyScope 500 "op" 0 started).

Lemma captured0_inv : serviceInv kek toyScope captured0.
Proof.
  split.
  - destruct (Capture kek toyScope toyEpisode world0) as [r w'] eqn:E.
    unfold captured0. rewrite E.
    apply (wp_run _ _ _ _ _ E (wp_Capture kek toyScope toyEpisode world0 storeInv_empty)).
  - split; [|intros f su Hf; vm_compute in Hf; by apply elem_of_nil in Hf].
    split; try (vm_compute; apply NoDup_nil_2).
    + vm_compute. apply NoDup_singleton.
    + intros f Hf. vm_compute in Hf. by apply elem_of_nil in Hf.
  - intros r Hr. vm_compute in Hr. done.
Qed.

Lemma started_inv : serviceInv kek toyScope started.
Proof.
  destruct (Start kek toyScope "op" captured0) as [r w'] eqn:E.
  unfold started. rewrite E.
  apply (wp_run _ _ _ _ _ E (wp_Start kek toyScope "op" captured0 captured0_inv)).
Qed.

Lemma rotateLoop_inv fuel s n actor total w :
  serviceInv kek s w -> wp (rotateLoop kek fuel s n actor total) (fun _ w' => serviceInv kek s w') w.
Proof.
  revert total w. induction fuel as [|fuel IH]; intros total w Hinv; [done|]. cbn [rotateLoop].
  apply wp_bind. eapply wp_mono; [by apply continueSafe_inv|].
  intros [[k []]|e] w' Hinv'; [done|by apply IH|done].
Qed.

Lemma rotated_inv : serviceInv kek toyScope rotated.
Proof.
  destruct (rotateLoop kek 3 toyScope 500 "op" 0 started) as [r w'] eqn:E.
  unfold rotated. rewrite E.
  apply (wp_run _ _ _ _ _ E (rotateLoop_inv 3 toyScope 500 "op" 0 started started_inv)).
Qed.

Definition row0 : RotationRow := MkRotationRow 1 2 StatusInProgress "episodes" "".

Lemma started_row : started.(w_db).(key_rotations) !! toyScope = Some row0.
Proof. vm_compute. reflexivity. Qed.

Lemma started_readable :
  ~ unreadable (keyOf kek started.(w_db)) toyScope 1 started.(w_db).
Proof.
  intros [(r & Hr & _ & _ & Hn)|[(r & Hr & _)|[(r & Hr & _)|(r & Hr & _)]]].
  2,3,4: vm_compute in Hr; by apply elem_of_nil in Hr.
  apply Hn. assert (Hin : started.(w_db).(episodes) = [hd r started.(w_db).(episodes)])
    by (vm_compute; reflexivity).
  rewrite Hin in Hr. apply list_elem_of_singleton in Hr as ->. vm_compute.
  split_and!; [by eexists|by eexists|]. intros Hnote. by destruct Hnote.
Qed.

Lemma continue_preserves_witness :
  serviceInv kek toyScope started /\
  wp (Continue kek toyScope 1 "op") (continueSafe kek toyScope started) started /\
  fst (Continue kek toyScope 1 "op" started) = Ok (1, false).
Proof.
  split; [apply started_inv|]. split; [|vm_compute; reflexivity].
  apply (continue_preserves kek toyScope 1 "op" started). apply started_inv.
Defined.

Lemma rotation_completes_witness :
  wp (rotateLoop kek (S (pendingTotal toyScope 1 started.(w_db))) toyScope 500 "op" 0)
    (fun r w' => (exists t, r = Ok (Some t)) /\
       rotationDone kek toyScope 1 2 started.(w_db) w'.(w_db)) started.
Proof.
  apply (rotation_completes kek toyScope 500 "op" row0 started).
  - apply started_inv.
  - vm_compute. reflexivity.
  - apply rand_ok_toy.
  - apply started_row.
  - reflexivity.
  - left. reflexivity.
  - apply started_readable.
Defined.

Lemma start_idempotent_witness :
  serviceInv kek toyScope captured0 /\
  wp (Start kek toyScope "op") (startPost kek toyScope captured0) captured0 /\
  fst (Start kek toyScope "op" captured0) = Ok (1, 2) /\
  fst (Start kek toyScope "op" started) = Ok (1, 2).
Proof.
  split; [apply captured0_inv|].
  split; [apply (start_idempotent kek toyScope "op" captured0); apply captured0_inv|].
  split; vm_compute; reflexivity.
Defined.

Lemma prune_keeps_readable_witness :
  serviceInv kek toyScope rotated /\
  wp (Prune toyScope "op") (prunePost kek toyScope rotated) rotated /\
  fst (Prune toyScope "op" rotated) = Ok 1.
Proof.
  split; [apply rotated_inv|].
  split; [apply (prune_keeps_readable kek toyScope "op" rotated); apply rotated_inv|].
  vm_compute. reflexivity.
Defined.

(** ** The hazards, run *)

(** Two rotations in a row, 1 to 2 and 2 to 3. *)
Definition twiceRotated : world :=
  snd ((Start kek toyScope "op" ;; rotateLoop kek 3 toyScope 500 "op" 0 ;;
        Start kek toyScope "op" ;; rotateLoop kek 3 toyScope 500 "op" 0) captured0).

Lemma Start_inv w : serviceInv kek toyScope w -> wp (Start kek toyScope "op") (fun _ w' => serviceInv kek toyScope w') w.
Proof. intros Hw. eapply wp_mono; [by apply wp_Start|]. by intros r w' (Hi & _). Qed.

Lemma twiceRotated_inv : serviceInv kek toyScope twiceRotated.
Proof.
  unfold twiceRotated. apply (wp_apply _ (fun p => serviceInv kek toyScope (snd p))).
  repeat match goal with
  | |- wp (Start _ _ _ ≫= _) _ _ => apply wp_bind; eapply wp_mono; [apply Start_inv; eassumption || apply captured0_inv|]
  | |- wp (rotateLoop _ _ _ _ _ _ ≫= _) _ _ => apply wp_bind; eapply wp_mono; [apply rotateLoop_inv; eassumption|]
  | |- forall _ _, _ -> _ => intros [?|?] ? ?; [|done]
  end.
  eapply wp_mono; [by apply rotateLoop_inv|done].
Qed.

Lemma prune_leaves_cached_key_witness :
  serviceInv kek toyScope twiceRotated /\
  exists k, wp (Prune toyScope "op")
    (fun r w' => match r with
                 | Ok _ => w'.(w_db).(scope_keys) !! (toyScope, 1) = None /\
                           GetVersion kek toyScope 1 w' = (Ok k, w')
                 | Err _ => twiceRotated.(w_faults) <> [] \/ ~ prunableNow toyScope twiceRotated.(w_db)
                 end) twiceRotated /\
    fst (Prune toyScope "op" twiceRotated) = Ok 2.
Proof.
  split; [exact twiceRotated_inv|]. eexists. split; [|vm_compute; reflexivity].
  apply (prune_leaves_cached_key kek toyScope "op" (MkRotationRow 2 3 StatusCompleted "done" "") 1 _ twiceRotated);
    [exact twiceRotated_inv|vm_compute; reflexivity|reflexivity|vm_compute; reflexivity].
Defined.

(** A second episode of the scope, captured by a writer that resolved its key
    before the rotation. *)
Definition lateEpisode : Episode := {|
  ID := "ep2"; TS := 0; Type_ := "interaction"; ProviderVendor := ""; ProviderModel := "";
  InputText := "late"; OutputText := "reply"; Importance := S754_zero false; Hash := "h2";
  Truncated := false; MemoryGate := ""; RetrievedRefs := []; ActorUserID := "";
  RefersTo := ""; Rating := ""; Note := "" |}.

Definition firstKey : Encryptor := default "" (keyOf kek captured0.(w_db) toyScope 1).

Lemma rotated_below : nothingBelow toyScope 2 rotated.(w_db).
Proof.
  split_and!; intros r Hr _; vm_compute in Hr; try by apply elem_of_nil in Hr.
  apply list_elem_of_singleton in Hr as ->. vm_compute. discriminate.
Qed.

Lemma lateEpisode_admissible d : admissible toyScope lateEpisode d.
Proof.
  split; [by left|]. split; [reflexivity|]. split; [by left|]. split; [by left|].
  split; [by left|]. right. by left.
Qed.

Lemma prune_race_loses_episode_witness :
  keyOf kek rotated.(w_db) toyScope 1 = Some firstKey /\
  wp (captureDuringPrune toyScope "op" (firstKey, 1) lateEpisode)
    (fun r w' => (exists n, r = Ok n) /\
       exists e, w'.(w_db).(episodes) = rotated.(w_db).(episodes) ++ [e] /\
         e.(e_id) = "ep2" /\ e.(e_scope) = toyScope /\ e.(e_key_version) = 1 /\
         (keyOf kek rotated.(w_db) toyScope 1 = Some firstKey ->
            readField kek rotated.(w_db) toyScope 1 e.(e_input) = Some "late" /\
            readField kek rotated.(w_db) toyScope 1 e.(e_output) = Some "reply") /\
         readField kek w'.(w_db) toyScope 1 e.(e_input) = None /\
         readField kek w'.(w_db) toyScope 1 e.(e_output) = None) rotated.
Proof.
  split; [vm_compute; reflexivity|].
  apply (prune_race_loses_episode kek toyScope "op" lateEpisode firstKey 1
    (MkRotationRow 1 2 StatusCompleted "done" "") rotated).
  - exact rotated_inv.
  - vm_compute. reflexivity.
  - exact rand_ok_toy.
  - vm_compute. reflexivity.
  - reflexivity.
  - exact rotated_below.
  - reflexivity.
  - vm_compute. intros Hin. apply list_elem_of_singleton in Hin. discriminate Hin.
  - apply lateEpisode_admissible.
  - intros Hf. discriminate Hf.
Defined.
