(* ===== verification/Utf8.v ===== *)
(** * Utf8: Go strings as bytes and as runes

    A Go string is a byte string; [[]rune(s)] decodes it, an ill-formed byte
    giving U+FFFD, and [string(rs)] encodes runes, an invalid one as U+FFFD.
    [Unicode] is the character tables of package [unicode], of which the
    development relies on the ASCII rows only. *)

From S2P Require Import Prelude.
#[local] Open Scope string_scope.
#[local] Open Scope list_scope.
#[local] Open Scope Z_scope.

Definition byteZ (a : ascii) : Z := Z.of_N (N_of_ascii a).
Definition Zbyte (z : Z) : ascii := ascii_of_N (Z.to_N z).

Definition RuneError : Z := 65533.

(** A Unicode scalar value. *)
Definition valid_rune (r : Z) : bool :=
  (0 <=? r) && (r <=? 1114111) && negb ((55296 <=? r) && (r <=? 57343)).

(** A continuation byte. *)
Definition cont (b : Z) : bool := (128 <=? b) && (b <=? 191).

(** The well-formed multi-byte sequences, by first and second byte. *)
Definition ok2 (b0 b1 : Z) : bool := (194 <=? b0) && (b0 <=? 223) && cont b1.
Definition ok3 (b0 b1 b2 : Z) : bool :=
  ((b0 =? 224) && (160 <=? b1) && (b1 <=? 191) ||
   (225 <=? b0) && (b0 <=? 236) && cont b1 ||
   (b0 =? 237) && (128 <=? b1) && (b1 <=? 159) ||
   (238 <=? b0) && (b0 <=? 239) && cont b1) && cont b2.
Definition ok4 (b0 b1 b2 b3 : Z) : bool :=
  ((b0 =? 240) && (144 <=? b1) && (b1 <=? 191) ||
   (241 <=? b0) && (b0 <=? 243) && cont b1 ||
   (b0 =? 244) && (128 <=? b1) && (b1 <=? 143)) && cont b2 && cont b3.

Definition val2 (b0 b1 : Z) : Z := (b0 - 192) * 64 + (b1 - 128).
Definition val3 (b0 b1 b2 : Z) : Z := (b0 - 224) * 4096 + (b1 - 128) * 64 + (b2 - 128).
Definition val4 (b0 b1 b2 b3 : Z) : Z :=
  (b0 - 240) * 262144 + (b1 - 128) * 4096 + (b2 - 128) * 64 + (b3 - 128).

(** [[]rune(s)] *)
Fixpoint runes (s : string) : list Z :=
  match s with
  | EmptyString => []
  | String a s1 =>
      let b0 := byteZ a in
      if b0 <? 128 then b0 :: runes s1
      else
        match s1 with
        | EmptyString => [RuneError]
        | String c1 s2 =>
            if ok2 b0 (byteZ c1) then val2 b0 (byteZ c1) :: runes s2
            else
              match s2 with
              | EmptyString => RuneError :: runes s1
              | String c2 s3 =>
                  if ok3 b0 (byteZ c1) (byteZ c2)
                  then val3 b0 (byteZ c1) (byteZ c2) :: runes s3
                  else
                    match s3 with
                    | EmptyString => RuneError :: runes s1
                    | String c3 s4 =>
                        if ok4 b0 (byteZ c1) (byteZ c2) (byteZ c3)
                        then val4 b0 (byteZ c1) (byteZ c2) (byteZ c3) :: runes s4
                        else RuneError :: runes s1
                    end
              end
        end
  end.

(** [utf8.AppendRune] of a valid rune. *)
Definition encodeValid (r : Z) (rest : string) : string :=
  if r <? 128 then String (Zbyte r) rest
  else if r <? 2048 then String (Zbyte (192 + r / 64)) (String (Zbyte (128 + r mod 64)) rest)
  else if r <? 65536 then
    String (Zbyte (224 + r / 4096)) (String (Zbyte (128 + r / 64 mod 64))
      (String (Zbyte (128 + r mod 64)) rest))
  else
    String (Zbyte (240 + r / 262144)) (String (Zbyte (128 + r / 4096 mod 64))
      (String (Zbyte (128 + r / 64 mod 64)) (String (Zbyte (128 + r mod 64)) rest))).

Definition encodeRune (r : Z) (rest : string) : string :=
  encodeValid (if valid_rune r then r else RuneError) rest.

(** [string(rs)] *)
Fixpoint ofRunes (rs : list Z) : string :=
  match rs with
  | [] => ""
  | r :: rs' => encodeRune r (ofRunes rs')
  end.

(** [utf8.RuneCountInString] *)
Definition RuneCount (s : string) : Z := Z.of_nat (length (runes s)).

Class Unicode := {
  to_lower : Z -> Z;
  is_letter : Z -> bool;
  is_digit : Z -> bool
}.

Definition ascii_lower (r : Z) : Z := if (65 <=? r) && (r <=? 90) then r + 32 else r.
Definition ascii_letter (r : Z) : bool :=
  (65 <=? r) && (r <=? 90) || (97 <=? r) && (r <=? 122).
Definition ascii_digit (r : Z) : bool := (48 <=? r) && (r <=? 57).

Class UnicodeLaws `{Unicode} : Prop := {
  lower_ascii : forall r, 0 <= r < 128 -> to_lower r = ascii_lower r;
  letter_ascii : forall r, 0 <= r < 128 -> is_letter r = ascii_letter r;
  digit_ascii : forall r, 0 <= r < 128 -> is_digit r = ascii_digit r;
  lower_valid : forall r, valid_rune r = true -> valid_rune (to_lower r) = true
}.

(** [strings.ToLower] *)
Definition ToLower `{Unicode} (s : string) : string := ofRunes (map to_lower (runes s)).

(** ** Lemmas *)

Lemma byteZ_Zbyte z : 0 <= z < 256 -> byteZ (Zbyte z) = z.
Proof.
  intros Hz. unfold byteZ, Zbyte. rewrite N_ascii_embedding; lia.
Qed.

Lemma byteZ_range a : 0 <= byteZ a < 256.
Proof. unfold byteZ. pose proof (N_ascii_bounded a). lia. Qed.

Lemma Zbyte_byteZ a : Zbyte (byteZ a) = a.
Proof. unfold byteZ, Zbyte. rewrite N2Z.id. apply ascii_N_embedding. Qed.

Lemma div_bounds a b lo hi : 0 < b -> b * lo <= a < b * hi -> lo <= a / b < hi.
Proof.
  intros Hb [H1 H2]. split; [apply Z.div_le_lower_bound; lia|apply Z.div_lt_upper_bound; lia].
Qed.

Ltac zsolve := repeat match goal with
  | |- (_ && _)%bool = true => apply andb_true_iff; split
  | |- negb _ = true => apply negb_true_iff
  | |- (_ <=? _) = true => apply Z.leb_le
  | |- (_ =? _) = true => apply Z.eqb_eq
  end; try lia.

Lemma valid_rune_spec r :
  valid_rune r = true <-> 0 <= r <= 1114111 /\ ~ (55296 <= r <= 57343).
Proof.
  unfold valid_rune. rewrite !andb_true_iff, negb_true_iff, andb_false_iff, !Z.leb_le, !Z.leb_gt. lia.
Qed.

Lemma ok2_false b0 b1 : 223 < b0 -> ok2 b0 b1 = false.
Proof. intros. unfold ok2. rewrite !andb_false_iff, !Z.leb_gt. lia. Qed.

Lemma ok3_false b0 b1 b2 : 239 < b0 -> ok3 b0 b1 b2 = false.
Proof.
  intros. unfold ok3. rewrite !andb_false_iff, !orb_false_iff, !andb_false_iff, !Z.leb_gt, !Z.eqb_neq. lia.
Qed.

Lemma runes_encodeValid r rest :
  valid_rune r = true -> runes (encodeValid r rest) = r :: runes rest.
Proof.
  rewrite valid_rune_spec. intros [Hr Hs]. unfold encodeValid.
  pose proof (Z.mod_pos_bound r 64 ltac:(lia)) as Hm0.
  pose proof (Z.mod_pos_bound (r / 64) 64 ltac:(lia)) as Hm1.
  pose proof (Z.mod_pos_bound (r / 4096) 64 ltac:(lia)) as Hm2.
  pose proof (Z.div_mod r 64 ltac:(lia)) as E0.
  pose proof (Z.div_mod (r / 64) 64 ltac:(lia)) as E1.
  pose proof (Z.div_mod (r / 4096) 64 ltac:(lia)) as E2.
  rewrite Z.div_div in E1, E2 by lia.
  replace (64 * 64) with 4096 in E1 by done. replace (4096 * 64) with 262144 in E2 by done.
  destruct (r <? 128) eqn:H1; [|destruct (r <? 2048) eqn:H2; [|destruct (r <? 65536) eqn:H3]];
    bool_to_prop.
  - cbn [runes]. rewrite byteZ_Zbyte by lia. by rewrite (proj2 (Z.ltb_lt r 128)) by lia.
  - pose proof (div_bounds r 64 2 32 ltac:(lia) ltac:(lia)).
    cbn [runes]. rewrite !byteZ_Zbyte by lia.
    rewrite (proj2 (Z.ltb_ge _ 128)) by lia.
    assert (ok2 (192 + r / 64) (128 + r mod 64) = true) as -> by (unfold ok2, cont; zsolve).
    f_equal. unfold val2. lia.
  - pose proof (div_bounds r 4096 0 16 ltac:(lia) ltac:(lia)).
    assert (Hok : ok3 (224 + r / 4096) (128 + r / 64 mod 64) (128 + r mod 64) = true).
    { unfold ok3. apply andb_true_iff. split; [|unfold cont; zsolve]. unfold cont.
      rewrite !orb_true_iff, !andb_true_iff, !Z.leb_le, !Z.eqb_eq. lia. }
    cbn [runes]. rewrite !byteZ_Zbyte by lia.
    rewrite (proj2 (Z.ltb_ge _ 128)) by lia.
    rewrite ok2_false by lia. rewrite Hok. f_equal. unfold val3. lia.
  - pose proof (div_bounds r 262144 0 5 ltac:(lia) ltac:(lia)).
    assert (Hok : ok4 (240 + r / 262144) (128 + r / 4096 mod 64) (128 + r / 64 mod 64)
                    (128 + r mod 64) = true).
    { unfold ok4. apply andb_true_iff. split; [apply andb_true_iff; split|]; [|unfold cont; zsolve..].
      unfold cont. rewrite !orb_true_iff, !andb_true_iff, !Z.leb_le, !Z.eqb_eq. lia. }
    cbn [runes]. rewrite !byteZ_Zbyte by lia.
    rewrite (proj2 (Z.ltb_ge _ 128)) by lia.
    rewrite ok2_false, ok3_false by lia. rewrite Hok. f_equal. unfold val4. lia.
Qed.

(** Decoding what was encoded gives the runes back, invalid ones as U+FFFD. *)
Lemma runes_ofRunes rs :
  runes (ofRunes rs) = map (fun r => if valid_rune r then r else RuneError) rs.
Proof.
  induction rs as [|r rs IH]; [done|]. cbn [ofRunes map]. unfold encodeRune.
  rewrite runes_encodeValid; [by rewrite IH|]. by destruct (valid_rune r) eqn:E.
Qed.

Lemma runes_ofRunes_valid rs : Forall (fun r => valid_rune r = true) rs -> runes (ofRunes rs) = rs.
Proof.
  intros Hv. rewrite runes_ofRunes. induction Hv as [|r rs Hr _ IH]; cbn; [done|].
  by rewrite Hr, IH.
Qed.

(** Every decoded rune is valid. *)
Lemma val_valid :
  (forall b0 b1, ok2 b0 b1 = true -> valid_rune (val2 b0 b1) = true) /\
  (forall b0 b1 b2, ok3 b0 b1 b2 = true -> valid_rune (val3 b0 b1 b2) = true) /\
  (forall b0 b1 b2 b3, ok4 b0 b1 b2 b3 = true -> valid_rune (val4 b0 b1 b2 b3) = true).
Proof.
  split_and!; intros *; rewrite valid_rune_spec; unfold ok2, ok3, ok4, cont, val2, val3, val4;
    rewrite ?andb_true_iff, ?orb_true_iff, ?andb_true_iff, ?Z.leb_le, ?Z.eqb_eq; lia.
Qed.

Lemma string_ind_lt (P : string -> Prop) :
  (forall s, (forall t, (String.length t < String.length s)%nat -> P t) -> P s) -> forall s, P s.
Proof.
  intros H s. remember (String.length s) as n eqn:E. revert s E.
  induction n as [n IH] using lt_wf_ind. intros s ->. apply H. intros t Ht. by eapply IH.
Qed.

Lemma runes_valid s : Forall (fun r => valid_rune r = true) (runes s).
Proof.
  destruct val_valid as (V2 & V3 & V4).
  induction s as [[|a s1] IH] using string_ind_lt; [constructor|]. cbn [runes].
  assert (IH1 : Forall (fun r => valid_rune r = true) (runes s1)) by (apply IH; cbn; lia).
  destruct (byteZ a <? 128) eqn:E0.
  { constructor; [|done]. apply valid_rune_spec. pose proof (byteZ_range a). lia. }
  destruct s1 as [|c1 s2]; [by repeat constructor|].
  destruct (ok2 _ _) eqn:E2; [constructor; [by apply V2|apply IH; cbn; lia]|].
  destruct s2 as [|c2 s3]; [by constructor|].
  destruct (ok3 _ _ _) eqn:E3; [constructor; [by apply V3|apply IH; cbn; lia]|].
  destruct s3 as [|c3 s4]; [by constructor|].
  destruct (ok4 _ _ _ _) eqn:E4; [constructor; [by apply V4|apply IH; cbn; lia]|by constructor].
Qed.

Lemma runes_roundtrip s : runes (ofRunes (runes s)) = runes s.
Proof. apply runes_ofRunes_valid, runes_valid. Qed.

(** Well-formed strings are the ones the round trip keeps. *)
Definition valid_utf8 (s : string) : Prop := ofRunes (runes s) = s.

Lemma valid_utf8_ofRunes rs : valid_utf8 (ofRunes rs).
Proof.
  unfold valid_utf8. rewrite runes_ofRunes. induction rs as [|r rs IH]; [done|]. cbn [map ofRunes].
  rewrite IH. unfold encodeRune. destruct (valid_rune r) eqn:E; [by rewrite E|done].
Qed.

Lemma ofRunes_app a b : ofRunes (a ++ b) = ofRunes a +:+ ofRunes b.
Proof.
  induction a as [|r a IH]; [done|]. cbn [app ofRunes]. rewrite IH.
  unfold encodeRune, encodeValid. by repeat case_test.
Qed.

(** Lower-casing keeps the length of an ASCII string. *)
Definition ascii_string (s : string) : Prop :=
  Forall (fun a => byteZ a < 128) (list_ascii_of_string s).

Lemma runes_ascii s : ascii_string s -> runes s = map byteZ (list_ascii_of_string s).
Proof.
  unfold ascii_string. induction s as [|a s IH]; [done|]. cbn [list_ascii_of_string runes map].
  intros [Ha Hs]%Forall_cons. rewrite (proj2 (Z.ltb_lt _ 128)) by done. by rewrite IH.
Qed.

Lemma ofRunes_ascii_length rs :
  Forall (fun r => 0 <= r < 128) rs -> String.length (ofRunes rs) = length rs.
Proof.
  induction 1 as [|r rs Hr _ IH]; [done|]. cbn [ofRunes length]. unfold encodeRune.
  rewrite (proj2 (valid_rune_spec r)) by lia. unfold encodeValid.
  rewrite (proj2 (Z.ltb_lt r 128)) by lia. cbn. by rewrite IH.
Qed.

Lemma length_list_ascii s : length (list_ascii_of_string s) = String.length s.
Proof. induction s as [|a s IH]; cbn; [done|by rewrite IH]. Qed.

Lemma ToLower_ascii_length `{UnicodeLaws} s :
  ascii_string s -> String.length (ToLower s) = String.length s.
Proof.
  intros Hs. unfold ToLower. rewrite (runes_ascii s Hs), ofRunes_ascii_length.
  - by rewrite !length_map, length_list_ascii.
  - apply Forall_map, Forall_map. eapply Forall_impl; [exact Hs|]. intros a Ha. cbn in *.
    pose proof (byteZ_range a). rewrite lower_ascii by lia.
    unfold ascii_lower. case_test; bool_to_prop; lia.
Qed.

(** The tables of [unicode] on ASCII, and one row of them beyond. *)
Definition asciiUnicode : Unicode :=
  {| to_lower := ascii_lower; is_letter := ascii_letter; is_digit := ascii_digit |}.

Definition latinUnicode : Unicode :=
  {| to_lower r := if r =? 570 then 11365 else ascii_lower r;
     is_letter r := ascii_letter r || (r =? 570) || (r =? 11365);
     is_digit := ascii_digit |}.

Lemma asciiUnicode_laws : @UnicodeLaws asciiUnicode.
Proof.
  split; cbn; try done. intros r. rewrite !valid_rune_spec. unfold ascii_lower.
  case_test; bool_to_prop; lia.
Qed.

Lemma latinUnicode_laws : @UnicodeLaws latinUnicode.
Proof.
  split; cbn; [intros r Hr|intros r Hr|done|intros r].
  - by rewrite (proj2 (Z.eqb_neq r 570)) by lia.
  - rewrite (proj2 (Z.eqb_neq r 570)), (proj2 (Z.eqb_neq r 11365)) by lia. by rewrite !orb_false_r.
  - rewrite !valid_rune_spec. unfold ascii_lower. repeat case_test; bool_to_prop; lia.
Qed.
