(* ===== verification/Json.v ===== *)
(** * Json: what the program uses of [encoding/json]

    Values are parsed from the runes of the input, an ill-formed byte reading
    as U+FFFD; a string is unescaped with surrogate pairs joined and a lone
    surrogate replaced.  A member of an object keeps the text of its value, as
    [json.RawMessage] does.  [marshalMap] and [unmarshalMap] are [json.Marshal] and
    [json.Unmarshal] of a [map[string]string]; a nil map is [None].  Of a
    string with ill-formed bytes [marshalMap] writes U+FFFD itself where Go
    writes its escape, which reads back the same.  The nesting limit of 10000
    is not modelled. *)

From stdpp Require Import gmap.
From S2P Require Import Prelude Utf8.
#[local] Open Scope string_scope.
#[local] Open Scope list_scope.
#[local] Open Scope Z_scope.

Inductive json :=
| JNull
| JBool (b : bool)
| JNum (digits : list Z)
| JStr (rs : list Z)
| JArr (vs : list json)
| JObj (members : list (list Z * (list Z * json))).

(** ** Scanning *)

Definition isWs (r : Z) : bool := (r =? 32) || (r =? 9) || (r =? 10) || (r =? 13).

Fixpoint skipWs (rs : list Z) : list Z :=
  match rs with
  | r :: rs' => if isWs r then skipWs rs' else rs
  | [] => []
  end.

Definition hexOf (r : Z) : option Z :=
  if (48 <=? r) && (r <=? 57) then Some (r - 48)
  else if (97 <=? r) && (r <=? 102) then Some (r - 87)
  else if (65 <=? r) && (r <=? 70) then Some (r - 55)
  else None.

Definition hex4 (a b c d : Z) : option Z :=
  x ← hexOf a; y ← hexOf b; z ← hexOf c; u ← hexOf d; Some (4096 * x + 256 * y + 16 * z + u).

(** The escapes of one letter. *)
Definition escapeOf (e : Z) : option Z :=
  if (e =? 34) || (e =? 92) || (e =? 47) then Some e
  else if e =? 98 then Some 8
  else if e =? 102 then Some 12
  else if e =? 110 then Some 10
  else if e =? 114 then Some 13
  else if e =? 116 then Some 9
  else None.

(** The inside of a string up to its closing quote, as units: a rune, or the
    16-bit unit of a [\u] escape. *)
Fixpoint strBody (rs : list Z) : option (list (bool * Z) * list Z) :=
  match rs with
  | [] => None
  | r :: rest =>
      if r =? 34 then Some ([], rest)
      else if r =? 92 then
        match rest with
        | [] => None
        | e :: rest1 =>
            if e =? 117 then
              match rest1 with
              | a :: b :: c :: d :: rest2 =>
                  u ← hex4 a b c d; '(us, out) ← strBody rest2; Some ((true, u) :: us, out)
              | _ => None
              end
            else v ← escapeOf e; '(us, out) ← strBody rest1; Some ((false, v) :: us, out)
        end
      else if r <? 32 then None
      else '(us, out) ← strBody rest; Some ((false, r) :: us, out)
  end.

Definition isHigh (u : Z) : bool := (55296 <=? u) && (u <=? 56319).
Definition isLow (u : Z) : bool := (56320 <=? u) && (u <=? 57343).

(** [utf16.DecodeRune] on adjacent escapes; a lone surrogate is U+FFFD. *)
Fixpoint joinUnits (us : list (bool * Z)) : list Z :=
  match us with
  | [] => []
  | (esc, u) :: us' =>
      if esc && (isHigh u || isLow u) then
        match us' with
        | (true, l) :: us'' =>
            if isHigh u && isLow l then ((u - 55296) * 1024 + (l - 56320) + 65536) :: joinUnits us''
            else RuneError :: joinUnits us'
        | _ => RuneError :: joinUnits us'
        end
      else u :: joinUnits us'
  end.

Definition isDigit (r : Z) : bool := (48 <=? r) && (r <=? 57).

Fixpoint spanDigits (rs : list Z) : list Z * list Z :=
  match rs with
  | r :: rs' => if isDigit r then let '(ds, out) := spanDigits rs' in (r :: ds, out) else ([], rs)
  | [] => ([], [])
  end.

(** [-? (0 | [1-9][0-9]* ) (. [0-9]+)? ([eE] [+-]? [0-9]+)?] *)
Definition scanFraction (rs : list Z) : option (list Z * list Z) :=
  match rs with
  | 46 :: rs' => match spanDigits rs' with ([], _) => None | (ds, out) => Some (46 :: ds, out) end
  | _ => Some ([], rs)
  end.

Definition scanExponent (rs : list Z) : option (list Z * list Z) :=
  match rs with
  | e :: rs' =>
      if (e =? 101) || (e =? 69) then
        let '(sign, rs'') := match rs' with
                             | 43 :: r => ([43], r)
                             | 45 :: r => ([45], r)
                             | _ => ([], rs')
                             end in
        match spanDigits rs'' with
        | ([], _) => None
        | (ds, out) => Some (e :: sign ++ ds, out)
        end
      else Some ([], rs)
  | [] => Some ([], [])
  end.

Definition scanNumber (rs : list Z) : option (list Z * list Z) :=
  let '(minus, rs) := match rs with 45 :: r => ([45], r) | _ => ([], rs) end in
  '(int, rs) ← match rs with
               | 48 :: r => Some ([48], r)
               | _ => match spanDigits rs with ([], _) => None | (ds, out) => Some (ds, out) end
               end;
  '(frac, rs) ← scanFraction rs;
  '(ex, rs) ← scanExponent rs;
  Some (minus ++ int ++ frac ++ ex, rs).

(** [rs] after the given runes. *)
Fixpoint expect (lit rs : list Z) : option (list Z) :=
  match lit with
  | [] => Some rs
  | l :: lit' => match rs with r :: rs' => if r =? l then expect lit' rs' else None | [] => None end
  end.

(** The text of the value read between [rs] and [rest]. *)
Definition consumed (rs rest : list Z) : list Z := take (length (skipWs rs) - length rest) (skipWs rs).

(** One unit of fuel for each value, member and element. *)
Fixpoint parseValue (fuel : nat) (rs : list Z) : option (json * list Z) :=
  match fuel with
  | O => None
  | S fuel' =>
      match skipWs rs with
      | [] => None
      | r :: rest =>
          if r =? 34 then '(us, out) ← strBody rest; Some (JStr (joinUnits us), out)
          else if r =? 123 then
            match skipWs rest with
            | 125 :: out => Some (JObj [], out)
            | _ => '(ms, out) ← parseMembers fuel' rest; Some (JObj ms, out)
            end
          else if r =? 91 then
            match skipWs rest with
            | 93 :: out => Some (JArr [], out)
            | _ => '(vs, out) ← parseElements fuel' rest; Some (JArr vs, out)
            end
          else if r =? 110 then out ← expect [117; 108; 108] rest; Some (JNull, out)
          else if r =? 116 then out ← expect [114; 117; 101] rest; Some (JBool true, out)
          else if r =? 102 then out ← expect [97; 108; 115; 101] rest; Some (JBool false, out)
          else '(ds, out) ← scanNumber (r :: rest); Some (JNum ds, out)
      end
  end
with parseMembers (fuel : nat) (rs : list Z) : option (list (list Z * (list Z * json)) * list Z) :=
  match fuel with
  | O => None
  | S fuel' =>
      match skipWs rs with
      | 34 :: rest =>
          '(us, rs1) ← strBody rest;
          match skipWs rs1 with
          | 58 :: rs2 =>
              '(v, rs3) ← parseValue fuel' rs2;
              match skipWs rs3 with
              | 44 :: rs4 =>
                  '(ms, out) ← parseMembers fuel' rs4; Some ((joinUnits us, (consumed rs2 rs3, v)) :: ms, out)
              | 125 :: out => Some ([(joinUnits us, (consumed rs2 rs3, v))], out)
              | _ => None
              end
          | _ => None
          end
      | _ => None
      end
  end
with parseElements (fuel : nat) (rs : list Z) : option (list json * list Z) :=
  match fuel with
  | O => None
  | S fuel' =>
      '(v, rs1) ← parseValue fuel' rs;
      match skipWs rs1 with
      | 44 :: rs2 => '(vs, out) ← parseElements fuel' rs2; Some (v :: vs, out)
      | 93 :: out => Some ([v], out)
      | _ => None
      end
  end.

(** The whole input is one value. *)
Definition parseJson (s : string) : option json :=
  let rs := runes s in
  '(v, rest) ← parseValue (2 * length rs + 2) rs;
  match skipWs rest with [] => Some v | _ => None end.

(** ** A [map[string]string] *)

Definition valueString (v : json) : option string :=
  match v with
  | JStr rs => Some (ofRunes rs)
  | JNull => Some ""
  | _ => None
  end.

Fixpoint membersMap (ms : list (list Z * (list Z * json))) (m : gmap string string) : option (gmap string string) :=
  match ms with
  | [] => Some m
  | (k, (_, v)) :: ms' => s ← valueString v; membersMap ms' (<[ofRunes k := s]> m)
  end.

Definition unmarshalMap (s : string) : option (option (gmap string string)) :=
  v ← parseJson s;
  match v with
  | JNull => Some None
  | JObj ms => m ← membersMap ms ∅; Some (Some m)
  | _ => None
  end.

Definition hexDigit (n : Z) : Z := if n <? 10 then 48 + n else 87 + n.

Definition u00 (r : Z) : list Z :=
  [92; 117; hexDigit (r / 4096); hexDigit (r / 256 mod 16); hexDigit (r / 16 mod 16); hexDigit (r mod 16)].

(** The HTML-safe escaping of [json.Marshal]. *)
Definition escRune (r : Z) : list Z :=
  if (r =? 34) || (r =? 92) then [92; r]
  else if r =? 8 then [92; 98]
  else if r =? 12 then [92; 102]
  else if r =? 10 then [92; 110]
  else if r =? 13 then [92; 114]
  else if r =? 9 then [92; 116]
  else if (r <? 32) || (r =? 60) || (r =? 62) || (r =? 38) || (r =? 8232) || (r =? 8233) then u00 r
  else [r].

Definition quote (s : string) : list Z := 34 :: flat_map escRune (runes s) ++ [34].

(** Keys in sorted order. *)
Definition sortedEntries (m : gmap string string) : list (string * string) :=
  map (fun k => (k, default "" (m !! k))) (sort_by String.ltb (map_to_list m).*1).

Fixpoint memberRunes (kvs : list (string * string)) : list Z :=
  match kvs with
  | [] => []
  | (k, v) :: kvs' =>
      quote k ++ 58 :: quote v ++ match kvs' with [] => [] | _ => 44 :: memberRunes kvs' end
  end.

Definition marshalRunes (m : option (gmap string string)) : list Z :=
  match m with
  | None => [110; 117; 108; 108]
  | Some m => 123 :: memberRunes (sortedEntries m) ++ [125]
  end.

Definition marshalMap (m : option (gmap string string)) : string := ofRunes (marshalRunes m).

(** ** Lemmas: strings *)

Definition validRunes (rs : list Z) : Prop := Forall (fun r => valid_rune r = true) rs.

Lemma hexOf_hexDigit n : 0 <= n < 16 -> hexOf (hexDigit n) = Some n.
Proof.
  intros Hn. unfold hexDigit, hexOf.
  destruct (Z.ltb_spec n 10).
  - rewrite !(proj2 (Z.leb_le _ _)) by lia. cbn [andb]. f_equal. lia.
  - destruct ((48 <=? 87 + n) && (87 + n <=? 57)) eqn:E; [bool_to_prop; lia|].
    rewrite !(proj2 (Z.leb_le _ _)) by lia. cbn [andb]. f_equal. lia.
Qed.

Lemma hex4_u00 r : 0 <= r < 65536 ->
  hex4 (hexDigit (r / 4096)) (hexDigit (r / 256 mod 16)) (hexDigit (r / 16 mod 16)) (hexDigit (r mod 16)) = Some r.
Proof.
  intros Hr.
  replace (r / 4096) with (r / 16 / 16 / 16) by (rewrite !Z.div_div by lia; done).
  replace (r / 256) with (r / 16 / 16) by (rewrite !Z.div_div by lia; done).
  pose proof (Z.div_mod r 16 ltac:(lia)). pose proof (Z.mod_pos_bound r 16 ltac:(lia)).
  pose proof (Z.div_mod (r / 16) 16 ltac:(lia)). pose proof (Z.mod_pos_bound (r / 16) 16 ltac:(lia)).
  pose proof (Z.div_mod (r / 16 / 16) 16 ltac:(lia)). pose proof (Z.mod_pos_bound (r / 16 / 16) 16 ltac:(lia)).
  unfold hex4. rewrite !hexOf_hexDigit by lia. cbn [mbind option_bind]. f_equal. lia.
Qed.

(** An escaped rune reads as one unit, that rune. *)
Lemma strBody_esc r tail :
  valid_rune r = true ->
  exists b, (b = true -> isHigh r = false /\ isLow r = false) /\
    strBody (escRune r ++ tail) = ('(us, out) ← strBody tail; Some ((b, r) :: us, out)).
Proof.
  intros Hv%valid_rune_spec. unfold escRune.
  destruct (Z.eqb_spec r 34) as [->|]; [by exists false|].
  destruct (Z.eqb_spec r 92) as [->|]; [by exists false|]. cbn [orb].
  destruct (Z.eqb_spec r 8) as [->|]; [by exists false|].
  destruct (Z.eqb_spec r 12) as [->|]; [by exists false|].
  destruct (Z.eqb_spec r 10) as [->|]; [by exists false|].
  destruct (Z.eqb_spec r 13) as [->|]; [by exists false|].
  destruct (Z.eqb_spec r 9) as [->|]; [by exists false|].
  destruct ((r <? 32) || (r =? 60) || (r =? 62) || (r =? 38) || (r =? 8232) || (r =? 8233)) eqn:E.
  - assert (Hr : 0 <= r < 55296).
    { rewrite !orb_true_iff, !Z.eqb_eq, Z.ltb_lt in E. lia. }
    exists true. split.
    + intros _. unfold isHigh, isLow. rewrite (proj2 (Z.leb_gt 55296 r)), (proj2 (Z.leb_gt 56320 r)) by lia. done.
    + unfold u00. cbn [app strBody]. change (92 =? 34) with false. change (92 =? 92) with true.
      change (117 =? 117) with true. cbv iota. by rewrite hex4_u00 by lia.
  - exists false. split; [done|]. cbn [app strBody].
    rewrite (proj2 (Z.eqb_neq r 34)), (proj2 (Z.eqb_neq r 92)) by done.
    rewrite !orb_false_iff in E. by destruct_and! E; simplify_eq; match goal with H : (r <? 32) = false |- _ => rewrite H end.
Qed.

Lemma joinUnits_plain us :
  Forall (fun u : bool * Z => u.1 = true -> isHigh u.2 = false /\ isLow u.2 = false) us ->
  joinUnits us = us.*2.
Proof.
  induction 1 as [|[b u] us Hu _ IH]; [done|]. cbn [joinUnits fmap list_fmap snd]. cbn in Hu.
  destruct b; cbn [andb]; [|by rewrite IH]. destruct (Hu eq_refl) as [-> ->]. cbn. by rewrite IH.
Qed.

Lemma strBody_quoted rs rest :
  validRunes rs ->
  exists us, strBody (flat_map escRune rs ++ 34 :: rest) = Some (us, rest) /\ joinUnits us = rs.
Proof.
  intros Hv. assert (H : exists us, strBody (flat_map escRune rs ++ 34 :: rest) = Some (us, rest) /\
    Forall (fun u : bool * Z => u.1 = true -> isHigh u.2 = false /\ isLow u.2 = false) us /\ us.*2 = rs).
  { induction Hv as [|r rs Hr _ (us & IH & Hus & E)]; [by exists []|]. cbn [flat_map].
    rewrite <- app_assoc. destruct (strBody_esc r (flat_map escRune rs ++ 34 :: rest) Hr) as (b & Hb & ->).
    rewrite IH. exists ((b, r) :: us). split_and!; [done|by constructor|cbn; by rewrite E]. }
  destruct H as (us & H1 & H2 & <-). exists us. split; [done|]. by apply joinUnits_plain.
Qed.

(** ** Lemmas: the object *)

Lemma parseValue_quote fuel s rest :
  parseValue (S fuel) (quote s ++ rest) = Some (JStr (runes s), rest).
Proof.
  unfold quote. rewrite <- app_comm_cons, <- app_assoc. cbn [app].
  destruct (strBody_quoted (runes s) rest (runes_valid s)) as (us & E & Ej).
  cbn [parseValue skipWs]. change (isWs 34) with false. cbv iota. change (34 =? 34) with true. cbv iota.
  rewrite E. cbn [mbind option_bind]. by rewrite Ej.
Qed.

Lemma consumed_quote v rest : consumed (quote v ++ rest) rest = quote v.
Proof.
  unfold consumed. assert (E : skipWs (quote v ++ rest) = quote v ++ rest) by reflexivity.
  by rewrite E, length_app, Nat.add_sub, take_app_length.
Qed.

Lemma parseMembers_entries kvs rest fuel :
  kvs <> [] -> (length kvs < fuel)%nat ->
  parseMembers fuel (memberRunes kvs ++ 125 :: rest) =
    Some (map (fun kv => (runes kv.1, (quote kv.2, JStr (runes kv.2)))) kvs, rest).
Proof.
  revert fuel. induction kvs as [|[k v] kvs IH]; intros fuel Hne Hf; [done|].
  destruct fuel as [|[|fuel]]; [cbn in Hf; lia|cbn in Hf; lia|]. cbn [memberRunes].
  rewrite <- app_assoc, <- app_comm_cons, <- app_assoc.
  unfold quote at 1. rewrite <- app_comm_cons, <- app_assoc. cbn [app].
  destruct (strBody_quoted (runes k) (58 :: quote v ++ (match kvs with [] => [] | _ => 44 :: memberRunes kvs end ++ 125 :: rest))
    (runes_valid k)) as (us & E & Ej).
  remember (S fuel) as f1. cbn [parseMembers skipWs]. change (isWs 34) with false. cbv iota.
  rewrite E. cbn [mbind option_bind skipWs]. change (isWs 58) with false. cbv iota. subst f1.
  rewrite parseValue_quote. cbn [mbind option_bind]. rewrite Ej, consumed_quote.
  destruct kvs as [|kv kvs].
  - cbn [app skipWs]. change (isWs 125) with false. done.
  - rewrite <- app_comm_cons. cbn [skipWs]. change (isWs 44) with false. cbv iota.
    rewrite IH by (done || (cbn in Hf |- *; lia)). done.
Qed.

(** Setting one entry. *)
Definition putEntry (m : gmap string string) (kv : string * string) : gmap string string := <[kv.1 := kv.2]> m.

Lemma membersMap_foldl kvs m :
  Forall (fun kv : string * string => valid_utf8 kv.1 /\ valid_utf8 kv.2) kvs ->
  membersMap (map (fun kv => (runes kv.1, (quote kv.2, JStr (runes kv.2)))) kvs) m =
    Some (foldl putEntry m kvs).
Proof.
  intros H. revert m. induction H as [|[k v] kvs [Hk Hv] _ IH]; intros m; [done|].
  cbn [map membersMap valueString mbind option_bind fst snd foldl]. cbn in Hk, Hv.
  rewrite Hk, Hv. apply IH.
Qed.

Lemma foldl_insert_lookup (m : gmap string string) kvs m0 k :
  (forall kv, kv ∈ kvs -> m !! kv.1 = Some kv.2) ->
  foldl putEntry m0 kvs !! k =
    if bool_decide (k ∈ kvs.*1) then m !! k else m0 !! k.
Proof.
  revert m0. induction kvs as [|[k' v] kvs IH]; intros m0 H; [done|]. cbn [foldl fmap list_fmap fst snd].
  rewrite IH by (intros kv Hkv; apply H; by right).
  destruct (bool_decide_reflect (k ∈ kvs.*1)) as [Hk|Hk].
  - by rewrite bool_decide_eq_true_2 by by right.
  - destruct (decide (k = k')) as [->|Hne].
    + rewrite bool_decide_eq_true_2 by by left. unfold putEntry. cbn [fst snd]. rewrite lookup_insert_eq. symmetry. by apply (H (k', v)); left.
    + rewrite bool_decide_eq_false_2 by (by intros [?|?]%elem_of_cons). unfold putEntry. cbn [fst snd].
      by rewrite lookup_insert_ne.
Qed.

Lemma sortedEntries_spec m kv : kv ∈ sortedEntries m <-> m !! kv.1 = Some kv.2.
Proof.
  unfold sortedEntries. rewrite list_elem_of_fmap. split.
  - intros (k & -> & Hk). cbn [fst snd]. apply elem_of_sort_by in Hk.
    apply list_elem_of_fmap in Hk as ([k' v] & -> & Hkv). apply elem_of_map_to_list in Hkv. cbn.
    by rewrite Hkv.
  - destruct kv as [k v]. cbn. intros E. exists k. rewrite E. split; [done|].
    apply elem_of_sort_by, list_elem_of_fmap. exists (k, v). split; [done|]. by apply elem_of_map_to_list.
Qed.

Lemma entries_rebuild m : foldl putEntry ∅ (sortedEntries m) = m.
Proof.
  apply map_eq. intros k. rewrite (foldl_insert_lookup m) by (intros kv; apply sortedEntries_spec).
  case_bool_decide as Hk; [done|]. rewrite lookup_empty. destruct (m !! k) as [v|] eqn:E; [|done].
  destruct Hk. apply list_elem_of_fmap. exists (k, v). split; [done|]. by apply sortedEntries_spec.
Qed.

(** ** Lemmas: well-formed output *)

Lemma validRunes_ascii rs : Forall (fun r => 0 <= r < 128) rs -> validRunes rs.
Proof. intros H. eapply Forall_impl; [exact H|]. intros r Hr. apply valid_rune_spec. cbn in Hr. lia. Qed.

Lemma escRune_valid r : valid_rune r = true -> validRunes (escRune r).
Proof.
  intros Hv. unfold escRune. destruct (_ || _) eqn:E0.
  { apply validRunes_ascii. rewrite orb_true_iff, !Z.eqb_eq in E0. repeat constructor; lia. }
  repeat match goal with |- validRunes (if ?c then _ else _) => destruct c eqn:? end;
    try (apply validRunes_ascii; repeat constructor; lia); [|by repeat constructor].
  assert (Hr : 0 <= r < 65536).
  { apply valid_rune_spec in Hv.
    match goal with H : _ || _ = true |- _ => rewrite !orb_true_iff, !Z.eqb_eq, Z.ltb_lt in H end. lia. }
  assert (Hd : forall n, 0 <= n < 16 -> 0 <= hexDigit n < 128) by (intros n; unfold hexDigit; case_match; lia).
  assert (Hq : 0 <= r / 4096 < 16) by (split; [apply Z.div_pos; lia|apply Z.div_lt_upper_bound; lia]).
  apply validRunes_ascii. unfold u00. repeat constructor; try lia; apply Hd; try done; apply Z.mod_pos_bound; lia.
Qed.

Lemma quote_valid s : validRunes (quote s).
Proof.
  unfold quote, validRunes. constructor; [done|]. apply Forall_app. split; [|by repeat constructor].
  pose proof (runes_valid s) as H. induction H as [|r rs Hr _ IH]; [constructor|]. cbn [flat_map].
  apply Forall_app. split; [by apply escRune_valid|done].
Qed.

Lemma memberRunes_valid kvs : validRunes (memberRunes kvs).
Proof.
  unfold validRunes. induction kvs as [|[k v] kvs IH]; [constructor|]. cbn [memberRunes].
  apply Forall_app. split; [apply quote_valid|]. constructor; [done|].
  apply Forall_app. split; [apply quote_valid|]. destruct kvs; [constructor|]. by constructor.
Qed.

Lemma marshalRunes_valid m : validRunes (marshalRunes m).
Proof.
  destruct m as [m|]; [|by repeat constructor]. cbn [marshalRunes]. constructor; [done|].
  apply Forall_app. split; [apply memberRunes_valid|by repeat constructor].
Qed.

Lemma memberRunes_length kvs : (length kvs <= length (memberRunes kvs))%nat.
Proof.
  induction kvs as [|[k v] kvs IH]; [done|]. cbn [memberRunes length]. unfold quote at 1.
  rewrite length_app. cbn [length app]. destruct kvs; cbn [length] in *; [lia|].
  rewrite !length_app. cbn [length]. lia.
Qed.

(** ** Lemmas: maps *)

Definition utf8Map (m : option (gmap string string)) : Prop :=
  forall k v, default ∅ m !! k = Some v -> valid_utf8 k /\ valid_utf8 v.

Lemma marshal_not_empty m : marshalMap m <> "".
Proof.
  unfold marshalMap. intros E. pose proof (runes_ofRunes_valid _ (marshalRunes_valid m)) as H.
  rewrite E in H. destruct m; cbn in H; discriminate H.
Qed.

Lemma parse_marshalled m :
  parseJson (marshalMap m) =
    Some (match m with
          | None => JNull
          | Some m => JObj (map (fun kv => (runes kv.1, (quote kv.2, JStr (runes kv.2)))) (sortedEntries m))
          end).
Proof.
  unfold parseJson, marshalMap. rewrite runes_ofRunes_valid by apply marshalRunes_valid.
  destruct m as [m|]; [|reflexivity]. cbn [marshalRunes].
  set (kvs := sortedEntries m). set (f := (2 * length (123 :: memberRunes kvs ++ [125])%Z + 1)%nat).
  replace (2 * length (123 :: memberRunes kvs ++ [125])%Z + 2)%nat with (S f) by (subst f; lia).
  assert (Hf : (length kvs < f)%nat).
  { subst f. cbn [length]. rewrite length_app. pose proof (memberRunes_length kvs). lia. }
  clearbody f. cbn [parseValue skipWs]. change (isWs 123) with false. cbv iota.
  change (123 =? 34) with false. change (123 =? 123) with true. cbv iota.
  clearbody kvs. destruct kvs as [|[k v] kvs'].
  - cbn [memberRunes app map skipWs]. change (isWs 125) with false. done.
  - pose proof (parseMembers_entries ((k, v) :: kvs') [] f ltac:(done) Hf) as Hp.
    assert (Hsk : exists x, skipWs (memberRunes ((k, v) :: kvs') ++ [125]) = 34 :: x).
    { cbn [memberRunes]. unfold quote at 1. cbn [app skipWs]. change (isWs 34) with false. by eexists. }
    destruct Hsk as [x ->]. rewrite Hp. done.
Qed.

Lemma unmarshal_marshal m : utf8Map m -> unmarshalMap (marshalMap m) = Some m.
Proof.
  intros Hu. unfold unmarshalMap. rewrite parse_marshalled. destruct m as [m|]; [|done].
  cbn [mbind option_bind]. rewrite membersMap_foldl.
  - cbn [mbind option_bind]. by rewrite entries_rebuild.
  - apply Forall_forall. intros kv Hkv. apply Hu. cbn. by apply sortedEntries_spec.
Qed.

Lemma membersMap_utf8 ms m0 m : membersMap ms m0 = Some m -> utf8Map (Some m0) -> utf8Map (Some m).
Proof.
  revert m0. induction ms as [|[k [raw v]] ms IH]; intros m0; cbn; [by intros [= ->]|].
  destruct (valueString v) as [t|] eqn:Ev; [|done]. cbn. intros H H0. apply (IH _ H).
  intros k' v'. cbn. destruct (decide (ofRunes k = k')) as [<-|Hne].
  - rewrite lookup_insert_eq. intros [= <-]. split; [apply valid_utf8_ofRunes|].
    destruct v; try discriminate Ev; injection Ev as <-; [done|apply valid_utf8_ofRunes].
  - rewrite lookup_insert_ne by done. apply H0.
Qed.

Lemma unmarshal_utf8 t m : unmarshalMap t = Some m -> utf8Map m.
Proof.
  unfold unmarshalMap. destruct (parseJson t) as [v|]; [|done]. cbn. destruct v; try done.
  - by intros [= <-].
  - destruct (membersMap members ∅) as [m'|] eqn:E; [|done]. intros [= <-].
    by apply (membersMap_utf8 _ _ _ E).
Qed.
