(* ===== verification/Float.v ===== *)
(** * Float: Go's float64

    IEEE 754 double precision through the Standard Library's [SpecFloat]:
    the operations the program uses, constants, conversions from integers, and
    the comparisons, with the order they give on numbers that are not NaN. *)

From Stdlib Require Import SpecFloat.
From S2P Require Import Prelude.
#[local] Open Scope Z_scope.

Definition f64 := spec_float.
Definition fadd : f64 -> f64 -> f64 := SFadd 53 1024.
Definition fsub : f64 -> f64 -> f64 := SFsub 53 1024.
Definition fmul : f64 -> f64 -> f64 := SFmul 53 1024.
Definition fdiv : f64 -> f64 -> f64 := SFdiv 53 1024.

(** [float64(n)] *)
Definition fofZ (n : Z) : f64 := binary_normalize 53 1024 n 0 false.

(** The constant [n / d], correctly rounded for [n], [d] below 2^53. *)
Definition fratio (n d : Z) : f64 := fdiv (fofZ n) (fofZ d).

Definition f0 : f64 := S754_zero false.
Definition f1 : f64 := fofZ 1.
Definition fNegInf : f64 := S754_infinity true.

(** [a > b], [a < b], [a >= b], [a == b] *)
Definition fgt (a b : f64) : bool := SFltb b a.
Definition flt (a b : f64) : bool := SFltb a b.
Definition fge (a b : f64) : bool := SFleb b a.
Definition feq (a b : f64) : bool := SFeqb a b.

Definition isNaN (a : f64) : bool := match a with S754_nan => true | _ => false end.

(** ** The order on floats as a lexicographic order on integers *)

Definition fkey (a : f64) : Z * Z * Z :=
  match a with
  | S754_nan => (-3, 0, 0)
  | S754_infinity s => (if s then -2 else 2, 0, 0)
  | S754_zero _ => (0, 0, 0)
  | S754_finite s m e => if s then (-1, - e, Z.neg m) else (1, e, Z.pos m)
  end.

Definition klt (a b : Z * Z * Z) : bool :=
  let '(c1, e1, m1) := a in
  let '(c2, e2, m2) := b in
  (c1 <? c2) || ((c1 =? c2) && ((e1 <? e2) || ((e1 =? e2) && (m1 <? m2)))).

Lemma klt_spec c1 e1 m1 c2 e2 m2 :
  klt (c1, e1, m1) (c2, e2, m2) = true <->
  c1 < c2 \/ (c1 = c2 /\ (e1 < e2 \/ (e1 = e2 /\ m1 < m2))).
Proof.
  unfold klt. by rewrite !orb_true_iff, !andb_true_iff, !orb_true_iff, !andb_true_iff,
    !Z.ltb_lt, !Z.eqb_eq.
Qed.

#[export] Instance klt_sw : StrictWeak klt.
Proof.
  split.
  - intros [[c e] m]. apply not_true_is_false. rewrite klt_spec. lia.
  - intros [[? ?] ?] [[? ?] ?] [[? ?] ?]. rewrite !klt_spec. lia.
  - intros [[? ?] ?] [[? ?] ?] [[? ?] ?]. rewrite !klt_spec. lia.
Qed.

(** The exponents and mantissas of two finite floats compared. *)
Ltac finite_cases :=
  match goal with
  | |- context [Pos.compare_cont Eq ?m ?m'] => change (Pos.compare_cont Eq m m') with (Pos.compare m m')
  end;
  match goal with
  | |- context [(?e ?= ?e')%Z] => destruct (Z.compare_spec e e')
  end;
  match goal with
  | |- context [Pos.compare ?m ?m'] => destruct (Pos.compare_spec m m')
  | |- _ => idtac
  end; cbn.

Lemma flt_key a b : isNaN a = false -> isNaN b = false -> flt a b = klt (fkey a) (fkey b).
Proof.
  intros Ha Hb. apply eq_iff_eq_true. unfold flt, SFltb.
  destruct a as [[]|[]| |[] m e], b as [[]|[]| |[] m' e']; try discriminate;
    cbn -[Z.compare Pos.compare_cont klt]; rewrite klt_spec; try (split; intros; lia || done).
  all: finite_cases; split; intros; done || lia.
Qed.

Lemma feq_key a b : isNaN a = false -> isNaN b = false -> feq a b = bool_decide (fkey a = fkey b).
Proof.
  intros Ha Hb. apply eq_iff_eq_true. rewrite bool_decide_eq_true. unfold feq, SFeqb.
  destruct a as [[]|[]| |[] m e], b as [[]|[]| |[] m' e']; try discriminate;
    cbn -[Z.compare Pos.compare_cont]; try (split; [discriminate|intros [=]; done]); try done.
  all: finite_cases; split; intros Hx; try discriminate Hx; try (f_equal; [f_equal|]; lia);
    try done; injection Hx; lia.
Qed.

Lemma fgt_nan_l a b : fgt a b = true -> isNaN a = false.
Proof. unfold fgt, SFltb. by destruct a as [[]|[]| |[]], b as [[]|[]| |[]]. Qed.

Lemma fgt_nan_r a b : fgt a b = true -> isNaN b = false.
Proof. unfold fgt, SFltb. by destruct a as [[]|[]| |[]], b as [[]|[]| |[]]. Qed.

Lemma klt_total a b : klt a b = false -> klt b a = false -> a = b.
Proof.
  destruct a as [[c1 e1] m1], b as [[c2 e2] m2].
  intros H1%not_true_iff_false H2%not_true_iff_false. rewrite klt_spec in H1, H2.
  assert (c1 = c2 /\ e1 = e2 /\ m1 = m2) as (-> & -> & ->) by lia. done.
Qed.

(** ** Sorting by a decreasing float *)

Lemma StronglySorted_on {A} (R S : A -> A -> Prop) (P : A -> Prop) l :
  (forall x y, P x -> P y -> R x y -> S x y) -> Forall P l -> StronglySorted R l -> StronglySorted S l.
Proof.
  intros Hi HP Hs. induction Hs as [|x l Hl IH Hx]; [constructor|].
  apply Forall_cons in HP as [Px HP]. constructor; [by apply IH|].
  rewrite Forall_forall in *. auto.
Qed.

Section Descending.
Context {A : Type} (val : A -> f64).

Definition descLess (x y : A) : bool := fgt (val x) (val y).
Definition descKey (x y : A) : bool := klt (fkey (val y)) (fkey (val x)).

#[export] Instance descKey_sw : StrictWeak descKey.
Proof.
  unfold descKey. split.
  - intros x. apply sw_irrefl.
  - intros x y z H1 H2. by eapply sw_trans.
  - intros x y z H. apply (sw_cotrans _ (fkey (val y))) in H as [?|?]; auto.
Qed.

Lemma descLess_key x y :
  isNaN (val x) = false -> isNaN (val y) = false -> descLess x y = descKey x y.
Proof. intros Hx Hy. unfold descLess, fgt, descKey. fold (flt (val y) (val x)). by apply flt_key. Qed.

Lemma sort_desc_sorted l :
  Forall (fun x => isNaN (val x) = false) l ->
  StronglySorted (fun x y => fgt (val y) (val x) = false) (sort_by descLess l).
Proof.
  intros Hn. rewrite (sort_by_ext _ descKey).
  - eapply (StronglySorted_on _ _ (fun x => isNaN (val x) = false)); [| |apply sort_by_sorted, _].
    + intros x y Hx Hy Hxy. fold (descLess y x). by rewrite descLess_key.
    + by rewrite sort_by_perm.
  - rewrite Forall_forall in Hn. intros x y Hx Hy. apply descLess_key; by apply Hn.
Qed.
End Descending.
