(* ===== verification/Text.v ===== *)
(** * Text: cutting text by runes

    [internal/store/retrieve.go] ([truncateToBudget], [hardTruncate],
    [centeredExcerpt], the environment overrides),
    [internal/provider/provider.go] ([TruncateForEmbedding]) and
    [internal/consolidation/perepisode.go] ([chunkText]).  A function of this
    file returns [None] where the Go code panics. *)

From S2P Require Import Prelude Utf8.
#[local] Open Scope string_scope.
#[local] Open Scope list_scope.
#[local] Open Scope Z_scope.

(** ** Slices: [xs[a:b]], which panics out of range *)

Definition slice {A} (xs : list A) (a b : Z) : option (list A) :=
  if (0 <=? a) && (a <=? b) && (b <=? Z.of_nat (length xs))
  then Some (take (Z.to_nat (b - a)) (drop (Z.to_nat a) xs))
  else None.

Definition strLen (s : string) : Z := Z.of_nat (String.length s).

(** [s[a:b]] on the bytes of a string. *)
Definition strSlice (s : string) (a b : Z) : option string :=
  if (0 <=? a) && (a <=? b) && (b <=? strLen s)
  then Some (substring (Z.to_nat a) (Z.to_nat (b - a)) s)
  else None.

(** [strings.Index(s[i:], t)], from byte [i], as an absolute position. *)
Definition indexFrom (i : Z) (t s : string) : option Z :=
  Z.of_nat <$> String.index (Z.to_nat i) t s.

Definition newline : string := String "010" "".

(** ** Truncation *)

Definition budgetMarker : string := newline +:+ "...[truncated to fit context budget]".

Definition truncateToBudget (s : string) (maxChars : Z) : option string :=
  if RuneCount s <=? maxChars then Some s
  else rs ← slice (runes s) 0 maxChars; Some (ofRunes rs +:+ budgetMarker).

Definition hardTruncate (s : string) (maxChars : Z) : option string :=
  if RuneCount s <=? maxChars then Some s
  else rs ← slice (runes s) 0 maxChars; Some (ofRunes rs).

Definition embedTruncateRuneBudget : Z := 20000.

Definition TruncateForEmbedding (text : string) : option string :=
  let rs := runes text in
  if Z.of_nat (length rs) <=? embedTruncateRuneBudget then Some text
  else out ← slice rs 0 embedTruncateRuneBudget; Some (ofRunes out).

(** ** Chunks *)

Definition perEpisodeChunkCharLimit : Z := 4000.

(** The loop [for start := 0; start < len(runes); start += limit]. *)
Fixpoint chunkLoop (fuel : nat) (rs : list Z) (limit start : Z) : option (list string) :=
  match fuel with
  | O => Some []
  | S fuel' =>
      if start <? Z.of_nat (length rs) then
        let stop := Z.min (start + limit) (Z.of_nat (length rs)) in
        chunk ← slice rs start stop;
        rest ← chunkLoop fuel' rs limit (start + limit);
        Some (ofRunes chunk :: rest)
      else Some []
  end.

(** A limit that is not positive divides by zero, or slices below 0. *)
Definition chunkText (text : string) (limit : Z) : option (list string) :=
  let rs := runes text in
  if Z.of_nat (length rs) <=? limit then Some [text]
  else if limit <=? 0 then None
  else chunkLoop (length rs) rs limit 0.

(** ** The excerpt around the densest cluster of query terms *)

Definition excerptHead : string := "...[excerpt] ".
Definition excerptTail : string := " ...[truncated]".

(** The inner loop over the occurrences of one term, at byte [i]: the byte
    position is found in [lower] and used to slice [text]. *)
Fixpoint termPositions (fuel : nat) (text lower t : string) (i : Z) : option (list Z) :=
  match fuel with
  | O => Some []
  | S fuel' =>
      if i + strLen t <=? strLen lower then
        match indexFrom i t lower with
        | None => Some []
        | Some bytePos =>
            pre ← strSlice text 0 bytePos;
            rest ← termPositions fuel' text lower t (bytePos + strLen t);
            Some (RuneCount pre :: rest)
        end
      else Some []
  end.

Fixpoint allPositions (text lower : string) (queryTerms : list string) : option (list Z) :=
  match queryTerms with
  | [] => Some []
  | t :: ts =>
      ps ← (if String.eqb t "" then Some []
            else termPositions (S (String.length lower)) text lower t 0);
      rest ← allPositions text lower ts;
      Some (ps ++ rest)
  end.

(** Occurrences within [half] of [p]. *)
Definition density (positions : list Z) (half p : Z) : Z :=
  Z.of_nat (length (base.filter (fun q => p - half <= q <= p + half) positions)).

(** The loop [for _, p := range positions { if count > bestCount ... }]. *)
Fixpoint densest (all todo : list Z) (half best bestCount : Z) : Z :=
  match todo with
  | [] => best
  | p :: ps =>
      let count := density all half p in
      if bestCount <? count then densest all ps half p count
      else densest all ps half best bestCount
  end.

(** The window [[start, end)] of [maxChars] runes around [pos]. *)
Definition window (pos maxChars len : Z) : Z * Z :=
  let start := pos - Z.quot maxChars 2 in
  let start := if start <? 0 then 0 else start in
  let stop := start + maxChars in
  if len <? stop then
    let start := len - maxChars in
    (if start <? 0 then 0 else start, len)
  else (start, stop).

Definition centeredExcerpt `{Unicode} (text : string) (queryTerms : list string)
    (maxChars : Z) : option string :=
  let rs := runes text in
  let len := Z.of_nat (length rs) in
  if len <=? maxChars then Some text
  else
    positions ← allPositions text (ToLower text) queryTerms;
    match positions with
    | [] => hardTruncate text maxChars
    | p0 :: _ =>
        let pos := densest positions positions (Z.quot maxChars 2) p0 (-1) in
        let '(start, stop) := window pos maxChars len in
        excerpt ← slice rs start stop;
        let excerpt := ofRunes excerpt in
        let excerpt := if 0 <? start then excerptHead +:+ excerpt else excerpt in
        Some (if stop <? len then excerpt +:+ excerptTail else excerpt)
    end.

(** ** Environment overrides *)

Definition digitOf (a : ascii) : option Z :=
  let b := byteZ a in if (48 <=? b) && (b <=? 57) then Some (b - 48) else None.

Fixpoint digits (s : string) (acc : Z) : option Z :=
  match s with
  | EmptyString => Some acc
  | String a s' => d ← digitOf a; digits s' (acc * 10 + d)
  end.

(** [strconv.Atoi]: an optional sign, at least one digit, in 64 bits. *)
Definition Atoi (s : string) : option Z :=
  let '(sign, body) :=
    match s with
    | String "-" r => (-1, r)
    | String "+" r => (1, r)
    | _ => (1, s)
    end in
  match body with
  | EmptyString => None
  | _ =>
      n ← digits body 0;
      let v := sign * n in
      if (- 2 ^ 63 <=? v) && (v <? 2 ^ 63) then Some v else None
  end.

Definition defaultMaxVectorResults : Z := 5.
Definition defaultContextCharBudget : Z := 2000.

Section Env.
Context (Getenv : string -> string).

Definition keywordSearchEnabled : bool :=
  negb (String.eqb (Getenv "HUPI_ENABLE_KEYWORD_SEARCH") "false").

Definition graphWalkEnabled : bool :=
  String.eqb (Getenv "HUPI_ENABLE_RELATIONSHIP_GRAPH_WALK") "true".

Definition contextCharBudget : Z :=
  let v := Getenv "HUPI_CONTEXT_CHAR_BUDGET" in
  if negb (String.eqb v "") then
    match Atoi v with
    | Some n => if 0 <? n then n else defaultContextCharBudget
    | None => defaultContextCharBudget
    end
  else defaultContextCharBudget.

Definition maxVectorResults : Z :=
  let v := Getenv "HUPI_MAX_VECTOR_RESULTS" in
  if negb (String.eqb v "") then
    match Atoi v with
    | Some n => if 0 <? n then n else defaultMaxVectorResults
    | None => defaultMaxVectorResults
    end
  else defaultMaxVectorResults.

Lemma contextCharBudget_pos : 0 < contextCharBudget.
Proof.
  unfold contextCharBudget, defaultContextCharBudget. repeat case_test; bool_to_prop; lia.
Qed.

Lemma maxVectorResults_pos : 0 < maxVectorResults.
Proof.
  unfold maxVectorResults, defaultMaxVectorResults. repeat case_test; bool_to_prop; lia.
Qed.
End Env.

(** ** Lemmas *)

Lemma slice_prefix {A} (xs : list A) n :
  0 <= n <= Z.of_nat (length xs) -> slice xs 0 n = Some (take (Z.to_nat n) xs).
Proof.
  intros Hn. unfold slice. rewrite (proj2 (Z.leb_le 0 n)), (proj2 (Z.leb_le n _)) by lia.
  cbn. by rewrite Z.sub_0_r.
Qed.

Lemma slice_some {A} (xs : list A) a b :
  0 <= a <= b -> b <= Z.of_nat (length xs) ->
  slice xs a b = Some (take (Z.to_nat (b - a)) (drop (Z.to_nat a) xs)).
Proof.
  intros Hab Hb. unfold slice.
  by rewrite (proj2 (Z.leb_le 0 a)), (proj2 (Z.leb_le a b)), (proj2 (Z.leb_le b _)) by lia.
Qed.

Lemma runes_take_drop n m text :
  runes (ofRunes (take n (drop m (runes text)))) = take n (drop m (runes text)).
Proof. apply runes_ofRunes_valid, Forall_take, Forall_drop, runes_valid. Qed.

Lemma runes_take n text : runes (ofRunes (take n (runes text))) = take n (runes text).
Proof. apply (runes_take_drop n 0). Qed.

Lemma hardTruncate_spec s n :
  0 <= n ->
  exists out, hardTruncate s n = Some out /\ RuneCount out <= n /\
    runes out = take (Z.to_nat n) (runes s) /\ (valid_utf8 s -> valid_utf8 out).
Proof.
  intros Hn. unfold hardTruncate, RuneCount. case_test; bool_to_prop.
  - exists s. split_and!; [done|done| |done]. by rewrite take_ge by lia.
  - rewrite slice_prefix by lia. cbn. eexists. split; [done|].
    rewrite runes_take, length_take. split_and!; [lia|done|]. intros _. apply valid_utf8_ofRunes.
Qed.

Lemma truncateToBudget_spec s n :
  0 <= n ->
  truncateToBudget s n =
    out ← hardTruncate s n; Some (if RuneCount s <=? n then out else out +:+ budgetMarker).
Proof.
  intros Hn. unfold truncateToBudget, hardTruncate. case_test; [done|].
  by destruct (slice _ _ _).
Qed.

Lemma TruncateForEmbedding_hard s : TruncateForEmbedding s = hardTruncate s embedTruncateRuneBudget.
Proof. done. Qed.

(** Concatenation in the source of well-formed encodings adds runes. *)
Lemma runes_ofRunes_app a rest :
  Forall (fun r => valid_rune r = true) a -> runes (ofRunes a +:+ rest) = a ++ runes rest.
Proof.
  induction 1 as [|r a Hr _ IH]; [done|]. cbn [ofRunes app].
  rewrite <- IH. unfold encodeRune. rewrite Hr.
  rewrite <- (runes_encodeValid r (ofRunes a +:+ rest) Hr). f_equal.
  unfold encodeValid. by repeat case_test.
Qed.

Lemma truncateToBudget_bound s n out :
  0 <= n -> truncateToBudget s n = Some out -> RuneCount out <= n + RuneCount budgetMarker.
Proof.
  intros Hn. unfold truncateToBudget. case_test; bool_to_prop.
  - intros [= <-]. unfold RuneCount in *. lia.
  - rewrite slice_prefix by (unfold RuneCount in *; lia). cbn [mbind option_bind]. intros [= <-]. unfold RuneCount.
    rewrite runes_ofRunes_app by (apply Forall_take, runes_valid). rewrite length_app, length_take. lia.
Qed.

(** ** Chunks *)

Lemma chunkLoop_spec text limit :
  0 < limit ->
  forall fuel start, 0 <= start ->
  Z.of_nat (length (runes text)) - start <= Z.of_nat fuel ->
  exists chunks, chunkLoop fuel (runes text) limit start = Some chunks /\
    concat (map runes chunks) = drop (Z.to_nat start) (runes text) /\
    Forall (fun c => 0 < RuneCount c <= limit) chunks /\
    (forall pre c post, chunks = pre ++ c :: post -> post <> [] -> RuneCount c = limit).
Proof.
  intros Hl. induction fuel as [|fuel IH]; intros start Hs Hf; cbn [chunkLoop].
  - exists []. split_and!; [done| |done|by intros [|??] ? ? ?].
    cbn. by rewrite drop_ge by lia.
  - case_test; bool_to_prop; cycle 1.
    { exists []. split_and!; [done| |done|by intros [|??] ? ? ?]. cbn. by rewrite drop_ge by lia. }
    rewrite slice_some by lia. cbn [mbind option_bind].
    destruct (IH (start + limit) ltac:(lia) ltac:(lia)) as (rest & -> & Hc & Hb & Hlast).
    cbn [mbind option_bind]. eexists. split; [done|].
    assert (Hlen : RuneCount (ofRunes (take (Z.to_nat (Z.min (start + limit)
        (Z.of_nat (length (runes text))) - start)) (drop (Z.to_nat start) (runes text)))) =
        Z.min limit (Z.of_nat (length (runes text)) - start)).
    { unfold RuneCount. rewrite runes_take_drop, length_take, length_drop. lia. }
    split_and!.
    + cbn [map concat]. rewrite Hc, runes_take_drop.
      replace (Z.to_nat (start + limit)) with (Z.to_nat start + Z.to_nat limit)%nat by lia.
      rewrite <- drop_drop.
      destruct (Z.le_gt_cases (start + limit) (Z.of_nat (length (runes text)))).
      * rewrite Z.min_l by lia. replace (start + limit - start) with limit by lia.
        apply take_drop.
      * rewrite Z.min_r by lia. rewrite (drop_ge (drop _ _)) by (rewrite length_drop; lia).
        rewrite app_nil_r. apply take_ge. rewrite length_drop. lia.
    + constructor; [rewrite Hlen; lia|done].
    + intros [|x pre] c post [= Hx Hrest] Hp; [|by eapply Hlast].
      rewrite <- Hx, Hlen. apply Z.min_l.
      destruct (Z.le_gt_cases limit (Z.of_nat (length (runes text)) - start)) as [|Hgt]; [done|].
      subst post. rewrite drop_ge in Hc by lia. destruct rest as [|c' ?]; [done|].
      apply Forall_cons in Hb as [Hb _]. cbn [map concat] in Hc. unfold RuneCount in Hb.
      destruct (runes c'); [cbn in Hb; lia|done].
Qed.

Lemma chunkText_spec text limit :
  0 < limit ->
  exists chunks, chunkText text limit = Some chunks /\
    concat (map runes chunks) = runes text /\
    Forall (fun c => RuneCount c <= limit) chunks /\
    (forall pre c post, chunks = pre ++ c :: post -> post <> [] -> RuneCount c = limit).
Proof.
  intros Hl. unfold chunkText. case_test; bool_to_prop.
  - exists [text]. split_and!; [done|by cbn; rewrite app_nil_r|by repeat constructor|].
    by intros [|? [|??]] ? ? [=] ?.
  - rewrite (proj2 (Z.leb_gt limit 0)) by lia.
    destruct (chunkLoop_spec text limit Hl (length (runes text)) 0) as (cs & E & Hc & Hb & Hx); [lia..|].
    exists cs. split_and!; [done|done| |done].
    eapply Forall_impl; [exact Hb|]. cbn. intros c Hcr. lia.
Qed.

(** ** The excerpt *)

Lemma density_nonneg all half p : 0 <= density all half p.
Proof. unfold density. lia. Qed.

(** The scan keeps the first of the densest positions. *)
Lemma densest_spec all half todo best bestCount :
  let r := densest all todo half best bestCount in
  (r = best /\ Forall (fun p => density all half p <= bestCount) todo) \/
  (r ∈ todo /\ bestCount < density all half r /\
   Forall (fun p => density all half p <= density all half r) todo).
Proof.
  revert best bestCount. induction todo as [|p todo IH]; intros best bc; cbn; [by left|].
  case_test; bool_to_prop.
  - destruct (IH p (density all half p)) as [[-> Hf]|(Hin & Hlt & Hf)]; right.
    + split_and!; [by left|done|by constructor].
    + split_and!; [by right|lia|]. constructor; [lia|done].
  - destruct (IH best bc) as [[-> Hf]|(Hin & Hlt & Hf)]; [left|right].
    + split; [done|by constructor].
    + split_and!; [by right|lia|]. constructor; [lia|done].
Qed.

Lemma densest_top p0 ps half :
  let r := densest (p0 :: ps) (p0 :: ps) half p0 (-1) in
  r ∈ p0 :: ps /\ Forall (fun p => density (p0 :: ps) half p <= density (p0 :: ps) half r) (p0 :: ps).
Proof.
  destruct (densest_spec (p0 :: ps) half (p0 :: ps) p0 (-1)) as [[_ Hf]|(Hin & _ & Hf)]; [|done].
  apply Forall_cons in Hf as [Hf _]. pose proof (density_nonneg (p0 :: ps) half p0). lia.
Qed.

Lemma window_spec pos maxChars len :
  0 <= pos -> 0 < maxChars < len ->
  exists start, window pos maxChars len = (start, start + maxChars) /\
    0 <= start /\ start + maxChars <= len /\ start <= pos /\
    (pos < start + maxChars \/ start + maxChars = len).
Proof.
  intros Hp Hm. unfold window.
  pose proof (Z.quot_div_nonneg maxChars 2 ltac:(lia) ltac:(lia)) as ->.
  pose proof (Z.div_mod maxChars 2 ltac:(lia)). pose proof (Z.mod_pos_bound maxChars 2 ltac:(lia)).
  repeat case_test; bool_to_prop; eexists; (split; [f_equal; try done; lia|lia]).
Qed.

(** A prefix of the bytes of a string has at most as many runes. *)
Lemma runes_length_le s : RuneCount s <= strLen s.
Proof.
  unfold RuneCount, strLen. induction s as [[|a s1] IH] using string_ind_lt; [done|]. cbn [runes].
  pose proof (IH s1 ltac:(cbn; lia)).
  repeat (case_match; cbn [length String.length];
    try match goal with |- context [length (runes ?t)] =>
      match goal with H : Z.of_nat (length (runes t)) <= _ |- _ => fail 1 | _ =>
        pose proof (IH t ltac:(cbn; lia)) end end); cbn [String.length] in *; lia.
Qed.

Lemma length_substring_le n m s : (String.length (substring n m s) <= String.length s - n)%nat.
Proof.
  revert n m. induction s as [|a s IH]; intros [|n] [|m]; cbn; try lia.
  - specialize (IH O m). lia.
  - specialize (IH n O). lia.
  - specialize (IH n (S m)). lia.
Qed.

Lemma indexFrom_spec i t s p :
  0 <= i -> t <> "" -> indexFrom i t s = Some p -> i <= p /\ p + strLen t <= strLen s.
Proof.
  intros Hi Ht. unfold indexFrom, strLen.
  destruct (String.index _ t s) as [m|] eqn:E; [|done]. intros [= <-].
  pose proof (index_correct1 _ _ _ _ E) as Es. pose proof (length_substring_le m (String.length t) s).
  rewrite Es in H. destruct t as [|a t]; [done|]. cbn [String.length] in *. split; [|lia].
  assert (Hm : forall s n m, String.index n (String a t) s = Some m -> (n <= m)%nat).
  { clear. induction s as [|b s IH]; intros [|n] m; cbn; try (intros; done || lia).
    destruct (String.index n _ s) eqn:E; [|done]. intros [= <-]. apply IH in E. lia. }
  apply Hm in E. lia.
Qed.

(** The positions the runs of the loop add for the occurrences at the bytes
    [bs]: the slice [text[:b]] panics beyond the end of the text. *)
Definition runesBefore (text : string) (b : Z) : Z := RuneCount (substring 0 (Z.to_nat b) text).

Definition positionsAt (text : string) (bs : list Z) : option (list Z) :=
  if forallb (fun b => b <=? strLen text) bs then Some (map (runesBefore text) bs) else None.

Lemma positionsAt_app text bs bs' :
  positionsAt text (bs ++ bs') =
    ps ← positionsAt text bs; rest ← positionsAt text bs'; Some (ps ++ rest).
Proof.
  unfold positionsAt. rewrite forallb_app, map_app.
  by destruct (forallb _ bs), (forallb _ bs').
Qed.

Lemma positionsAt_cons text b bs :
  0 <= b ->
  positionsAt text (b :: bs) =
    pre ← strSlice text 0 b; rest ← positionsAt text bs; Some (RuneCount pre :: rest).
Proof.
  intros Hb. unfold positionsAt, strSlice. rewrite (proj2 (Z.leb_le 0 b) Hb), Z.sub_0_r. cbn.
  destruct (b <=? strLen text); [|done]. cbn. by destruct (forallb _ bs).
Qed.

(** The occurrences of [t] in [s] from byte [i]: from the left, none inside
    another. *)
Inductive occurrences (s t : string) : Z -> list Z -> Prop :=
| occ_none i : indexFrom i t s = None -> occurrences s t i []
| occ_next i b bs :
    indexFrom i t s = Some b -> occurrences s t (b + strLen t) bs ->
    occurrences s t i (b :: bs).

(** The occurrences of every term, term by term. *)
Inductive allOccurrences (s : string) : list string -> list Z -> Prop :=
| all_nil : allOccurrences s [] []
| all_empty ts bs : allOccurrences s ts bs -> allOccurrences s ("" :: ts) bs
| all_term t ts bs rest :
    t <> "" -> occurrences s t 0 bs -> allOccurrences s ts rest ->
    allOccurrences s (t :: ts) (bs ++ rest).

Lemma strLen_pos t : t <> "" -> 0 < strLen t.
Proof. destruct t; [done|unfold strLen; cbn; lia]. Qed.

(** The loop finds every occurrence: its fuel is enough. *)
Lemma termPositions_spec text lower t fuel i :
  t <> "" -> 0 <= i -> strLen lower - i < Z.of_nat fuel ->
  exists bs, occurrences lower t i bs /\ termPositions fuel text lower t i = positionsAt text bs.
Proof.
  intros Ht. pose proof (strLen_pos t Ht). revert i.
  induction fuel as [|fuel IH]; intros i Hi Hf; cbn [termPositions];
    destruct (indexFrom i t lower) as [b|] eqn:E.
  2, 4: exists []; (split; [by constructor|]); by repeat case_test.
  all: destruct (indexFrom_spec i t lower b Hi Ht E) as [H1 H2].
  1: lia.
  rewrite (proj2 (Z.leb_le _ _)) by lia.
  destruct (IH (b + strLen t)) as (bs & Hb & ->); [lia..|].
  exists (b :: bs). split; [by econstructor|]. by rewrite positionsAt_cons by lia.
Qed.

Lemma allPositions_spec text lower ts :
  exists bs, allOccurrences lower ts bs /\ allPositions text lower ts = positionsAt text bs.
Proof.
  induction ts as [|t ts (bs & Hbs & E)]; cbn [allPositions]; [exists []; split; [constructor|done]|].
  rewrite E. destruct (String.eqb_spec t "") as [->|Ht].
  - exists bs. split; [by constructor|]. cbn. by destruct (positionsAt _ _).
  - destruct (termPositions_spec text lower t (S (String.length lower)) 0)
      as (bs' & Hb & ->); [done|lia|unfold strLen; lia|].
    exists (bs' ++ bs). split; [by constructor|]. by rewrite positionsAt_app.
Qed.

(** What the loops yield, case by case. *)
Lemma positionsAt_cases text bs :
  (Exists (fun b => strLen text < b) bs /\ positionsAt text bs = None) \/
  (Forall (fun b => b <= strLen text) bs /\ positionsAt text bs = Some (map (runesBefore text) bs)).
Proof.
  unfold positionsAt. destruct (forallb _ bs) eqn:E; [right|left]; (split; [|done]).
  - rewrite forallb_forall in E. apply Forall_forall. intros b Hb.
    apply Z.leb_le, E. by apply list_elem_of_In.
  - apply not_true_iff_false in E. rewrite forallb_forall in E.
    destruct (decide (Exists (fun b => strLen text < b) bs)) as [|Hno]; [done|].
    exfalso. apply E. intros b Hb%list_elem_of_In. apply Z.leb_le.
    destruct (decide (strLen text < b)); [|lia]. exfalso. apply Hno, Exists_exists. by exists b.
Qed.

(** ** Properties *)

(** The three truncations of the program cut by rune and never panic on a
    non-negative limit: [hardTruncate] (and [TruncateForEmbedding], at 20000)
    returns a string of at most [n] runes whose runes are the first ones of the
    input, well-formed when the input is; [truncateToBudget] appends its marker
    exactly when something was cut. *)
Theorem truncation_by_rune s n :
  0 <= n ->
  exists out, hardTruncate s n = Some out /\ RuneCount out <= n /\
    runes out = take (Z.to_nat n) (runes s) /\ (valid_utf8 s -> valid_utf8 out) /\
    truncateToBudget s n = Some (if RuneCount s <=? n then s else out +:+ budgetMarker) /\
    exists emb, TruncateForEmbedding s = Some emb /\
      runes emb = take (Z.to_nat embedTruncateRuneBudget) (runes s).
Proof.
  intros Hn. destruct (hardTruncate_spec s n Hn) as (out & E & Hc & Hr & Hv).
  exists out. split_and!; [done..| |].
  - rewrite truncateToBudget_spec, E by done. cbn. unfold hardTruncate in E.
    case_test; congruence.
  - rewrite TruncateForEmbedding_hard.
    destruct (hardTruncate_spec s embedTruncateRuneBudget) as (emb & -> & _ & He & _); [done|].
    by exists emb.
Qed.

Lemma truncation_by_rune_witness :
  exists out, hardTruncate "abcdef" 3 = Some out /\ runes out = take 3 (runes "abcdef").
Proof.
  destruct (truncation_by_rune "abcdef" 3 ltac:(lia)) as (out & E & _ & Hr & _).
  exists out. split; [exact E|exact Hr].
Defined.

(** For a positive limit [chunkText] loses and repeats nothing: it returns,
    the runes of the chunks in order are the runes of the text, no chunk is
    over the limit, and only the last one is under it. *)
Theorem chunkText_partition text limit :
  0 < limit ->
  exists chunks, chunkText text limit = Some chunks /\
    concat (map runes chunks) = runes text /\
    Forall (fun c => RuneCount c <= limit) chunks /\
    (forall pre c post, chunks = pre ++ c :: post -> post <> [] -> RuneCount c = limit).
Proof. apply chunkText_spec. Qed.

Lemma chunkText_partition_witness :
  chunkText "abcdefgh" 3 = Some ["abc"; "def"; "gh"] /\
  exists chunks, chunkText "abcdefgh" 3 = Some chunks /\
    concat (map runes chunks) = runes "abcdefgh".
Proof.
  split; [reflexivity|].
  destruct (chunkText_partition "abcdefgh" 3 ltac:(lia)) as (cs & E & Hc & _). by exists cs.
Defined.

(** C37: What [centeredExcerpt] returns for every text, terms and positive limit,
    its panics included. A text within the limit is returned as it is. For a
    longer one, let [bs] be the bytes at which the terms occur in the
    lower-cased text. It panics exactly when one of them lies beyond the end of
    the text itself. When no term occurs the text is cut at its head. Otherwise
    the excerpt is [maxChars] consecutive runes of the text, with a marker on
    each side where text is missing. The window holds the position of an
    occurrence that no other beats in density (the number of runes of the text
    before its byte), or is the last [maxChars] runes of the text. *)
Theorem centered_excerpt_window `{Unicode} text terms maxChars :
  0 < maxChars ->
  (RuneCount text <= maxChars -> centeredExcerpt text terms maxChars = Some text) /\
  (maxChars < RuneCount text ->
   exists bs, allOccurrences (ToLower text) terms bs /\
   (Exists (fun b => strLen text < b) bs <-> centeredExcerpt text terms maxChars = None) /\
   (bs = [] -> exists out, centeredExcerpt text terms maxChars = Some out /\
      runes out = take (Z.to_nat maxChars) (runes text)) /\
   (bs <> [] -> Forall (fun b => b <= strLen text) bs ->
    exists pos start,
      let positions := map (runesBefore text) bs in
      pos ∈ positions /\
      (forall p, p ∈ positions -> density positions (Z.quot maxChars 2) p <=
                                density positions (Z.quot maxChars 2) pos) /\
      0 <= start <= pos /\ start + maxChars <= RuneCount text /\
      (pos < start + maxChars \/ start + maxChars = RuneCount text) /\
      centeredExcerpt text terms maxChars = Some
        ((if 0 <? start then excerptHead else "") +:+
         (ofRunes (take (Z.to_nat maxChars) (drop (Z.to_nat start) (runes text))) +:+
          (if start + maxChars <? RuneCount text then excerptTail else ""))))).
Proof.
  intros Hm. unfold centeredExcerpt. fold (RuneCount text).
  split; intros Hlen; [by rewrite (proj2 (Z.leb_le _ _) Hlen)|].
  rewrite (proj2 (Z.leb_gt _ _) Hlen).
  destruct (allPositions_spec text (ToLower text) terms) as (bs & Hocc & ->).
  exists bs. split; [done|].
  destruct (positionsAt_cases text bs) as [[Hex E]|[Hall E]]; rewrite E; cbn [mbind option_bind].
  { split; [done|]. split; [by intros ->; apply Exists_nil in Hex|]. intros _ Hall. exfalso.
    apply Exists_exists in Hex as (b & Hb & Hlt). rewrite Forall_forall in Hall. specialize (Hall b Hb). lia. }
  assert (Hno : ~ Exists (fun b => strLen text < b) bs).
  { intros (b & Hb & Hlt)%Exists_exists. rewrite Forall_forall in Hall. specialize (Hall b Hb). lia. }
  destruct bs as [|b0 bs]; cbn [map].
  { destruct (hardTruncate_spec text maxChars ltac:(lia)) as (out & -> & _ & Hr & _).
    split; [done|]. split; [by exists out|done]. }
  set (p0 := runesBefore text b0). set (ps := map (runesBefore text) bs).
  destruct (densest_top p0 ps (Z.quot maxChars 2)) as [Hin Hd]. rewrite Forall_forall in Hd.
  set (pos := densest _ _ _ _ _) in *.
  assert (Hpos : 0 <= pos).
  { assert (Forall (fun p => 0 <= p) (map (runesBefore text) (b0 :: bs))) as Hnn.
    { apply Forall_fmap, Forall_true. intros b. unfold compose, runesBefore, RuneCount. lia. }
    rewrite Forall_forall in Hnn. by apply Hnn. }
  destruct (window_spec pos maxChars (RuneCount text)) as (start & -> & H1 & H2 & H3 & H4); [done|lia|].
  rewrite slice_some by (unfold RuneCount in *; lia). cbn [mbind option_bind].
  replace (start + maxChars - start) with maxChars by lia.
  split; [done|]. split; [done|]. intros _ _. exists pos, start. split_and!; [done..|].
  repeat case_test; cbn [String.append]; rewrite ?sapp_nil_r, ?sapp_assoc; done.
Qed.

Lemma centered_excerpt_window_witness :
  let text := "a long text about a Cat and nothing more" in
  @centeredExcerpt asciiUnicode text ["cat"; ""] 10
    = Some (excerptHead +:+ ("ut a Cat a" +:+ excerptTail)) /\
  (exists bs, allOccurrences (@ToLower asciiUnicode text) ["cat"; ""] bs /\
     ~ Exists (fun b => strLen text < b) bs) /\
  @centeredExcerpt asciiUnicode text ["cat"] 40 = Some text.
Proof.
  intros text. assert (E : @centeredExcerpt asciiUnicode text ["cat"; ""] 10
    = Some (excerptHead +:+ ("ut a Cat a" +:+ excerptTail))) by (vm_compute; reflexivity).
  split; [exact E|]. split.
  - destruct (@centered_excerpt_window asciiUnicode text ["cat"; ""] 10 ltac:(lia)) as [_ Hlong].
    destruct Hlong as (bs & Hbs & Hpanic & _); [reflexivity|]. exists bs. split; [exact Hbs|].
    intros Hex%Hpanic. congruence.
  - apply (@centered_excerpt_window asciiUnicode text ["cat"] 40 ltac:(lia)). vm_compute. discriminate.
Defined.

(** The positions [centeredExcerpt] finds in the lower-cased text are used
    to slice the text itself.  Where lower-casing lengthens the text (U+023A,
    two bytes, whose lower case U+2C65 has three) the slice is out of range and
    the call panics: here for 400 such runes followed by a matched term, at the
    limit [episodeExchangeCap] the code uses. *)
Theorem excerpt_panics `{UnicodeLaws} :
  to_lower 570 = 11365 ->
  centeredExcerpt (ofRunes (repeat 570 400 ++ [99; 97; 116])) ["cat"] 400 = None.
Proof.
  intros H570. unfold centeredExcerpt, ToLower.
  rewrite (runes_ofRunes_valid (repeat 570 400 ++ [99; 97; 116]))
    by (apply Forall_forall; intros r Hr; apply list_elem_of_In, in_app_iff in Hr as [Hr|Hr];
        [by apply repeat_spec in Hr as ->|cbn in Hr; intuition (subst; done)]).
  rewrite map_app, map_repeat, H570. cbn [map]. rewrite !lower_ascii by lia.
  vm_compute. reflexivity.
Qed.

Lemma excerpt_panics_witness :
  @centeredExcerpt latinUnicode (ofRunes (repeat 570 400 ++ [99; 97; 116])) ["cat"] 400 = None.
Proof. apply (@excerpt_panics latinUnicode latinUnicode_laws). reflexivity. Defined.
