(* ===== verification/Bm25.v ===== *)
(** * Bm25: tokens, keyword scores and the ranking they give

    [internal/store/bm25.go] and [rankBM25] of [internal/store/retrieve.go].
    A Go map from terms to counts is a [gmap]; the loops over a map visit its
    entries in the order of [map_to_list], on which no result depends. *)

From stdpp Require Import gmap.
From S2P Require Import Prelude Utf8 Float Text.
#[local] Open Scope string_scope.
#[local] Open Scope list_scope.
#[local] Open Scope Z_scope.

(** [math.Log] *)
Class MathLog := { Log : f64 -> f64 }.

Definition bm25K1 : f64 := fratio 3 2.
Definition bm25B : f64 := fratio 3 4.

Definition bm25StopWords : list string :=
  ["a"; "an"; "the"; "is"; "are"; "was"; "were"; "be"; "been"; "am"; "in"; "on";
   "at"; "to"; "of"; "and"; "or"; "but"; "for"; "with"; "what"; "when"; "where";
   "who"; "how"; "do"; "does"; "did"; "it"; "this"; "that"; "my"; "i"; "you"; "your"].

(** [strings.FieldsFunc]: the maximal runs of runes on which [sep] is false. *)
Fixpoint fieldsFrom (sep : Z -> bool) (rs cur : list Z) : list (list Z) :=
  match rs with
  | [] => match cur with [] => [] | _ => [rev cur] end
  | r :: rs' =>
      if sep r then
        match cur with [] => fieldsFrom sep rs' [] | _ => rev cur :: fieldsFrom sep rs' [] end
      else fieldsFrom sep rs' (r :: cur)
  end.

Definition FieldsFunc (sep : Z -> bool) (s : string) : list string :=
  map ofRunes (fieldsFrom sep (runes s) []).

Definition tokenSep `{Unicode} (r : Z) : bool := negb (is_letter r) && negb (is_digit r).

Definition tokenize `{Unicode} (text : string) : list string :=
  let raw := FieldsFunc tokenSep (ToLower text) in
  base.filter (fun t => (2 <=? strLen t) && negb (bool_decide (t ∈ bm25StopWords)) = true) raw.

Record bm25Document := {
  id : string;
  termFreq : gmap string Z;
  docLength : Z
}.

(** [m[k]++] on a map of counts. *)
Definition incr (m : gmap string Z) (k : string) : gmap string Z :=
  <[k := default 0 (m !! k) + 1]> m.

Definition newBM25Document `{Unicode} (i text : string) : bm25Document :=
  let terms := tokenize text in
  {| id := i; termFreq := foldl incr ∅ terms; docLength := Z.of_nat (length terms) |}.

Definition bm25DocFrequency (docs : list bm25Document) : gmap string Z :=
  foldl (fun df doc => foldl incr df (map_to_list (termFreq doc)).*1) ∅ docs.

Definition bm25AverageDocLength (docs : list bm25Document) : f64 :=
  if Nat.eqb (length docs) 0 then f0
  else
    let total := foldl (fun t doc => t + docLength doc) 0 docs in
    fdiv (fofZ total) (fofZ (Z.of_nat (length docs))).

(** A match of [rankBM25]: a document id and its score. *)
Abbreviation scored := (string * f64)%type.

Section Score.
Context `{HU : Unicode, HL : MathLog}.

(** The loop body over one query term. *)
Definition bm25Term (doc : bm25Document) (docFreq : gmap string Z) (corpusSize : Z)
    (avgDocLen b : f64) (score : f64) (term : string) : f64 :=
  let tf := default 0 (termFreq doc !! term) in
  if tf =? 0 then score
  else
    let df := default 0 (docFreq !! term) in
    if df =? 0 then score
    else
      let idf := Log (fadd f1 (fdiv (fadd (fsub (fofZ corpusSize) (fofZ df)) (fratio 1 2))
                                    (fadd (fofZ df) (fratio 1 2)))) in
      let numerator := fmul (fofZ tf) (fratio 5 2) in
      let lengthNorm :=
        if negb (feq b f0)
        then fadd (fsub f1 b) (fdiv (fmul b (fofZ (docLength doc))) avgDocLen)
        else f1 in
      let denominator := fadd (fofZ tf) (fmul bm25K1 lengthNorm) in
      fadd score (fdiv (fmul idf numerator) denominator).

Definition bm25ScoreWithB (doc : bm25Document) (queryTerms : list string)
    (docFreq : gmap string Z) (corpusSize : Z) (avgDocLen b : f64) : f64 :=
  if negb (feq b f0) && feq avgDocLen f0 then f0
  else foldl (bm25Term doc docFreq corpusSize avgDocLen b) f0 queryTerms.

Definition bm25Score doc queryTerms docFreq corpusSize avgDocLen : f64 :=
  bm25ScoreWithB doc queryTerms docFreq corpusSize avgDocLen bm25B.

Definition bm25ScoreNoLengthNorm doc queryTerms docFreq corpusSize : f64 :=
  bm25ScoreWithB doc queryTerms docFreq corpusSize f0 f0.

(** [matches[i].score > matches[j].score], ties broken by id. *)
Definition scoredLess (x y : scored) : bool :=
  if negb (feq x.2 y.2) then fgt x.2 y.2 else String.ltb x.1 y.1.

Definition bm25Matches (docs : list bm25Document) (queryTerms : list string) : list scored :=
  let docFreq := bm25DocFrequency docs in
  let avgDocLen := bm25AverageDocLength docs in
  base.filter (fun m => fgt m.2 f0 = true)
    (map (fun doc => (id doc, bm25Score doc queryTerms docFreq (Z.of_nat (length docs)) avgDocLen)) docs).

(** [limit] is [maxVectorResults()]. *)
Definition rankBM25 (limit : Z) (docs : list bm25Document) (queryTerms : list string) : list string :=
  let matches := sort_by scoredLess (bm25Matches docs queryTerms) in
  let matches := if limit <? Z.of_nat (length matches) then take (Z.to_nat limit) matches else matches in
  matches.*1.
End Score.

(** ** Tokens *)

Lemma elem_of_rev_inv {A} (x : A) l : x ∈ rev l -> x ∈ l.
Proof. rewrite !list_elem_of_In. apply in_rev. Qed.

Lemma Forall_rev_inv {A} (P : A -> Prop) l : Forall P l -> Forall P (rev l).
Proof. rewrite !Forall_forall. intros H x Hx. apply H. by apply elem_of_rev_inv. Qed.

Lemma fieldsFrom_spec sep rs cur :
  Forall (fun r => sep r = false) cur ->
  Forall (fun f => f <> [] /\ Forall (fun r => sep r = false) f /\ forall r, r ∈ f -> r ∈ cur \/ r ∈ rs)
    (fieldsFrom sep rs cur).
Proof.
  revert cur. induction rs as [|r rs IH]; intros cur Hc; cbn.
  - destruct cur as [|c cur]; [constructor|]. constructor; [|done]. split_and!.
    + intros E. by apply (f_equal (@length Z)) in E; rewrite length_rev in E.
    + apply Forall_rev_inv, Hc.
    + intros r Hr. left. by apply elem_of_rev_inv.
  - destruct (sep r) eqn:E.
    + assert (Hrest : Forall (fun f => f <> [] /\ Forall (fun r => sep r = false) f /\
          forall x, x ∈ f -> x ∈ cur \/ x ∈ r :: rs) (fieldsFrom sep rs [])).
      { eapply Forall_impl; [apply IH; constructor|]. intros f (H1 & H2 & H3). split_and!; [done..|].
        intros x Hx. destruct (H3 x Hx) as [?%elem_of_nil|]; [done|right; by right]. }
      destruct cur as [|c cur]; [done|]. constructor; [|done]. split_and!.
      * intros En. by apply (f_equal (@length Z)) in En; rewrite length_rev in En.
      * apply Forall_rev_inv, Hc.
      * intros x Hx. left. by apply elem_of_rev_inv.
    + eapply Forall_impl; [apply IH; by constructor|]. intros f (H1 & H2 & H3). split_and!; [done..|].
      intros x Hx. destruct (H3 x Hx) as [[->|]%elem_of_cons|]; [right; by left|by left|right; by right].
Qed.

Lemma tokenize_spec `{UnicodeLaws} text t :
  t ∈ tokenize text ->
  2 <= strLen t /\ ~ (t ∈ bm25StopWords) /\
  Forall (fun r => (is_letter r || is_digit r) = true) (runes t) /\
  (forall r, r ∈ runes t -> r ∈ runes (ToLower text)).
Proof.
  unfold tokenize. rewrite list_elem_of_filter, andb_true_iff, negb_true_iff, bool_decide_eq_false, Z.leb_le.
  intros [[Hl Hs] Ht]. split_and!; [done..| |].
  all: unfold FieldsFunc in Ht; apply list_elem_of_fmap in Ht as (f & -> & Hf).
  all: pose proof (fieldsFrom_spec tokenSep (runes (ToLower text)) [] ltac:(constructor)) as Hall.
  all: rewrite Forall_forall in Hall; destruct (Hall _ Hf) as (_ & Hsep & Hin).
  all: rewrite runes_ofRunes_valid by
    (apply Forall_forall; intros r Hr; destruct (Hin r Hr) as [?%elem_of_nil|Hr']; [done|];
     pose proof (runes_valid (ToLower text)) as Hv; rewrite Forall_forall in Hv; by apply Hv).
  - eapply Forall_impl; [exact Hsep|]. intros r. cbn. unfold tokenSep.
    destruct (is_letter r), (is_digit r); done.
  - intros r Hr. by destruct (Hin r Hr) as [?%elem_of_nil|].
Qed.

(** ** Counts *)

Definition countOf (k : string) (l : list string) : Z :=
  Z.of_nat (length (base.filter (fun x => x = k) l)).

Lemma foldl_incr_lookup l m k :
  foldl incr m l !! k =
    if bool_decide (k ∈ l) then Some (default 0 (m !! k) + countOf k l) else m !! k.
Proof.
  unfold countOf. revert m. induction l as [|x l IH]; intros m; cbn [foldl]; [done|].
  rewrite IH, filter_cons. unfold incr.
  destruct (decide (x = k)) as [->|Hne].
  - rewrite lookup_insert_eq. rewrite (bool_decide_eq_true_2 (k ∈ k :: l)) by by left. cbn [length].
    destruct (bool_decide (k ∈ l)) eqn:E; cbn; f_equal; [lia|].
    bool_to_prop. assert (base.filter (fun y => y = k) l = []) as ->; [|cbn; lia].
    destruct (base.filter _ l) as [|y ys] eqn:F; [done|]. exfalso. apply E.
    assert (y ∈ base.filter (fun z => z = k) l) as [-> ?]%list_elem_of_filter by (rewrite F; by left). done.
  - rewrite lookup_insert_ne by done. f_equal.
    rewrite (bool_decide_ext (k ∈ x :: l) (k ∈ l)); [done|].
    rewrite elem_of_cons. split; [intros [?|?]; congruence|by right].
Qed.

Lemma foldl_incr_perm l l' m : l ≡ₚ l' -> foldl incr m l = foldl incr m l'.
Proof.
  intros Hp. apply map_eq. intros k. rewrite !foldl_incr_lookup. unfold countOf.
  rewrite (bool_decide_ext (k ∈ l) (k ∈ l')) by (by rewrite Hp). by rewrite Hp.
Qed.

Lemma bm25DocFrequency_concat docs :
  bm25DocFrequency docs = foldl incr ∅ (docs ≫= fun d => (map_to_list (termFreq d)).*1).
Proof.
  unfold bm25DocFrequency. generalize (∅ : gmap string Z) as m.
  induction docs as [|d docs IH]; intros m; cbn [foldl mbind list_bind]; [done|].
  by rewrite IH, foldl_app.
Qed.

Lemma bm25DocFrequency_perm docs docs' :
  docs ≡ₚ docs' -> bm25DocFrequency docs = bm25DocFrequency docs'.
Proof. intros Hp. rewrite !bm25DocFrequency_concat. apply foldl_incr_perm. by rewrite Hp. Qed.

Lemma totalLength_perm docs docs' t :
  docs ≡ₚ docs' ->
  foldl (fun t doc => t + docLength doc) t docs = foldl (fun t doc => t + docLength doc) t docs'.
Proof.
  intros Hp. revert t. induction Hp; intros t; cbn; [done|done|f_equal; lia|by rewrite IHHp1].
Qed.

Lemma bm25AverageDocLength_perm docs docs' :
  docs ≡ₚ docs' -> bm25AverageDocLength docs = bm25AverageDocLength docs'.
Proof.
  intros Hp. unfold bm25AverageDocLength. rewrite (Permutation_length Hp). case_match; [done|].
  by rewrite (totalLength_perm _ _ 0 Hp).
Qed.

(** [termFreq] counts the tokens of the document. *)
Lemma termFreq_lookup `{Unicode} i text k :
  default 0 (termFreq (newBM25Document i text) !! k) = countOf k (tokenize text).
Proof.
  cbn. rewrite foldl_incr_lookup, lookup_empty. case_match; cbn; [done|]. bool_to_prop.
  unfold countOf. destruct (base.filter _ _) as [|y ys] eqn:F; [done|]. exfalso.
  assert (y ∈ base.filter (fun z => z = k) (tokenize text)) as [-> ?]%list_elem_of_filter
    by (rewrite F; by left). done.
Qed.

(** ** Ranking *)

Section Rank.
Context `{HL : MathLog}.

Definition scoredKey (x y : scored) : bool :=
  klt (fkey y.2) (fkey x.2) || (bool_decide (fkey x.2 = fkey y.2) && String.ltb x.1 y.1).

#[local] Instance scoredKey_sw : StrictWeak scoredKey.
Proof.
  unfold scoredKey. split.
  - intros x. by rewrite !sw_irrefl, andb_false_r.
  - intros x y z. rewrite !orb_true_iff, !andb_true_iff, !bool_decide_eq_true.
    intros [H1|[E1 H1]] [H2|[E2 H2]].
    + left. by eapply sw_trans.
    + left. by rewrite <- E2.
    + left. by rewrite E1.
    + right. split; [congruence|by eapply sw_trans].
  - intros x y z. rewrite !orb_true_iff, !andb_true_iff, !bool_decide_eq_true.
    intros [H|[E H]].
    + apply (sw_cotrans _ (fkey y.2)) in H as [H|H]; [by right; left|by left; left].
    + apply (sw_cotrans _ y.1) in H.
      destruct (klt (fkey y.2) (fkey x.2)) eqn:K1; [by left; left|].
      destruct (klt (fkey z.2) (fkey y.2)) eqn:K2; [by right; left|].
      assert (fkey x.2 = fkey y.2) as E1.
      { apply klt_total; [|done]. rewrite E. done. }
      destruct H; [left; right|right; right]; split; congruence.
Qed.

Lemma scoredLess_key x y :
  isNaN x.2 = false -> isNaN y.2 = false -> scoredLess x y = scoredKey x y.
Proof.
  intros Hx Hy. unfold scoredLess, scoredKey, fgt. fold (flt y.2 x.2).
  rewrite (feq_key _ _ Hx Hy), (flt_key _ _ Hy Hx). case_bool_decide as E; cbn; [|by rewrite orb_false_r].
  rewrite E. by rewrite sw_irrefl.
Qed.

Lemma matches_spec docs qs m :
  m ∈ bm25Matches docs qs <->
  fgt m.2 f0 = true /\ exists d, d ∈ docs /\ m.1 = id d /\
    m.2 = bm25Score d qs (bm25DocFrequency docs) (Z.of_nat (length docs)) (bm25AverageDocLength docs).
Proof.
  unfold bm25Matches. rewrite list_elem_of_filter, list_elem_of_In, in_map_iff. split.
  - intros [Hs (d & <- & Hd)]. split; [done|]. exists d. by rewrite list_elem_of_In.
  - intros [Hs (d & Hd & E1 & E2)]. split; [done|]. exists d. rewrite <- list_elem_of_In.
    destruct m; cbn in *. by subst.
Qed.

Lemma matches_perm docs docs' qs : docs ≡ₚ docs' -> bm25Matches docs qs ≡ₚ bm25Matches docs' qs.
Proof.
  intros Hp. unfold bm25Matches.
  rewrite (bm25DocFrequency_perm _ _ Hp), (bm25AverageDocLength_perm _ _ Hp), (Permutation_length Hp).
  by rewrite Hp.
Qed.

Lemma matches_notNaN docs qs m : m ∈ bm25Matches docs qs -> isNaN m.2 = false.
Proof. rewrite matches_spec. intros [H _]. by apply fgt_nan_l in H. Qed.

Lemma sorted_matches docs qs :
  sort_by scoredLess (bm25Matches docs qs) = sort_by scoredKey (bm25Matches docs qs).
Proof.
  apply sort_by_ext. intros x y Hx Hy. apply scoredLess_key; by eapply matches_notNaN.
Qed.

(** Two positive scores that compare equal are the same float. *)
Lemma positive_key_inj a b : fgt a f0 = true -> fgt b f0 = true -> fkey a = fkey b -> a = b.
Proof.
  destruct a as [[]|[]| |[] ? ?], b as [[]|[]| |[] ? ?]; try done; cbn; intros _ _ [=]; by subst.
Qed.

Lemma sorted_matches_perm docs docs' qs :
  docs ≡ₚ docs' -> sort_by scoredLess (bm25Matches docs qs) = sort_by scoredLess (bm25Matches docs' qs).
Proof.
  intros Hp. rewrite !sorted_matches. apply sort_by_canonical; [exact scoredKey_sw| |exact (matches_perm _ _ qs Hp)].
  intros [i a] [j b] [Ha _]%matches_spec [Hb _]%matches_spec. unfold scoredKey. cbn in *.
  intros [K1 S1]%orb_false_iff [K2 S2]%orb_false_iff.
  assert (fkey a = fkey b) as E by by apply klt_total.
  rewrite E, bool_decide_eq_true_2 in S1, S2 by done. cbn in S1, S2.
  f_equal; [by apply str_ltb_total|by apply positive_key_inj].
Qed.
End Rank.

(** A document none of whose terms is asked for scores zero. *)
Lemma bm25ScoreWithB_zero `{MathLog} doc qs df n avg b :
  (forall t, t ∈ qs -> default 0 (termFreq doc !! t) = 0) -> bm25ScoreWithB doc qs df n avg b = f0.
Proof.
  intros Hz. unfold bm25ScoreWithB. case_match; [done|]. clear H0.
  generalize f0 as s. induction qs as [|t qs IH]; intros s; cbn [foldl]; [done|].
  unfold bm25Term at 2. rewrite (Hz t) by by left. cbn.
  apply IH. intros t' Ht'. apply Hz. by right.
Qed.

Lemma take_sorted_out {A} (R : A -> A -> Prop) n (l : list A) x y :
  StronglySorted R l -> x ∈ take n l -> y ∈ drop n l -> R x y.
Proof.
  intros Hs. revert n. induction Hs as [|a l Hl IH Ha]; intros [|n]; cbn [take drop]; try by intros ?%elem_of_nil.
  - intros [->|Hx]%elem_of_cons Hy; [|by eapply IH].
    rewrite Forall_forall in Ha. apply Ha. apply list_elem_of_lookup_1 in Hy as [i Hi].
    rewrite lookup_drop in Hi. by eapply list_elem_of_lookup_2.
Qed.

(** ** Properties *)

Section Claims.
Context `{HL : MathLog}.

(** C33: The ranking does not depend on the order in which the documents come:
    ties are broken by id, so two runs over the same rows, which the query
    returns in no particular order, select and order the same documents. *)
Theorem rank_order_independent limit docs docs' qs :
  docs ≡ₚ docs' -> rankBM25 limit docs qs = rankBM25 limit docs' qs.
Proof. intros Hp. unfold rankBM25. by rewrite (sorted_matches_perm docs docs' qs Hp). Qed.

Lemma match_has_term docs qs m : m ∈ bm25Matches docs qs ->
  exists d t, d ∈ docs /\ m.1 = id d /\ t ∈ qs /\ default 0 (termFreq d !! t) <> 0.
Proof.
  intros [Hp (d & Hd & E1 & E2)]%matches_spec.
  destruct (decide (Exists (fun t => default 0 (termFreq d !! t) <> 0) qs)) as [Hex|Hno].
  - apply Exists_exists in Hex as (t & Ht & Hnz). by exists d, t.
  - exfalso. unfold bm25Score in E2. rewrite bm25ScoreWithB_zero in E2; [by rewrite E2 in Hp|].
    intros t Ht. destruct (decide (default 0 (termFreq d !! t) = 0)); [done|].
    exfalso. apply Hno, Exists_exists. by exists t.
Qed.

(** The sorted matches, best first. *)
Lemma sorted_matches_best docs qs :
  StronglySorted (fun x y => scoredLess y x = false) (sort_by scoredLess (bm25Matches docs qs)).
Proof.
  set (all := sort_by _ _).
  assert (Hs : StronglySorted (nless scoredKey) all).
  { unfold all. rewrite sorted_matches. apply sort_by_sorted, scoredKey_sw. }
  assert (Hn : Forall (fun m => isNaN m.2 = false) all).
  { apply Forall_forall. intros m Hm%elem_of_sort_by. by eapply matches_notNaN. }
  clearbody all. induction Hs as [|x l Hl IH Hx]; [constructor|].
  apply Forall_cons in Hn as [Hnx Hn]. constructor; [by apply IH|].
  rewrite Forall_forall in *. intros y Hy. rewrite scoredLess_key; [by apply Hx|by apply Hn|done].
Qed.

(** C32: [rankBM25] returns the ids of the [limit] best documents, best first.
    The documents that score above zero, each with its own BM25 score over the
    statistics of all the documents, are exactly the ones returned ([ms]) and
    the ones left out ([rest]), each once; as many are returned as there are,
    up to the limit; they are sorted by score and then id; and none of them is
    ranked below one left out. Every document returned has a term of the query. *)
Theorem rank_top_matches limit docs qs :
  0 < limit ->
  exists ms rest,
    rankBM25 limit docs qs = ms.*1 /\
    ms ++ rest ≡ₚ base.filter (fun m => fgt m.2 f0 = true)
      (map (fun d => (id d, bm25Score d qs (bm25DocFrequency docs) (Z.of_nat (length docs))
                             (bm25AverageDocLength docs))) docs) /\
    Z.of_nat (length ms) = Z.min limit (Z.of_nat (length (ms ++ rest))) /\
    StronglySorted (fun x y => scoredLess y x = false) ms /\
    (forall x y, x ∈ ms -> y ∈ rest -> scoredLess y x = false) /\
    (forall m, m ∈ ms -> exists d t, d ∈ docs /\ m.1 = id d /\ t ∈ qs /\
       default 0 (termFreq d !! t) <> 0).
Proof.
  intros Hlim. pose proof (sorted_matches_best docs qs) as Hsort.
  pose proof (sort_by_perm scoredLess (bm25Matches docs qs)) as Hperm.
  unfold rankBM25. set (all := sort_by scoredLess (bm25Matches docs qs)) in *.
  set (n := Z.to_nat limit).
  assert (Htake : (if limit <? Z.of_nat (length all) then take n all else all) = take n all)
    by (case_test; bool_to_prop; [done|by rewrite take_ge by lia]).
  exists (take n all), (drop n all). rewrite Htake, take_drop. split_and!; [done|done| | | |].
  - rewrite length_take. lia.
  - rewrite <- (take_drop n all) in Hsort. by apply StronglySorted_app_1_l in Hsort.
  - intros x y Hx Hy. exact (take_sorted_out _ n all x y Hsort Hx Hy).
  - intros m [i [Hi _]]%elem_of_take. apply match_has_term.
    rewrite <- Hperm. by eapply list_elem_of_lookup_2.
Qed.
End Claims.

Definition toyLog : MathLog := {| Log x := x |}.
Definition toyDocs : list bm25Document :=
  [@newBM25Document asciiUnicode "e2" "The backpack came from Amazon";
   @newBM25Document asciiUnicode "e1" "A backpack from the shop";
   @newBM25Document asciiUnicode "e3" "Nothing about it"].

Lemma rank_order_independent_witness :
  @rankBM25 toyLog 5 toyDocs ["backpack"] = ["e1"; "e2"] /\
  @rankBM25 toyLog 5 (rev toyDocs) ["backpack"] = ["e1"; "e2"].
Proof.
  split; [vm_compute; reflexivity|].
  rewrite (@rank_order_independent toyLog 5 (rev toyDocs) toyDocs ["backpack"]
    (Permutation_sym (Permutation_rev toyDocs))).
  vm_compute; reflexivity.
Defined.

Lemma rank_top_matches_witness :
  @rankBM25 toyLog 1 toyDocs ["backpack"] = ["e1"] /\
  exists ms rest : list scored, @rankBM25 toyLog 1 toyDocs ["backpack"] = ms.*1 /\
    Z.of_nat (length ms) = Z.min 1 (Z.of_nat (length (ms ++ rest))).
Proof.
  split; [vm_compute; reflexivity|].
  destruct (@rank_top_matches toyLog 1 toyDocs ["backpack"] ltac:(lia)) as (ms & rest & E & _ & Hl & _).
  exists ms, rest. exact (conj E Hl).
Defined.
