(* ===== verification/Mmr.v ===== *)
(** * Mmr: diversity-aware selection

    [jaccardOverlap], [tokenSet] and [mmrSelect] of
    [internal/store/retrieve.go].  A [map[string]bool] used as a set is a
    [gset]; candidates are selected by their index in the pool. *)

From stdpp Require Import gmap.
From S2P Require Import Prelude Utf8 Float Text Bm25.
#[local] Open Scope string_scope.
#[local] Open Scope list_scope.
#[local] Open Scope Z_scope.

Definition setLen (a : gset string) : Z := Z.of_nat (size a).

Definition jaccardOverlap (a b : gset string) : f64 :=
  if (setLen a =? 0) || (setLen b =? 0) then f0
  else
    let '(small, large) := if setLen b <? setLen a then (b, a) else (a, b) in
    let intersection :=
      foldl (fun n t => if bool_decide (t ∈ large) then n + 1 else n) 0 (elements small) in
    let union := setLen a + setLen b - intersection in
    if union =? 0 then f0 else fdiv (fofZ intersection) (fofZ union).

Definition tokenSet `{Unicode} (text : string) : gset string :=
  foldl (fun set t => {[ t ]} ∪ set) ∅ (tokenize text).

Record mmrCandidate := {
  relevance : f64;
  tokens : gset string
}.

Definition noCandidate : mmrCandidate := {| relevance := f0; tokens := ∅ |}.

(** [pool[i]], for the indices the code makes, which are in range. *)
Definition cand (pool : list mmrCandidate) (i : nat) : mmrCandidate := nth i pool noCandidate.

Section Select.
Context (pool : list mmrCandidate) (lambda : f64).

Definition maxSim (selected : list nat) (idx : nat) : f64 :=
  foldl (fun m sIdx =>
    let sim := jaccardOverlap (tokens (cand pool idx)) (tokens (cand pool sIdx)) in
    if fgt sim m then sim else m) f0 selected.

Definition mmrScore (selected : list nat) (idx : nat) : f64 :=
  fsub (fmul lambda (relevance (cand pool idx))) (fmul (fsub f1 lambda) (maxSim selected idx)).

(** The scan of [remaining] from position [pos]. *)
Fixpoint bestFrom (selected remaining : list nat) (pos bestPos : nat) (bestScore : f64) : nat :=
  match remaining with
  | [] => bestPos
  | idx :: rest =>
      let score := mmrScore selected idx in
      if fgt score bestScore then bestFrom selected rest (S pos) pos score
      else bestFrom selected rest (S pos) bestPos bestScore
  end.

Definition bestPos (selected remaining : list nat) : nat :=
  bestFrom selected remaining 0 0 fNegInf.

(** The loop, [fuel] at least [len(remaining)]. *)
Fixpoint mmrLoop (fuel : nat) (k : Z) (selected remaining : list nat) : list nat :=
  match fuel with
  | O => selected
  | S fuel' =>
      if (Z.of_nat (length selected) <? k) && negb (Nat.eqb (length remaining) 0) then
        let p := bestPos selected remaining in
        mmrLoop fuel' k (selected ++ take 1 (drop p remaining)) (take p remaining ++ drop (S p) remaining)
      else selected
  end.

(** [pool[out[i]].relevance > pool[out[j]].relevance] *)
Definition relevanceLess (i j : nat) : bool :=
  fgt (relevance (cand pool i)) (relevance (cand pool j)).

Definition mmrSelect (k : Z) : list nat :=
  let idx := seq 0 (length pool) in
  if Z.of_nat (length pool) <=? k then sort_by relevanceLess idx
  else mmrLoop (length pool) k [] idx.
End Select.

(** ** The overlap *)

Lemma overlap_count (large : gset string) l n :
  foldl (fun n t => if bool_decide (t ∈ large) then n + 1 else n) n l =
    n + Z.of_nat (length (base.filter (fun t => t ∈ large) l)).
Proof.
  revert n. induction l as [|t l IH]; intros n; cbn [foldl]; [cbn; lia|].
  rewrite IH, filter_cons. case_bool_decide as E; destruct (decide _) as [E'|E']; try done; cbn; lia.
Qed.

Lemma overlap_size (small large : gset string) :
  length (base.filter (fun t => t ∈ large) (elements small)) = size (small ∩ large).
Proof.
  rewrite <- (size_list_to_set (C := gset string) (base.filter _ _))
    by (apply NoDup_filter, NoDup_elements).
  f_equal. apply set_eq. intros x.
  rewrite elem_of_list_to_set, list_elem_of_filter, elem_of_elements, elem_of_intersection. tauto.
Qed.

Lemma gset_size_mono (X Y : gset string) : X ⊆ Y -> (size X <= size Y)%nat.
Proof. intros H. by apply (subseteq_size (C := gset string)). Qed.

(** The overlap is the Jaccard index, whichever set is the smaller one. *)
Lemma jaccard_spec a b :
  jaccardOverlap a b =
    if (setLen a =? 0) || (setLen b =? 0) then f0
    else fdiv (fofZ (setLen (a ∩ b))) (fofZ (setLen (a ∪ b))).
Proof.
  unfold jaccardOverlap. case_test; [done|]. bool_to_prop.
  assert (Hn : (let '(small, large) := if setLen b <? setLen a then (b, a) else (a, b) in
     foldl (fun n t => if bool_decide (t ∈ large) then n + 1 else n) 0 (elements small)) =
     setLen (a ∩ b)).
  { destruct (setLen b <? setLen a); rewrite overlap_count, overlap_size; [|done].
    by rewrite (intersection_comm_L b a). }
  assert (Hu : setLen (a ∪ b) = setLen a + setLen b - setLen (a ∩ b)).
  { unfold setLen. pose proof (size_union_alt a b) as H1.
    pose proof (size_difference_alt b a) as H2.
    assert (b ∩ a = a ∩ b) as Hc by set_solver. rewrite Hc in H2.
    assert (size (a ∩ b) <= size b)%nat by (apply gset_size_mono; set_solver). lia. }
  destruct (if setLen b <? setLen a then (b, a) else (a, b)) as [small large].
  rewrite Hn, <- Hu. case_test; [|done]. bool_to_prop. exfalso.
  assert (size a <= size (a ∪ b))%nat by (apply gset_size_mono; set_solver). unfold setLen in *. lia.
Qed.

Lemma jaccard_comm a b : jaccardOverlap a b = jaccardOverlap b a.
Proof.
  rewrite !jaccard_spec, (orb_comm (setLen a =? 0)), (intersection_comm_L a b), (union_comm_L a b). done.
Qed.

(** ** The selection *)

Lemma fgt_false_trans x old new : fgt x old = false -> fgt new old = true -> fgt x new = false.
Proof.
  intros H1 H2. apply not_true_iff_false. intros H3.
  pose proof (fgt_nan_l _ _ H2). pose proof (fgt_nan_r _ _ H2). pose proof (fgt_nan_l _ _ H3).
  unfold fgt in *. fold (flt old x) in H1. fold (flt old new) in H2. fold (flt new x) in H3.
  rewrite flt_key in * by done. pose proof (sw_trans _ _ _ H2 H3). congruence.
Qed.

Lemma fgt_neginf x y : fgt x fNegInf = false -> fgt x y = false.
Proof. by destruct x as [[]|[]| |[] ? ?], y as [[]|[]| |[] ? ?]. Qed.

Lemma fgt_irrefl x : fgt x x = false.
Proof.
  destruct (isNaN x) eqn:E; [by destruct x|].
  unfold fgt. fold (flt x x). rewrite flt_key by done. apply sw_irrefl.
Qed.

Section SelectProofs.
Context (pool : list mmrCandidate) (lambda : f64).

Lemma bestFrom_spec selected all seen rest pos bp bs :
  all = seen ++ rest -> pos = length seen ->
  (forall j, j ∈ seen -> fgt (mmrScore pool lambda selected j) bs = false) ->
  ((bp = 0%nat /\ bs = fNegInf) \/
   exists r, all !! bp = Some r /\ bs = mmrScore pool lambda selected r) ->
  all <> [] ->
  exists r, all !! bestFrom pool lambda selected rest pos bp bs = Some r /\
    forall j, j ∈ all -> fgt (mmrScore pool lambda selected j) (mmrScore pool lambda selected r) = false.
Proof.
  revert seen pos bp bs. induction rest as [|idx rest IH]; intros seen pos bp bs Ha Hp Hseen Hbest Hne.
  - rewrite app_nil_r in Ha. subst seen. cbn. destruct Hbest as [[-> ->]|(r & Hr & ->)].
    + destruct all as [|r l]; [done|]. exists r. split; [done|].
      intros j Hj. apply fgt_neginf. by apply Hseen.
    + by exists r.
  - cbn [bestFrom].
    assert (Hidx : all !! pos = Some idx).
    { subst. rewrite lookup_app_r by lia. by rewrite Nat.sub_diag. }
    case_test; eapply (IH (seen ++ [idx])); try done.
    all: try (by rewrite <- app_assoc).
    all: try (rewrite length_app; cbn; lia).
    + intros j [Hj| ->%list_elem_of_singleton]%elem_of_app.
      * by eapply fgt_false_trans; [apply Hseen|].
      * apply fgt_irrefl.
    + right. by exists idx.
    + intros j [Hj| ->%list_elem_of_singleton]%elem_of_app; [by apply Hseen|done].
Qed.

Lemma bestPos_spec selected remaining :
  remaining <> [] ->
  exists r, remaining !! bestPos pool lambda selected remaining = Some r /\
    forall j, j ∈ remaining -> fgt (mmrScore pool lambda selected j) (mmrScore pool lambda selected r) = false.
Proof.
  intros Hne. apply (bestFrom_spec selected remaining [] remaining); [done|done| |by left|done].
  by intros j ?%elem_of_nil.
Qed.

(** Every pick scores at least as high as what was left at that point. *)
Definition greedy (all out : list nat) : Prop :=
  forall i r, out !! i = Some r -> forall j, j ∈ all -> ~ j ∈ take i out ->
    fgt (mmrScore pool lambda (take i out) j) (mmrScore pool lambda (take i out) r) = false.

Lemma remove_at {A} (l : list A) p r :
  l !! p = Some r -> take 1 (drop p l) = [r] /\ r :: (take p l ++ drop (S p) l) ≡ₚ l.
Proof.
  intros H. rewrite (drop_S l r p H). split; [done|].
  rewrite Permutation_middle, <- (drop_S l r p H). by rewrite take_drop.
Qed.

Lemma greedy_snoc all out r :
  greedy all out ->
  (forall j, j ∈ all -> ~ j ∈ out -> fgt (mmrScore pool lambda out j) (mmrScore pool lambda out r) = false) ->
  greedy all (out ++ [r]).
Proof.
  intros Hg Hr i x Hi. destruct (decide (i < length out)%nat) as [Hlt|Hge].
  - rewrite lookup_app_l in Hi by done. rewrite take_app_le by lia. by apply Hg.
  - rewrite lookup_app_r in Hi by lia. apply list_lookup_singleton_Some in Hi as [Hi <-].
    assert (i = length out) as -> by lia. rewrite take_app_length. done.
Qed.

Lemma mmrLoop_spec all k fuel selected remaining :
  NoDup all -> selected ++ remaining ≡ₚ all -> greedy all selected ->
  (length remaining <= fuel)%nat -> Z.of_nat (length selected) <= Z.max 0 k ->
  exists rest, mmrLoop pool lambda fuel k selected remaining ++ rest ≡ₚ all /\
    greedy all (mmrLoop pool lambda fuel k selected remaining) /\
    Z.of_nat (length (mmrLoop pool lambda fuel k selected remaining)) =
      Z.min (Z.max 0 k) (Z.of_nat (length all)).
Proof.
  intros Hnd. revert selected remaining.
  induction fuel as [|fuel IH]; intros selected remaining Hp Hg Hf Hk; cbn [mmrLoop].
  - exists remaining. split_and!; [done..|].
    apply Permutation_length in Hp. rewrite length_app in Hp. lia.
  - pose proof (Permutation_length Hp) as Hlen. rewrite length_app in Hlen.
    case_test; cycle 1.
    + exists remaining. split_and!; [done..|]. bool_to_prop.
      destruct Heqb as [H|H]; bool_to_prop; [lia|]. apply Nat.eqb_eq in H. lia.
    + bool_to_prop. apply Nat.eqb_neq in H0.
      destruct (bestPos_spec selected remaining) as (r & Hr & Hmax); [by destruct remaining|].
      destruct (remove_at _ _ _ Hr) as [-> Hrem]. apply IH.
      * rewrite <- app_assoc. cbn. by rewrite Hrem.
      * apply greedy_snoc; [done|]. intros j Hj Hout. apply Hmax.
        rewrite <- Hp in Hj. apply elem_of_app in Hj as [?|?]; done.
      * apply Permutation_length in Hrem. cbn [length] in Hrem. lia.
      * rewrite length_app. cbn. lia.
Qed.
End SelectProofs.

(** The picks are distinct indices of the pool. *)
Lemma mmrSelect_indices pool lambda k :
  NoDup (mmrSelect pool lambda k) /\ (forall i, i ∈ mmrSelect pool lambda k -> (i < length pool)%nat).
Proof.
  assert (Hnd : NoDup (seq 0 (length pool))) by apply NoDup_ListNoDup, seq_NoDup.
  assert (Hlt : forall i, i ∈ seq 0 (length pool) -> (i < length pool)%nat).
  { intros i. rewrite list_elem_of_In, in_seq. lia. }
  unfold mmrSelect. case_test; bool_to_prop.
  - split; [by apply sort_by_NoDup|]. intros i Hi%elem_of_sort_by. by apply Hlt.
  - destruct (mmrLoop_spec pool lambda (seq 0 (length pool)) k (length pool) [] (seq 0 (length pool)))
      as (rest & Hp & _); [done|done| |by rewrite length_seq|cbn; lia|].
    { intros i r Hi. by rewrite lookup_nil in Hi. }
    split.
    + rewrite <- Hp in Hnd. by apply NoDup_app in Hnd as [? _].
    + intros i Hi. apply Hlt. rewrite <- Hp. apply elem_of_app. by left.
Qed.

(** ** Properties *)

(** C34: [mmrSelect] returns [min k (len pool)] distinct indices of the pool.
    When everything fits they come by decreasing relevance; otherwise each pick
    is one that no unpicked candidate beats in
    [lambda * relevance - (1 - lambda) * (overlap with the picks before it)]. *)
Theorem mmr_selection pool k lambda :
  NoDup (mmrSelect pool lambda k) /\
  (forall i, i ∈ mmrSelect pool lambda k -> (i < length pool)%nat) /\
  Z.of_nat (length (mmrSelect pool lambda k)) = Z.min (Z.max 0 k) (Z.of_nat (length pool)) /\
  (k < Z.of_nat (length pool) -> greedy pool lambda (seq 0 (length pool)) (mmrSelect pool lambda k)) /\
  (Z.of_nat (length pool) <= k ->
   (forall i, (i < length pool)%nat -> isNaN (relevance (cand pool i)) = false) ->
   StronglySorted (fun i j => fgt (relevance (cand pool j)) (relevance (cand pool i)) = false)
     (mmrSelect pool lambda k)).
Proof.
  destruct (mmrSelect_indices pool lambda k) as [Hd Hr]. split; [exact Hd|]. split; [exact Hr|]. clear Hd Hr.
  unfold mmrSelect. set (idx := seq 0 (length pool)).
  assert (Hnd : NoDup idx) by apply NoDup_ListNoDup, seq_NoDup.
  assert (Hlt : forall i, i ∈ idx <-> (i < length pool)%nat).
  { intros i. unfold idx. rewrite list_elem_of_In, in_seq. lia. }
  assert (Hlen : length idx = length pool) by apply length_seq.
  case_test; bool_to_prop.
  - split_and!.
    + rewrite sort_by_length, Hlen. lia.
    + lia.
    + intros _ Hn.
      apply (sort_desc_sorted (fun i => relevance (cand pool i))). apply Forall_forall.
      intros i Hi. by apply Hn, Hlt.
  - destruct (mmrLoop_spec pool lambda idx k (length pool) [] idx) as (rest & Hp & Hg & Hl);
      [done|done| |lia|cbn; lia|].
    { intros i r Hi. by rewrite lookup_nil in Hi. }
    split_and!; try done.
    + by rewrite Hl, Hlen.
    + lia.
Qed.

Definition toyPool : list mmrCandidate :=
  [{| relevance := fratio 9 10; tokens := {["trip"; "paris"]} |};
   {| relevance := fratio 8 10; tokens := {["trip"; "paris"]} |};
   {| relevance := fratio 7 10; tokens := {["laptop"]} |}].

Lemma mmr_selection_witness :
  mmrSelect toyPool (fratio 7 10) 2 = [0; 2]%nat /\
  greedy toyPool (fratio 7 10) (seq 0 3) (mmrSelect toyPool (fratio 7 10) 2) /\
  mmrSelect toyPool (fratio 7 10) 3 = [0; 1; 2]%nat.
Proof.
  split; [vm_compute; reflexivity|]. split; [|vm_compute; reflexivity].
  destruct (mmr_selection toyPool 2 (fratio 7 10)) as (_ & _ & _ & Hg & _).
  exact (Hg ltac:(reflexivity)).
Defined.
