(* ===== verification/Embed.v ===== *)
(** * Embed: what is embedded, and as what it is stored

    The texts of [internal/consolidation] ([EpisodeEmbedText],
    [EntityEmbedText]), the identity recorded with a vector
    ([EmbedderIdentity]) and pgvector's literal ([pgfmt.VectorLiteral]).  The
    embedding service itself is a class parameter: what it answers to an input,
    or that it refuses it; that a call to it fails on the way is up to the
    oracle, like any round trip. *)

From stdpp Require Import gmap.
From S2P Require Import Prelude Identity Schema Db KeyStore Utf8 Json Float Text.
#[local] Open Scope string_scope.
#[local] Open Scope list_scope.
#[local] Open Scope Z_scope.

Class Embedder := {
  Vendor : string;
  Model : string;
  EmbedAnswer : list string -> option (list (list f64))
}.

(** [strconv.FormatFloat(f, 'f', -1, 32)] *)
Class FloatFormat := { FormatFloat32 : f64 -> string }.

(** [json.Unmarshal] into a nil [map[string]string], the map then ranged over. *)
Definition parseAttrs (attrsJSON : string) : option (gmap string string) :=
  m ← unmarshalMap attrsJSON; Some (default ∅ m).

Section Embed.
Context `{EM : Embedder, FF : FloatFormat}.

Definition EmbedderIdentity : string := Vendor +:+ (":" +:+ Model).

Definition VectorLiteral (v : list f64) : string :=
  "[" +:+ (String.concat "," (map FormatFloat32 v) +:+ "]").

(** [embedder.Embed(ctx, EmbedRequest{Input: inputs})] *)
Definition Embed (inputs : list string) : M (list (list f64)) :=
  wrapErr "embedding provider" roundTrip ;;
  match EmbedAnswer inputs with
  | Some vs => mret vs
  | None => throw (ErrMsg "embedding provider refused the input")
  end.

(** A slice out of range in [TruncateForEmbedding] would panic. *)
Definition truncatedInput (text : string) : M string :=
  match TruncateForEmbedding text with
  | Some t => mret t
  | None => throw (ErrMsg "panic: slice bounds out of range")
  end.
End Embed.

Definition EpisodeEmbedImportanceThreshold : f64 := fratio 6 10.

Definition EpisodeEmbedText (input output : string) : string :=
  "USER: " +:+ (input +:+ (newline +:+ ("ASSISTANT: " +:+ output))).

(** The keys in sorted order, as [sort.Strings] leaves them. *)
Definition sortedKeys (attrs : gmap string string) : list string :=
  sort_by String.ltb (map_to_list attrs).*1.

Definition EntityEmbedText (kind name : string) (attrs : gmap string string) : string :=
  foldl (fun sb k => sb +:+ (newline +:+ (k +:+ (": " +:+ default "" (attrs !! k)))))
    (name +:+ (" (" +:+ (kind +:+ ")"))) (sortedKeys attrs).

(** ** Lemmas *)

(** The budget is positive, so truncating never panics. *)
Lemma truncated_some text :
  exists t, TruncateForEmbedding text = Some t.
Proof.
  destruct (hardTruncate_spec text embedTruncateRuneBudget ltac:(done)) as (t & E & _).
  by exists t.
Qed.

Lemma wp_truncatedInput text (Q : result error string -> world -> Prop) w :
  (forall t, TruncateForEmbedding text = Some t -> Q (Ok t) w) -> wp (truncatedInput text) Q w.
Proof.
  intros H. unfold truncatedInput. destruct (truncated_some text) as [t E]. rewrite E. by apply wp_ret, H.
Qed.

Lemma wp_Embed `{Embedder} inputs Q d p fs :
  (forall vs, EmbedAnswer inputs = Some vs -> Q (Ok vs) (MkWorld d p (tail fs))) ->
  (forall e, fs <> [] \/ EmbedAnswer inputs = None -> Q (Err e) (MkWorld d p (tail fs))) ->
  wp (Embed inputs) Q (MkWorld d p fs).
Proof.
  intros HOk HErr. unfold Embed. apply wp_bind, wp_wrap, wp_trip.
  - destruct (EmbedAnswer inputs) as [vs|] eqn:E; [by apply wp_ret, HOk|].
    apply wp_throw, HErr. by right.
  - intros Hf. apply HErr. by left.
Qed.
