(* ===== verification/Keeps.v ===== *)
(** * Keeps: operations that respect a relation between databases

    Any run of such an operation, whatever fails, relates the database it
    started from to the one it leaves, keeps the key store's invariant and
    asks the oracle no more than a quiet run does.  [keeps] is closed under the
    monad's operations, so the database [auto] of the hints below checks
    handlers that only read and update along the relation. *)

From stdpp Require Import gmap.
From S2P Require Import Prelude Identity Schema Db KeyStore Float Text Embed.
#[local] Open Scope string_scope.
#[local] Open Scope list_scope.
#[local] Open Scope Z_scope.

(** The relation: reflexive, transitive, and leaving the keys alone. *)
Class DbRel (D : db -> db -> Prop) : Prop := {
  rel_refl : forall d, D d d;
  rel_trans : forall d1 d2 d3, D d1 d2 -> D d2 d3 -> D d1 d3;
  rel_keys : forall d d', D d d' -> d'.(scope_keys) = d.(scope_keys)
}.

Section Keeps.
Context `{HA : AEAD} (D : db -> db -> Prop) `{HD : !DbRel D}.
Variable kek : string.

Record step (w w' : world) : Prop := MkStep {
  step_db : D w.(w_db) w'.(w_db);
  step_inv : storeInv kek w.(w_db) w.(w_proc).(cache) -> storeInv kek w'.(w_db) w'.(w_proc).(cache);
  step_quiet : quiet w.(w_faults) w'.(w_faults)
}.

Definition keeps {A} (m : M A) : Prop := forall w, wp m (fun _ w' => step w w') w.

Lemma step_refl w : step w w.
Proof. split; [apply rel_refl|done|apply quiet_refl]. Qed.

Lemma step_trans w1 w2 w3 : step w1 w2 -> step w2 w3 -> step w1 w3.
Proof.
  intros [a1 b1 c1] [a2 b2 c2]. split; [by eapply rel_trans|by auto|by eapply quiet_trans].
Qed.

Lemma keeps_ret {A} (a : A) : keeps (mret a).
Proof. intros w. apply wp_ret, step_refl. Qed.

Lemma keeps_throw {A} e : keeps (@throw A e).
Proof. intros w. apply wp_throw, step_refl. Qed.

Lemma keeps_lift {A} (r : result error A) : keeps (lift r).
Proof. intros w. apply wp_lift, step_refl. Qed.

Lemma keeps_bind {A B} (m : M A) (f : A -> M B) : keeps m -> (forall a, keeps (f a)) -> keeps (m ≫= f).
Proof.
  intros Hm Hf w. apply wp_bind. eapply wp_mono; [apply Hm|]. intros [a|e] w' Hs; [|done].
  eapply wp_mono; [apply Hf|]. intros r w'' Hs'. by eapply step_trans.
Qed.

Lemma keeps_wrap {A} msg (m : M A) : keeps m -> keeps (wrapErr msg m).
Proof. intros Hm w. apply wp_wrap. eapply wp_mono; [apply Hm|]. by intros [a|e] w' Hs. Qed.

Lemma keeps_catch {A} (m : M A) : keeps m -> keeps (catch m).
Proof. intros Hm w. apply wp_catch. eapply wp_mono; [apply Hm|]. by intros r w' Hs. Qed.

Lemma keeps_trip : keeps roundTrip.
Proof.
  intros [d p fs]. apply wp_trip; [|intros _];
    (split; [apply rel_refl|done|cbn; unfold quiet; by intros ->]).
Qed.

Lemma keeps_getDb {A} (f : db -> A) : keeps (getDb f).
Proof. intros w. unfold wp, getDb. apply step_refl. Qed.

Lemma keeps_query {A} (f : db -> A) : keeps (query f).
Proof. unfold query. apply keeps_bind; [apply keeps_trip|intros []; apply keeps_getDb]. Qed.

Lemma keeps_queryRow {A} (f : db -> option A) : keeps (queryRow f).
Proof.
  unfold queryRow. apply keeps_bind; [apply keeps_query|].
  intros [a|]; [apply keeps_ret|apply keeps_throw].
Qed.

Lemma keeps_exec f : (forall d, D d (f d)) -> keeps (exec f).
Proof.
  intros Hf. unfold exec. apply keeps_bind; [apply keeps_trip|]. intros [] w. unfold wp, modDb, set_db.
  split; [apply Hf| |apply quiet_refl]. cbn. apply storeInv_same_keys. apply rel_keys, Hf.
Qed.

Lemma keeps_forM {A} (l : list A) (f : A -> M ()) : (forall a, keeps (f a)) -> keeps (forM l f).
Proof.
  intros Hf. induction l as [|a l IH]; [apply keeps_ret|]. cbn [forM]. apply keeps_bind; [apply Hf|by intros []].
Qed.

(** A transaction that is rolled back relates a database to itself. *)
Lemma keeps_Run {A} act ws (fn : session -> M A) : (forall se, keeps (fn se)) -> keeps (Run act ws fn).
Proof.
  intros Hfn [d p fs]. apply wp_Run.
  - intros msg fs' _ Hq. split; [apply rel_refl|done|done].
  - intros fs' Hq. eapply wp_mono; [apply Hfn|]. intros r w' [Hd Hi Hq']. cbn in *. split; [done|].
    intros fs'' Hq''. assert (Hqq : quiet fs fs'') by (eapply quiet_trans; [exact Hq|by eapply quiet_trans]).
    assert (Hback : storeInv kek d (cache p) -> storeInv kek d (cache (w_proc w'))).
    { intros H. eapply storeInv_same_keys; [|by apply Hi]. symmetry. by apply rel_keys. }
    destruct r as [a|e]; [split; [split; cbn; [done|exact Hi|done]|intros _ msg]|];
      (split; cbn; [apply rel_refl|exact Hback|done]).
Qed.

Lemma keeps_GetVersion s v : keeps (GetVersion kek s v).
Proof.
  intros [d [c i] fs].
  assert (Hplain : forall fs', quiet fs fs' -> step (MkWorld d (MkProcess c i) fs) (MkWorld d (MkProcess c i) fs')).
  { intros fs' Hq. split; [apply rel_refl|done|done]. }
  unfold GetVersion. apply wp_bind, wp_getProc. cbn.
  destruct (c !! (s, v)) as [k|] eqn:Ec; [apply wp_ret, Hplain; oracle|].
  apply wp_bind, wp_query; [|intros; apply Hplain; oracle].
  destruct (scope_keys d !! (s, v)) as [wr|] eqn:Ewr; [|apply wp_throw, Hplain; oracle].
  apply wp_bind, wp_lift. destruct (unwrap kek wr) as [k|e] eqn:Ek; [|apply Hplain; oracle].
  unfold store. apply wp_bind, wp_modProc, wp_ret.
  split; [apply rel_refl| |cbn; oracle]. cbn. intros Hinv. eapply storeInv_cache; [done|by eexists|].
  unfold keyOf. rewrite Ewr. cbn. by rewrite Ek.
Qed.

Lemma keeps_truncatedInput t : keeps (truncatedInput t).
Proof. unfold truncatedInput. case_match; [apply keeps_ret|apply keeps_throw]. Qed.

Lemma keeps_Embed `{Embedder} inputs : keeps (Embed inputs).
Proof.
  unfold Embed. apply keeps_bind; [apply keeps_wrap, keeps_trip|]. intros [].
  case_match; [apply keeps_ret|apply keeps_throw].
Qed.
End Keeps.

Create HintDb keeps.
#[export] Hint Resolve keeps_ret keeps_throw keeps_lift keeps_bind keeps_wrap keeps_catch keeps_trip keeps_getDb
  keeps_query keeps_queryRow keeps_exec keeps_forM keeps_Run keeps_GetVersion keeps_truncatedInput
  keeps_Embed : keeps.

(** One bind: its first operation is left to the hints. *)
Ltac keeps_step := apply keeps_bind; [exact _|auto 8 with keeps|intros ?].

(** ** Without the keys *)

(** What holds of the databases before and after any run, for a preorder that
    need not leave the keys alone. *)
Section Respects.
Context (D : db -> db -> Prop) `{HD : !PreOrder D}.

Definition respects {A} (m : M A) : Prop := forall w, wp m (fun _ w' => D w.(w_db) w'.(w_db)) w.

Lemma respects_pure {A} (m : M A) : (forall w, wp m (fun _ w' => w'.(w_db) = w.(w_db)) w) -> respects m.
Proof. intros H w. eapply wp_mono; [apply H|]. by intros _ w' ->. Qed.

Lemma respects_ret {A} (a : A) : respects (mret a).
Proof. intros w. by apply wp_ret. Qed.

Lemma respects_throw {A} e : respects (@throw A e).
Proof. intros w. by apply wp_throw. Qed.

Lemma respects_lift {A} (r : result error A) : respects (lift r).
Proof. intros w. by apply wp_lift. Qed.

Lemma respects_bind {A B} (m : M A) (f : A -> M B) : respects m -> (forall a, respects (f a)) -> respects (m ≫= f).
Proof.
  intros Hm Hf w. apply wp_bind. eapply wp_mono; [apply Hm|]. intros [a|e] w' Hs; [|done].
  eapply wp_mono; [apply Hf|]. intros r w'' Hs'. by etrans.
Qed.

Lemma respects_wrap {A} msg (m : M A) : respects m -> respects (wrapErr msg m).
Proof. intros Hm w. apply wp_wrap. eapply wp_mono; [apply Hm|]. by intros [a|e] w' Hs. Qed.

Lemma respects_catch {A} (m : M A) : respects m -> respects (catch m).
Proof. intros Hm w. apply wp_catch. eapply wp_mono; [apply Hm|]. by intros r w' Hs. Qed.

Lemma respects_trip : respects roundTrip.
Proof. intros [d p fs]. by apply wp_trip. Qed.

Lemma respects_getDb {A} (f : db -> A) : respects (getDb f).
Proof. intros w. by unfold wp, getDb. Qed.

Lemma respects_getProc {A} (f : process -> A) : respects (getProc f).
Proof. intros w. by unfold wp, getProc. Qed.

Lemma respects_modProc f : respects (modProc f).
Proof. intros w. by unfold wp, modProc. Qed.

Lemma respects_modDb f : (forall d, D d (f d)) -> respects (modDb f).
Proof. intros H w. unfold wp, modDb, set_db. apply H. Qed.

Lemma respects_query {A} (f : db -> A) : respects (query f).
Proof. unfold query. apply respects_bind; [apply respects_trip|intros []; apply respects_getDb]. Qed.

Lemma respects_queryRow {A} (f : db -> option A) : respects (queryRow f).
Proof.
  unfold queryRow. apply respects_bind; [apply respects_query|].
  intros [a|]; [apply respects_ret|apply respects_throw].
Qed.

Lemma respects_exec f : (forall d, D d (f d)) -> respects (exec f).
Proof. intros Hf. unfold exec. apply respects_bind; [apply respects_trip|intros []; by apply respects_modDb]. Qed.

Lemma respects_forM {A} (l : list A) (f : A -> M ()) : (forall a, respects (f a)) -> respects (forM l f).
Proof.
  intros Hf. induction l as [|a l IH]; [apply respects_ret|]. cbn [forM].
  apply respects_bind; [apply Hf|by intros []].
Qed.

(** A transaction from the database it opens on: an error leaves that. *)
Lemma wp_Run_db {A} act ws (fn : session -> M A) (P : db -> Prop) w :
  P w.(w_db) ->
  (forall p fs, wp (fn (MkSession act ws)) (fun r w' => match r with Ok _ => P w'.(w_db) | Err _ => True end)
                  (MkWorld w.(w_db) p fs)) ->
  wp (Run act ws fn) (fun _ w' => P w'.(w_db)) w.
Proof.
  intros HP Hfn. destruct w as [d p fs]. cbn in *. unfold Run. apply wp_bind, wp_wrap, wp_trip; [|done].
  apply wp_rollback, wp_bind, wp_wrap. unfold SetSession. apply wp_bind, wp_trip; [|done].
  apply wp_ret, wp_bind. eapply wp_mono; [apply Hfn|]. intros [a|e] [d' p' gs]; cbn; [|done].
  intros HP'. apply wp_bind, wp_wrap, wp_trip; [by apply wp_ret|done].
Qed.

(** A transaction that only reads. *)
Lemma wp_Run_read {A} act ws (fn : session -> M A) (P : A -> Prop) (Q : result error A -> world -> Prop) w :
  (forall p fs, wp (fn (MkSession act ws)) (fun r w' => w'.(w_db) = w.(w_db) /\ forall a, r = Ok a -> P a)
                  (MkWorld w.(w_db) p fs)) ->
  (forall a w', w'.(w_db) = w.(w_db) -> P a -> Q (Ok a) w') ->
  (forall e w', w'.(w_db) = w.(w_db) -> Q (Err e) w') ->
  wp (Run act ws fn) Q w.
Proof.
  intros Hfn HOk HErr. destruct w as [d p fs]. cbn in *. unfold Run. apply wp_bind, wp_wrap, wp_trip; [|intros; by apply HErr].
  apply wp_rollback, wp_bind, wp_wrap. unfold SetSession. apply wp_bind, wp_trip; [|intros; by apply HErr].
  apply wp_ret, wp_bind. eapply wp_mono; [apply Hfn|]. intros [a|e] [d' p' gs] [E Ha]; cbn in E; subst d'; [|by apply HErr].
  apply wp_bind, wp_wrap, wp_trip; [|intros; by apply HErr]. apply wp_ret, HOk; [done|by apply Ha].
Qed.

Lemma respects_Run {A} act ws (fn : session -> M A) : (forall se, respects (fn se)) -> respects (Run act ws fn).
Proof.
  intros Hfn w. apply (wp_Run_db act ws fn (D w.(w_db))); [done|]. intros p fs.
  eapply wp_mono; [apply Hfn|]. by intros [a|e] w'.
Qed.

Lemma respects_truncatedInput t : respects (truncatedInput t).
Proof. unfold truncatedInput. case_match; [apply respects_ret|apply respects_throw]. Qed.

Lemma respects_Embed `{Embedder} inputs : respects (Embed inputs).
Proof.
  unfold Embed. apply respects_bind; [apply respects_wrap, respects_trip|]. intros [].
  case_match; [apply respects_ret|apply respects_throw].
Qed.

Lemma respects_readRand `{Rand} n : respects (readRand n).
Proof.
  unfold readRand. apply respects_bind; [apply respects_getProc|intros i].
  apply respects_bind; [apply respects_modProc|intros []]. case_match; [apply respects_ret|apply respects_throw].
Qed.

Lemma respects_Encrypt `{AEAD, Rand} enc pt : respects (Encrypt enc pt).
Proof.
  unfold Encrypt. apply respects_bind; [apply respects_wrap, respects_readRand|intros; apply respects_ret].
Qed.

Lemma respects_GetVersion `{AEAD} kek s v : respects (GetVersion kek s v).
Proof.
  unfold GetVersion. apply respects_bind; [apply respects_getProc|intros [k|]; [apply respects_ret|]].
  apply respects_bind; [apply respects_query|intros [wr|]; [|apply respects_throw]].
  apply respects_bind; [apply respects_lift|intros enc].
  apply respects_bind; [|intros; apply respects_ret]. unfold store. apply respects_modProc.
Qed.
End Respects.

Create HintDb respects.
#[export] Hint Resolve respects_ret respects_throw respects_lift respects_wrap respects_catch respects_trip
  respects_getDb respects_getProc respects_modProc respects_modDb respects_query respects_queryRow respects_exec
  respects_forM respects_Run respects_truncatedInput respects_Embed respects_readRand respects_Encrypt
  respects_GetVersion : respects.

(** One bind, as [keeps_step]. *)
Ltac respects_step :=
  apply respects_bind; [typeclasses eauto|auto 8 with respects|intros ?].
