(* ===== verification/Reembed.v ===== *)
(** * Reembed: bulk re-embedding after the embedding model changed
    ([src/internal/reembed/reembed.go], [src/cmd/hupi-reembed/main.go])

    What needs re-embedding is a predicate on the rows, so there is no state of
    its own: [Status] counts the rows, [Continue] selects a batch of them and
    the driver loop repeats it. *)

From stdpp Require Import gmap.
From S2P Require Import Prelude Identity Schema Db KeyStore Rotate Utf8 Float Text Embed.
#[local] Open Scope string_scope.
#[local] Open Scope list_scope.
#[local] Open Scope Z_scope.

(** ** What is pending *)

(** [embedding is null or embedding_model is distinct from $1] *)
Definition staleEmbedding (model : string) (embedding embedding_model : option string) : bool :=
  bool_decide (embedding = None) || negb (bool_decide (embedding_model = Some model)).

Definition summaryPending (s : Scope) (model : string) (r : SummaryRow) : bool :=
  staleEmbedding model r.(s_embedding) r.(s_embedding_model) && bool_decide (r.(s_scope) = s).

Definition episodePending (s : Scope) (model : string) (r : EpisodeRow) : bool :=
  String.eqb r.(e_type) "interaction" &&
  fge r.(e_importance) EpisodeEmbedImportanceThreshold &&
  staleEmbedding model r.(e_embedding) r.(e_embedding_model) && bool_decide (r.(e_scope) = s).

Definition entityPending (s : Scope) (model : string) (r : EntityRow) : bool :=
  staleEmbedding model r.(n_embedding) r.(n_embedding_model) && bool_decide (r.(n_scope) = s).

(** [exists (select 1 from summaries newer where newer.supersedes = id)], over
    the summaries the session sees. *)
Definition superseded (se : session) (su : list SummaryRow) (id : string) : bool :=
  existsb (fun newer => visible se newer.(s_scope) && bool_decide (newer.(s_supersedes) = Some id)) su.

Definition keyFactPending (se : session) (su : list SummaryRow) (s : Scope) (model : string)
    (r : KeyFactRow) : bool :=
  r.(f_grounded) && staleEmbedding model r.(f_embedding) r.(f_embedding_model) &&
  bool_decide (r.(f_scope) = s) && negb (superseded se su r.(f_summary_id)).

Record ScopeStatus := MkScopeStatus {
  StatusModel : string;
  SummariesPending : Z;
  EpisodesPending : Z;
  EntitiesPending : Z;
  KeyFactsPending : Z
}.

Definition Total (st : ScopeStatus) : Z :=
  st.(SummariesPending) + st.(EpisodesPending) + st.(EntitiesPending) + st.(KeyFactsPending).

(** [select count(.. )] / [select .. ] under the policy. *)
Definition visibleWhere {R} (se : session) (scope : R -> Scope) (cond : R -> bool) (l : list R) : list R :=
  filter (fun r => visible se (scope r) && cond r = true) l.

Definition countWhere {R} (se : session) (scope : R -> Scope) (cond : R -> bool) (l : list R) : Z :=
  Z.of_nat (length (visibleWhere se scope cond l)).

(** [.. order by id limit n]: a negative limit is an error. *)
Definition limited {R} (n : Z) (rows : list R) : M (list R) :=
  if n <? 0 then throw (ErrMsg "LIMIT must not be negative") else mret (take (Z.to_nat n) rows).

(** ** One row, and where to read it again *)

Inductive RowRef :=
| RefSummaryRow (id : string)
| RefEpisodeRow (id : string)
| RefEntityRow (id : string)
| RefKeyFactRow (id : Z).

(** [select <ciphertext columns>, key_version from <table> where id = $1] *)
Definition fetchRow (se : session) (ref : RowRef) (d : db) : option (Z * list (option string)) :=
  match ref with
  | RefSummaryRow id =>
      (fun r => (r.(s_key_version), [r.(s_text)])) <$> head (filter (fun r => summaryWhere se id r = true) d.(summaries))
  | RefEpisodeRow id =>
      (fun r => (r.(e_key_version), [r.(e_input); r.(e_output)])) <$>
        head (filter (fun r => visible se r.(e_scope) && String.eqb r.(e_id) id = true) d.(episodes))
  | RefEntityRow id =>
      (fun r => (r.(n_key_version), [r.(n_attributes)])) <$>
        head (filter (fun r => visible se r.(n_scope) && String.eqb r.(n_id) id = true) d.(entities))
  | RefKeyFactRow id =>
      (fun r => (r.(f_key_version), [r.(f_fact)])) <$> head (filter (fun r => keyFactWhere se id r = true) d.(key_facts))
  end.

(** ** The update of a row *)

Definition embSummary (lit model : string) (r : SummaryRow) : SummaryRow :=
  MkSummaryRow r.(s_id) r.(s_scope) r.(s_text) r.(s_key_version) r.(s_supersedes) (Some lit) (Some model) r.(s_info).

Definition embEpisode (lit model : string) (r : EpisodeRow) : EpisodeRow := {|
  e_id := r.(e_id); e_scope := r.(e_scope); e_ts := r.(e_ts); e_type := r.(e_type);
  e_vendor := r.(e_vendor); e_model := r.(e_model);
  e_input := r.(e_input); e_output := r.(e_output); e_note := r.(e_note);
  e_key_version := r.(e_key_version);
  e_importance := r.(e_importance); e_hash := r.(e_hash); e_truncated := r.(e_truncated);
  e_gate := r.(e_gate); e_refers_to := r.(e_refers_to); e_rating := r.(e_rating);
  e_refs := r.(e_refs); e_embedding := Some lit; e_embedding_model := Some model |}.

Definition embEntity (lit model : string) (r : EntityRow) : EntityRow :=
  MkEntityRow r.(n_id) r.(n_scope) r.(n_kind) r.(n_name) r.(n_attributes) r.(n_key_version)
    (Some lit) (Some model) r.(n_dates).

Definition embKeyFact (lit model : string) (r : KeyFactRow) : KeyFactRow :=
  MkKeyFactRow r.(f_id) r.(f_summary_id) r.(f_scope) r.(f_fact) r.(f_key_version) r.(f_grounded)
    (Some lit) (Some model) r.(f_source_episode_ids).

(** [update episodes .. where id = $3], under the policy. *)
Definition episodeIdWhere (se : session) (id : string) (r : EpisodeRow) : bool :=
  visible se r.(e_scope) && String.eqb r.(e_id) id.

Section Reembed.
Context `{HA : AEAD, EM : Embedder, FF : FloatFormat}.
Variable kek : string.

Definition Status (s : Scope) : M ScopeStatus :=
  let model := EmbedderIdentity in
  Run s s (fun se =>
    su ← wrapErr "count pending summaries"
           (query (fun d => countWhere se s_scope (summaryPending s model) d.(summaries)));
    ep ← wrapErr "count pending episodes"
           (query (fun d => countWhere se e_scope (episodePending s model) d.(episodes)));
    en ← wrapErr "count pending entities"
           (query (fun d => countWhere se n_scope (entityPending s model) d.(entities)));
    fa ← wrapErr "count pending key facts"
           (query (fun d => countWhere se f_scope (keyFactPending se d.(summaries) s model) d.(key_facts)));
    mret (MkScopeStatus model su ep en fa)).

Definition decryptEach (enc : Encryptor) (cts : list (option string)) : result error (list string) :=
  foldr (fun ct acc => t ← Decrypt enc ct; ts ← acc; Ok (t :: ts)) (Ok []) cts.

Definition refetchRow (s : Scope) (ref : RowRef) : M (Z * list (option string)) :=
  Run s s (fun se => queryRow (fetchRow se ref)).

Definition decryptWithRetry (s : Scope) (ref : RowRef) (keyVersion : Z) (cts : list (option string)) :
    M (list string) :=
  r ← catch (GetVersion kek s keyVersion);
  match r with
  | Ok enc => lift (decryptEach enc cts)
  | Err err =>
      if negb (errors_Is err ErrKeyVersionNotFound) then throw err
      else
        fr ← catch (refetchRow s ref);
        match fr with
        | Err _ => throw err
        | Ok (current, fresh) =>
            if current =? keyVersion then throw err
            else
              fe ← catch (GetVersion kek s current);
              match fe with
              | Err _ => throw err
              | Ok freshEnc => lift (decryptEach freshEnc fresh)
              end
        end
  end.

(** [texts[0]], for a call that returned one text per ciphertext. *)
Definition text0 (texts : list string) : string := nth 0 texts "".
Definition text1 (texts : list string) : string := nth 1 texts "".

(** Embed one text; no vector is an error. *)
Definition embedOne (what text : string) : M string :=
  input ← truncatedInput text;
  vectors ← wrapErr ("embed " +:+ what) (Embed [input]);
  match vectors with
  | [] => throw (ErrMsg ("embedder returned no vectors for " +:+ what))
  | v :: _ => mret (VectorLiteral v)
  end.

Definition reembedSummary (s : Scope) (model : string) (rr : SummaryRow) : M () :=
  texts ← wrapErr "decrypt summary"
    (decryptWithRetry s (RefSummaryRow rr.(s_id)) rr.(s_key_version) [rr.(s_text)]);
  lit ← embedOne "summary" (text0 texts);
  wrapErr "write embedding for summary" (Run s s (fun se =>
    exec (set_summaries (updateWhere (summaryWhere se rr.(s_id)) (embSummary lit model))))).

Definition reembedSummaryBatch (s : Scope) (model : string) (batchSize : Z) : M Z :=
  rows ← Run s s (fun se =>
    rows ← wrapErr "query summaries" (query (fun d =>
      sort_by (fun a b => idLess a.(s_id) b.(s_id))
        (visibleWhere se s_scope (summaryPending s model) d.(summaries))));
    limited batchSize rows);
  forM rows (reembedSummary s model) ;;
  mret (Z.of_nat (length rows)).

Definition reembedEpisode (s : Scope) (model : string) (rr : EpisodeRow) : M () :=
  texts ← wrapErr "decrypt episode"
    (decryptWithRetry s (RefEpisodeRow rr.(e_id)) rr.(e_key_version) [rr.(e_input); rr.(e_output)]);
  lit ← embedOne "episode" (EpisodeEmbedText (text0 texts) (text1 texts));
  wrapErr "write embedding for episode" (Run s s (fun se =>
    exec (set_episodes (updateWhere (episodeIdWhere se rr.(e_id)) (embEpisode lit model))))).

Definition reembedEpisodeBatch (s : Scope) (model : string) (batchSize : Z) : M Z :=
  rows ← Run s s (fun se =>
    rows ← wrapErr "query episodes" (query (fun d =>
      sort_by (fun a b => idLess a.(e_id) b.(e_id))
        (visibleWhere se e_scope (episodePending s model) d.(episodes))));
    limited batchSize rows);
  forM rows (reembedEpisode s model) ;;
  mret (Z.of_nat (length rows)).

(** Empty attributes are no JSON at all; the map stays nil. *)
Definition entityAttrs (attrsJSON : string) : M (gmap string string) :=
  if String.eqb attrsJSON "" then mret ∅
  else match parseAttrs attrsJSON with
       | Some attrs => mret attrs
       | None => throw (ErrMsg "parse entity attributes")
       end.

Definition reembedEntity (s : Scope) (model : string) (rr : EntityRow) : M () :=
  texts ← wrapErr "decrypt entity attributes"
    (decryptWithRetry s (RefEntityRow rr.(n_id)) rr.(n_key_version) [rr.(n_attributes)]);
  attrs ← entityAttrs (text0 texts);
  lit ← embedOne "entity" (EntityEmbedText rr.(n_kind) rr.(n_name) attrs);
  wrapErr "write embedding for entity" (Run s s (fun se =>
    exec (set_entities (updateWhere (entityWhere se s rr.(n_id)) (embEntity lit model))))).

Definition reembedEntityBatch (s : Scope) (model : string) (batchSize : Z) : M Z :=
  rows ← Run s s (fun se =>
    rows ← wrapErr "query entities" (query (fun d =>
      sort_by (fun a b => idLess a.(n_id) b.(n_id))
        (visibleWhere se n_scope (entityPending s model) d.(entities))));
    limited batchSize rows);
  forM rows (reembedEntity s model) ;;
  mret (Z.of_nat (length rows)).

(** The texts of the facts, one after the other. *)
Fixpoint factTexts (s : Scope) (rows : list KeyFactRow) : M (list string) :=
  match rows with
  | [] => mret []
  | rr :: rows' =>
      decrypted ← wrapErr "decrypt key fact"
        (decryptWithRetry s (RefKeyFactRow rr.(f_id)) rr.(f_key_version) [rr.(f_fact)]);
      t ← truncatedInput (text0 decrypted);
      ts ← factTexts s rows';
      mret (t :: ts)
  end.

Definition reembedKeyFactBatch (s : Scope) (model : string) (batchSize : Z) : M Z :=
  rows ← Run s s (fun se =>
    rows ← wrapErr "query key facts" (query (fun d =>
      sort_by (fun a b => f_id a <? f_id b)
        (visibleWhere se f_scope (keyFactPending se d.(summaries) s model) d.(key_facts))));
    limited batchSize rows);
  if Nat.eqb (length rows) 0 then mret 0
  else
    texts ← factTexts s rows;
    vectors ← wrapErr "embed key facts batch" (Embed texts);
    if negb (Nat.eqb (length vectors) (length rows))
    then throw (ErrMsg "embed key facts batch: wrong number of vectors")
    else
      Run s s (fun se =>
        forM (zip rows vectors) (fun rv =>
          wrapErr "write embedding for key fact"
            (exec (set_key_facts (updateWhere (keyFactWhere se rv.1.(f_id))
              (embKeyFact (VectorLiteral rv.2) model)))))) ;;
      mret (Z.of_nat (length rows)).

(** The rows processed, the table they are of, and whether nothing is left. *)
Definition Continue (s : Scope) (batchSize : Z) : M (Z * string * bool) :=
  let model := EmbedderIdentity in
  n ← wrapErr "reembed: summaries" (reembedSummaryBatch s model batchSize);
  if n >? 0 then mret (n, "summaries", false) else
  n ← wrapErr "reembed: episodes" (reembedEpisodeBatch s model batchSize);
  if n >? 0 then mret (n, "episodes", false) else
  n ← wrapErr "reembed: entities" (reembedEntityBatch s model batchSize);
  if n >? 0 then mret (n, "entities", false) else
  n ← wrapErr "reembed: key facts" (reembedKeyFactBatch s model batchSize);
  if n >? 0 then mret (n, "summary_key_facts", false) else
  mret (0, "", true).

Definition LogRun (s : Scope) (actor : string) (processed : Z) : M () :=
  Run s s (fun se => Write se
    {| EventType := "reembed"; Actor := actor; ActingScope := s; WorkspaceScope := s;
       TargetRef := None;
       Detail := [("rows_reembedded", JInt processed); ("model", JString EmbedderIdentity)] |}).

(** The driver loop of [cmd/hupi-reembed]; [None] when the fuel runs out. *)
Fixpoint reembedAll (fuel : nat) (s : Scope) (actor : string) (batchSize total : Z) : M (option Z) :=
  match fuel with
  | O => mret None
  | S fuel' =>
      pd ← Continue s batchSize;
      let '(processed, _, done) := pd in
      let total := total + processed in
      (if 0 <? processed then wrapErr "failed to write audit log entry" (LogRun s actor processed)
       else mret tt) ;;
      if done : bool then mret (Some total) else reembedAll fuel' s actor batchSize total
  end.
End Reembed.
