(* ===== verification/ReembedFacts.v ===== *)
(** * ReembedFacts: one row at a time

    What reading, embedding and writing one row does under any faults, and what
    a loop of such steps leaves of the pending rows of its table. *)

From stdpp Require Import gmap.
From S2P Require Import Prelude Identity Schema Db KeyStore Rotate Utf8 Float Text Embed Reembed.
#[local] Open Scope string_scope.
#[local] Open Scope list_scope.
#[local] Open Scope Z_scope.

(** ** Counting the pending rows of a table *)

Section Rows.
Context {R X : Type} `{EqDecision X} (key : R -> X) (pend : R -> bool).
Context (emb : string -> R -> R) (good : R -> string -> Prop).
Hypothesis emb_key : forall lit r, key (emb lit r) = key r.
Hypothesis emb_done : forall lit r, pend (emb lit r) = false.

(** A row is left alone, or was pending and got a right literal. *)
Definition embStep (r r' : R) : Prop :=
  r' = r \/ (pend r = true /\ exists lit, good r lit /\ r' = emb lit r).

Definition pendCount (l : list R) : nat := length (filter (fun r => pend r = true) l).

#[export] Instance embStep_refl : Reflexive embStep.
Proof. by left. Qed.

#[export] Instance embStep_trans : Transitive embStep.
Proof.
  intros a b c [->|(Pa & lit & Hg & ->)]; [done|].
  intros [->|(Pb & _)]; [right; eauto|]. by rewrite emb_done in Pb.
Qed.

Lemma embSteps_keys l l' : Forall2 embStep l l' -> map key l' = map key l.
Proof.
  induction 1 as [|r r' l l' [->|(_ & lit & _ & ->)] _ IH]; cbn; [done|by rewrite IH|].
  by rewrite IH, emb_key.
Qed.

Lemma pendCount_cons r l : pendCount (r :: l) = ((if pend r then 1 else 0) + pendCount l)%nat.
Proof. unfold pendCount. rewrite filter_cons. by destruct (pend r). Qed.

(** Writing the literal of one pending row. *)
Lemma update_one cond lit rr l :
  NoDup (map key l) -> rr ∈ l -> pend rr = true -> good rr lit ->
  (forall x, x ∈ l -> cond x = true <-> x = rr) ->
  Forall2 embStep l (updateWhere cond (emb lit) l) /\
  (pendCount (updateWhere cond (emb lit) l) + 1 = pendCount l)%nat /\
  (forall x, x ∈ l -> x <> rr -> x ∈ updateWhere cond (emb lit) l).
Proof.
  intros Hnd Hin Hp Hg. unfold updateWhere. induction l as [|x l IH]; [by apply elem_of_nil in Hin|].
  intros Hc. cbn [map] in Hnd. apply NoDup_cons in Hnd as [Hx Hnd].
  assert (Hskip : ~ rr ∈ l -> map (fun r => if cond r then emb lit r else r) l = l).
  { intros Hno. rewrite <- (map_id l) at 2. apply map_ext_in. intros y Hy%list_elem_of_In.
    destruct (cond y) eqn:E; [|done]. apply Hc in E; [by subst|by right]. }
  cbn [map]. destruct (cond x) eqn:Ex.
  - apply Hc in Ex; [subst x|by left].
    rewrite Hskip; cycle 1.
    { intros Hr. apply Hx. apply list_elem_of_fmap. by exists rr. }
    split_and!.
    + constructor; [right; eauto|]. apply Forall2_same_length_lookup_2; [done|].
      intros i y z Hy Hz. left. congruence.
    + rewrite !pendCount_cons, emb_done, Hp. lia.
    + intros y [->|Hy]%elem_of_cons Hne; [done|by right].
  - apply elem_of_cons in Hin as [<-|Hin].
    { assert (cond rr = true) as E by (apply Hc; [by left|done]). congruence. }
    destruct IH as (H1 & H2 & H3); [done|done| |].
    { intros y Hy. apply Hc. by right. }
    split_and!.
    + constructor; [by left|done].
    + rewrite !pendCount_cons. lia.
    + intros y [->|Hy]%elem_of_cons Hne; [by left|right; auto].
Qed.
End Rows.

(** ** Keys *)

Lemma wrapRes_notfound {A} msg (r : result error A) e :
  (forall e', r = Err e' -> errors_Is e' ErrKeyVersionNotFound = false) ->
  wrapRes msg r = Err e -> errors_Is e ErrKeyVersionNotFound = false.
Proof.
  intros H. destruct r as [a|e']; cbn; [done|]. intros [= <-]. cbn. by apply H.
Qed.

Section Keys.
Context `{HA : AEAD}.
Variable kek : string.

Lemma coherent_keys d d' c :
  scope_keys d' = scope_keys d -> coherent kek d c -> coherent kek d' c.
Proof. unfold coherent. by intros ->. Qed.

Lemma NewEncryptor_notfound k e :
  NewEncryptor k = Err e -> errors_Is e ErrKeyVersionNotFound = false.
Proof. unfold NewEncryptor. case_match; [done|]. by intros [= <-]. Qed.

Lemma Decrypt_notfound k b e : Decrypt k b = Err e -> errors_Is e ErrKeyVersionNotFound = false.
Proof. unfold Decrypt. repeat case_match; try done; by intros [= <-]. Qed.

Lemma unwrap_notfound wr e :
  unwrap kek wr = Err e -> errors_Is e ErrKeyVersionNotFound = false.
Proof.
  unfold unwrap, UnwrapDEK. rewrite rbind_err. intros [H|(t & _ & H)]; [|by eapply NewEncryptor_notfound].
  eapply wrapRes_notfound; [|exact H]. intros e1. rewrite rbind_err. intros [H1|(t1 & _ & H1)].
  - eapply wrapRes_notfound; [|exact H1]. apply NewEncryptor_notfound.
  - eapply wrapRes_notfound; [|exact H1]. apply Decrypt_notfound.
Qed.

(** [GetVersion] on any cache, telling the ways to fail apart. *)
Lemma wp_GetVersion_cases s v Q d c i fs :
  coherent kek d c ->
  (forall k c' fs', quiet fs fs' -> coherent kek d c' ->
     (forall k', keyOf kek d s v = Some k' -> k = k') ->
     Q (Ok k) (MkWorld d (MkProcess c' i) fs')) ->
  (forall e fs', quiet fs fs' ->
     (fs <> [] /\ errors_Is e ErrKeyVersionNotFound = false) \/
     (keyOf kek d s v = None /\ (errors_Is e ErrKeyVersionNotFound = true ->
        d.(scope_keys) !! (s, v) = None /\ c !! (s, v) = None)) ->
     Q (Err e) (MkWorld d (MkProcess c i) fs')) ->
  wp (GetVersion kek s v) Q (MkWorld d (MkProcess c i) fs).
Proof.
  intros Hc HOk HErr. unfold GetVersion. apply wp_bind, wp_getProc. cbn.
  destruct (c !! (s, v)) as [k|] eqn:Ec.
  { apply wp_ret, HOk; [oracle|done|]. unfold keyOf. intros k' Hk'.
    apply bind_Some in Hk' as (wr & Hwr & Hk'). rewrite (Hc _ _ _ Ec Hwr) in Hk'. by injection Hk'. }
  apply wp_bind, wp_query; [|intros; apply HErr; [oracle|by left]].
  destruct (scope_keys d !! (s, v)) as [wr|] eqn:Ewr.
  2: { apply wp_throw, HErr; [oracle|]. right. unfold keyOf. by rewrite Ewr. }
  apply wp_bind, wp_lift. destruct (unwrap kek wr) as [k|e] eqn:Ek.
  2: { apply HErr; [oracle|]. right. unfold keyOf. rewrite Ewr. cbn. rewrite Ek. split; [done|].
       apply unwrap_notfound in Ek. congruence. }
  unfold store. apply wp_bind, wp_modProc, wp_ret. apply HOk; [oracle| |].
  - by eapply coherent_insert.
  - intros k'. unfold keyOf. rewrite Ewr. cbn. rewrite Ek. by intros [= <-].
Qed.

Lemma wp_refetchRow s ref Q d c i fs :
  (forall r fs', quiet fs fs' ->
     (forall cur fresh, r = Ok (cur, fresh) -> fetchRow (MkSession s s) ref d = Some (cur, fresh)) ->
     (fs = [] -> forall x, fetchRow (MkSession s s) ref d = Some x -> r = Ok x) ->
     Q r (MkWorld d (MkProcess c i) fs')) ->
  wp (refetchRow s ref) Q (MkWorld d (MkProcess c i) fs).
Proof.
  intros H. unfold refetchRow. apply wp_Run.
  - intros msg fs' Hf Hq. by apply H.
  - intros fs0 Hq. unfold queryRow. apply wp_bind, wp_query.
    + destruct (fetchRow _ ref d) as [[cur fresh]|] eqn:E.
      * apply wp_ret. split; [oracle|]. intros gs Hgs. split; [|intros Hf msg; by apply H; [oracle|..]].
        apply H; [oracle| |].
        -- by intros ? ? [= <- <-].
        -- by intros _ x [= <-].
      * apply wp_throw. split; [oracle|]. intros gs Hgs. by apply H; [oracle|..].
    + intros Hf. split; [oracle|]. intros gs Hgs. apply H; [oracle|done|].
      intros ->. by rewrite (Hq eq_refl) in Hf.
Qed.

(** The plaintexts of a row's columns, for a reader. *)
Definition readAll (d : db) (s : Scope) (v : Z) (cts : list (option string)) : option (list string) :=
  k ← keyOf kek d s v; resToOption (decryptEach k cts).

(** Reading a row: what comes out is what a reader of the columns gets, whenever
    a reader gets anything. *)
Lemma wp_decryptWithRetry s ref v cts Q d c i fs :
  coherent kek d c ->
  (forall texts c' fs', quiet fs fs' -> coherent kek d c' ->
     (forall ts, readAll d s v cts = Some ts -> texts = ts) ->
     Q (Ok texts) (MkWorld d (MkProcess c' i) fs')) ->
  (forall e c' fs', quiet fs fs' -> coherent kek d c' ->
     fs <> [] \/ readAll d s v cts = None -> Q (Err e) (MkWorld d (MkProcess c' i) fs')) ->
  wp (decryptWithRetry kek s ref v cts) Q (MkWorld d (MkProcess c i) fs).
Proof.
  intros Hc HOk HErr. unfold decryptWithRetry. apply wp_bind, wp_catch, wp_GetVersion_cases; [done| |].
  - intros k c' fs' Hq Hc' Hk. apply wp_lift. unfold readAll in *.
    destruct (decryptEach k cts) as [ts|e] eqn:E.
    + apply HOk; [done|done|]. intros ts'. rewrite bind_Some. intros (k' & Hk' & Hts).
      apply Hk in Hk' as <-. rewrite E in Hts. by injection Hts.
    + apply HErr; [done|done|]. right. destruct (keyOf kek d s v) as [k'|]; [|done].
      rewrite <- (Hk k' eq_refl). cbn. by rewrite E.
  - intros e fs' Hq [[Hf Hn]|[Hk Hn]].
    { rewrite Hn. apply wp_throw, HErr; [done|done|by left]. }
    assert (Hnone : readAll d s v cts = None) by (unfold readAll; by rewrite Hk).
    case_test; [apply wp_throw, HErr; auto|].
    apply wp_bind, wp_catch, wp_refetchRow. intros r fs1 Hq1 _ _.
    destruct r as [[cur fresh]|e1]; [|apply wp_throw, HErr; [by eapply quiet_trans|done|by right]].
    case_test; [apply wp_throw, HErr; [by eapply quiet_trans|done|by right]|].
    apply wp_bind, wp_catch, wp_GetVersion_cases; [done| |].
    + intros k c' fs2 Hq2 Hc' _. apply wp_lift.
      assert (quiet fs fs2) by (eapply quiet_trans; [|done]; by eapply quiet_trans).
      destruct (decryptEach k fresh); [apply HOk|apply HErr]; auto. congruence.
    + intros e2 fs2 Hq2 _. apply wp_throw, HErr; [|done|by right].
      eapply quiet_trans; [|done]. by eapply quiet_trans.
Qed.

(** A row whose key version is gone is read again under its current one. *)
Lemma wp_decryptWithRetry_stale s ref v cts cur fresh k ts Q d c i :
  coherent kek d c -> c !! (s, v) = None -> d.(scope_keys) !! (s, v) = None ->
  fetchRow (MkSession s s) ref d = Some (cur, fresh) -> cur <> v ->
  keyOf kek d s cur = Some k -> decryptEach k fresh = Ok ts ->
  (forall c', coherent kek d c' -> Q (Ok ts) (MkWorld d (MkProcess c' i) [])) ->
  wp (decryptWithRetry kek s ref v cts) Q (MkWorld d (MkProcess c i) []).
Proof.
  intros Hc Hcv Hkv Hfetch Hne Hk Hts HQ. unfold decryptWithRetry.
  apply wp_bind, wp_catch. unfold GetVersion at 1. apply wp_bind, wp_getProc. cbn. rewrite Hcv.
  apply wp_bind, wp_query; [|done]. rewrite Hkv. apply wp_throw. cbn.
  apply wp_bind, wp_catch, wp_refetchRow. intros r fs1 Hq1 _ Hr.
  rewrite (Hr eq_refl _ Hfetch), (proj2 (Z.eqb_neq _ _)) by done.
  apply wp_bind, wp_catch, wp_GetVersion_cases; [done| |].
  - intros k' c' fs2 Hq2 Hc' Hk'. rewrite <- (Hk' k Hk) in Hts. apply wp_lift. rewrite Hts.
    rewrite (Hq2 (Hq1 eq_refl)). by apply HQ.
  - intros e fs2 Hq2 [[Hf _]|[Hn _]]; [by rewrite (Hq1 eq_refl) in Hf|congruence].
Qed.

(** A row that was read, then rotated to a newer key version whose old key
    was pruned, is still decrypted: [decryptWithRetry] reads version and
    ciphertexts again, together, and returns what a reader of the current row
    gets. *)
Theorem retry_reads_rotated_row s ref v cts cur fresh ts d c i :
  coherent kek d c -> c !! (s, v) = None -> d.(scope_keys) !! (s, v) = None ->
  fetchRow (MkSession s s) ref d = Some (cur, fresh) -> cur <> v ->
  readAll d s cur fresh = Some ts ->
  wp (decryptWithRetry kek s ref v cts)
    (fun r w' => r = Ok ts /\ w'.(w_db) = d /\ coherent kek d w'.(w_proc).(cache))
    (MkWorld d (MkProcess c i) []).
Proof.
  intros Hc Hcv Hkv Hf Hne (k & Hk & Hts)%bind_Some.
  destruct (decryptEach k fresh) as [ts'|e] eqn:E; [|done]. injection Hts as <-.
  by eapply wp_decryptWithRetry_stale.
Qed.
End Keys.
