(* ===== verification/ReembedProofs.v ===== *)
(** * ReembedProofs: batches, Continue and the driver loop *)

From stdpp Require Import gmap.
From S2P Require Import Prelude Identity Schema Db KeyStore Rotate Utf8 Float Text Embed Reembed.
From S2P Require Import ReembedFacts.
#[local] Open Scope string_scope.
#[local] Open Scope list_scope.
#[local] Open Scope Z_scope.

Section Proofs.
Context `{HA : AEAD, EM : Embedder, FF : FloatFormat}.
Variable kek : string.

(** What the provider documents: one vector per input. *)
Definition embedder_total : Prop :=
  forall inputs, inputs <> [] -> exists vs, EmbedAnswer inputs = Some vs /\ length vs = length inputs.

(** [lit] is the literal of the vector of [text], embedded in some request. *)
Definition litOf (text lit : string) : Prop :=
  exists inputs vectors i t v, TruncateForEmbedding text = Some t /\
    EmbedAnswer inputs = Some vectors /\ inputs !! i = Some t /\ vectors !! i = Some v /\
    lit = VectorLiteral v.

Lemma wp_embedOne what text Q d p fs :
  (forall lit fs', quiet fs fs' -> litOf text lit -> Q (Ok lit) (MkWorld d p fs')) ->
  (forall e fs', quiet fs fs' -> fs <> [] \/ ~ embedder_total -> Q (Err e) (MkWorld d p fs')) ->
  wp (embedOne what text) Q (MkWorld d p fs).
Proof.
  intros HOk HErr. unfold embedOne. apply wp_bind, wp_truncatedInput. intros t Ht.
  apply wp_bind, wp_wrap, wp_Embed.
  - intros vs Hvs. destruct vs as [|v vs].
    + apply wp_throw, HErr; [oracle|]. right. intros Htot.
      destruct (Htot [t]) as (vs & E & Hl); [done|]. rewrite Hvs in E. by injection E as <-.
    + apply wp_ret, HOk; [oracle|]. by exists [t], (v :: vs), 0%nat, t, v.
  - intros e Hor. apply HErr; [oracle|]. destruct Hor as [?|Hn]; [by left|right].
    intros Htot. destruct (Htot [t]) as (vs & E & _); [done|]. congruence.
Qed.

(** ** The texts of a row, for a reader *)

Definition suText (d : db) (r : SummaryRow) : option string :=
  ts ← readAll kek d r.(s_scope) r.(s_key_version) [r.(s_text)]; Some (text0 ts).

Definition epText (d : db) (r : EpisodeRow) : option string :=
  ts ← readAll kek d r.(e_scope) r.(e_key_version) [r.(e_input); r.(e_output)];
  Some (EpisodeEmbedText (text0 ts) (text1 ts)).

Definition attrsOf (t : string) : option (gmap string string) :=
  if String.eqb t "" then Some ∅ else parseAttrs t.

Definition enText (d : db) (r : EntityRow) : option string :=
  ts ← readAll kek d r.(n_scope) r.(n_key_version) [r.(n_attributes)];
  attrs ← attrsOf (text0 ts);
  Some (EntityEmbedText r.(n_kind) r.(n_name) attrs).

Definition faText (d : db) (r : KeyFactRow) : option string :=
  ts ← readAll kek d r.(f_scope) r.(f_key_version) [r.(f_fact)]; Some (text0 ts).

(** The literal of a row that a reader can read is the one of its text. *)
Definition goodLit {R} (text : R -> option string) (r : R) (lit : string) : Prop :=
  forall t, text r = Some t -> litOf t lit.

(** ** The loop over the rows of a batch *)

Section Loop.
Context {R X : Type} `{EqDecision X} (key : R -> X) (pend : R -> bool) (emb : string -> R -> R).
Context (text : db -> R -> option string).
Context (rowsOf : db -> list R) (setRows : (list R -> list R) -> db -> db).
Context (s : Scope) (step : R -> M ()) (cond : session -> R -> R -> bool).
Hypothesis emb_key : forall lit r, key (emb lit r) = key r.
Hypothesis emb_done : forall lit r, pend (emb lit r) = false.
Hypothesis rows_set : forall f d, rowsOf (setRows f d) = f (rowsOf d).
Hypothesis set_set : forall f g d, setRows f (setRows g d) = setRows (fun l => f (g l)) d.
Hypothesis set_ext : forall f g d, f (rowsOf d) = g (rowsOf d) -> setRows f d = setRows g d.
Hypothesis set_id : forall d, setRows (fun l => l) d = d.
Hypothesis set_keys : forall f d, scope_keys (setRows f d) = scope_keys d.
Hypothesis text_keys : forall d d' r, scope_keys d' = scope_keys d -> text d' r = text d r.
Hypothesis cond_eq : forall d rr x, NoDup (map key (rowsOf d)) -> rr ∈ rowsOf d -> pend rr = true ->
  x ∈ rowsOf d -> cond (MkSession s s) rr x = true <-> x = rr.

(** Only this table changed, row by row. *)
Definition tableStep (d d' : db) : Prop :=
  d' = setRows (fun _ => rowsOf d') d /\
  Forall2 (embStep pend emb (goodLit (text d))) (rowsOf d) (rowsOf d').

Lemma tableStep_refl d : tableStep d d.
Proof.
  split.
  - rewrite <- (set_id d) at 1. by apply set_ext.
  - apply Forall2_same_length_lookup_2; [done|]. intros i y z Hy Hz. left. congruence.
Qed.

Lemma tableStep_keys d d' : tableStep d d' -> scope_keys d' = scope_keys d.
Proof. intros [-> _]. apply set_keys. Qed.

Lemma tableStep_trans d1 d2 d3 : tableStep d1 d2 -> tableStep d2 d3 -> tableStep d1 d3.
Proof.
  intros H12 [E3 F3]. pose proof (tableStep_keys _ _ H12) as Hk. destruct H12 as [E2 F2]. split.
  - rewrite E3 at 1. rewrite E2 at 1. rewrite set_set. by apply set_ext.
  - eapply Forall2_trans; [|exact F2|].
    { intros a b c. apply (embStep_trans pend emb _ emb_done). }
    eapply Forall2_impl; [exact F3|]. intros a b [->|(Hp & lit & Hg & ->)]; [by left|right].
    split; [done|]. exists lit. split; [|done]. intros t Ht. apply Hg. by rewrite (text_keys d1).
Qed.

Lemma tableStep_one d rr lit :
  NoDup (map key (rowsOf d)) -> rr ∈ rowsOf d -> pend rr = true -> goodLit (text d) rr lit ->
  let d' := setRows (updateWhere (cond (MkSession s s) rr) (emb lit)) d in
  tableStep d d' /\ (pendCount pend (rowsOf d') + 1 = pendCount pend (rowsOf d))%nat /\
  (forall x, x ∈ rowsOf d -> x <> rr -> x ∈ rowsOf d').
Proof.
  intros Hnd Hin Hp Hg d'.
  destruct (update_one key pend emb (goodLit (text d)) emb_done
    (cond (MkSession s s) rr) lit rr (rowsOf d)) as (H1 & H2 & H3); [done..| |].
  { intros x Hx. by apply (cond_eq d). }
  subst d'. rewrite !rows_set. split_and!; [|done|done].
  split; [rewrite rows_set; by apply set_ext|by rewrite rows_set].
Qed.

(** The state of the loop: the rows still to do are untouched. *)
Definition loopInv (d0 : db) (n : nat) (fs0 : list bool) (todo : list R) (w : world) : Prop :=
  exists d c i fs, w = MkWorld d (MkProcess c i) fs /\ quiet fs0 fs /\ coherent kek d c /\
    tableStep d0 d /\ NoDup (map key todo) /\ (forall r, r ∈ todo -> r ∈ rowsOf d /\ pend r = true) /\
    (pendCount pend (rowsOf d) + n = pendCount pend (rowsOf d0) + length todo)%nat.

Lemma loopInv_step d0 n fs0 rr todo d c c' i fs fs' lit :
  NoDup (map key (rowsOf d0)) ->
  loopInv d0 n fs0 (rr :: todo) (MkWorld d (MkProcess c i) fs) ->
  goodLit (text d) rr lit -> quiet fs fs' -> coherent kek d c' ->
  loopInv d0 n fs0 todo
    (MkWorld (setRows (updateWhere (cond (MkSession s s) rr) (emb lit)) d) (MkProcess c' i) fs').
Proof.
  intros Hnd (d1 & c1 & i1 & fs1 & [= <- <- <- <-] & Hq & Hc & Hst & Htd & Hin & Hn) Hg Hq' Hc'.
  assert (Hnd' : NoDup (map key (rowsOf d))).
  { rewrite (embSteps_keys key pend emb _ emb_key _ _ (proj2 Hst)). done. }
  destruct (Hin rr ltac:(by left)) as [Hrr Hpr].
  destruct (tableStep_one d rr lit Hnd' Hrr Hpr Hg) as (H1 & H2 & H3).
  cbn [map] in Htd. apply NoDup_cons in Htd as [Hx Htd].
  eexists _, c', i, fs'. split; [done|]. split_and!.
  - by eapply quiet_trans.
  - intros k0 k wr. rewrite set_keys. by apply Hc'.
  - by eapply tableStep_trans.
  - done.
  - intros r Hr. destruct (Hin r ltac:(by right)) as [H4 H5]. split; [|done]. apply H3; [done|].
    intros ->. apply Hx. apply list_elem_of_fmap. by exists rr.
  - cbn [length] in Hn. lia.
Qed.

(** One row of the batch, from any state of the table. *)
Definition stepSpec (bad : db -> Prop) : Prop := forall rr Q d c i fs,
  rr ∈ rowsOf d -> pend rr = true -> coherent kek d c ->
  (forall lit c' fs', quiet fs fs' -> coherent kek d c' -> goodLit (text d) rr lit ->
     Q (Ok tt) (MkWorld (setRows (updateWhere (cond (MkSession s s) rr) (emb lit)) d) (MkProcess c' i) fs')) ->
  (forall e c' fs', quiet fs fs' -> coherent kek d c' -> fs <> [] \/ bad d ->
     Q (Err e) (MkWorld d (MkProcess c' i) fs')) ->
  wp (step rr) Q (MkWorld d (MkProcess c i) fs).

Lemma wp_rows bad (Hstep : stepSpec bad) rows Q d0 c i fs :
  (forall d d', tableStep d d' -> bad d' -> bad d) ->
  NoDup (map key (rowsOf d0)) -> coherent kek d0 c ->
  NoDup (map key rows) -> (forall r, r ∈ rows -> r ∈ rowsOf d0 /\ pend r = true) ->
  (forall d c' fs', quiet fs fs' -> coherent kek d c' -> tableStep d0 d ->
     (pendCount pend (rowsOf d) + length rows = pendCount pend (rowsOf d0))%nat ->
     Q (Ok tt) (MkWorld d (MkProcess c' i) fs')) ->
  (forall e d c' fs', quiet fs fs' -> coherent kek d c' -> tableStep d0 d ->
     fs <> [] \/ bad d0 -> Q (Err e) (MkWorld d (MkProcess c' i) fs')) ->
  wp (forM rows step) Q (MkWorld d0 (MkProcess c i) fs).
Proof.
  intros Hbad Hnd Hc Hrn Hin HOk HErr.
  eapply (wp_forM rows step
    (fun todo w => loopInv d0 (length rows) fs todo w /\ w.(w_proc).(draws) = i)
    (fun e w => exists d c' fs', w = MkWorld d (MkProcess c' i) fs' /\ quiet fs fs' /\
       coherent kek d c' /\ tableStep d0 d /\ (fs <> [] \/ bad d0))).
  - split; [|done]. exists d0, c, i, fs. split_and!; [done|oracle|done|apply tableStep_refl|done|done|done].
  - intros rr todo w1 [Hinv Hi].
    pose proof Hinv as (d & c1 & i1 & fs1 & -> & Hq & Hc1 & Hst & _ & Hin1 & _). cbn in Hi. subst i1.
    destruct (Hin1 rr ltac:(by left)) as [Hrr Hpr].
    apply Hstep; [done|done|done| |].
    + intros lit c' fs' Hq' Hc' Hg. split; [|done]. by eapply loopInv_step.
    + intros e c' fs' Hq' Hc' Hor. exists d, c', fs'. split_and!; [done|by eapply quiet_trans|done|done|].
      destruct Hor as [Hf|Hb]; [left; by eapply quiet_not_nil|right; by eapply Hbad].
  - intros w' [(d & c' & i' & fs' & -> & Hq & Hc' & Hst & _ & _ & Hn) Hi]. cbn in Hi. subst i'.
    apply HOk; try done. cbn in Hn. lia.
  - intros e w' (d & c' & fs' & -> & Hq & Hc' & Hst & Hor). by apply HErr.
Qed.

(** The whole batch: the selection, in a transaction of its own, then the rows. *)
Context (scope : R -> Scope) (less : R -> R -> bool).
Hypothesis pend_scope : forall r, pend r = true -> scope r = s.

Definition selected (d : db) : list R :=
  sort_by less (visibleWhere (MkSession s s) scope pend (rowsOf d)).

Lemma selected_in d r : r ∈ selected d <-> r ∈ rowsOf d /\ pend r = true.
Proof.
  unfold selected, visibleWhere. rewrite elem_of_sort_by, list_elem_of_filter, andb_true_iff.
  split; [by intros [[_ H2] H1]|]. intros [H1 H2]. split_and!; [|done|done]. rewrite (pend_scope r H2). by apply visible_same.
Qed.

Lemma selected_length d : length (selected d) = pendCount pend (rowsOf d).
Proof.
  unfold selected, pendCount, visibleWhere. rewrite sort_by_length. f_equal.
  apply list_filter_iff. intros r. rewrite andb_true_iff. split; [by intros [_ H]|]. intros H. split; [|done].
  rewrite (pend_scope r H). by apply visible_same.
Qed.

Lemma selected_NoDup d : NoDup (map key (rowsOf d)) -> NoDup (map key (selected d)).
Proof.
  intros Hnd. unfold selected. rewrite (sort_by_perm less).
  by apply NoDup_map_filter.
Qed.

(** What a batch that reports [n] rows did. *)
Definition batchOk (bs n : Z) (d d' : db) : Prop :=
  tableStep d d' /\ 0 <= n /\
  (pendCount pend (rowsOf d') + Z.to_nat n = pendCount pend (rowsOf d))%nat /\
  (n = 0 -> d' = d /\ (1 <= bs -> pendCount pend (rowsOf d) = 0%nat)).

Lemma wp_select (sel : session -> db -> list R) msg bs Q d c i fs :
  sel (MkSession s s) d = selected d ->
  (forall rows fs', quiet fs fs' -> 0 <= bs -> rows = take (Z.to_nat bs) (selected d) ->
     Q (Ok rows) (MkWorld d (MkProcess c i) fs')) ->
  (forall e fs', quiet fs fs' -> fs <> [] \/ bs < 0 -> Q (Err e) (MkWorld d (MkProcess c i) fs')) ->
  wp (Run s s (fun se =>
        rows ← wrapErr msg (query (sel se));
        limited bs rows)) Q (MkWorld d (MkProcess c i) fs).
Proof.
  intros Hsel HOk HErr. apply wp_Run; [intros; apply HErr; [done|by left]|].
  intros fs0 Hq0. apply wp_bind, wp_wrap, wp_query.
  - unfold limited. destruct (bs <? 0) eqn:E; bool_to_prop.
    + apply wp_throw. split; [oracle|]. intros gs Hgs. apply HErr; [oracle|by right].
    + apply wp_ret. split; [oracle|]. intros gs Hgs. rewrite Hsel. split; [apply HOk; [oracle|lia|done]|].
      intros Hf m. apply HErr; [oracle|by left].
  - intros Hf. split; [oracle|]. intros gs Hgs. apply HErr; [oracle|left; by eapply quiet_not_nil].
Qed.

Lemma wp_reTable (sel : session -> db -> list R) bad (Hstep : stepSpec bad) msg bs Q d c i fs :
  sel (MkSession s s) d = selected d ->
  (forall d d', tableStep d d' -> bad d' -> bad d) ->
  NoDup (map key (rowsOf d)) -> coherent kek d c ->
  (forall n d' c' fs', quiet fs fs' -> coherent kek d' c' -> batchOk bs n d d' ->
     Q (Ok n) (MkWorld d' (MkProcess c' i) fs')) ->
  (forall e d' c' fs', quiet fs fs' -> coherent kek d' c' -> tableStep d d' ->
     fs <> [] \/ bad d \/ bs < 0 -> Q (Err e) (MkWorld d' (MkProcess c' i) fs')) ->
  wp (rows ← Run s s (fun se =>
        rows ← wrapErr msg (query (sel se));
        limited bs rows);
      forM rows step ;;
      mret (Z.of_nat (length rows))) Q (MkWorld d (MkProcess c i) fs).
Proof.
  intros Hsel Hbad Hnd Hc HOk HErr. apply wp_bind, wp_select; [done| |].
  2: { intros e fs' Hq [?|?]; apply HErr; try done; [apply tableStep_refl|by left|apply tableStep_refl|by right; right]. }
  intros rows fs' Hq Hbs Hrows. apply wp_bind.
  destruct rows as [|r0 rows'] eqn:Er.
  { apply wp_ret, wp_ret, HOk; [done|done|]. split_and!; [apply tableStep_refl|done|cbn; lia|].
    intros _. split; [done|]. intros H1. rewrite <- selected_length.
    destruct (selected d); [done|]. by destruct (Z.to_nat bs) eqn:Eb; [lia|]. }
  rewrite <- Er in *. assert (Hpos : (0 < length rows)%nat) by (rewrite Er; cbn; lia). clear Er.
  assert (Hin : forall r, r ∈ rows -> r ∈ rowsOf d /\ pend r = true).
  { intros r Hr. subst rows. apply elem_of_take in Hr as (j & Hr & _).
    apply selected_in. by eapply list_elem_of_lookup_2. }
  assert (Hrn : NoDup (map key rows)).
  { rewrite Hrows, (fmap_take key). eapply sublist_NoDup; [by apply selected_NoDup|apply sublist_take]. }
  apply (wp_rows bad Hstep); try done.
  - intros d' c' fs1 Hq1 Hc' Hst Hn. apply wp_ret, HOk; [by eapply quiet_trans|done|].
    split_and!; [done|lia|lia|lia].
  - intros e d' c' fs1 Hq1 Hc' Hst Hor. apply HErr; [by eapply quiet_trans|done|done|].
    destruct Hor as [Hf|Hb]; [left; by eapply quiet_not_nil|by right; left].
Qed.
End Loop.

(** ** The tables *)

Variables (s : Scope).
#[local] Abbreviation model := EmbedderIdentity.

(** A row that blocks its batch: a reader gets no text from it. *)
Definition blocked {R} (rowsOf : db -> list R) (pend : R -> bool) (text : db -> R -> option string)
    (d : db) : Prop :=
  ~ embedder_total \/ exists r, r ∈ rowsOf d /\ pend r = true /\ text d r = None.

Lemma blocked_step {R} (pend : R -> bool) emb (text : db -> R -> option string) rowsOf setRows
    (emb_done : forall lit r, pend (emb lit r) = false)
    (text_keys : forall d d' r, scope_keys d' = scope_keys d -> text d' r = text d r)
    (set_keys : forall f d, scope_keys (setRows f d) = scope_keys d) d d' :
  tableStep pend emb text rowsOf setRows d d' ->
  blocked rowsOf pend text d' -> blocked rowsOf pend text d.
Proof.
  intros Hst [?|(r & Hr & Hp & Ht)]; [by left|right].
  pose proof (tableStep_keys pend emb text rowsOf setRows set_keys _ _ Hst) as Hk.
  destruct Hst as [_ HF]. apply list_elem_of_lookup_1 in Hr as [j Hj].
  destruct (Forall2_lookup_r _ _ _ _ _ HF Hj) as (r0 & Hr0 & [->|(_ & lit & _ & ->)]).
  - exists r0. split_and!; [by eapply list_elem_of_lookup_2|done|]. by rewrite <- (text_keys d d').
  - by rewrite emb_done in Hp.
Qed.

Lemma stale_fresh lit : staleEmbedding model (Some lit) (Some model) = false.
Proof. unfold staleEmbedding. by rewrite bool_decide_eq_false_2, bool_decide_eq_true_2. Qed.

Lemma readAll_keys d d' sc v cts :
  scope_keys d' = scope_keys d -> readAll kek d' sc v cts = readAll kek d sc v cts.
Proof. intros E. unfold readAll, keyOf. by rewrite E. Qed.

Lemma suText_keys d d' r : scope_keys d' = scope_keys d -> suText d' r = suText d r.
Proof. intros E. unfold suText. by rewrite (readAll_keys d d'). Qed.
Lemma epText_keys d d' r : scope_keys d' = scope_keys d -> epText d' r = epText d r.
Proof. intros E. unfold epText. by rewrite (readAll_keys d d'). Qed.
Lemma enText_keys d d' r : scope_keys d' = scope_keys d -> enText d' r = enText d r.
Proof. intros E. unfold enText. by rewrite (readAll_keys d d'). Qed.
Lemma faText_keys d d' r : scope_keys d' = scope_keys d -> faText d' r = faText d r.
Proof. intros E. unfold faText. by rewrite (readAll_keys d d'). Qed.

Lemma summaryPending_scope r : summaryPending s model r = true -> s_scope r = s.
Proof. unfold summaryPending. intros [_ H]%andb_true_iff. by bool_to_prop. Qed.
Lemma episodePending_scope r : episodePending s model r = true -> e_scope r = s.
Proof. unfold episodePending. intros [_ H]%andb_true_iff. by bool_to_prop. Qed.
Lemma entityPending_scope r : entityPending s model r = true -> n_scope r = s.
Proof. unfold entityPending. intros [_ H]%andb_true_iff. by bool_to_prop. Qed.
Lemma keyFactPending_scope su r : keyFactPending (MkSession s s) su s model r = true -> f_scope r = s.
Proof. unfold keyFactPending. intros [[_ H]%andb_true_iff _]%andb_true_iff. by bool_to_prop. Qed.

(** After the texts: embed, and write the literal in a transaction. *)
Lemma wp_embedAndWrite what text Q msg f d c i fs :
  (forall lit fs', quiet fs fs' -> litOf text lit ->
     Q (Ok tt) (MkWorld (f (MkSession s s) lit d) (MkProcess c i) fs')) ->
  (forall e fs', quiet fs fs' -> fs <> [] \/ ~ embedder_total -> Q (Err e) (MkWorld d (MkProcess c i) fs')) ->
  wp (lit ← embedOne what text; wrapErr msg (Run s s (fun se => exec (f se lit))))
    Q (MkWorld d (MkProcess c i) fs).
Proof.
  intros HOk HErr. apply wp_bind, wp_embedOne; [|by intros; apply HErr].
  intros lit fs1 Hq1 Hlit. apply wp_wrap, wp_Run.
  { intros m fs' Hf Hq. apply HErr; [by eapply quiet_trans|left; by eapply quiet_not_nil]. }
  intros fs2 Hq2. assert (Hq : quiet fs fs2) by by eapply quiet_trans.
  apply wp_exec.
  - split; [oracle|]. intros gs Hgs. split; [apply HOk; [oracle|done]|].
    intros Hf m. apply HErr; [oracle|left; exact (quiet_not_nil _ _ Hq1 Hf)].
  - intros Hf. split; [oracle|]. intros gs Hgs. apply HErr; [oracle|left; exact (quiet_not_nil _ _ Hq Hf)].
Qed.

Lemma step_summary :
  stepSpec (summaryPending s model) (fun lit => embSummary lit model) suText summaries set_summaries s
    (reembedSummary kek s model) (fun se rr => summaryWhere se rr.(s_id))
    (blocked summaries (summaryPending s model) suText).
Proof.
  intros rr Q d c i fs Hin Hp Hc HOk HErr. pose proof (summaryPending_scope rr Hp) as Hs.
  unfold reembedSummary. apply wp_bind, wp_wrap, wp_decryptWithRetry; [done| |].
  - intros texts c' fs1 Hq1 Hc' Hts.
    apply (wp_embedAndWrite _ _ _ _ (fun se lit => set_summaries (updateWhere (summaryWhere se rr.(s_id)) (embSummary lit model)))).
    + intros lit fs2 Hq2 Hlit. apply HOk; [by eapply quiet_trans|done|].
      intros t. unfold suText. rewrite bind_Some. intros (ts & Hr & [= <-]). rewrite Hs in Hr.
      by rewrite <- (Hts _ Hr).
    + intros e fs2 Hq2 [Hf|Hn]; apply HErr; try done; try (by eapply quiet_trans);
        [left; by eapply quiet_not_nil|by right; left].
  - intros e c' fs1 Hq1 Hc' [Hf|Hn]; apply HErr; [done|done|by left|done|done|right; right].
    exists rr. split_and!; [done|done|]. unfold suText. by rewrite Hs, Hn.
Qed.

Lemma step_episode :
  stepSpec (episodePending s model) (fun lit => embEpisode lit model) epText episodes set_episodes s
    (reembedEpisode kek s model) (fun se rr => episodeIdWhere se rr.(e_id))
    (blocked episodes (episodePending s model) epText).
Proof.
  intros rr Q d c i fs Hin Hp Hc HOk HErr. pose proof (episodePending_scope rr Hp) as Hs.
  unfold reembedEpisode. apply wp_bind, wp_wrap, wp_decryptWithRetry; [done| |].
  - intros texts c' fs1 Hq1 Hc' Hts.
    apply (wp_embedAndWrite _ _ _ _ (fun se lit => set_episodes (updateWhere (episodeIdWhere se rr.(e_id)) (embEpisode lit model)))).
    + intros lit fs2 Hq2 Hlit. apply HOk; [by eapply quiet_trans|done|].
      intros t. unfold epText. rewrite bind_Some. intros (ts & Hr & [= <-]). rewrite Hs in Hr.
      by rewrite <- (Hts _ Hr).
    + intros e fs2 Hq2 [Hf|Hn]; apply HErr; try done; try (by eapply quiet_trans);
        [left; by eapply quiet_not_nil|by right; left].
  - intros e c' fs1 Hq1 Hc' [Hf|Hn]; apply HErr; [done|done|by left|done|done|right; right].
    exists rr. split_and!; [done|done|]. unfold epText. by rewrite Hs, Hn.
Qed.

Lemma step_entity :
  stepSpec (entityPending s model) (fun lit => embEntity lit model) enText entities set_entities s
    (reembedEntity kek s model) (fun se rr => entityWhere se s rr.(n_id))
    (blocked entities (entityPending s model) enText).
Proof.
  intros rr Q d c i fs Hin Hp Hc HOk HErr. pose proof (entityPending_scope rr Hp) as Hs.
  unfold reembedEntity. apply wp_bind, wp_wrap, wp_decryptWithRetry; [done| |].
  - intros texts c' fs1 Hq1 Hc' Hts. apply wp_bind.
    assert (Hattrs : entityAttrs (text0 texts) =
      match attrsOf (text0 texts) with Some a => mret a | None => throw (ErrMsg "parse entity attributes") end).
    { unfold entityAttrs, attrsOf. by case_match. }
    rewrite Hattrs. destruct (attrsOf (text0 texts)) as [attrs|] eqn:Ea.
    + apply wp_ret. apply (wp_embedAndWrite _ _ _ _ (fun se lit => set_entities (updateWhere (entityWhere se s rr.(n_id)) (embEntity lit model)))).
      * intros lit fs2 Hq2 Hlit. apply HOk; [by eapply quiet_trans|done|].
        intros t. unfold enText. rewrite bind_Some. intros (ts & Hr & Ht). rewrite Hs in Hr.
        rewrite <- (Hts _ Hr), Ea in Ht. cbn in Ht. by injection Ht as <-.
      * intros e fs2 Hq2 [Hf|Hn]; apply HErr; try done; try (by eapply quiet_trans);
          [left; by eapply quiet_not_nil|by right; left].
    + apply wp_throw, HErr; [done|done|right; right]. exists rr. split_and!; [done|done|].
      unfold enText. rewrite Hs. destruct (readAll kek d s _ _) as [ts|] eqn:Er; [|done]. cbn.
      by rewrite <- (Hts ts eq_refl), Ea.
  - intros e c' fs1 Hq1 Hc' [Hf|Hn]; apply HErr; [done|done|by left|done|done|right; right].
    exists rr. split_and!; [done|done|]. unfold enText. by rewrite Hs, Hn.
Qed.

(** *** The three tables that embed row by row *)

Lemma wp_reSummaries bs Q d c i fs :
  db_ok d -> coherent kek d c ->
  (forall n d' c' fs', quiet fs fs' -> coherent kek d' c' ->
     batchOk (summaryPending s model) (fun lit => embSummary lit model) suText summaries set_summaries bs n d d' ->
     Q (Ok n) (MkWorld d' (MkProcess c' i) fs')) ->
  (forall e d' c' fs', quiet fs fs' -> coherent kek d' c' ->
     tableStep (summaryPending s model) (fun lit => embSummary lit model) suText summaries set_summaries d d' ->
     fs <> [] \/ blocked summaries (summaryPending s model) suText d \/ bs < 0 ->
     Q (Err e) (MkWorld d' (MkProcess c' i) fs')) ->
  wp (reembedSummaryBatch kek s model bs) Q (MkWorld d (MkProcess c i) fs).
Proof.
  intros Hok Hc HOk HErr. unfold reembedSummaryBatch.
  assert (Hdone : forall lit r, summaryPending s model (embSummary lit model r) = false).
  { intros. unfold summaryPending. cbn [embSummary s_embedding s_embedding_model]. by rewrite stale_fresh. }
  apply (wp_reTable s_id (summaryPending s model) (fun lit => embSummary lit model) suText summaries
    set_summaries s (reembedSummary kek s model) (fun se rr => summaryWhere se rr.(s_id))
    ltac:(done) Hdone
    ltac:(done) ltac:(done) ltac:(intros f g d0 E; unfold set_summaries; by rewrite E) ltac:(by intros [])
    ltac:(done) suText_keys) with (scope := s_scope) (less := fun a b => idLess a.(s_id) b.(s_id))
    (bad := blocked summaries (summaryPending s model) suText); try done.
  - intros d0 rr x Hnd Hrr Hp Hx. unfold summaryWhere. rewrite andb_true_iff, String.eqb_eq. split.
    + intros [_ E]. by eapply (NoDup_map_inj s_id).
    + intros ->. split; [|done]. rewrite (summaryPending_scope _ Hp). by apply visible_same.
  - apply summaryPending_scope.
  - apply step_summary.
  - intros d0 d1. by apply blocked_step; [|apply suText_keys|].
  - apply Hok.
Qed.

Lemma wp_reEpisodes bs Q d c i fs :
  db_ok d -> coherent kek d c ->
  (forall n d' c' fs', quiet fs fs' -> coherent kek d' c' ->
     batchOk (episodePending s model) (fun lit => embEpisode lit model) epText episodes set_episodes bs n d d' ->
     Q (Ok n) (MkWorld d' (MkProcess c' i) fs')) ->
  (forall e d' c' fs', quiet fs fs' -> coherent kek d' c' ->
     tableStep (episodePending s model) (fun lit => embEpisode lit model) epText episodes set_episodes d d' ->
     fs <> [] \/ blocked episodes (episodePending s model) epText d \/ bs < 0 ->
     Q (Err e) (MkWorld d' (MkProcess c' i) fs')) ->
  wp (reembedEpisodeBatch kek s model bs) Q (MkWorld d (MkProcess c i) fs).
Proof.
  intros Hok Hc HOk HErr. unfold reembedEpisodeBatch.
  assert (Hdone : forall lit r, episodePending s model (embEpisode lit model r) = false).
  { intros. unfold episodePending. cbn [embEpisode e_embedding e_embedding_model]. by rewrite stale_fresh, andb_false_r. }
  apply (wp_reTable e_id (episodePending s model) (fun lit => embEpisode lit model) epText episodes
    set_episodes s (reembedEpisode kek s model) (fun se rr => episodeIdWhere se rr.(e_id))
    ltac:(done) Hdone
    ltac:(done) ltac:(done) ltac:(intros f g d0 E; unfold set_episodes; by rewrite E) ltac:(by intros [])
    ltac:(done) epText_keys) with (scope := e_scope) (less := fun a b => idLess a.(e_id) b.(e_id))
    (bad := blocked episodes (episodePending s model) epText); try done.
  - intros d0 rr x Hnd Hrr Hp Hx. unfold episodeIdWhere. rewrite andb_true_iff, String.eqb_eq. split.
    + intros [_ E]. by eapply (NoDup_map_inj e_id).
    + intros ->. split; [|done]. rewrite (episodePending_scope _ Hp). by apply visible_same.
  - apply episodePending_scope.
  - apply step_episode.
  - intros d0 d1. by apply blocked_step; [|apply epText_keys|].
  - apply Hok.
Qed.

Lemma wp_reEntities bs Q d c i fs :
  db_ok d -> coherent kek d c ->
  (forall n d' c' fs', quiet fs fs' -> coherent kek d' c' ->
     batchOk (entityPending s model) (fun lit => embEntity lit model) enText entities set_entities bs n d d' ->
     Q (Ok n) (MkWorld d' (MkProcess c' i) fs')) ->
  (forall e d' c' fs', quiet fs fs' -> coherent kek d' c' ->
     tableStep (entityPending s model) (fun lit => embEntity lit model) enText entities set_entities d d' ->
     fs <> [] \/ blocked entities (entityPending s model) enText d \/ bs < 0 ->
     Q (Err e) (MkWorld d' (MkProcess c' i) fs')) ->
  wp (reembedEntityBatch kek s model bs) Q (MkWorld d (MkProcess c i) fs).
Proof.
  intros Hok Hc HOk HErr. unfold reembedEntityBatch.
  assert (Hdone : forall lit r, entityPending s model (embEntity lit model r) = false).
  { intros. unfold entityPending. cbn [embEntity n_embedding n_embedding_model]. by rewrite stale_fresh. }
  apply (wp_reTable (fun n => (n.(n_scope), n.(n_id))) (entityPending s model)
    (fun lit => embEntity lit model) enText entities
    set_entities s (reembedEntity kek s model) (fun se rr => entityWhere se s rr.(n_id))
    ltac:(done) Hdone
    ltac:(done) ltac:(done) ltac:(intros f g d0 E; unfold set_entities; by rewrite E) ltac:(by intros [])
    ltac:(done) enText_keys) with (scope := n_scope) (less := fun a b => idLess a.(n_id) b.(n_id))
    (bad := blocked entities (entityPending s model) enText); try done.
  - intros d0 rr x Hnd Hrr Hp Hx. pose proof (entityPending_scope _ Hp) as Hs. unfold entityWhere.
    rewrite !andb_true_iff, String.eqb_eq, bool_decide_eq_true. split.
    + intros (_ & E & Hsx). eapply (NoDup_map_inj (fun n => (n.(n_scope), n.(n_id)))); [done..|]. congruence.
    + intros ->. split_and!; [|done|done]. rewrite Hs. by apply visible_same.
  - apply entityPending_scope.
  - apply step_entity.
  - intros d0 d1. by apply blocked_step; [|apply enText_keys|].
  - apply Hok.
Qed.
End Proofs.
