(* ===== verification/ReembedLife.v ===== *)
(** * ReembedLife: the key-fact batch, Continue, and re-embedding a scope

    The key facts of a batch are embedded in one request and written in one
    transaction.  [Continue] composes the four batches; the driver loop repeats
    it until nothing is pending. *)

From stdpp Require Import gmap.
From S2P Require Import Prelude Identity Schema Db KeyStore Rotate Utf8 Float Text Embed Reembed.
From S2P Require Import ReembedFacts ReembedProofs.
#[local] Open Scope string_scope.
#[local] Open Scope list_scope.
#[local] Open Scope Z_scope.

Section Life.
Context `{HA : AEAD, EM : Embedder, FF : FloatFormat}.
Variable kek : string.
Variables (s : Scope).
#[local] Abbreviation model := EmbedderIdentity.
#[local] Abbreviation se := (MkSession s s).

(** ** Key facts *)

Definition factPend (d : db) (r : KeyFactRow) : bool := keyFactPending se d.(summaries) s model r.

(** The truncated texts of the facts, in order. *)
Definition textsFor (d : db) (rows : list KeyFactRow) (texts : list string) : Prop :=
  Forall2 (fun r tt => forall t, faText kek d r = Some t -> TruncateForEmbedding t = Some tt) rows texts.

Lemma wp_factTexts rows Q d c i fs :
  (forall r, r ∈ rows -> f_scope r = s) -> coherent kek d c ->
  (forall texts c' fs', quiet fs fs' -> coherent kek d c' -> textsFor d rows texts ->
     Q (Ok texts) (MkWorld d (MkProcess c' i) fs')) ->
  (forall e c' fs', quiet fs fs' -> coherent kek d c' ->
     fs <> [] \/ (exists r, r ∈ rows /\ faText kek d r = None) ->
     Q (Err e) (MkWorld d (MkProcess c' i) fs')) ->
  wp (factTexts kek s rows) Q (MkWorld d (MkProcess c i) fs).
Proof.
  revert Q c fs. induction rows as [|rr rows IH]; intros Q c fs Hs Hc HOk HErr; cbn [factTexts].
  { apply wp_ret, HOk; [oracle|done|constructor]. }
  assert (Hrs : f_scope rr = s) by (apply Hs; by left).
  apply wp_bind, wp_wrap, wp_decryptWithRetry; [done| |].
  - intros ts c1 fs1 Hq1 Hc1 Hts. apply wp_bind, wp_truncatedInput. intros tt Htt.
    apply wp_bind, IH; [intros; apply Hs; by right|done| |].
    + intros texts c2 fs2 Hq2 Hc2 Hall. apply wp_ret, HOk; [by eapply quiet_trans|done|].
      constructor; [|done]. intros t. unfold faText. rewrite bind_Some. intros (ts' & Hr & [= <-]).
      rewrite Hrs in Hr. by rewrite <- (Hts _ Hr).
    + intros e c2 fs2 Hq2 Hc2 Hor. apply HErr; [by eapply quiet_trans|done|].
      destruct Hor as [Hf|(r & Hr & Hn)]; [left; exact (quiet_not_nil _ _ Hq1 Hf)|].
      right. exists r. split; [by right|done].
  - intros e c1 fs1 Hq1 Hc1 [Hf|Hn]; apply HErr; [done|done|by left|done|done|right].
    exists rr. split; [by left|]. unfold faText. by rewrite Hrs, Hn.
Qed.

#[local] Abbreviation factStep d0 :=
  (tableStep (factPend d0) (fun lit => embKeyFact lit model) (faText kek) key_facts set_key_facts).

Lemma fact_done d0 lit r : factPend d0 (embKeyFact lit model r) = false.
Proof.
  unfold factPend, keyFactPending. cbn [embKeyFact f_embedding f_embedding_model].
  by rewrite stale_fresh, andb_false_r.
Qed.

Lemma set_facts_ext f g d : f (key_facts d) = g (key_facts d) -> set_key_facts f d = set_key_facts g d.
Proof. intros E. unfold set_key_facts. by rewrite E. Qed.

Lemma fact_cond d0 d rr x :
  NoDup (map f_id (key_facts d)) -> rr ∈ key_facts d -> factPend d0 rr = true ->
  x ∈ key_facts d -> keyFactWhere se rr.(f_id) x = true <-> x = rr.
Proof.
  intros Hnd Hrr Hp Hx. unfold keyFactWhere. rewrite andb_true_iff, Z.eqb_eq. split.
  - intros [_ E]. by eapply (NoDup_map_inj f_id).
  - intros ->. split; [|done]. rewrite (keyFactPending_scope s _ _ Hp). by apply visible_same.
Qed.

(** Writing the vectors of a batch, one statement per fact. *)
Lemma wp_writeFacts pairs Q d0 c i fs :
  NoDup (map f_id (key_facts d0)) -> coherent kek d0 c ->
  NoDup (map f_id pairs.*1) ->
  (forall r, r ∈ pairs.*1 -> r ∈ key_facts d0 /\ factPend d0 r = true) ->
  (forall r v, (r, v) ∈ pairs -> goodLit (faText kek d0) r (VectorLiteral v)) ->
  (forall d fs', quiet fs fs' -> coherent kek d c -> factStep d0 d0 d ->
     (pendCount (factPend d0) (key_facts d) + length pairs = pendCount (factPend d0) (key_facts d0))%nat ->
     Q (Ok tt) (MkWorld d (MkProcess c i) fs')) ->
  (forall e d fs', quiet fs fs' -> fs <> [] -> Q (Err e) (MkWorld d (MkProcess c i) fs')) ->
  wp (forM pairs (fun rv => wrapErr "write embedding for key fact"
        (exec (set_key_facts (updateWhere (keyFactWhere se rv.1.(f_id)) (embKeyFact (VectorLiteral rv.2) model))))))
    Q (MkWorld d0 (MkProcess c i) fs).
Proof.
  intros Hnd Hc Hpn Hin Hgood HOk HErr.
  eapply (wp_forM pairs _
    (fun todo w => loopInv kek f_id (factPend d0) (fun lit => embKeyFact lit model) (faText kek)
       key_facts set_key_facts d0 (length pairs) fs todo.*1 w /\
       w.(w_proc) = MkProcess c i /\ (forall rv, rv ∈ todo -> rv ∈ pairs))
    (fun e w => exists d fs', w = MkWorld d (MkProcess c i) fs' /\ quiet fs fs' /\ fs <> [])).
  - split_and!; [|done|done]. exists d0, c, i, fs. split_and!; [done|oracle|done| |done|done|].
    + apply tableStep_refl; [apply set_facts_ext|by intros []].
    + by rewrite length_fmap.
  - intros [rr v] todo w1 (Hinv & Hp & Hsub). cbn [fmap list_fmap fst] in Hinv.
    pose proof Hinv as (d & c1 & i1 & fs1 & -> & Hq & Hc1 & Hst & _). cbn in Hp. injection Hp as -> ->.
    apply wp_wrap, wp_exec.
    + split_and!; [|done|intros; apply Hsub; by right].
      apply (loopInv_step kek f_id (factPend d0) (fun lit => embKeyFact lit model) (faText kek) key_facts
        set_key_facts s (fun se rr => keyFactWhere se rr.(f_id))
        ltac:(done) (fact_done d0) ltac:(done) ltac:(done) set_facts_ext ltac:(done) (faText_keys kek)
        (fact_cond d0) d0 (length pairs) fs rr todo.*1 d c c i fs1 (tail fs1) (VectorLiteral v) Hnd Hinv);
        [|oracle|done].
      intros t Ht. apply (Hgood rr v); [apply Hsub; by left|].
      rewrite <- (faText_keys kek d0 d); [done|].
      by eapply tableStep_keys; [|exact Hst].
    + intros Hf. exists d, (tail fs1). split_and!; [done|oracle|exact (quiet_not_nil _ _ Hq Hf)].
  - intros w' ((d & c' & i' & fs' & -> & Hq & Hc' & Hst & _ & _ & Hn) & Hp & _). cbn in Hp.
    injection Hp as -> ->. apply HOk; try done. cbn in Hn. lia.
  - intros e w' (d & fs' & -> & Hq & Hf). by apply HErr.
Qed.

#[local] Abbreviation factBatchOk d0 :=
  (batchOk (factPend d0) (fun lit => embKeyFact lit model) (faText kek) key_facts set_key_facts).
#[local] Abbreviation factsBlocked d := (blocked key_facts (factPend d) (faText kek) d).

Lemma factStep_refl d0 d : factStep d0 d d.
Proof. apply tableStep_refl; [apply set_facts_ext|by intros []]. Qed.

(** One vector per fact, each that of the fact's text. *)
Lemma zip_good d rows texts vectors :
  textsFor d rows texts -> EmbedAnswer texts = Some vectors -> length vectors = length rows ->
  forall r v, (r, v) ∈ zip rows vectors -> goodLit (faText kek d) r (VectorLiteral v).
Proof.
  intros HF Hans Hlen r v Hrv t Ht. apply list_elem_of_lookup_1 in Hrv as [j Hj].
  apply lookup_zip_Some in Hj as [Hr Hv].
  destruct (Forall2_lookup_l _ _ _ _ _ HF Hr) as (tt & Htt & Hspec).
  exists texts, vectors, j, tt, v. by split_and!; [apply Hspec|..].
Qed.

Lemma wp_keyFactBatch bs Q d c i fs :
  db_ok d -> coherent kek d c ->
  (forall n d' c' fs', quiet fs fs' -> coherent kek d' c' -> factBatchOk d bs n d d' ->
     Q (Ok n) (MkWorld d' (MkProcess c' i) fs')) ->
  (forall e c' fs', quiet fs fs' -> coherent kek d c' ->
     fs <> [] \/ factsBlocked d \/ bs < 0 -> Q (Err e) (MkWorld d (MkProcess c' i) fs')) ->
  wp (reembedKeyFactBatch kek s model bs) Q (MkWorld d (MkProcess c i) fs).
Proof.
  intros Hok Hc HOk HErr. unfold reembedKeyFactBatch. apply wp_bind.
  set (less := fun a b : KeyFactRow => f_id a <? f_id b).
  set (sel := selected (factPend d) key_facts s f_scope less d).
  assert (Hps : forall r, factPend d r = true -> f_scope r = s) by apply keyFactPending_scope.
  apply (wp_select (factPend d) key_facts s f_scope less); [done| |].
  2: { intros e fs' Hq [?|?]; apply HErr; try done; [by left|by right; right]. }
  intros rows fs1 Hq1 Hbs Hrows. fold sel in Hrows.
  destruct (Nat.eqb (length rows) 0) eqn:E0.
  { apply Nat.eqb_eq in E0. apply wp_ret, HOk; [done|done|].
    split_and!; [apply factStep_refl|done|lia|]. intros _. split; [done|]. intros H1.
    rewrite <- (selected_length (factPend d) key_facts s f_scope less Hps d). fold sel.
    rewrite Hrows, length_take in E0. lia. }
  apply Nat.eqb_neq in E0.
  assert (Hin : forall r, r ∈ rows -> r ∈ key_facts d /\ factPend d r = true).
  { intros r Hr. rewrite Hrows in Hr. apply elem_of_take in Hr as (j & Hr & _).
    apply (selected_in (factPend d) key_facts s f_scope less Hps). by eapply list_elem_of_lookup_2. }
  assert (Hrn : NoDup (map f_id rows)).
  { rewrite Hrows, (fmap_take f_id). eapply sublist_NoDup; [|apply sublist_take].
    apply (selected_NoDup f_id), Hok. }
  apply wp_bind, wp_factTexts; [intros r Hr; by apply Hps, Hin|done| |].
  2: { intros e c' fs' Hq' Hc' [Hf|(r & Hr & Hn)]; apply HErr; try done; try (by eapply quiet_trans).
       - left; exact (quiet_not_nil _ _ Hq1 Hf).
       - right; left; right. exists r. destruct (Hin r Hr). done. }
  intros texts c2 fs2 Hq2 Hc2 Htexts.
  assert (Hq : quiet fs fs2) by by eapply quiet_trans.
  pose proof (Forall2_length _ _ _ Htexts) as Hlt.
  apply wp_bind, wp_wrap, wp_Embed.
  2: { intros e Hor. apply HErr; [oracle|done|]. destruct Hor as [Hf|Hn]; [left; exact (quiet_not_nil _ _ Hq Hf)|].
       right; left; left. intros Htot. destruct (Htot texts) as (vs & Ev & _); [by destruct texts|congruence]. }
  intros vectors Hans. destruct (Nat.eqb (length vectors) (length rows)) eqn:El; cbn [negb].
  2: { apply wp_throw, HErr; [oracle|done|]. right; left; left. intros Htot.
       destruct (Htot texts) as (vs & Ev & Hl); [by destruct texts|].
       apply Nat.eqb_neq in El. congruence. }
  apply Nat.eqb_eq in El.
  assert (Hz : (zip rows vectors).*1 = rows) by (apply fst_zip; lia).
  apply wp_bind, wp_Run.
  { intros m fs' Hf Hqf. apply HErr; [oracle|done|left; destruct fs2; oracle]. }
  intros fs4 Hq4. apply wp_writeFacts; [apply Hok|done|by rewrite Hz|by rewrite Hz| | |].
  - by eapply zip_good.
  - intros d' fs5 Hq5 Hc5 Hst Hn. split; [oracle|]. intros gs Hgs. split.
    + apply wp_ret, HOk; [oracle| |].
      * apply (coherent_keys kek d); [|done]. by eapply tableStep_keys; [|exact Hst].
      * rewrite length_zip_with in Hn. cbn [w_db]. split_and!; [done|lia| |lia].
        rewrite El, Nat.min_id in Hn. by rewrite Nat2Z.id.
    + intros Hf m. apply HErr; [oracle|done|]. left. destruct fs2; oracle.
  - intros e d' fs5 Hq5 Hf. split; [oracle|]. intros gs Hgs. apply HErr; [oracle|done|].
    left. destruct fs2; oracle.
Qed.

(** ** The whole database *)

(** Rows of the scope that needed a vector may have got theirs; nothing else
    changed. *)
Record embRel (d d' : db) : Prop := {
  em_su : Forall2 (embStep (summaryPending s model) (fun lit => embSummary lit model)
            (goodLit (suText kek d))) d.(summaries) d'.(summaries);
  em_ep : Forall2 (embStep (episodePending s model) (fun lit => embEpisode lit model)
            (goodLit (epText kek d))) d.(episodes) d'.(episodes);
  em_en : Forall2 (embStep (entityPending s model) (fun lit => embEntity lit model)
            (goodLit (enText kek d))) d.(entities) d'.(entities);
  em_fa : Forall2 (embStep (factPend d) (fun lit => embKeyFact lit model)
            (goodLit (faText kek d))) d.(key_facts) d'.(key_facts);
  em_keys : d'.(scope_keys) = d.(scope_keys);
  em_rot : d'.(key_rotations) = d.(key_rotations)
}.

Lemma Forall2_diag {R} (S : R -> R -> Prop) l : (forall r, S r r) -> Forall2 S l l.
Proof. intros H. induction l; by constructor. Qed.

Lemma embSteps_refl {R} pend emb good (l : list R) : Forall2 (embStep pend emb good) l l.
Proof. apply Forall2_diag. intros r. by left. Qed.

Lemma embRel_refl d : embRel d d.
Proof. split; (apply embSteps_refl || done). Qed.

Lemma superseded_step l l' good id :
  Forall2 (embStep (summaryPending s model) (fun lit => embSummary lit model) good) l l' ->
  superseded se l' id = superseded se l id.
Proof.
  unfold superseded. induction 1 as [|r r' l l' [->|(_ & lit & _ & ->)] _ IH]; cbn; [done|by rewrite IH|].
  by rewrite IH.
Qed.

Lemma factPend_step d d' r : embRel d d' -> factPend d' r = factPend d r.
Proof.
  intros H. unfold factPend, keyFactPending. by rewrite (superseded_step _ _ _ _ (em_su _ _ H)).
Qed.

Lemma embSteps_trans {R} pend pend' emb (text text' : R -> option string) l1 l2 l3
    (emb_done : forall lit r, pend (emb lit r) = false) :
  (forall r, pend' r = pend r) -> (forall r, text' r = text r) ->
  Forall2 (embStep pend emb (goodLit text)) l1 l2 ->
  Forall2 (embStep pend' emb (goodLit text')) l2 l3 ->
  Forall2 (embStep pend emb (goodLit text)) l1 l3.
Proof.
  intros Hp Ht H12 H23. eapply Forall2_trans; [|exact H12|].
  { intros a b c. by apply (embStep_trans pend emb). }
  eapply Forall2_impl; [exact H23|]. intros a b [->|(Hpa & lit & Hg & ->)]; [by left|right].
  split; [by rewrite <- Hp|]. exists lit. split; [|done]. intros t. rewrite <- Ht. apply Hg.
Qed.

Lemma su_done lit r : summaryPending s model (embSummary lit model r) = false.
Proof. unfold summaryPending. cbn [embSummary s_embedding s_embedding_model]. by rewrite stale_fresh. Qed.
Lemma ep_done lit r : episodePending s model (embEpisode lit model r) = false.
Proof. unfold episodePending. cbn [embEpisode e_embedding e_embedding_model]. by rewrite stale_fresh, andb_false_r. Qed.
Lemma en_done lit r : entityPending s model (embEntity lit model r) = false.
Proof. unfold entityPending. cbn [embEntity n_embedding n_embedding_model]. by rewrite stale_fresh. Qed.

Lemma embRel_trans d1 d2 d3 : embRel d1 d2 -> embRel d2 d3 -> embRel d1 d3.
Proof.
  intros H12 H23. pose proof (em_keys _ _ H12) as Hk. split.
  - eapply embSteps_trans; [apply su_done|done| |apply H12|apply H23]. intros. by apply suText_keys.
  - eapply embSteps_trans; [apply ep_done|done| |apply H12|apply H23]. intros. by apply epText_keys.
  - eapply embSteps_trans; [apply en_done|done| |apply H12|apply H23]. intros. by apply enText_keys.
  - eapply embSteps_trans; [apply fact_done| | |apply H12|apply H23].
    + intros. by apply factPend_step.
    + intros. by apply faText_keys.
  - by rewrite (em_keys _ _ H23).
  - by rewrite (em_rot _ _ H23), (em_rot _ _ H12).
Qed.

Lemma embRel_ok d d' : embRel d d' -> db_ok d -> db_ok d'.
Proof.
  intros H Hok. split.
  - rewrite (embSteps_keys e_id _ (fun lit => embEpisode lit model) _ ltac:(done) _ _ (em_ep _ _ H)). apply Hok.
  - rewrite (embSteps_keys s_id _ (fun lit => embSummary lit model) _ ltac:(done) _ _ (em_su _ _ H)). apply Hok.
  - rewrite (embSteps_keys f_id _ (fun lit => embKeyFact lit model) _ ltac:(done) _ _ (em_fa _ _ H)). apply Hok.
  - rewrite (embSteps_keys (fun n => (n.(n_scope), n.(n_id))) _ (fun lit => embEntity lit model) _ ltac:(done) _ _ (em_en _ _ H)). apply Hok.
  - intros f' Hf. apply list_elem_of_lookup_1 in Hf as [j Hj].
    destruct (Forall2_lookup_r _ _ _ _ _ (em_fa _ _ H) Hj) as (f & Hf & Hst).
    assert (Ef : f_summary_id f' = f_summary_id f /\ f_scope f' = f_scope f)
      by (destruct Hst as [->|(_ & lit & _ & ->)]; done).
    destruct (ok_fact_parent d Hok f) as (p & Hp & E1 & E2); [by eapply list_elem_of_lookup_2|].
    apply list_elem_of_lookup_1 in Hp as [k Hk].
    destruct (Forall2_lookup_l _ _ _ _ _ (em_su _ _ H) Hk) as (p' & Hp' & Hstp).
    assert (Ep : s_id p' = s_id p /\ s_scope p' = s_scope p)
      by (destruct Hstp as [->|(_ & lit & _ & ->)]; done).
    exists p'. split; [by eapply list_elem_of_lookup_2|]. destruct Ef, Ep. split; congruence.
Qed.

(** ** How much is left *)

Definition pendAll (d : db) : nat :=
  (pendCount (summaryPending s model) d.(summaries) + pendCount (episodePending s model) d.(episodes) +
   pendCount (entityPending s model) d.(entities) + pendCount (factPend d) d.(key_facts))%nat.

Lemma pendCount_ext {R} (p q : R -> bool) l : (forall r, p r = q r) -> pendCount p l = pendCount q l.
Proof. intros H. unfold pendCount. f_equal. apply list_filter_iff. intros r. by rewrite H. Qed.

(** A pending row of the scope that no reader gets a text from. *)
Definition blockedAny (d : db) : Prop :=
  blocked summaries (summaryPending s model) (suText kek) d \/
  blocked episodes (episodePending s model) (epText kek) d \/
  blocked entities (entityPending s model) (enText kek) d \/
  factsBlocked d.

(** The rows one table's step leaves alone. *)
Lemma embRel_su d d' :
  tableStep (summaryPending s model) (fun lit => embSummary lit model) (suText kek) summaries set_summaries d d' ->
  embRel d d' /\ d'.(audit_log) = d.(audit_log) /\
  (pendAll d' + pendCount (summaryPending s model) d.(summaries) =
   pendAll d + pendCount (summaryPending s model) d'.(summaries))%nat.
Proof.
  intros [E F]. assert (H : embRel d d').
  { rewrite E. split; cbn; (exact F || apply embSteps_refl || done). }
  split; [done|]. split; [by rewrite E|]. unfold pendAll.
  rewrite (pendCount_ext (factPend d') (factPend d)) by (intros; by apply factPend_step).
  rewrite E at 2 3 4. cbn [set_summaries episodes entities key_facts]. lia.
Qed.

Lemma embRel_ep d d' :
  tableStep (episodePending s model) (fun lit => embEpisode lit model) (epText kek) episodes set_episodes d d' ->
  embRel d d' /\ d'.(audit_log) = d.(audit_log) /\
  (pendAll d' + pendCount (episodePending s model) d.(episodes) =
   pendAll d + pendCount (episodePending s model) d'.(episodes))%nat.
Proof.
  intros [E F]. split.
  { rewrite E. split; cbn; (exact F || apply embSteps_refl || done). }
  split; [by rewrite E|]. rewrite E at 1. unfold pendAll, factPend. cbn [set_episodes summaries episodes entities key_facts]. lia.
Qed.

Lemma embRel_en d d' :
  tableStep (entityPending s model) (fun lit => embEntity lit model) (enText kek) entities set_entities d d' ->
  embRel d d' /\ d'.(audit_log) = d.(audit_log) /\
  (pendAll d' + pendCount (entityPending s model) d.(entities) =
   pendAll d + pendCount (entityPending s model) d'.(entities))%nat.
Proof.
  intros [E F]. split.
  { rewrite E. split; cbn; (exact F || apply embSteps_refl || done). }
  split; [by rewrite E|]. rewrite E at 1. unfold pendAll, factPend. cbn [set_entities summaries episodes entities key_facts]. lia.
Qed.

Lemma embRel_fa d d' :
  factStep d d d' ->
  embRel d d' /\ d'.(audit_log) = d.(audit_log) /\
  (pendAll d' + pendCount (factPend d) d.(key_facts) =
   pendAll d + pendCount (factPend d) d'.(key_facts))%nat.
Proof.
  intros [E F]. split.
  { rewrite E. split; cbn; (exact F || apply embSteps_refl || done). }
  split; [by rewrite E|]. rewrite E at 1. unfold pendAll, factPend. cbn [set_key_facts summaries episodes entities key_facts]. lia.
Qed.

(** ** Continue *)

(** What a call that processed [n] rows did. *)
Definition continued (bs n : Z) (d d' : db) : Prop :=
  embRel d d' /\ d'.(audit_log) = d.(audit_log) /\ 0 <= n /\
  (pendAll d' + Z.to_nat n = pendAll d)%nat /\
  (n = 0 -> d' = d /\ (1 <= bs -> pendAll d = 0%nat)).

Lemma wp_reContinue bs Q d c i fs :
  db_ok d -> coherent kek d c ->
  (forall n table done d' c' fs', quiet fs fs' -> coherent kek d' c' -> continued bs n d d' ->
     (done = true <-> n = 0) -> Q (Ok (n, table, done)) (MkWorld d' (MkProcess c' i) fs')) ->
  (forall e d' c' fs', quiet fs fs' -> coherent kek d' c' -> embRel d d' -> d'.(audit_log) = d.(audit_log) ->
     fs <> [] \/ blockedAny d \/ bs < 0 -> Q (Err e) (MkWorld d' (MkProcess c' i) fs')) ->
  wp (Continue kek s bs) Q (MkWorld d (MkProcess c i) fs).
Proof.
  intros Hok Hc HOk HErr. unfold Continue.
  assert (Hmore : forall n table d' c' fs', quiet fs fs' -> coherent kek d' c' -> embRel d d' ->
    d'.(audit_log) = d.(audit_log) -> (pendAll d' + Z.to_nat n = pendAll d)%nat -> 0 < n ->
    Q (Ok (n, table, false)) (MkWorld d' (MkProcess c' i) fs')).
  { intros. apply HOk; [done|done| |split; [done|lia]]. split_and!; try done; lia. }
  apply wp_bind, wp_wrap, wp_reSummaries; [done|done| |].
  2: { intros e d' c' fs' Hq Hc' Hst Hor. apply embRel_su in Hst as (H1 & H2 & _).
       apply HErr; try done. destruct Hor as [?|[?|?]]; unfold blockedAny; tauto. }
  intros n1 d1 c1 fs1 Hq1 Hc1 (Hst1 & Hn1 & Hp1 & Hz1).
  destruct (n1 >? 0) eqn:E1.
  { apply Z.gtb_lt in E1. apply wp_ret. apply embRel_su in Hst1 as (H1 & H2 & H3). apply Hmore; try done. lia. }
  assert (n1 = 0) as -> by (rewrite Z.gtb_ltb in E1; bool_to_prop; lia).
  destruct (Hz1 eq_refl) as [-> Hzero1].
  apply wp_bind, wp_wrap, wp_reEpisodes; [done|done| |].
  2: { intros e d' c' fs' Hq Hc' Hst Hor. apply embRel_ep in Hst as (H1 & H2 & _).
       apply HErr; try done; [by eapply quiet_trans|].
       destruct Hor as [?|[?|?]]; [left; exact (quiet_not_nil _ _ Hq1 H)|unfold blockedAny; tauto..]. }
  intros n2 d2 c2 fs2 Hq2' Hc2 (Hst2 & Hn2 & Hp2 & Hz2).
  assert (Hq2 : quiet fs fs2) by by eapply quiet_trans.
  destruct (n2 >? 0) eqn:E2.
  { apply Z.gtb_lt in E2. apply wp_ret. apply embRel_ep in Hst2 as (H1 & H2 & H3). apply Hmore; try done. lia. }
  assert (n2 = 0) as -> by (rewrite Z.gtb_ltb in E2; bool_to_prop; lia).
  destruct (Hz2 eq_refl) as [-> Hzero2].
  apply wp_bind, wp_wrap, wp_reEntities; [done|done| |].
  2: { intros e d' c' fs' Hq Hc' Hst Hor. apply embRel_en in Hst as (H1 & H2 & _).
       apply HErr; try done; [by eapply quiet_trans|].
       destruct Hor as [?|[?|?]]; [left; exact (quiet_not_nil _ _ Hq2 H)|unfold blockedAny; tauto..]. }
  intros n3 d3 c3 fs3 Hq3' Hc3 (Hst3 & Hn3 & Hp3 & Hz3).
  assert (Hq3 : quiet fs fs3) by by eapply quiet_trans.
  destruct (n3 >? 0) eqn:E3.
  { apply Z.gtb_lt in E3. apply wp_ret. apply embRel_en in Hst3 as (H1 & H2 & H3). apply Hmore; try done. lia. }
  assert (n3 = 0) as -> by (rewrite Z.gtb_ltb in E3; bool_to_prop; lia).
  destruct (Hz3 eq_refl) as [-> Hzero3].
  apply wp_bind, wp_wrap, wp_keyFactBatch; [done|done| |].
  2: { intros e c' fs' Hq Hc' Hor. apply HErr; [by eapply quiet_trans|done|apply embRel_refl|done|].
       destruct Hor as [?|[?|?]]; [left; exact (quiet_not_nil _ _ Hq3 H)|unfold blockedAny; tauto..]. }
  intros n4 d4 c4 fs4 Hq4' Hc4 (Hst4 & Hn4 & Hp4 & Hz4).
  assert (Hq4 : quiet fs fs4) by by eapply quiet_trans.
  destruct (n4 >? 0) eqn:E4.
  { apply Z.gtb_lt in E4. apply wp_ret. apply embRel_fa in Hst4 as (H1 & H2 & H3). apply Hmore; try done. lia. }
  assert (n4 = 0) as -> by (rewrite Z.gtb_ltb in E4; bool_to_prop; lia).
  destruct (Hz4 eq_refl) as [-> Hzero4].
  apply wp_ret, HOk; [done|done| |done].
  split_and!; [apply embRel_refl|done|done|cbn; lia|].
  intros _. split; [done|]. intros Hbs. unfold pendAll.
  rewrite Hzero1, Hzero2, Hzero3, Hzero4 by done. done.
Qed.

(** ** The driver loop *)

Definition logEntry (actor : string) (n : Z) : AuditEntry :=
  {| EventType := "reembed"; Actor := actor; ActingScope := s; WorkspaceScope := s;
     TargetRef := None;
     Detail := [("rows_reembedded", JInt n); ("model", JString model)] |}.

Lemma blockedAny_step d d' : embRel d d' -> blockedAny d' -> blockedAny d.
Proof.
  intros H. unfold blockedAny, blocked. pose proof (em_keys _ _ H) as Hk.
  assert (Hback : forall R (pend pend' : R -> bool) emb (text text' : R -> option string) l l',
    (forall lit r, pend (emb lit r) = false) -> (forall r, pend' r = pend r) -> (forall r, text' r = text r) ->
    Forall2 (embStep pend emb (goodLit text)) l l' ->
    (exists r, r ∈ l' /\ pend' r = true /\ text' r = None) -> exists r, r ∈ l /\ pend r = true /\ text r = None).
  { intros R pend pend' emb text text' l l' Hd Hp Ht HF (r & Hr & Hpr & Htr).
    rewrite Hp in Hpr. rewrite Ht in Htr. apply list_elem_of_lookup_1 in Hr as [j Hj].
    destruct (Forall2_lookup_r _ _ _ _ _ HF Hj) as (r0 & Hr0 & [->|(_ & lit & _ & ->)]);
      [|by rewrite Hd in Hpr]. exists r0. split_and!; [by eapply list_elem_of_lookup_2|done|done]. }
  intros [[?|Hb]|[[?|Hb]|[[?|Hb]|[?|Hb]]]].
  - tauto.
  - left; right. eapply Hback; [apply su_done|done| |apply H|exact Hb]. intros; by apply suText_keys.
  - tauto.
  - right; left; right. eapply Hback; [apply ep_done|done| |apply H|exact Hb]. intros; by apply epText_keys.
  - tauto.
  - right; right; left; right. eapply Hback; [apply en_done|done| |apply H|exact Hb]. intros; by apply enText_keys.
  - tauto.
  - right; right; right; right. eapply Hback; [apply fact_done| | |apply H|exact Hb].
    + intros; by apply factPend_step.
    + intros; by apply faText_keys.
Qed.

Lemma wp_LogRun actor n Q d c i :
  (Q (Ok tt) (MkWorld (set_audit_log (fun l => l ++ [logEntry actor n]) d) (MkProcess c i) [])) ->
  wp (LogRun s actor n) Q (MkWorld d (MkProcess c i) []).
Proof.
  intros HQ. unfold LogRun. apply wp_Run; [done|]. intros fs' Hq.
  unfold Write. cbn [ActingScope WorkspaceScope acting workspace].
  rewrite bool_decide_eq_true_2 by done. cbn [andb].
  rewrite (Hq eq_refl). apply wp_wrap, wp_exec; [|done]. cbn.
  split; [oracle|]. intros gs Hgs. rewrite (Hgs eq_refl). by split.
Qed.

Lemma embRel_audit f d d' : embRel d d' -> embRel d (set_audit_log f d').
Proof. by intros []. Qed.

(** With no faults and nothing blocked, the loop ends with nothing pending, the
    number of rows it reports being what was pending, every batch audited. *)
Lemma wp_reembedAll fuel actor bs total Q d c i :
  db_ok d -> coherent kek d c -> ~ blockedAny d -> 1 <= bs -> (pendAll d < fuel)%nat ->
  (forall d' c' ns, coherent kek d' c' -> embRel d d' -> pendAll d' = 0%nat ->
     d'.(audit_log) = d.(audit_log) ++ map (logEntry actor) ns -> Forall (fun n => 0 < n) ns ->
     foldr Z.add 0 ns = Z.of_nat (pendAll d) ->
     Q (Ok (Some (total + Z.of_nat (pendAll d)))) (MkWorld d' (MkProcess c' i) [])) ->
  wp (reembedAll kek fuel s actor bs total) Q (MkWorld d (MkProcess c i) []).
Proof.
  intros Hok Hc Hnb Hbs. revert d c total Q Hok Hc Hnb.
  induction fuel as [|fuel IH]; intros d c total Q Hok Hc Hnb Hfuel HQ; [lia|]. cbn [reembedAll].
  apply wp_bind, wp_reContinue; [done|done| |].
  2: { intros e d' c' fs' _ _ _ _ [?|[?|?]]; [done|done|lia]. }
  intros n table dn d' c' fs' Hq Hc' (Hrel & Hau & Hn & Hp & Hz) Hdone.
  rewrite (Hq eq_refl). destruct (0 <? n) eqn:En; bool_to_prop.
  - apply wp_bind, wp_wrap, wp_LogRun. destruct dn; [destruct Hdone; lia|].
    set (d1 := set_audit_log _ d').
    assert (Hrel1 : embRel d d1) by by apply embRel_audit.
    apply IH; [by eapply embRel_ok|done| | |].
    + intros Hb. apply Hnb. by eapply blockedAny_step.
    + change (pendAll d1) with (pendAll d'). lia.
    + intros d2 c2 ns Hc2 Hrel2 Hp2 Hau2 Hpos Hsum. change (pendAll d1) with (pendAll d') in *.
      replace (total + n + Z.of_nat (pendAll d')) with (total + Z.of_nat (pendAll d)) by lia.
      apply (HQ d2 c2 (n :: ns)); [done|by eapply embRel_trans|done| |by constructor|cbn; lia].
      rewrite Hau2. unfold d1. cbn. rewrite Hau, <- app_assoc. done.
  - assert (n = 0) as -> by lia. destruct (Hz eq_refl) as [-> Hpend].
    assert (H0 : pendAll d = 0%nat) by by apply Hpend. rewrite H0 in HQ.
    apply wp_bind, wp_ret. destruct dn; [|by pose proof (proj2 Hdone eq_refl)].
    apply wp_ret. replace (total + 0) with (total + Z.of_nat 0) by lia.
    apply (HQ d c' []); [done|apply embRel_refl|done|by rewrite app_nil_r|done|done].
Qed.
End Life.

(** ** Properties *)

Section Claims.
Context `{HA : AEAD, EM : Embedder, FF : FloatFormat}.
Variable kek : string.

Lemma wp_reStatus s Q d c i fs :
  (forall st fs', quiet fs fs' ->
     st.(SummariesPending) = Z.of_nat (pendCount (summaryPending s EmbedderIdentity) d.(summaries)) ->
     st.(EpisodesPending) = Z.of_nat (pendCount (episodePending s EmbedderIdentity) d.(episodes)) ->
     st.(EntitiesPending) = Z.of_nat (pendCount (entityPending s EmbedderIdentity) d.(entities)) ->
     st.(KeyFactsPending) = Z.of_nat (pendCount (factPend s d) d.(key_facts)) ->
     Q (Ok st) (MkWorld d (MkProcess c i) fs')) ->
  (forall e fs', quiet fs fs' -> fs <> [] -> Q (Err e) (MkWorld d (MkProcess c i) fs')) ->
  wp (Status s) Q (MkWorld d (MkProcess c i) fs).
Proof.
  assert (Hcount : forall R (scope : R -> Scope) pend l, (forall r, pend r = true -> scope r = s) ->
    countWhere (MkSession s s) scope pend l = Z.of_nat (pendCount pend l)).
  { intros R scope pend l Hs. unfold countWhere, visibleWhere, pendCount. do 2 f_equal.
    apply list_filter_iff. intros r. rewrite andb_true_iff. split; [by intros []|].
    intros Hp. split; [|done]. rewrite (Hs r Hp). by apply visible_same. }
  intros HOk HErr. unfold Status. apply wp_Run; [by intros; apply HErr|].
  intros fs0 Hq0. assert (Herr : forall e fs1, quiet fs0 fs1 -> fs0 <> [] ->
    quiet fs0 fs1 /\ forall gs, quiet fs1 gs -> Q (Err e) (MkWorld d (MkProcess c i) gs)).
  { intros e fs1 Hq1 Hf. split; [done|]. intros gs Hgs. apply HErr; [oracle|].
    exact (quiet_not_nil _ _ Hq0 Hf). }
  apply wp_bind, wp_wrap, wp_query; [|intros; by apply Herr; oracle].
  apply wp_bind, wp_wrap, wp_query; [|intros; by apply Herr; destruct fs0; oracle].
  apply wp_bind, wp_wrap, wp_query; [|intros; by apply Herr; destruct fs0; oracle].
  apply wp_bind, wp_wrap, wp_query; [|intros; by apply Herr; destruct fs0; oracle].
  apply wp_ret. split; [oracle|]. intros gs Hgs. split.
  - apply HOk; [oracle|..]; cbn; apply Hcount.
    + apply summaryPending_scope.
    + apply episodePending_scope.
    + apply entityPending_scope.
    + apply keyFactPending_scope.
  - intros Hf m. by apply HErr; [oracle|].
Qed.

(** C26: Re-embedding a scope terminates.  With a working database and provider,
    rows that can be read and a batch size of at least one, the driver loop
    makes at most one call more than there are pending rows; it reports exactly
    how many rows were pending, leaves none pending, gives every one of them
    the vector of its own text under the current model, changes no other column
    of any row, and leaves one audit entry per batch, with the batch's size. *)
Theorem reembed_completes s actor bs d c i :
  db_ok d -> coherent kek d c -> ~ blockedAny kek s d -> 1 <= bs ->
  exists d' c' ns,
    reembedAll kek (S (pendAll s d)) s actor bs 0 (MkWorld d (MkProcess c i) []) =
      (Ok (Some (Z.of_nat (pendAll s d))), MkWorld d' (MkProcess c' i) []) /\
    embRel kek s d d' /\ pendAll s d' = 0%nat /\
    d'.(audit_log) = d.(audit_log) ++ map (logEntry s actor) ns /\
    Forall (fun n => 0 < n) ns /\ foldr Z.add 0 ns = Z.of_nat (pendAll s d).
Proof.
  intros Hok Hc Hnb Hbs.
  pattern (reembedAll kek (S (pendAll s d)) s actor bs 0 (MkWorld d (MkProcess c i) [])).
  apply wp_apply, (wp_reembedAll kek s); [done|done|done|done|lia|].
  intros d' c' ns Hc' Hrel Hp Hau Hpos Hsum. by exists d', c', ns.
Qed.

(** C27: Whatever faults it meets, one [Continue] only gives pending rows of the
    scope the vector of their own text under the current model: ciphertexts,
    key versions, keys, rotations and the audit log stay as they are, so a
    crash loses nothing.  On success it accounts for its rows exactly, and it
    reports [done] only when it changed nothing and (for a batch size of at
    least one) nothing was pending. *)
Theorem reembed_continue_safe s bs d c i fs :
  db_ok d -> coherent kek d c ->
  wp (Continue kek s bs)
    (fun r w' => embRel kek s d w'.(w_db) /\ w'.(w_db).(audit_log) = d.(audit_log) /\
       coherent kek w'.(w_db) w'.(w_proc).(cache) /\
       match r with
       | Ok (n, _, done) =>
           (pendAll s w'.(w_db) + Z.to_nat n = pendAll s d)%nat /\
           (done = true <-> n = 0) /\
           (done = true -> w'.(w_db) = d /\ (1 <= bs -> pendAll s d = 0%nat))
       | Err _ => fs <> [] \/ blockedAny kek s d \/ bs < 0
       end)
    (MkWorld d (MkProcess c i) fs).
Proof.
  intros Hok Hc. apply (wp_reContinue kek s); [done|done| |].
  - intros n table dn d' c' fs' Hq Hc' (Hrel & Hau & Hn & Hp & Hz) Hd. cbn.
    split; [done|]. split; [done|]. split; [done|]. split; [done|]. split; [done|].
    intros Hdn. by apply Hz, Hd.
  - intros e d' c' fs' Hq Hc' Hrel Hau Hor. by split_and!.
Qed.

(** [Status] counts exactly the rows [Continue] works on, so its total is
    zero exactly when nothing is pending; it fails only by a fault and changes
    nothing. *)
Theorem reembed_status_exact s d c i fs :
  wp (Status s)
    (fun r w' => w'.(w_db) = d /\
       match r with
       | Ok st => Total st = Z.of_nat (pendAll s d)
       | Err _ => fs <> []
       end) (MkWorld d (MkProcess c i) fs).
Proof.
  apply wp_reStatus.
  - intros st fs' _ H1 H2 H3 H4. split; [done|]. unfold Total, pendAll. rewrite H1, H2, H3, H4. lia.
  - done.
Qed.

End Claims.
