(* ===== verification/ReembedScenarios.v ===== *)
(** * ReembedScenarios: re-embedding on concrete worlds *)

From stdpp Require Import gmap.
From S2P Require Import Prelude Identity Schema Db KeyStore Capture Rotate RotateFacts RotateScenarios.
From S2P Require Import RotateLife Utf8 Float Text Embed Reembed ReembedFacts ReembedProofs ReembedLife.
Import KeyStore.Toy.
#[local] Open Scope string_scope.
#[local] Open Scope list_scope.
#[local] Open Scope Z_scope.

(** ** Concrete worlds *)

Definition toyEmbedder : Embedder := {|
  Vendor := "openai"; Model := "m2";
  EmbedAnswer inputs := Some (map (fun t => [fofZ (RuneCount t)]) inputs) |}.
Definition toyFormat : FloatFormat := {| FormatFloat32 f := if feq f f0 then "0" else "1" |}.
#[local] Existing Instances toyEmbedder toyFormat.

(** The scope has a key, and a summary whose vector is of another model. *)
Definition keyed : world := snd (GetOrCreate kek toyScope world0).
Definition sealed (pt : string) : string :=
  match fst (Encrypt (repeatByte "A" 32) pt keyed) with Ok ct => ct | Err _ => "" end.
Definition staleRow : SummaryRow :=
  MkSummaryRow "s1" toyScope (Some (sealed "notes")) 1 None (Some "[0]") (Some "openai:m1")
    (MkSummaryInfo "2026-01-01" "daily" "v" "m" [] [] [] None 0).
Definition staleDb : db := set_summaries (fun _ => [staleRow]) keyed.(w_db).

Lemma staleDb_ok : db_ok staleDb.
Proof.
  split; try (vm_compute; apply NoDup_nil_2).
  - vm_compute. apply NoDup_singleton.
  - intros f Hf. vm_compute in Hf. by apply elem_of_nil in Hf.
Qed.

Lemma staleDb_coherent : coherent kek staleDb ∅.
Proof. intros key k wr Hin. by rewrite lookup_empty in Hin. Qed.

Lemma toy_total : embedder_total.
Proof. intros inputs _. eexists. split; [reflexivity|]. by rewrite length_map. Qed.

Lemma staleDb_unblocked : ~ blockedAny kek toyScope staleDb.
Proof.
  intros [[Hn|(r & Hr & _ & Ht)]|[[Hn|(r & Hr & _)]|[[Hn|(r & Hr & _)]|[Hn|(r & Hr & _)]]]];
    try by apply Hn, toy_total.
  2,3,4: vm_compute in Hr; by apply elem_of_nil in Hr.
  apply list_elem_of_singleton in Hr as ->. vm_compute in Ht. discriminate.
Qed.

Lemma reembed_completes_witness :
  pendAll toyScope staleDb = 1%nat /\
  exists d' c' ns,
    reembedAll kek 2 toyScope "op" 100 0 (MkWorld staleDb (MkProcess ∅ 0) []) =
      (Ok (Some 1), MkWorld d' (MkProcess c' 0) []) /\
    embRel kek toyScope staleDb d' /\ pendAll toyScope d' = 0%nat /\
    d'.(audit_log) = staleDb.(audit_log) ++ map (logEntry toyScope "op") ns.
Proof.
  split; [vm_compute; reflexivity|].
  destruct (reembed_completes kek toyScope "op" 100 staleDb ∅ 0 staleDb_ok staleDb_coherent
    staleDb_unblocked ltac:(lia)) as (d' & c' & ns & E & H1 & H2 & H3 & _).
  exists d', c', ns. split; [exact E|]. split; [exact H1|]. split; [exact H2|exact H3].
Defined.

Lemma reembed_continue_safe_witness :
  db_ok staleDb /\
  wp (Reembed.Continue kek toyScope 1)
    (fun r w' => embRel kek toyScope staleDb w'.(w_db))
    (MkWorld staleDb (MkProcess ∅ 0) [false; true]).
Proof.
  split; [apply staleDb_ok|].
  eapply wp_mono; [apply (reembed_continue_safe kek toyScope 1 staleDb ∅ 0 [false; true] staleDb_ok staleDb_coherent)|].
  intros r w' [H _]. exact H.
Defined.

(** The episode of [RotateScenarios], rotated to version 2 and pruned; a batch
    had read it under version 1. *)
Definition pruned : world := snd (Prune toyScope "op" rotated).
Definition readRow : EpisodeRow := hd {| e_id := ""; e_scope := toyScope; e_ts := 0; e_type := "";
  e_vendor := None; e_model := None; e_input := None; e_output := None; e_note := None;
  e_key_version := 0; e_importance := f0; e_hash := ""; e_truncated := false; e_gate := None;
  e_refers_to := None; e_rating := None; e_refs := []; e_embedding := None;
  e_embedding_model := None |} captured0.(w_db).(episodes).

Lemma retry_reads_rotated_row_witness :
  readRow.(e_key_version) = 1 /\
  wp (decryptWithRetry kek toyScope (RefEpisodeRow "ep1") 1 [readRow.(e_input); readRow.(e_output)])
    (fun r w' => r = Ok ["hi"; "hello"] /\ w'.(w_db) = pruned.(w_db))
    (MkWorld pruned.(w_db) (MkProcess ∅ 0) []).
Proof.
  split; [vm_compute; reflexivity|].
  eapply wp_mono; [eapply (retry_reads_rotated_row kek toyScope (RefEpisodeRow "ep1") 1 _ 2)|].
  - intros key k wr Hin. rewrite lookup_empty in Hin. discriminate Hin.
  - apply lookup_empty.
  - vm_compute. reflexivity.
  - vm_compute. reflexivity.
  - discriminate.
  - vm_compute. reflexivity.
  - intros r w' (H1 & H2 & _). split; [exact H1|exact H2].
Defined.

(** A batch size of zero is passed to [limit] as it is: [Continue] selects
    no row and reports [done] although a row is pending, so the command prints
    that re-embedding is complete. *)
Theorem reembed_zero_batch_done :
  pendAll toyScope staleDb = 1%nat /\
  fst (Reembed.Continue kek toyScope 0 (MkWorld staleDb (MkProcess ∅ 0) [])) = Ok (0, "", true) /\
  fst (reembedAll kek 1 toyScope "op" 0 0 (MkWorld staleDb (MkProcess ∅ 0) [])) = Ok (Some 0).
Proof. vm_compute. done. Qed.
