(* ===== verification/UnionFind.v ===== *)
(** * UnionFind: the forest inside [clusterSources]
    ([src/internal/consolidation/cluster.go])

    [find] with path halving and [union] without ranks, on the array [parent].
    A node's chain to its root never repeats a node, so as many steps as there
    are nodes are enough fuel; halving shortens chains and keeps roots. *)

From S2P Require Import Prelude.
#[local] Open Scope nat_scope.
#[local] Open Scope list_scope.

(** [parent[i]] *)
Definition par (p : list nat) (i : nat) : nat := default i (p !! i).

Fixpoint find (fuel : nat) (p : list nat) (i : nat) : list nat * nat :=
  match fuel with
  | O => (p, i)
  | S fuel' =>
      if Nat.eqb (par p i) i then (p, i)
      else
        let p' := <[i := par p (par p i)]> p in
        find fuel' p' (par p' i)
  end.

Definition union (p : list nat) (a b : nat) : list nat :=
  let '(p, ra) := find (length p) p a in
  let '(p, rb) := find (length p) p b in
  if Nat.eqb ra rb then p else <[ra := rb]> p.

(** ** Chains to the root *)

Inductive chain (p : list nat) : nat -> nat -> nat -> Prop :=
| chain_root i : par p i = i -> chain p i 0 i
| chain_step i k r : par p i <> i -> chain p (par p i) k r -> chain p i (S k) r.

Definition root (p : list nat) (i r : nat) : Prop := exists k, chain p i k r.

(** Every node's parent is a node, and every node has a root. *)
Definition wf (p : list nat) : Prop :=
  forall i, i < length p -> par p i < length p /\ exists r, root p i r.

Lemma chain_fun p i k r k' r' : chain p i k r -> chain p i k' r' -> k = k' /\ r = r'.
Proof.
  intros H. revert k' r'. induction H as [i E|i k r E H IH]; intros k' r' H'; inversion H'; subst; try done.
  destruct (IH k0 r') as [-> ->]; done.
Qed.

Lemma chain_inv p i k r : par p i <> i -> chain p i k r -> exists k0, k = S k0 /\ chain p (par p i) k0 r.
Proof. intros E H. destruct H; [done|eauto]. Qed.

(** No node is its own grandparent, unless it is a root. *)
Lemma no_cycle p i k r : par p i <> i -> chain p i k r -> par p (par p i) <> i.
Proof.
  intros E H Eg. destruct (chain_inv _ _ _ _ E H) as (k0 & -> & H0).
  assert (E' : par p (par p i) <> par p i) by congruence.
  destruct (chain_inv _ _ _ _ E' H0) as (k1 & -> & H1). rewrite Eg in H1.
  destruct (chain_fun _ _ _ _ _ _ H H1). lia.
Qed.

Lemma root_fun p i r r' : root p i r -> root p i r' -> r = r'.
Proof. intros [k H] [k' H']. by destruct (chain_fun _ _ _ _ _ _ H H'). Qed.

Lemma chain_is_root p i k r : chain p i k r -> par p r = r.
Proof. by induction 1. Qed.

Lemma root_of_root p i r : root p i r -> root p r r.
Proof. intros [k H]. exists 0. apply chain_root. by eapply chain_is_root. Qed.

Lemma chain_lt p i k r : wf p -> i < length p -> chain p i k r -> r < length p.
Proof.
  intros Hwf Hi H. induction H as [i E|i k r E H IH]; [done|]. apply IH. by apply Hwf.
Qed.

(** The nodes of a chain. *)
Fixpoint nodes (p : list nat) (k i : nat) : list nat :=
  match k with
  | O => [i]
  | S k' => i :: nodes p k' (par p i)
  end.

Lemma nodes_chain p i k r x : chain p i k r -> x ∈ nodes p k i -> exists j, j <= k /\ chain p x j r.
Proof.
  induction 1 as [i E|i k r E H IH]; cbn.
  - intros ->%list_elem_of_singleton. exists 0. split; [done|by apply chain_root].
  - intros [->|Hx]%elem_of_cons; [exists (S k); split; [done|by apply chain_step]|].
    destruct (IH Hx) as (j & Hj & Hc). exists j. split; [lia|done].
Qed.

Lemma nodes_NoDup p i k r : chain p i k r -> NoDup (nodes p k i).
Proof.
  induction 1 as [i E|i k r E H IH]; cbn; [apply NoDup_singleton|].
  apply NoDup_cons. split; [|done]. intros Hin.
  destruct (nodes_chain _ _ _ _ _ H Hin) as (j & Hj & Hc).
  pose proof (chain_step p i k r E H) as Hi. destruct (chain_fun _ _ _ _ _ _ Hi Hc). lia.
Qed.

Lemma nodes_length p k i : length (nodes p k i) = S k.
Proof. revert i. induction k as [|k IH]; intros i; cbn; [done|by rewrite IH]. Qed.

Lemma nodes_lt p i k r x : wf p -> i < length p -> chain p i k r -> x ∈ nodes p k i -> x < length p.
Proof.
  intros Hwf Hi H. induction H as [i E|i k r E H IH]; cbn.
  - by intros ->%list_elem_of_singleton.
  - intros [->|Hx]%elem_of_cons; [done|]. apply IH; [by apply Hwf|done].
Qed.

(** A chain is shorter than the array. *)
Lemma chain_bound p i k r : wf p -> i < length p -> chain p i k r -> k < length p.
Proof.
  intros Hwf Hi H.
  assert (Hl : length (nodes p k i) <= length (seq 0 (length p))).
  { apply NoDup_incl_length; [apply NoDup_ListNoDup; by eapply nodes_NoDup|].
    intros x Hx. apply in_seq. apply list_elem_of_In in Hx. pose proof (nodes_lt p i k r x Hwf Hi H Hx). lia. }
  rewrite nodes_length, length_seq in Hl. lia.
Qed.

(** ** Path halving *)

Lemma par_insert p i j x :
  i < length p -> par (<[i := j]> p) x = if decide (x = i) then j else par p x.
Proof.
  intros Hi. unfold par. case_decide as E.
  - subst. by rewrite list_lookup_insert_eq.
  - by rewrite list_lookup_insert_ne.
Qed.

Definition halve (p : list nat) (i : nat) : list nat := <[i := par p (par p i)]> p.

Lemma chain_halve p i x k r :
  i < length p -> par p i <> i -> chain p x k r -> exists k', k' <= k /\ chain (halve p i) x k' r.
Proof.
  intros Hi Hne. revert x r. induction k as [k IH] using lt_wf_ind. intros x r H.
  assert (Hpar : forall y, par (halve p i) y = if decide (y = i) then par p (par p i) else par p y).
  { intros y. by apply par_insert. }
  destruct H as [x E|x k r E H].
  - exists 0. split; [done|]. apply chain_root. rewrite Hpar. case_decide; [congruence|done].
  - destruct (decide (x = i)) as [->|Hx].
    + inversion H as [m Em Ek|m k1 r1 Em H1 Ek]; subst.
      * exists 1. split; [lia|]. apply chain_step; rewrite Hpar, decide_True by done; [by rewrite Em|].
        rewrite Em. apply chain_root. rewrite Hpar. case_decide; [congruence|done].
      * destruct (IH k1 ltac:(lia) _ _ H1) as (k' & Hk' & Hc).
        assert (Hg : par p (par p i) <> i).
        { exact (no_cycle _ _ _ _ E (chain_step p i _ _ E H)). }
        exists (S k'). split; [lia|]. apply chain_step; rewrite Hpar, decide_True by done; done.
    + destruct (IH k ltac:(lia) _ _ H) as (k' & Hk' & Hc). exists (S k'). split; [lia|].
      apply chain_step; rewrite Hpar, decide_False by done; done.
Qed.

(** [find] returns the root, and only shortens chains. *)
Definition sameRoots (p p' : list nat) : Prop :=
  length p' = length p /\ wf p' /\ forall x r, root p x r -> root p' x r.

Lemma wf_halve p i : wf p -> i < length p -> par p i <> i -> wf (halve p i).
Proof.
  intros Hwf Hi Hne x Hx. unfold halve in *. rewrite length_insert in *. split.
  - rewrite par_insert by done. case_decide; [apply Hwf, Hwf, Hi|by apply Hwf].
  - destruct (Hwf x Hx) as [_ (r & k & H)]. destruct (chain_halve p i x k r Hi Hne H) as (k' & _ & H').
    exists r. by exists k'.
Qed.

Lemma find_spec fuel p i k r :
  wf p -> i < length p -> chain p i k r -> k <= fuel ->
  exists p', find fuel p i = (p', r) /\ sameRoots p p'.
Proof.
  revert p i k. induction fuel as [|fuel IH]; intros p i k Hwf Hi H Hk; cbn [find].
  - assert (k = 0) as -> by lia. inversion H; subst. exists p. split; [done|]. by split_and!.
  - destruct (Nat.eqb_spec (par p i) i) as [E|E].
    + inversion H; subst; [|done]. exists p. split; [done|]. by split_and!.
    + fold (halve p i). pose proof (wf_halve p i Hwf Hi E) as Hwf'.
      assert (Hlen : length (halve p i) = length p) by apply length_insert.
      destruct (chain_halve p i i k r Hi E H) as (k1 & Hk1 & H1).
      inversion H1 as [? E1|? k2 ? E1 H2]; subst.
      { unfold halve in E1. rewrite par_insert, decide_True in E1 by done.
        by destruct (no_cycle _ _ _ _ E H). }
      destruct (IH (halve p i) (par (halve p i) i) k2) as (p' & Ef & Hl & Hw & Hr); [done| |done|lia|].
      { by apply Hwf'; rewrite Hlen. }
      exists p'. split; [done|]. split_and!; [congruence|done|].
      intros x rx [kx Hx]. apply Hr. destruct (chain_halve p i x kx rx Hi E Hx) as (k' & _ & H'). by exists k'.
Qed.

Lemma find_root p i r :
  wf p -> i < length p -> root p i r -> exists p', find (length p) p i = (p', r) /\ sameRoots p p'.
Proof.
  intros Hwf Hi [k H]. eapply find_spec; [done|done|exact H|].
  pose proof (chain_bound _ _ _ _ Hwf Hi H). lia.
Qed.

(** ** Union *)

Lemma link_roots p ra rb :
  wf p -> ra < length p -> rb < length p -> par p ra = ra -> par p rb = rb -> ra <> rb ->
  length (<[ra := rb]> p) = length p /\ wf (<[ra := rb]> p) /\
  forall x r, root p x r -> root (<[ra := rb]> p) x (if decide (r = ra) then rb else r).
Proof.
  intros Hwf Ha Hb Era Erb Hne.
  assert (Hpar : forall y, par (<[ra := rb]> p) y = if decide (y = ra) then rb else par p y)
    by (intros y; by apply par_insert).
  assert (Hroot : forall x r, root p x r -> root (<[ra := rb]> p) x (if decide (r = ra) then rb else r)).
  { intros x r [k H]. induction H as [x E|x k r E H IH].
    - case_decide as Ex.
      + subst x. exists 1. apply chain_step; rewrite Hpar, decide_True by done; [done|].
        apply chain_root. by rewrite Hpar, decide_False.
      + exists 0. apply chain_root. by rewrite Hpar, decide_False.
    - assert (x <> ra) by congruence. destruct IH as [k' H']. exists (S k').
      apply chain_step; rewrite Hpar, decide_False by done; done. }
  split; [apply length_insert|]. split; [|done].
  intros x Hx. rewrite length_insert in *. split.
  - rewrite Hpar. case_decide; [done|by apply Hwf].
  - destruct (Hwf x Hx) as [_ (r & Hr)]. eexists. by apply Hroot.
Qed.

Lemma union_spec p a b ra rb :
  wf p -> a < length p -> b < length p -> root p a ra -> root p b rb ->
  length (union p a b) = length p /\ wf (union p a b) /\
  forall x r, root p x r -> root (union p a b) x (if decide (r = ra) then rb else r).
Proof.
  intros Hwf Ha Hb Hra Hrb. unfold union.
  destruct (find_root p a ra Hwf Ha Hra) as (p1 & -> & Hl1 & Hw1 & Hr1).
  destruct (find_root p1 b rb Hw1) as (p2 & -> & Hl2 & Hw2 & Hr2); [by rewrite Hl1|by apply Hr1|].
  assert (Hr : forall x r, root p x r -> root p2 x r) by auto.
  assert (Hlen : length p2 = length p) by congruence.
  destruct (Nat.eqb_spec ra rb) as [->|Hne].
  - split; [done|]. split; [done|]. intros x r Hx. case_decide; subst; by apply Hr.
  - assert (Hra' : ra < length p2 /\ par p2 ra = ra).
    { destruct (Hr _ _ Hra) as [k H]. split; [eapply chain_lt; [done| |exact H]; lia|by eapply chain_is_root]. }
    assert (Hrb' : rb < length p2 /\ par p2 rb = rb).
    { destruct (Hr _ _ Hrb) as [k H]. split; [eapply chain_lt; [done| |exact H]; lia|by eapply chain_is_root]. }
    destruct (link_roots p2 ra rb Hw2) as (H1 & H2 & H3); [apply Hra'|apply Hrb'|apply Hra'|apply Hrb'|done|].
    split; [congruence|]. split; [done|]. intros x r Hx. apply H3, Hr, Hx.
Qed.
