(* ===== verification/Cluster.v ===== *)
(** * Cluster: grouping a busy day's sources by topic
    ([src/internal/consolidation/cluster.go])

    [clusterSources] joins every pair of sources whose vectors are similar
    enough, reads the groups off the forest in order of first occurrence, and
    merges the two closest groups until at most [maxClustersPerDay] are left. *)

From Stdlib Require Import SpecFloat.
From stdpp Require Import gmap.
From S2P Require Import Prelude Utf8 Float Text UnionFind.
#[local] Open Scope string_scope.
#[local] Open Scope list_scope.
#[local] Open Scope Z_scope.

(** ** Vectors *)

(** A float32 and its arithmetic; [float64(x)] only renormalises it. *)
Definition f32 := spec_float.
Definition fadd32 : f32 -> f32 -> f32 := SFadd 24 128.
Definition fdiv32 : f32 -> f32 -> f32 := SFdiv 24 128.
Definition f32ofZ (n : Z) : f32 := binary_normalize 24 128 n 0 false.
Definition f64of32 (x : f32) : f64 :=
  match x with
  | S754_finite s m e => binary_normalize 53 1024 (if s then Z.neg m else Z.pos m) e s
  | _ => x
  end.
Definition fsqrt : f64 -> f64 := SFsqrt 53 1024.

Definition cosineSimilarity (a b : list f32) : f64 :=
  if negb (Nat.eqb (length a) (length b)) || Nat.eqb (length a) 0 then f0
  else
    let '(dot, na, nb) := foldl (fun '(dot, na, nb) '(x, y) =>
      (fadd dot (fmul (f64of32 x) (f64of32 y)),
       fadd na (fmul (f64of32 x) (f64of32 x)),
       fadd nb (fmul (f64of32 y) (f64of32 y)))) (f0, f0, f0) (zip a b) in
    if feq na f0 || feq nb f0 then f0 else fdiv dot (fmul (fsqrt na) (fsqrt nb)).

(** [sum[i] += x] for the components the sum has. *)
Definition addVector (sum v : list f32) : list f32 :=
  imap (fun i x => match v !! i with Some y => fadd32 x y | None => x end) sum.

Definition centroidOfVectors (vs : list (list f32)) : list f32 :=
  match vs with
  | [] => []
  | v0 :: _ =>
      let sum := foldl addVector (repeat (S754_zero false) (length v0)) vs in
      map (fun x => fdiv32 x (f32ofZ (Z.of_nat (length vs)))) sum
  end.

(** [vectors[idx]], for indices in range. *)
Definition vec (vectors : list (list f32)) (i : nat) : list f32 := nth i vectors [].

Definition centroidOf (vectors : list (list f32)) (idxs : list nat) : list f32 :=
  centroidOfVectors (map (vec vectors) idxs).

(** ** Limits *)

Definition clusterEpisodeThreshold : Z := 8.
Definition clusterSimilarityThreshold : f64 := fratio 60 100.
Definition defaultMaxClustersPerDay : Z := 6.

Definition maxClustersPerDay (Getenv : string -> string) : Z :=
  let v := Getenv "HUPI_MAX_CLUSTERS_PER_DAY" in
  if negb (String.eqb v "") then
    match Atoi v with
    | Some n => if 0 <? n then n else defaultMaxClustersPerDay
    | None => defaultMaxClustersPerDay
    end
  else defaultMaxClustersPerDay.

(** ** Groups *)

(** The pairs [i < j] of the nested loops, in their order. *)
Definition pairsBelow (n : nat) : list (nat * nat) :=
  i ← seq 0 n; map (fun j => (i, j)) (seq (S i) (n - S i)).

Definition similar (vectors : list (list f32)) (ij : nat * nat) : bool :=
  fge (cosineSimilarity (vec vectors ij.1) (vec vectors ij.2)) clusterSimilarityThreshold.

Definition unionStep (sim : nat * nat -> bool) (p : list nat) (ij : nat * nat) : list nat :=
  if sim ij then union p ij.1 ij.2 else p.

Definition forest (sim : nat * nat -> bool) (n : nat) : list nat :=
  foldl (unionStep sim) (seq 0 n) (pairsBelow n).

(** [parent], [rootOrder] and [groups] after some sources. *)
Definition groupState : Type := list nat * list nat * gmap nat (list nat).

Definition groupStep (st : groupState) (i : nat) : groupState :=
  let '(p, rootOrder, groups) := st in
  let '(p, root) := find (length p) p i in
  let rootOrder := match groups !! root with Some _ => rootOrder | None => rootOrder ++ [root] end in
  (p, rootOrder, <[root := default [] (groups !! root) ++ [i]]> groups).

Definition groupIndices (p : list nat) (n : nat) : list (list nat) :=
  let '(_, rootOrder, groups) := foldl groupStep (p, [], ∅) (seq 0 n) in
  map (fun r => default [] (groups !! r)) rootOrder.

(** ** Merging the closest groups *)

Definition pairStep (centroids : list (list f32)) (st : nat * nat * f64) (ij : nat * nat) :
    nat * nat * f64 :=
  let '(bi, bj, best) := st in
  let sim := cosineSimilarity (vec centroids ij.1) (vec centroids ij.2) in
  if fgt sim best then (ij.1, ij.2, sim) else (bi, bj, best).

Definition closestPair (centroids : list (list f32)) : nat * nat :=
  (foldl (pairStep centroids) (0%nat, 1%nat, fofZ (-2)) (pairsBelow (length centroids))).1.

(** [append(xs[:j], xs[j+1:]...)] *)
Definition removeAt {A} (j : nat) (xs : list A) : list A := take j xs ++ drop (S j) xs.

(** [cluster[k] = sources[idx]], for indices in range. *)
Definition pick {A} (sources : list A) (idxs : list nat) : list A := omap (fun i => sources !! i) idxs.

Section Merge.
Context {A : Type}.

Definition mergePair (bi bj : nat) (clusters : list (list A)) : list (list A) :=
  removeAt bj (<[bi := nth bi clusters [] ++ nth bj clusters []]> clusters).

Fixpoint mergeLoop (fuel : nat) (maxClusters : Z) (clusters : list (list A))
    (centroids : list (list f32)) : list (list A) :=
  match fuel with
  | O => clusters
  | S fuel' =>
      if maxClusters <? Z.of_nat (length clusters) then
        let '(bi, bj) := closestPair centroids in
        mergeLoop fuel' maxClusters (mergePair bi bj clusters)
          (removeAt bj (<[bi := centroidOfVectors [vec centroids bi; vec centroids bj]]> centroids))
      else clusters
  end.

(** [maxClusters] is [maxClustersPerDay()]. *)
Definition clusterSources (maxClusters : Z) (sources : list A) (vectors : list (list f32)) :
    list (list A) :=
  let n := length sources in
  if Nat.eqb n 0 then []
  else if negb (Nat.eqb (length vectors) n) then [sources]
  else
    let idxs := groupIndices (forest (similar vectors) n) n in
    let clusters := map (pick sources) idxs in
    mergeLoop (length clusters) maxClusters clusters (map (centroidOf vectors) idxs).
End Merge.

(** ** The forest and similarity *)

(** Connected by pairs joined so far. *)
Inductive conn (E : nat -> nat -> Prop) : nat -> nat -> Prop :=
| conn_refl x : conn E x x
| conn_edge x y : E x y -> conn E x y
| conn_sym x y : conn E x y -> conn E y x
| conn_trans x y z : conn E x y -> conn E y z -> conn E x z.

Lemma conn_mono (E E' : nat -> nat -> Prop) x y :
  (forall a b, E a b -> E' a b) -> conn E x y -> conn E' x y.
Proof.
  intros Hi. induction 1; [apply conn_refl|by apply conn_edge, Hi|by apply conn_sym|by eapply conn_trans].
Qed.

(** The forest of [p] joins exactly the nodes connected by [E]. *)
Record ufInv (n : nat) (E : nat -> nat -> Prop) (p : list nat) : Prop := {
  uf_len : length p = n;
  uf_wf : wf p;
  uf_sound : forall x r, (x < n)%nat -> root p x r -> conn E x r;
  uf_complete : forall x y r, E x y -> root p x r -> root p y r
}.

Lemma uf_start n : ufInv n (fun _ _ => False) (seq 0 n).
Proof.
  assert (Hpar : forall i, par (seq 0 n) i = i).
  { intros i. unfold par. destruct (seq 0 n !! i) eqn:E; [|done]. cbn.
    apply lookup_seq in E as [-> _]. done. }
  assert (Hroot : forall i, root (seq 0 n) i i) by (intros i; exists 0%nat; by apply chain_root).
  split.
  - apply length_seq.
  - intros i Hi. split; [by rewrite Hpar|by exists i].
  - intros x r _ Hr. rewrite <- (root_fun _ _ _ _ (Hroot x) Hr). apply conn_refl.
  - done.
Qed.

Lemma uf_union n E p a b :
  ufInv n E p -> (a < n)%nat -> (b < n)%nat ->
  ufInv n (fun x y => E x y \/ (x = a /\ y = b)) (union p a b).
Proof.
  intros [Hl Hw Hs Hc] Ha Hb. subst n.
  destruct (proj2 (Hw a Ha)) as [ra Hra]. destruct (proj2 (Hw b Hb)) as [rb Hrb].
  destruct (union_spec p a b ra rb Hw Ha Hb Hra Hrb) as (Hl' & Hw' & Hr').
  assert (Hback : forall x r', (x < length p)%nat -> root (union p a b) x r' ->
    exists r, root p x r /\ r' = if decide (r = ra) then rb else r).
  { intros x r' Hx Hr. destruct (proj2 (Hw x Hx)) as [r Hr0]. exists r. split; [done|].
    by apply (root_fun _ _ _ _ Hr), Hr'. }
  assert (Hmono : forall x y, conn E x y -> conn (fun x y => E x y \/ (x = a /\ y = b)) x y).
  { intros x y. apply conn_mono. auto. }
  split; [done|done| |].
  - intros x r' Hx Hr. destruct (Hback x r' Hx Hr) as (r & Hxr & ->). case_decide; subst.
    + eapply conn_trans; [apply Hmono, (Hs x ra); [lia|done]|].
      eapply conn_trans; [apply conn_sym, Hmono, (Hs a ra); [lia|done]|].
      eapply conn_trans; [apply (conn_edge _ a b); by right|apply Hmono, (Hs b rb); [lia|done]].
    + apply Hmono, Hs; [lia|done].
  - intros x y r' [HE|[-> ->]] Hr.
    + assert (Hx : exists r, root p x r /\ r' = if decide (r = ra) then rb else r).
      { destruct (decide (x < length p)%nat) as [Hx|Hx]; [by apply Hback|].
        assert (Hself : forall q, (length q <= x)%nat -> root q x x).
        { intros q Hq. exists 0%nat. apply chain_root. unfold par. by rewrite lookup_ge_None_2. }
        exists x. split; [apply Hself; lia|]. rewrite (root_fun _ _ _ _ Hr (Hself (union p a b) ltac:(lia))).
        rewrite decide_False; [done|]. intros ->.
        destruct Hra as [k Hk]. pose proof (chain_lt _ _ _ _ Hw Ha Hk). lia. }
      destruct Hx as (r & Hxr & ->). apply Hr'. by eapply Hc.
    + assert (r' = rb) as ->; [|].
      { apply (root_fun _ _ _ _ Hr). pose proof (Hr' a ra Hra) as H1. by rewrite decide_True in H1. }
      pose proof (Hr' b rb Hrb) as H1. case_decide; [subst; done|done].
Qed.

Lemma pairsBelow_spec n i j : (i, j) ∈ pairsBelow n <-> (i < j < n)%nat.
Proof.
  unfold pairsBelow. rewrite list_elem_of_bind. split.
  - intros (k & Hk & Hin). rewrite list_elem_of_In, in_seq in Hin.
    apply list_elem_of_fmap in Hk as (j' & [= <- <-] & Hj). rewrite list_elem_of_In, in_seq in Hj. lia.
  - intros H. exists i. split.
    + apply list_elem_of_fmap. exists j. split; [done|]. rewrite list_elem_of_In, in_seq. lia.
    + rewrite list_elem_of_In, in_seq. lia.
Qed.

Definition joined (sim : nat * nat -> bool) (l : list (nat * nat)) (x y : nat) : Prop :=
  (x, y) ∈ l /\ sim (x, y) = true.

Lemma ufInv_ext n E E' p : (forall x y, E x y <-> E' x y) -> ufInv n E p -> ufInv n E' p.
Proof.
  intros H [H1 H2 H3 H4]. split; [done|done| |].
  - intros x r Hx Hr. eapply conn_mono; [|by apply H3]. intros a b. apply H.
  - intros x y r HE. apply H4. by apply H.
Qed.

Lemma forest_fold sim n l done p :
  (forall x y, (x, y) ∈ l -> (x < n)%nat /\ (y < n)%nat) ->
  ufInv n (joined sim done) p -> ufInv n (joined sim (done ++ l)) (foldl (unionStep sim) p l).
Proof.
  revert done p. induction l as [|[a b] l IH]; intros dn p Hl Hinv; cbn [foldl].
  { by rewrite app_nil_r. }
  replace (dn ++ (a, b) :: l) with ((dn ++ [(a, b)]) ++ l) by (by rewrite <- app_assoc).
  apply IH; [intros x y Hxy; apply Hl; by right|].
  destruct (Hl a b ltac:(by left)) as [Ha Hb]. unfold unionStep. cbn [fst snd].
  destruct (sim (a, b)) eqn:Es.
  - eapply ufInv_ext; [|by apply uf_union]. intros x y. unfold joined.
    rewrite elem_of_app, list_elem_of_singleton. split.
    + intros [[H1 H2]|[-> ->]]; [split; [by left|done]|split; [by right|done]].
    + intros [[H|[= -> ->]] H2]; [by left|by right].
  - eapply ufInv_ext; [|exact Hinv]. intros x y. unfold joined.
    rewrite elem_of_app, list_elem_of_singleton. split; [intros [H1 H2]; split; [by left|done]|].
    intros [[H|[= -> ->]] H2]; [done|congruence].
Qed.

(** Similar pairs of sources. *)
Definition edge (sim : nat * nat -> bool) (n : nat) (x y : nat) : Prop :=
  (x < y < n)%nat /\ sim (x, y) = true.

Lemma forest_inv sim n : ufInv n (edge sim n) (forest sim n).
Proof.
  unfold forest. eapply ufInv_ext; [|apply (forest_fold sim n (pairsBelow n) [])].
  - intros x y. unfold joined, edge. cbn. by rewrite pairsBelow_spec.
  - intros x y Hxy%pairsBelow_spec. lia.
  - eapply ufInv_ext; [|apply uf_start]. intros x y. unfold joined.
    split; [done|intros [H%elem_of_nil _]; done].
Qed.

(** Two sources have the same root exactly when they are connected. *)
Lemma forest_roots sim n x y rx ry :
  (x < n)%nat -> (y < n)%nat -> root (forest sim n) x rx -> root (forest sim n) y ry ->
  rx = ry <-> conn (edge sim n) x y.
Proof.
  intros Hx Hy Hrx Hry. pose proof (forest_inv sim n) as Hinv. split.
  - intros <-. eapply conn_trans; [by eapply uf_sound|]. apply conn_sym. by eapply uf_sound.
  - intros Hc. assert (Hiff : forall x y, conn (edge sim n) x y -> forall r,
      root (forest sim n) x r <-> root (forest sim n) y r).
    { clear -Hinv. induction 1 as [x|x y HE|x y _ IH|x y z _ IH1 _ IH2]; intros r.
      - done.
      - split; [by eapply uf_complete|]. intros Hr. destruct HE as [Hxy Hs].
        destruct (proj2 (uf_wf _ _ _ Hinv x ltac:(rewrite (uf_len _ _ _ Hinv); lia))) as [r' Hr'].
        assert (root (forest sim n) y r') as Hr2 by (eapply uf_complete; [done|by split|done]).
        by rewrite (root_fun _ _ _ _ Hr Hr2).
      - by rewrite IH.
      - by rewrite IH1. }
    apply (Hiff _ _ Hc) in Hrx. by eapply root_fun.
Qed.

(** ** Reading the groups off the forest *)

Definition groupOf (groups : gmap nat (list nat)) (r : nat) : list nat := default [] (groups !! r).

Record groupInv (p : list nat) (m : nat) (st : groupState) : Prop := {
  gi_roots : length st.1.1 = length p /\ wf st.1.1 /\ forall x r, root p x r -> root st.1.1 x r;
  gi_nodup : NoDup st.1.2;
  gi_dom : forall r, r ∈ st.1.2 <-> is_Some (st.2 !! r);
  gi_group : forall r l, st.2 !! r = Some l ->
    l <> [] /\ (forall i, i ∈ l <-> (i < m)%nat /\ root p i r) /\ StronglySorted lt l;
  gi_perm : concat (map (groupOf st.2) st.1.2) ≡ₚ seq 0 m;
  gi_all : forall i r, (i < m)%nat -> root p i r -> is_Some (st.2 !! r)
}.

Lemma concat_extend groups (order : list nat) r (m : nat) :
  NoDup order -> r ∈ order ->
  concat (map (groupOf (<[r := groupOf groups r ++ [m]]> groups)) order) ≡ₚ
    m :: concat (map (groupOf groups) order).
Proof.
  induction order as [|x order IH]; [by intros _ ?%elem_of_nil|].
  intros [Hx Hnd]%NoDup_cons Hr. cbn [map concat].
  destruct (decide (x = r)) as [->|Hne].
  - unfold groupOf at 1. rewrite lookup_insert_eq. cbn [default].
    assert (map (groupOf (<[r:=groupOf groups r ++ [m]]> groups)) order = map (groupOf groups) order) as ->.
    { apply map_ext_in. intros y Hy%list_elem_of_In. unfold groupOf. rewrite lookup_insert_ne; [done|].
      intros ->. done. }
    cbn. rewrite <- app_assoc. cbn. by rewrite <- Permutation_middle.
  - apply elem_of_cons in Hr as [->|Hr]; [done|]. rewrite (IH Hnd Hr).
    unfold groupOf at 1. rewrite lookup_insert_ne by done. fold (groupOf groups x).
    by rewrite Permutation_middle.
Qed.

Lemma seq_snoc m : seq 0 (S m) = seq 0 m ++ [m].
Proof. by rewrite seq_S. Qed.

Lemma sorted_snoc l (m : nat) :
  StronglySorted lt l -> (forall i, i ∈ l -> (i < m)%nat) -> StronglySorted lt (l ++ [m]).
Proof.
  intros Hs. induction Hs as [|x l Hl IH Hx]; intros Hm; cbn; [by repeat constructor|].
  constructor; [apply IH; intros; apply Hm; by right|].
  apply Forall_app. split; [done|]. constructor; [apply Hm; by left|done].
Qed.

Lemma groupStep_inv p m st :
  wf p -> (m < length p)%nat -> groupInv p m st -> groupInv p (S m) (groupStep st m).
Proof.
  intros Hwf Hm [(Hl & Hw & Hr) Hnd Hdom Hg Hp Hall]. destruct st as [[q order] groups]. cbn in *.
  destruct (proj2 (Hwf m Hm)) as [r Hrm].
  destruct (find_root q m r Hw ltac:(lia) (Hr _ _ Hrm)) as (q' & Ef & Hl' & Hw' & Hr').
  rewrite Ef. fold (groupOf groups r).
  assert (Hroots : length q' = length p /\ wf q' /\ forall x r, root p x r -> root q' x r)
    by (split_and!; [congruence|done|auto]).
  assert (Hmem : forall l, (forall i, i ∈ l <-> (i < m)%nat /\ root p i r) ->
    forall i, i ∈ l ++ [m] <-> (i < S m)%nat /\ root p i r).
  { intros l Hmem i. rewrite elem_of_app, list_elem_of_singleton, Hmem. split.
    - intros [[H1 H2]| ->]; [split; [lia|done]|by split; [lia|]].
    - intros [H1 H2]. destruct (decide (i = m)) as [->|]; [by right|left; split; [lia|done]]. }
  assert (Hother : forall r' l, r' <> r -> (l <> [] /\ (forall i, i ∈ l <-> (i < m)%nat /\ root p i r') /\ StronglySorted lt l) ->
    l <> [] /\ (forall i, i ∈ l <-> (i < S m)%nat /\ root p i r') /\ StronglySorted lt l).
  { intros r' l Hne (H1 & H2 & H3). split_and!; [done| |done]. intros i. rewrite H2. split.
    - intros [? ?]. split; [lia|done].
    - intros [? Hi]. split; [|done]. destruct (decide (i = m)) as [->|]; [|lia].
      by destruct Hne; eapply root_fun. }
  assert (Hall' : forall l i r', (i < S m)%nat -> root p i r' -> is_Some (<[r := l]> groups !! r')).
  { intros l i r' Hi Hir. destruct (decide (r' = r)) as [->|Hne]; [rewrite lookup_insert_eq; eauto|].
    rewrite lookup_insert_ne by done. apply (Hall i r'); [|done].
    destruct (decide (i = m)) as [->|]; [|lia]. by destruct Hne; eapply root_fun. }
  destruct (groups !! r) as [l|] eqn:El.
  - destruct (Hg r l El) as (Hne & Hin & Hsort).
    assert (Hgr : groupOf groups r = l) by (unfold groupOf; by rewrite El).
    assert (Hord : r ∈ order) by (apply Hdom; eauto).
    split; cbn [fst snd]; [done|done| | | |apply Hall'].
    + intros r'. rewrite Hdom. destruct (decide (r' = r)) as [->|Hr'r].
      * rewrite lookup_insert_eq, El. split; eauto.
      * by rewrite lookup_insert_ne.
    + intros r' l'. destruct (decide (r' = r)) as [->|Hr'r].
      * rewrite lookup_insert_eq. intros [= <-]. rewrite Hgr.
        split_and!; [by destruct l|by apply Hmem|]. apply sorted_snoc; [done|]. intros i Hi. by apply Hin.
      * rewrite lookup_insert_ne by done. intros Hl0. apply Hother; [done|]. by apply Hg.
    + rewrite concat_extend, Hp by done. rewrite seq_snoc. apply Permutation_cons_append.
  - assert (Hgr : groupOf groups r = []) by (unfold groupOf; by rewrite El).
    assert (Hord : ~ r ∈ order) by (rewrite Hdom, El; by intros [? ?]).
    split; cbn [fst snd]; [done| | | | |apply Hall'].
    + apply NoDup_app. split; [done|]. split; [|apply NoDup_singleton].
      by intros x Hx ->%list_elem_of_singleton.
    + intros r'. rewrite elem_of_app, list_elem_of_singleton, Hdom.
      destruct (decide (r' = r)) as [->|Hr'r].
      * rewrite lookup_insert_eq. split; eauto.
      * rewrite lookup_insert_ne by done. split; [by intros [?|?]|by left].
    + intros r' l'. destruct (decide (r' = r)) as [->|Hr'r].
      * rewrite lookup_insert_eq. intros [= <-]. rewrite Hgr.
        split_and!; [done| |by apply sorted_snoc; [constructor|intros i ?%elem_of_nil]].
        apply Hmem. intros i. split; [by intros ?%elem_of_nil|]. intros [Hi Hri]. exfalso.
        apply Hord, Hdom. by eapply Hall.
      * rewrite lookup_insert_ne by done. intros Hl0. apply Hother; [done|]. by apply Hg.
    + rewrite Hgr. cbn [app]. rewrite map_app, concat_app. cbn [map concat].
      assert (groupOf (<[r := [m]]> groups) r = [m]) as -> by (unfold groupOf; by rewrite lookup_insert_eq).
      assert (map (groupOf (<[r := [m]]> groups)) order = map (groupOf groups) order) as ->.
      { apply map_ext_in. intros y Hy%list_elem_of_In. unfold groupOf. rewrite lookup_insert_ne; [done|].
        intros ->. done. }
      rewrite Hp, app_nil_r, seq_snoc. done.
Qed.

Lemma groupIndices_inv p n :
  wf p -> length p = n -> groupInv p n (foldl groupStep (p, [], ∅) (seq 0 n)).
Proof.
  intros Hwf <-.
  assert (H : forall m, (m <= length p)%nat -> groupInv p m (foldl groupStep (p, [], ∅) (seq 0 m))).
  { induction m as [|m IH]; intros Hm.
    - split; cbn; [done|constructor| | |done|].
      + intros r. rewrite lookup_empty. split; [by intros ?%elem_of_nil|by intros [? ?]].
      + intros r l. by rewrite lookup_empty.
      + intros i r Hi. lia.
    - rewrite seq_snoc, foldl_app. cbn. apply groupStep_inv; [done|lia|]. apply IH. lia. }
  by apply H.
Qed.

(** The groups partition the indices; two indices share a group exactly when
    they have the same root. *)
Lemma groupIndices_spec p n :
  wf p -> length p = n ->
  concat (groupIndices p n) ≡ₚ seq 0 n /\
  (forall g, g ∈ groupIndices p n -> g <> [] /\ StronglySorted lt g) /\
  forall i j, (i < n)%nat -> (j < n)%nat ->
    (exists g, g ∈ groupIndices p n /\ i ∈ g /\ j ∈ g) <-> (exists r, root p i r /\ root p j r).
Proof.
  intros Hwf Hl. unfold groupIndices. pose proof (groupIndices_inv p n Hwf Hl) as [_ Hnd Hdom Hg Hp Hall].
  destruct (foldl groupStep (p, [], ∅) (seq 0 n)) as [[q order] groups]. cbn in *.
  change (map (fun r => default [] (groups !! r)) order) with (map (groupOf groups) order).
  assert (Hin : forall g, g ∈ map (groupOf groups) order <-> exists r, groups !! r = Some g).
  { intros g. rewrite list_elem_of_fmap. split.
    - intros (r & -> & [l Hr]%Hdom). exists r. unfold groupOf. by rewrite Hr.
    - intros (r & Hr). exists r. unfold groupOf. rewrite Hr. split; [done|]. apply Hdom. eauto. }
  split; [done|]. split.
  - intros g (r & Hr)%Hin. destruct (Hg r g Hr) as (H1 & _ & H3). done.
  - intros i j Hi Hj. split.
    + intros (g & (r & Hr)%Hin & Hgi & Hgj). destruct (Hg r g Hr) as (_ & H2 & _). exists r.
      split; [apply (H2 i), Hgi|apply (H2 j), Hgj].
    + intros (r & Hri & Hrj). destruct (Hall i r Hi Hri) as [g Hr]. exists g.
      destruct (Hg r g Hr) as (_ & H2 & _). split; [apply Hin; eauto|]. split; apply H2; done.
Qed.

(** ** Merging *)

Lemma closestPair_bounds centroids :
  (2 <= length centroids)%nat ->
  ((closestPair centroids).1 < (closestPair centroids).2 < length centroids)%nat.
Proof.
  intros Hl. unfold closestPair.
  assert (H : forall l st, (forall i j, (i, j) ∈ l -> (i < j < length centroids)%nat) ->
    (st.1.1 < st.1.2 < length centroids)%nat ->
    ((foldl (pairStep centroids) st l).1.1 < (foldl (pairStep centroids) st l).1.2 < length centroids)%nat).
  { induction l as [|[i j] l IH]; intros [[bi bj] best] Hin Hst; cbn [foldl]; [done|].
    apply IH; [intros; apply Hin; by right|]. unfold pairStep. case_match; [|done].
    apply (Hin i j). by left. }
  apply H; [by intros i j ?%pairsBelow_spec|cbn; lia].
Qed.

Lemma split_at {A} (l : list A) i : (i < length l)%nat ->
  exists l1 x l2, l = l1 ++ x :: l2 /\ length l1 = i.
Proof.
  intros Hi. destruct (lookup_lt_is_Some_2 l i Hi) as [x Hx].
  exists (take i l), x, (drop (S i) l). split; [by rewrite take_drop_middle|].
  rewrite length_take. lia.
Qed.

Section MergeProofs.
Context {A : Type}.
Implicit Types cs : list (list A).

(** Two places of a list, and what removing and replacing there gives. *)
Lemma split_two {B} (l : list B) i j : (i < j < length l)%nat ->
  exists l1 x l2 y l3, l = l1 ++ x :: l2 ++ y :: l3 /\ length l1 = i /\ length (l1 ++ x :: l2) = j.
Proof.
  intros [Hij Hj]. destruct (split_at l i ltac:(lia)) as (l1 & x & d & -> & H1).
  rewrite length_app in Hj. cbn in Hj.
  destruct (split_at d (j - S i)) as (l2 & y & l3 & -> & H2); [lia|].
  exists l1, x, l2, y, l3. split_and!; [done|done|]. rewrite length_app. cbn. lia.
Qed.

Lemma replace_remove {B} (l1 : list B) x l2 y l3 z :
  removeAt (length (l1 ++ x :: l2)) (<[length l1 := z]> (l1 ++ x :: l2 ++ y :: l3)) = l1 ++ z :: l2 ++ l3.
Proof.
  rewrite insert_app_r_alt by lia. rewrite Nat.sub_diag. cbn. unfold removeAt.
  replace (l1 ++ z :: l2 ++ y :: l3) with ((l1 ++ z :: l2) ++ y :: l3) by (by rewrite <- app_assoc).
  assert (E : length (l1 ++ x :: l2) = length (l1 ++ z :: l2)) by (rewrite !length_app; done).
  rewrite E, take_app_length. rewrite drop_app_ge by lia.
  replace (S (length (l1 ++ z :: l2)) - length (l1 ++ z :: l2))%nat with 1%nat by lia.
  cbn. by rewrite <- app_assoc.
Qed.

Lemma removeAt_replace_length {B} (l : list B) i j z :
  (i < j < length l)%nat -> (length (removeAt j (<[i := z]> l)) + 1 = length l)%nat.
Proof.
  intros H. destruct (split_two l i j H) as (l1 & x & l2 & y & l3 & -> & <- & <-).
  rewrite replace_remove, !length_app. cbn. rewrite !length_app. cbn. lia.
Qed.

Lemma mergePair_spec cs i j :
  (i < j < length cs)%nat ->
  concat (mergePair i j cs) ≡ₚ concat cs /\
  (Forall (fun c => c <> []) cs -> Forall (fun c => c <> []) (mergePair i j cs)).
Proof.
  intros H. destruct (split_two cs i j H) as (l1 & x & l2 & y & l3 & -> & <- & <-). unfold mergePair.
  assert (Ex : nth (length l1) (l1 ++ x :: l2 ++ y :: l3) [] = x).
  { rewrite app_nth2 by lia. by rewrite Nat.sub_diag. }
  assert (Ey : nth (length (l1 ++ x :: l2)) (l1 ++ x :: l2 ++ y :: l3) [] = y).
  { replace (l1 ++ x :: l2 ++ y :: l3) with ((l1 ++ x :: l2) ++ y :: l3) by (by rewrite <- app_assoc).
    rewrite app_nth2 by lia. by rewrite Nat.sub_diag. }
  rewrite Ex, Ey, replace_remove. split.
  - rewrite !concat_app. cbn. rewrite !concat_app. cbn. rewrite <- !app_assoc.
    apply Permutation_app_head, Permutation_app_head. rewrite !app_assoc.
    apply Permutation_app_tail, Permutation_app_comm.
  - rewrite !Forall_app, !Forall_cons, !Forall_app, !Forall_cons. intros (H1 & Hx & H2 & Hy & H3).
    split_and!; [done| |done|done]. by destruct x.
Qed.

Lemma mergeLoop_spec fuel maxClusters cs centroids :
  1 <= maxClusters -> length centroids = length cs -> (length cs <= fuel)%nat ->
  let out := mergeLoop fuel maxClusters cs centroids in
  concat out ≡ₚ concat cs /\ (Forall (fun c => c <> []) cs -> Forall (fun c => c <> []) out) /\
  Z.of_nat (length out) <= maxClusters /\ (Z.of_nat (length cs) <= maxClusters -> out = cs).
Proof.
  intros Hm. revert cs centroids. induction fuel as [|fuel IH]; intros cs centroids Hc Hf; cbn [mergeLoop].
  - split_and!; [done|done|lia|done].
  - case_test; bool_to_prop; [|by split_and!].
    destruct (closestPair centroids) as [bi bj] eqn:E.
    assert (Hb : (bi < bj < length cs)%nat).
    { rewrite <- Hc. pose proof (closestPair_bounds centroids ltac:(lia)) as Hb. by rewrite E in Hb. }
    destruct (mergePair_spec cs bi bj Hb) as [Hp Hne].
    pose proof (removeAt_replace_length cs bi bj (nth bi cs [] ++ nth bj cs []) Hb) as Hl.
    pose proof (removeAt_replace_length centroids bi bj
      (centroidOfVectors [vec centroids bi; vec centroids bj]) ltac:(lia)) as Hl2.
    destruct (IH (mergePair bi bj cs)
      (removeAt bj (<[bi := centroidOfVectors [vec centroids bi; vec centroids bj]]> centroids)))
      as (H1 & H2 & H3 & H4); [unfold mergePair; lia|unfold mergePair; lia|].
    split_and!; [by rewrite H1|auto|done|lia].
Qed.
End MergeProofs.

(** Indices to sources. *)
Lemma omap_app_perm {A} (sources : list A) l :
  l ≡ₚ seq 0 (length sources) -> pick sources l ≡ₚ sources.
Proof.
  unfold pick. intros Hp. rewrite Hp. clear Hp l.
  assert (H : forall pre l : list A, pick (pre ++ l) (seq (length pre) (length l)) = l).
  { intros pre l. revert pre. induction l as [|x l IH]; intros pre; [done|].
    unfold pick in *. cbn [length seq omap list_omap].
    rewrite lookup_app_r, Nat.sub_diag by lia. cbn. f_equal.
    specialize (IH (pre ++ [x])). rewrite length_app in IH. cbn in IH.
    rewrite Nat.add_1_r in IH. rewrite <- app_assoc in IH. exact IH. }
  exact (eq_ind_r (fun x => x ≡ₚ sources) (reflexivity sources) (H [] sources)).
Qed.

Lemma concat_pick {A} (sources : list A) ll : concat (map (pick sources) ll) = pick sources (concat ll).
Proof. unfold pick. induction ll as [|l ll IH]; cbn; [done|]. by rewrite IH, omap_app. Qed.

Lemma omap_nonempty {A} (sources : list A) g :
  g <> [] -> (forall i, i ∈ g -> (i < length sources)%nat) -> pick sources g <> [].
Proof.
  destruct g as [|i g]; [done|]. intros _ Hin. cbn.
  destruct (lookup_lt_is_Some_2 sources i) as [x ->]; [apply Hin; by left|done].
Qed.

(** ** Properties *)

Section Claims.
Context {A : Type}.
Implicit Types sources : list A.

(** C29: Clustering loses and repeats no source: the clusters together are a
    permutation of the sources, none of them is empty, and, when every source
    has a vector, there are at most [maxClusters] of them. *)
Theorem clusters_partition maxClusters sources vectors :
  1 <= maxClusters ->
  concat (clusterSources maxClusters sources vectors) ≡ₚ sources /\
  Forall (fun c => c <> []) (clusterSources maxClusters sources vectors) /\
  (length vectors = length sources ->
   Z.of_nat (length (clusterSources maxClusters sources vectors)) <= maxClusters).
Proof.
  intros Hm. unfold clusterSources. destruct (Nat.eqb_spec (length sources) 0) as [E|E].
  { destruct sources; [|done]. split_and!; [done|constructor|cbn; lia]. }
  destruct (Nat.eqb_spec (length vectors) (length sources)) as [Ev|Ev]; cbn [negb].
  2: { split_and!; [by cbn; rewrite app_nil_r|by repeat constructor; destruct sources|done]. }
  set (n := length sources) in *. set (idxs := groupIndices (forest (similar vectors) n) n).
  pose proof (forest_inv (similar vectors) n) as Hinv.
  destruct (groupIndices_spec (forest (similar vectors) n) n (uf_wf _ _ _ Hinv) (uf_len _ _ _ Hinv))
    as (Hp & Hg & _). fold idxs in Hp, Hg.
  destruct (mergeLoop_spec (length (map (pick sources) idxs)) maxClusters
    (map (pick sources) idxs) (map (centroidOf vectors) idxs)) as (H1 & H2 & H3 & _);
    [done|by rewrite !length_map|done|].
  split_and!; [|apply H2|by intros _].
  - rewrite H1, concat_pick. by apply omap_app_perm.
  - apply Forall_forall. intros c (g & -> & Hgi)%list_elem_of_fmap. apply omap_nonempty; [by apply Hg|].
    intros i Hi. assert (Hs : i ∈ seq 0 n).
    { rewrite <- Hp, list_elem_of_In, in_concat. exists g. by rewrite <- !list_elem_of_In. }
    rewrite list_elem_of_In, in_seq in Hs. lia.
Qed.

(** C30: When the topics found are within the limit, the clusters are exactly
    the connected components of the similarity graph (pairs whose cosine is at
    least [clusterSimilarityThreshold]): two sources share a cluster if and
    only if a chain of similar pairs joins them, and each cluster lists its
    sources in their original order. *)
Theorem clusters_are_components maxClusters sources vectors :
  sources <> [] -> length vectors = length sources ->
  let n := length sources in
  exists idxs, concat idxs ≡ₚ seq 0 n /\
    (forall g, g ∈ idxs -> g <> [] /\ StronglySorted lt g) /\
    (forall i j, (i < n)%nat -> (j < n)%nat ->
       (exists g, g ∈ idxs /\ i ∈ g /\ j ∈ g) <-> conn (edge (similar vectors) n) i j) /\
    (1 <= maxClusters -> Z.of_nat (length idxs) <= maxClusters ->
     clusterSources maxClusters sources vectors = map (pick sources) idxs).
Proof.
  intros Hne Hv n. pose proof (forest_inv (similar vectors) n) as Hinv.
  destruct (groupIndices_spec (forest (similar vectors) n) n (uf_wf _ _ _ Hinv) (uf_len _ _ _ Hinv))
    as (Hp & Hg & Hij).
  exists (groupIndices (forest (similar vectors) n) n). split_and!; [done|done| |].
  - intros i j Hi Hj. rewrite Hij by done. split.
    + intros (r & Hri & Hrj). by apply (forest_roots (similar vectors) n i j r r).
    + intros Hc. destruct (proj2 (uf_wf _ _ _ Hinv i ltac:(rewrite (uf_len _ _ _ Hinv); done))) as [ri Hri].
      destruct (proj2 (uf_wf _ _ _ Hinv j ltac:(rewrite (uf_len _ _ _ Hinv); done))) as [rj Hrj].
      exists ri. split; [done|]. by rewrite (proj2 (forest_roots (similar vectors) n i j ri rj Hi Hj Hri Hrj) Hc).
  - intros Hm Hle. unfold clusterSources. fold n. rewrite (proj2 (Nat.eqb_neq n 0)) by (by destruct sources).
    rewrite (proj2 (Nat.eqb_eq (length vectors) n)) by done. cbn [negb].
    apply mergeLoop_spec; [done|by rewrite !length_map|done|by rewrite length_map].
Qed.
End Claims.

Definition toyVectors : list (list f32) :=
  let one := f32ofZ 1 in let zero := S754_zero false in [[one; zero]; [zero; one]; [one; zero]].

Lemma clusters_partition_witness :
  clusterSources 6 ["a"; "b"; "c"] toyVectors = [["a"; "c"]; ["b"]] /\
  concat (clusterSources 1 ["a"; "b"; "c"] toyVectors) ≡ₚ ["a"; "b"; "c"].
Proof.
  split; [vm_compute; reflexivity|].
  apply (clusters_partition 1 ["a"; "b"; "c"] toyVectors). lia.
Defined.

Lemma clusters_are_components_witness :
  exists idxs, concat idxs ≡ₚ seq 0 3 /\
    ((exists g, g ∈ idxs /\ 0%nat ∈ g /\ 2%nat ∈ g) <-> conn (edge (similar toyVectors) 3) 0 2).
Proof.
  destruct (clusters_are_components 6 ["a"; "b"; "c"] toyVectors) as (idxs & H1 & _ & H2 & _);
    [discriminate|reflexivity|].
  exists idxs. split; [exact H1|]. apply (H2 0%nat 2%nat); [cbn; lia|cbn; lia].
Defined.
