(* ===== verification/Civil.v ===== *)
(** * Civil: calendar days, and Go's parsing and formatting of them

    What the program uses of package [time]: days are counted from 1970-01-01
    in the proleptic Gregorian calendar, times are nanoseconds from that
    midnight, and every location is UTC.  [Date] normalises an out-of-range
    month or day as [time.Date] does. *)

From stdpp Require Import pretty.
From S2P Require Import Prelude Utf8 Text.
#[local] Open Scope string_scope.
#[local] Open Scope list_scope.
#[local] Open Scope Z_scope.

(** ** Days *)

(** The day number of a month in 1..12 and any day, counting years from
    1 March so that the leap day is the last of its year. *)
Definition daysOf (y m d : Z) : Z :=
  let y' := if m <=? 2 then y - 1 else y in
  let doy := (153 * ((m + 9) mod 12) + 2) / 5 + d - 1 in
  365 * y' + y' / 4 - y' / 100 + y' / 400 + doy - 719468.

(** Cycles of 400, 100, 4 and 1 years; the last century of an era and the last
    year of a four-year cycle are a day longer. *)
Definition yearOf (doe : Z) : Z :=
  let n100 := Z.min 3 (doe / 36524) in
  let d1 := doe - 36524 * n100 in
  let n4 := d1 / 1461 in
  let d2 := d1 - 1461 * n4 in
  100 * n100 + 4 * n4 + Z.min 3 (d2 / 365).

Definition civilOf (n : Z) : Z * Z * Z :=
  let z := n + 719468 in
  let era := z / 146097 in
  let doe := z mod 146097 in
  let yoe := yearOf doe in
  let doy := doe - (365 * yoe + yoe / 4 - yoe / 100) in
  let mp := (5 * doy + 2) / 153 in
  let d := doy - (153 * mp + 2) / 5 + 1 in
  let m := if mp <? 10 then mp + 3 else mp - 9 in
  ((if m <=? 2 then yoe + era * 400 + 1 else yoe + era * 400), m, d).

Definition Year (n : Z) : Z := (civilOf n).1.1.
Definition Month (n : Z) : Z := (civilOf n).1.2.
Definition Day (n : Z) : Z := (civilOf n).2.

Definition isLeap (y : Z) : bool := (y mod 4 =? 0) && (negb (y mod 100 =? 0) || (y mod 400 =? 0)).

Definition daysIn (m y : Z) : Z :=
  if m =? 2 then if isLeap y then 29 else 28
  else if (m =? 4) || (m =? 6) || (m =? 9) || (m =? 11) then 30 else 31.

Definition validDate (y m d : Z) : bool :=
  (1 <=? m) && (m <=? 12) && (1 <=? d) && (d <=? daysIn m y).

(** [time.Date(y, m, d, 0, 0, 0, 0, UTC)] *)
Definition Date (y m d : Z) : Z :=
  daysOf (y + (m - 1) / 12) ((m - 1) mod 12 + 1) 1 + (d - 1).

(** [t.AddDate(dy, dm, dd)] of a midnight. *)
Definition AddDate (n dy dm dd : Z) : Z :=
  let '(y, m, d) := civilOf n in Date (y + dy) (m + dm) (d + dd).

(** Sunday is 0. *)
Definition Weekday (n : Z) : Z := (n + 4) mod 7.

(** [t.ISOWeek()]: the year and week of the week's Thursday. *)
Definition ISOWeek (n : Z) : Z * Z :=
  let wd := if Weekday n =? 0 then 7 else Weekday n in
  let thursday := n + (4 - wd) in
  (Year thursday, (thursday - Date (Year thursday) 1 1) / 7 + 1).

(** ** Times *)

Definition hourNs : Z := 3600 * 10 ^ 9.
Definition dayNs : Z := 24 * hourNs.

Definition midnight (n : Z) : Z := n * dayNs.

(** [t.Truncate(24 * time.Hour)]: the UTC midnight at or before [t]. *)
Definition TruncateDay (t : Z) : Z := t / dayNs.

(** ** Formats *)

Definition digitChar (n : Z) : ascii := Zbyte (48 + n mod 10).

(** Zero-padded to two and to four digits. *)
Definition pad2 (n : Z) : string :=
  if (0 <=? n) && (n <=? 99) then String (digitChar (n / 10)) (String (digitChar n) "")
  else pretty n.
Definition pad4 (n : Z) : string :=
  if (0 <=? n) && (n <=? 9999)
  then String (digitChar (n / 1000)) (String (digitChar (n / 100))
         (String (digitChar (n / 10)) (String (digitChar n) "")))
  else pretty n.

(** [t.Format("2006-01-02")], and the shorter layouts. *)
Definition formatDay (n : Z) : string :=
  pad4 (Year n) +:+ ("-" +:+ (pad2 (Month n) +:+ ("-" +:+ pad2 (Day n)))).
Definition formatMonth (n : Z) : string := pad4 (Year n) +:+ ("-" +:+ pad2 (Month n)).

(** ** Parsing *)

Definition num2 (a b : ascii) : option Z :=
  x ← digitOf a; y ← digitOf b; Some (10 * x + y).
Definition num4 (a b c d : ascii) : option Z :=
  x ← num2 a b; y ← num2 c d; Some (100 * x + y).

(** [time.Parse] accepts a date that exists. *)
Definition checkedDate (y m d : Z) : option Z :=
  if validDate y m d then Some (daysOf y m d) else None.

Definition parseDay (s : string) : option Z :=
  match s with
  | String a (String b (String c (String d (String s1
      (String e (String f (String s2 (String g (String h ""))))))))) =>
      if Ascii.eqb s1 "-" && Ascii.eqb s2 "-" then
        y ← num4 a b c d; m ← num2 e f; dd ← num2 g h; checkedDate y m dd
      else None
  | _ => None
  end.

Definition parseMonth (s : string) : option Z :=
  match s with
  | String a (String b (String c (String d (String s1 (String e (String f "")))))) =>
      if Ascii.eqb s1 "-" then y ← num4 a b c d; m ← num2 e f; checkedDate y m 1 else None
  | _ => None
  end.

Definition parseYear (s : string) : option Z :=
  match s with
  | String a (String b (String c (String d ""))) => y ← num4 a b c d; checkedDate y 1 1
  | _ => None
  end.

(** ** [fmt.Sscanf(s, "%d-W%d", &x, &y)] *)

(** [unicode.IsSpace] *)
Definition isSpace (r : Z) : bool :=
  (9 <=? r) && (r <=? 13) || (r =? 32) || (r =? 133) || (r =? 160) || (r =? 5760) ||
  (8192 <=? r) && (r <=? 8202) || (r =? 8232) || (r =? 8233) || (r =? 8239) || (r =? 8287) ||
  (r =? 12288).

(** Spaces before a number; a newline is an error. *)
Fixpoint skipSpace (rs : list Z) : option (list Z) :=
  match rs with
  | [] => Some []
  | r :: rs' => if r =? 10 then None else if isSpace r then skipSpace rs' else Some rs
  end.

(** The digits at the head of the input and what follows them. *)
Fixpoint scanDigits (rs : list Z) (acc : Z) : Z * list Z :=
  match rs with
  | r :: rs' => if (48 <=? r) && (r <=? 57) then scanDigits rs' (10 * acc + (r - 48)) else (acc, rs)
  | [] => (acc, [])
  end.

(** [%d] into an [int]. *)
Definition scanInt (rs : list Z) : option (Z * list Z) :=
  rs ← skipSpace rs;
  let '(sign, rs) := match rs with
                     | 45 :: rs' => (-1, rs')
                     | 43 :: rs' => (1, rs')
                     | _ => (1, rs)
                     end in
  match rs with
  | r :: _ =>
      if (48 <=? r) && (r <=? 57) then
        let '(v, rest) := scanDigits rs 0 in
        if (- 2 ^ 63 <=? sign * v) && (sign * v <? 2 ^ 63) then Some (sign * v, rest) else None
      else None
  | [] => None
  end.

Definition scanYearWeek (s : string) : option (Z * Z) :=
  '(year, rest) ← scanInt (runes s);
  match rest with
  | 45 :: 87 :: rest' => '(week, _) ← scanInt rest'; Some (year, week)
  | _ => None
  end.

(** ** Lemmas: months *)

(** The first day of the [k]-th month after January of the year 0. *)
Definition monthStart (k : Z) : Z := daysOf (k / 12) (k mod 12 + 1) 1.

Lemma div_step y c : 0 < c ->
  (y mod c = 0 /\ y / c = (y - 1) / c + 1) \/ (y mod c <> 0 /\ y / c = (y - 1) / c).
Proof.
  intros Hc. pose proof (Z.div_mod y c ltac:(lia)) as H1.
  pose proof (Z.mod_pos_bound y c Hc) as H2.
  destruct (decide (y mod c = 0)) as [E|E]; [left|right]; (split; [done|]).
  - rewrite <- (Z.div_unique (y - 1) c (y / c - 1) (c - 1)); lia.
  - rewrite <- (Z.div_unique (y - 1) c (y / c) (y mod c - 1)); lia.
Qed.

(** The number of leap days grows by one in a leap year. *)
Lemma isLeap_spec y :
  (y / 4 - y / 100 + y / 400) - ((y - 1) / 4 - (y - 1) / 100 + (y - 1) / 400) =
  if isLeap y then 1 else 0.
Proof.
  assert (H100 : y mod 100 = 0 -> y mod 4 = 0).
  { intros [k ->]%Z.mod_divide; [|lia]. replace (k * 100) with (k * 25 * 4) by lia. by apply Z.mod_mul. }
  assert (H400 : y mod 400 = 0 -> y mod 100 = 0).
  { intros [k ->]%Z.mod_divide; [|lia]. replace (k * 400) with (k * 4 * 100) by lia. by apply Z.mod_mul. }
  unfold isLeap.
  pose proof (div_step y 4 ltac:(lia)) as D4. pose proof (div_step y 100 ltac:(lia)) as D1.
  pose proof (div_step y 400 ltac:(lia)) as D5.
  destruct (Z.eqb_spec (y mod 4) 0); destruct (Z.eqb_spec (y mod 100) 0);
    destruct (Z.eqb_spec (y mod 400) 0); cbn [andb orb negb];
    destruct D4 as [[? ->]|[? ->]]; destruct D1 as [[? ->]|[? ->]]; destruct D5 as [[? ->]|[? ->]];
    first [tauto|lia].
Qed.

Lemma daysOf_day y m d : daysOf y m d = daysOf y m 1 + (d - 1).
Proof. unfold daysOf. lia. Qed.

Lemma month_length y m :
  1 <= m <= 12 ->
  daysOf (if m =? 12 then y + 1 else y) (if m =? 12 then 1 else m + 1) 1 = daysOf y m 1 + daysIn m y.
Proof.
  intros Hm.
  assert (Hc : m = 1 \/ m = 2 \/ m = 3 \/ m = 4 \/ m = 5 \/ m = 6 \/ m = 7 \/ m = 8 \/ m = 9 \/
               m = 10 \/ m = 11 \/ m = 12) by lia.
  pose proof (isLeap_spec y) as HL.
  repeat destruct Hc as [->|Hc]; try subst m; unfold daysOf, daysIn;
    repeat match goal with
    | |- context [?a <=? 2] => let v := eval vm_compute in (a <=? 2) in change (a <=? 2) with v
    | |- context [?a =? ?b] => let v := eval vm_compute in (a =? b) in change (a =? b) with v
    | |- context [(153 * ?e + 2) / 5] =>
        let v := eval vm_compute in ((153 * e + 2) / 5) in change ((153 * e + 2) / 5) with v
    end; cbv beta iota zeta delta [orb]; rewrite ?Z.add_simpl_r; try lia.
  destruct (isLeap y); lia.
Qed.

Lemma month_div k m : 0 <= m < 12 -> (12 * k + m) / 12 = k /\ (12 * k + m) mod 12 = m.
Proof. intros H. split; [symmetry; apply (Z.div_unique _ _ _ m)|symmetry; apply (Z.mod_unique _ _ k)]; lia. Qed.

Lemma monthStart_succ k : monthStart (k + 1) = monthStart k + daysIn (k mod 12 + 1) (k / 12).
Proof.
  unfold monthStart. pose proof (Z.div_mod k 12 ltac:(lia)) as Hk.
  pose proof (Z.mod_pos_bound k 12 ltac:(lia)) as Hr.
  set (q := k / 12) in *. set (r := k mod 12) in *.
  rewrite <- (month_length q (r + 1)) by lia.
  destruct (Z.eqb_spec (r + 1) 12) as [E|E].
  - assert (r = 11) as Hr11 by lia. destruct (month_div (q + 1) 0 ltac:(lia)) as [H1 H2].
    replace (12 * (q + 1) + 0) with (k + 1) in H1, H2 by lia. by rewrite H1, H2.
  - destruct (month_div q (r + 1) ltac:(lia)) as [H1 H2].
    replace (12 * q + (r + 1)) with (k + 1) in H1, H2 by lia. by rewrite H1, H2.
Qed.

Lemma daysIn_bounds m y : 28 <= daysIn m y <= 31.
Proof. unfold daysIn. repeat case_match; lia. Qed.

Lemma monthStart_lt k k' : k < k' -> monthStart k + daysIn (k mod 12 + 1) (k / 12) <= monthStart k'.
Proof.
  intros Hk. replace k' with (k + 1 + Z.of_nat (Z.to_nat (k' - k - 1))) by lia.
  induction (Z.to_nat (k' - k - 1)) as [|n IH].
  - rewrite Z.add_0_r, monthStart_succ. lia.
  - replace (k + 1 + Z.of_nat (S n)) with (k + 1 + Z.of_nat n + 1) by lia.
    rewrite (monthStart_succ (k + 1 + Z.of_nat n)). pose proof (daysIn_bounds ((k + 1 + Z.of_nat n) mod 12 + 1) ((k + 1 + Z.of_nat n) / 12)). lia.
Qed.

Lemma Date_monthStart y m d : Date y m d = monthStart (12 * y + (m - 1)) + (d - 1).
Proof.
  unfold Date, monthStart. pose proof (Z.div_mod (m - 1) 12 ltac:(lia)) as H.
  pose proof (Z.mod_pos_bound (m - 1) 12 ltac:(lia)) as Hr.
  destruct (month_div (y + (m - 1) / 12) ((m - 1) mod 12) ltac:(lia)) as [H1 H2].
  replace (12 * (y + (m - 1) / 12) + (m - 1) mod 12) with (12 * y + (m - 1)) in H1, H2 by lia.
  by rewrite H1, H2.
Qed.

Lemma daysOf_monthStart y m d : 1 <= m <= 12 -> daysOf y m d = monthStart (12 * y + (m - 1)) + (d - 1).
Proof.
  intros Hm. unfold monthStart. destruct (month_div y (m - 1) ltac:(lia)) as [-> ->].
  replace (m - 1 + 1) with m by lia. apply daysOf_day.
Qed.

Lemma validDate_spec y m d : validDate y m d = true <-> 1 <= m <= 12 /\ 1 <= d <= daysIn m y.
Proof. unfold validDate. rewrite !andb_true_iff, !Z.leb_le. lia. Qed.

Lemma daysOf_inj y m d y' m' d' :
  validDate y m d = true -> validDate y' m' d' = true ->
  daysOf y m d = daysOf y' m' d' -> (y, m, d) = (y', m', d').
Proof.
  rewrite !validDate_spec. intros [Hm Hd] [Hm' Hd'] E. rewrite !daysOf_monthStart in E by done.
  assert (Hk : forall y m, 1 <= m <= 12 -> (12 * y + (m - 1)) / 12 = y /\ (12 * y + (m - 1)) mod 12 + 1 = m).
  { intros y0 m0 H. destruct (month_div y0 (m0 - 1) ltac:(lia)) as [-> ->]. lia. }
  destruct (Hk y m Hm) as [H1 H2]. destruct (Hk y' m' Hm') as [H1' H2'].
  destruct (Z.lt_total (12 * y + (m - 1)) (12 * y' + (m' - 1))) as [Hlt|[Heq|Hlt]].
  - pose proof (monthStart_lt _ _ Hlt) as H. rewrite H1, H2 in H. lia.
  - rewrite Heq in E. f_equal; [|lia]. f_equal; lia.
  - pose proof (monthStart_lt _ _ Hlt) as H. rewrite H1', H2' in H. lia.
Qed.

(** ** Lemmas: days to dates and back *)

Lemma daysOf_era y m d k : daysOf (y + 400 * k) m d = daysOf y m d + 146097 * k.
Proof.
  assert (H : forall z, 365 * (z + 400 * k) + (z + 400 * k) / 4 - (z + 400 * k) / 100 + (z + 400 * k) / 400 =
    365 * z + z / 4 - z / 100 + z / 400 + 146097 * k).
  { intros z. replace (z + 400 * k) with (z + (100 * k) * 4) at 2 by lia.
    replace (z + 400 * k) with (z + (4 * k) * 100) at 2 by lia.
    replace (z + 400 * k) with (z + k * 400) at 2 by lia. rewrite !Z.div_add by lia. lia. }
  unfold daysOf. destruct (m <=? 2); [replace (y + 400 * k - 1) with (y - 1 + 400 * k) by lia|]; rewrite H; lia.
Qed.

(** [f] holds of [0 .. n-1]. *)
Definition checkBelow (f : Z -> bool) (n : positive) : bool :=
  (Pos.iter (fun '(i, ok) => (i + 1, ok && f i)) (0, true) n).2.

Lemma checkBelow_spec f n : checkBelow f n = true -> forall i, 0 <= i < Zpos n -> f i = true.
Proof.
  unfold checkBelow. set (g := fun '(i, ok) => (i + 1, ok && f i)).
  assert (H : (Pos.iter g (0, true) n).1 = Zpos n /\
    ((Pos.iter g (0, true) n).2 = true -> forall i, 0 <= i < Zpos n -> f i = true)).
  { induction n as [|n [IH1 IH2]] using Pos.peano_ind.
    - split; [done|]. cbn. intros Hf i Hi. assert (i = 0) as -> by lia. done.
    - rewrite Pos.iter_succ. destruct (Pos.iter g (0, true) n) as [j ok] eqn:E. cbn in *. subst j.
      split; [lia|]. intros [H1 H2]%andb_true_iff i Hi.
      destruct (decide (i = Zpos n)) as [->|]; [done|]. apply IH2; [done|lia]. }
  apply H.
Qed.

(** What the month and day computed from the day of a March-based year are. *)
Definition monthOk (doy : Z) : bool :=
  let mp := (5 * doy + 2) / 153 in
  let d := doy - (153 * mp + 2) / 5 + 1 in
  let m := if mp <? 10 then mp + 3 else mp - 9 in
  (1 <=? m) && (m <=? 12) && (1 <=? d) && ((m + 9) mod 12 =? mp) &&
  ((d <=? daysIn m 1) || ((m =? 2) && (d =? 29) && (doy =? 365))).

Lemma month_check : checkBelow monthOk 366 = true.
Proof. vm_compute. reflexivity. Qed.

(** The year of an era a day lies in, and the day's place in that year. *)
Lemma yearOf_spec doe : 0 <= doe < 146097 ->
  let yoe := yearOf doe in
  let doy := doe - (365 * yoe + yoe / 4 - yoe / 100) in
  0 <= yoe < 400 /\ 0 <= doy <= 365 /\ (doy = 365 -> isLeap (yoe + 1) = true).
Proof.
  intros Hd. unfold yearOf. set (a := Z.min 3 (doe / 36524)). set (d1 := doe - 36524 * a).
  set (b := d1 / 1461). set (d2 := d1 - 1461 * b). set (c := Z.min 3 (d2 / 365)). cbv zeta.
  assert (Ha : 0 <= a <= 3 /\ 0 <= d1 <= 36524 /\ (d1 = 36524 -> a = 3)).
  { unfold d1, a. pose proof (Z.div_mod doe 36524 ltac:(lia)). pose proof (Z.mod_pos_bound doe 36524 ltac:(lia)). lia. }
  assert (Hb : 0 <= b <= 24 /\ 0 <= d2 <= 1460 /\ (b = 24 -> d2 = 1460 -> a = 3)).
  { unfold d2, b. pose proof (Z.div_mod d1 1461 ltac:(lia)). pose proof (Z.mod_pos_bound d1 1461 ltac:(lia)). lia. }
  assert (Hc : 0 <= c <= 3 /\ 0 <= d2 - 365 * c <= 365 /\ (d2 - 365 * c = 365 -> c = 3)).
  { unfold c. pose proof (Z.div_mod d2 365 ltac:(lia)). pose proof (Z.mod_pos_bound d2 365 ltac:(lia)). lia. }
  assert (Ed1 : d1 = doe - 36524 * a) by done. assert (Ed2 : d2 = d1 - 1461 * b) by done.
  clearbody a b c d1 d2.
  assert (E4 : (100 * a + 4 * b + c) / 4 = 25 * a + b).
  { symmetry. apply (Z.div_unique _ _ _ c); lia. }
  assert (E100 : (100 * a + 4 * b + c) / 100 = a).
  { symmetry. apply (Z.div_unique _ _ _ (4 * b + c)); lia. }
  rewrite E4, E100. split_and!; [lia|lia|lia|lia|]. intros H365.
  assert (Hc3 : c = 3 /\ d2 = 1460) by lia. destruct Hc3 as [-> Hd2]. unfold isLeap.
  destruct (decide (b = 24)) as [->|Hb24]; [assert (a = 3) as -> by lia; reflexivity|].
  rewrite <- (Z.mod_unique (100 * a + 4 * b + 3 + 1) 4 (25 * a + b + 1) 0) by lia.
  rewrite <- (Z.mod_unique (100 * a + 4 * b + 3 + 1) 100 a (4 * b + 4)) by lia.
  rewrite (proj2 (Z.eqb_neq (4 * b + 4) 0)) by lia. done.
Qed.

Lemma isLeap_era y k : isLeap (y + 400 * k) = isLeap y.
Proof.
  unfold isLeap. replace (y + 400 * k) with (y + (100 * k) * 4) at 1 by lia. rewrite Z.mod_add by lia.
  replace (y + 400 * k) with (y + (4 * k) * 100) at 1 by lia. rewrite Z.mod_add by lia.
  replace (y + 400 * k) with (y + k * 400) by lia. by rewrite Z.mod_add by lia.
Qed.

(** Every day has a date, and it is that date's day. *)
Lemma civilOf_spec n :
  let '(y, m, d) := civilOf n in validDate y m d = true /\ daysOf y m d = n.
Proof.
  unfold civilOf. cbv zeta.
  pose proof (Z.div_mod (n + 719468) 146097 ltac:(lia)) as Hn.
  pose proof (Z.mod_pos_bound (n + 719468) 146097 ltac:(lia)) as Hr.
  set (k := (n + 719468) / 146097) in *. set (r := (n + 719468) mod 146097) in *.
  destruct (yearOf_spec r Hr) as (Hy & Hdoy & Hleap). set (y := yearOf r) in *.
  set (doy := r - (365 * y + y / 4 - y / 100)) in *.
  pose proof (checkBelow_spec _ _ month_check doy ltac:(lia)) as Hm. unfold monthOk in Hm.
  set (mp := (5 * doy + 2) / 153) in *. set (m := if mp <? 10 then mp + 3 else mp - 9) in *.
  set (d := doy - (153 * mp + 2) / 5 + 1) in *.
  rewrite !andb_true_iff, orb_true_iff, !Z.leb_le in Hm.
  destruct Hm as ((((Hm1 & Hm2) & Hd1) & Hmp%Z.eqb_eq) & Hd2). split.
  - apply validDate_spec. split; [done|]. split; [done|].
    destruct Hd2 as [Hd2|[[->%Z.eqb_eq ->%Z.eqb_eq]%andb_true_iff H365%Z.eqb_eq]%andb_true_iff].
    + etrans; [exact Hd2|]. unfold daysIn. repeat case_match; done.
    + cbn. replace (y + k * 400 + 1) with (y + 1 + 400 * k) by lia. rewrite isLeap_era, Hleap by done. done.
  - destruct (m <=? 2) eqn:E.
    + replace (y + k * 400 + 1) with (y + 1 + 400 * k) by lia. rewrite daysOf_era.
      unfold daysOf. rewrite E, Hmp, Z.add_simpl_r, (Z.div_small y 400) by lia. lia.
    + replace (y + k * 400) with (y + 400 * k) by lia. rewrite daysOf_era.
      unfold daysOf. rewrite E, Hmp, (Z.div_small y 400) by lia. lia.
Qed.

Lemma civilOf_daysOf y m d : validDate y m d = true -> civilOf (daysOf y m d) = (y, m, d).
Proof.
  intros Hv. pose proof (civilOf_spec (daysOf y m d)) as H.
  destruct (civilOf (daysOf y m d)) as [[y' m'] d']. destruct H as [Hv' E]. by apply daysOf_inj.
Qed.

Lemma AddDate_days n k : AddDate n 0 0 k = n + k.
Proof.
  unfold AddDate. pose proof (civilOf_spec n) as H. destruct (civilOf n) as [[y m] d].
  destruct H as [[Hm Hd]%validDate_spec <-]. rewrite Date_monthStart, daysOf_monthStart by done.
  replace (12 * (y + 0) + (m + 0 - 1)) with (12 * y + (m - 1)) by lia. lia.
Qed.

(** The first of the month [k] months later. *)
Lemma AddDate_first y m dy dm :
  1 <= m <= 12 -> AddDate (daysOf y m 1) dy dm 0 = monthStart (12 * (y + dy) + (m + dm - 1)).
Proof.
  intros Hm. unfold AddDate. rewrite civilOf_daysOf.
  2: { apply validDate_spec. split; [done|]. pose proof (daysIn_bounds m y). lia. }
  rewrite Date_monthStart. lia.
Qed.

(** ** Lemmas: years and weeks *)

Lemma monthStart_le k k' : k <= k' -> monthStart k <= monthStart k'.
Proof.
  intros H. destruct (decide (k = k')) as [->|Hne]; [lia|].
  pose proof (monthStart_lt k k' ltac:(lia)). pose proof (daysIn_bounds (k mod 12 + 1) (k / 12)). lia.
Qed.

(** A day lies in its month, and in no other. *)
Lemma month_spec n y m :
  1 <= m <= 12 ->
  (Year n = y /\ Month n = m) <-> monthStart (12 * y + (m - 1)) <= n < monthStart (12 * y + m).
Proof.
  intros Hm. unfold Year, Month. pose proof (civilOf_spec n) as H.
  destruct (civilOf n) as [[y' m'] d']. destruct H as [[Hm' Hd']%validDate_spec E]. cbn.
  rewrite daysOf_monthStart in E by done.
  destruct (month_div y' (m' - 1) ltac:(lia)) as [E1 E2].
  pose proof (monthStart_succ (12 * y' + (m' - 1))) as Hs. rewrite E1, E2 in Hs.
  replace (m' - 1 + 1) with m' in Hs by lia.
  split.
  - intros [-> ->]. replace (12 * y + m) with (12 * y + (m - 1) + 1) by lia. lia.
  - intros Hn. destruct (Z.lt_total (12 * y + (m - 1)) (12 * y' + (m' - 1))) as [Hlt|[Heq|Hlt]].
    + pose proof (monthStart_le (12 * y + m) (12 * y' + (m' - 1)) ltac:(lia)). lia.
    + lia.
    + pose proof (monthStart_le (12 * y' + (m' - 1) + 1) (12 * y + (m - 1)) ltac:(lia)). lia.
Qed.

Lemma Month_bounds n : 1 <= Month n <= 12.
Proof.
  unfold Month. pose proof (civilOf_spec n) as H. destruct (civilOf n) as [[y m] d].
  by destruct H as [[Hm _]%validDate_spec _].
Qed.

Lemma Year_spec n y : Year n = y <-> Date y 1 1 <= n < Date (y + 1) 1 1.
Proof.
  rewrite !Date_monthStart. replace (12 * (y + 1) + (1 - 1)) with (12 * y + 12) by lia.
  pose proof (Month_bounds n) as Hm. split.
  - intros Hy. destruct (proj1 (month_spec n y (Month n) Hm)) as [H1 H2]; [done|].
    pose proof (monthStart_le (12 * y + (1 - 1)) (12 * y + (Month n - 1)) ltac:(lia)).
    pose proof (monthStart_le (12 * y + Month n) (12 * y + 12) ltac:(lia)). lia.
  - intros Hn. destruct (proj1 (month_spec n (Year n) (Month n) Hm)) as [H1 H2]; [done|].
    destruct (Z.lt_total (Year n) y) as [Hlt|[?|Hlt]]; [|done|].
    + pose proof (monthStart_le (12 * Year n + Month n) (12 * y + (1 - 1)) ltac:(lia)). lia.
    + pose proof (monthStart_le (12 * y + 12) (12 * Year n + (Month n - 1)) ltac:(lia)). lia.
Qed.

Lemma year_length y : Date (y + 1) 1 1 = Date y 1 1 + 365 + if isLeap y then 1 else 0.
Proof.
  rewrite <- isLeap_spec. unfold Date.
  change ((1 - 1) / 12) with 0. change ((1 - 1) mod 12 + 1) with 1.
  unfold daysOf. cbn [Z.leb Z.compare]. change (1 <=? 2) with true. cbv iota.
  replace (y + 1 + 0 - 1) with y by lia. replace (y + 0 - 1) with (y - 1) by lia. lia.
Qed.

(** ** Lemmas: digits *)

Lemma digitOf_digitChar n : digitOf (digitChar n) = Some (n mod 10).
Proof.
  pose proof (Z.mod_pos_bound n 10 ltac:(lia)) as H. unfold digitChar, digitOf.
  rewrite byteZ_Zbyte by lia. rewrite (proj2 (Z.leb_le 48 _)), (proj2 (Z.leb_le _ 57)) by lia.
  cbn. f_equal. lia.
Qed.

Lemma digitOf_inv a x : digitOf a = Some x -> 0 <= x <= 9 /\ a = Zbyte (48 + x).
Proof.
  unfold digitOf. destruct (_ && _) eqn:E; [|done]. bool_to_prop. intros [= <-]. split; [lia|].
  rewrite <- (Zbyte_byteZ a) at 1. f_equal. lia.
Qed.

Lemma num2_digits n : 0 <= n <= 99 -> num2 (digitChar (n / 10)) (digitChar n) = Some n.
Proof.
  intros Hn. unfold num2. rewrite !digitOf_digitChar. cbn [mbind option_bind]. f_equal.
  pose proof (Z.div_mod n 10 ltac:(lia)). pose proof (Z.mod_pos_bound n 10 ltac:(lia)).
  rewrite (Z.mod_small (n / 10) 10) by lia. lia.
Qed.

Lemma num4_digits n : 0 <= n <= 9999 ->
  num4 (digitChar (n / 1000)) (digitChar (n / 100)) (digitChar (n / 10)) (digitChar n) = Some n.
Proof.
  intros Hn. unfold num4, num2. rewrite !digitOf_digitChar. cbn [mbind option_bind]. f_equal.
  replace (n / 1000) with (n / 10 / 10 / 10) by (rewrite !Z.div_div by lia; done).
  replace (n / 100) with (n / 10 / 10) by (rewrite !Z.div_div by lia; done).
  pose proof (Z.div_mod n 10 ltac:(lia)). pose proof (Z.div_mod (n / 10) 10 ltac:(lia)).
  pose proof (Z.div_mod (n / 10 / 10) 10 ltac:(lia)).
  pose proof (Z.mod_pos_bound n 10 ltac:(lia)). pose proof (Z.mod_pos_bound (n / 10) 10 ltac:(lia)).
  pose proof (Z.mod_pos_bound (n / 10 / 10) 10 ltac:(lia)).
  rewrite (Z.mod_small (n / 10 / 10 / 10) 10) by lia. lia.
Qed.

Lemma num2_inv a b n : num2 a b = Some n -> 0 <= n <= 99 /\ String a (String b "") = pad2 n.
Proof.
  unfold num2. destruct (digitOf a) as [x|] eqn:Ea; [|done]. destruct (digitOf b) as [y|] eqn:Eb; [|done].
  cbn [mbind option_bind]. intros [= <-]. apply digitOf_inv in Ea as [Hx ->]. apply digitOf_inv in Eb as [Hy ->].
  split; [lia|]. unfold pad2. rewrite (proj2 (Z.leb_le 0 _)), (proj2 (Z.leb_le _ 99)) by lia. cbn [andb].
  unfold digitChar. rewrite <- (Z.div_unique (10 * x + y) 10 x y) by lia.
  rewrite <- (Z.mod_unique (10 * x + y) 10 x y), <- (Z.mod_unique x 10 0 x) by lia. done.
Qed.

Lemma num4_inv a b c d n :
  num4 a b c d = Some n -> 0 <= n <= 9999 /\ String a (String b (String c (String d ""))) = pad4 n.
Proof.
  unfold num4, num2. destruct (digitOf a) as [x|] eqn:Ea; [|done]. destruct (digitOf b) as [y|] eqn:Eb; [|done].
  destruct (digitOf c) as [z|] eqn:Ec; [|done]. destruct (digitOf d) as [u|] eqn:Ed; [|done].
  cbn [mbind option_bind]. intros [= <-]. apply digitOf_inv in Ea as [Hx ->]. apply digitOf_inv in Eb as [Hy ->].
  apply digitOf_inv in Ec as [Hz ->]. apply digitOf_inv in Ed as [Hu ->].
  split; [lia|]. unfold pad4. rewrite (proj2 (Z.leb_le 0 _)), (proj2 (Z.leb_le _ 9999)) by lia. cbn [andb].
  set (n := 100 * (10 * x + y) + (10 * z + u)).
  assert (E1 : n / 10 = 100 * x + 10 * y + z) by (symmetry; apply (Z.div_unique _ _ _ u); lia).
  assert (E2 : n / 100 = 10 * x + y) by (symmetry; apply (Z.div_unique _ _ _ (10 * z + u)); lia).
  assert (E3 : n / 1000 = x) by (symmetry; apply (Z.div_unique _ _ _ (100 * y + 10 * z + u)); lia).
  unfold digitChar. rewrite E1, E2, E3.
  rewrite <- (Z.mod_unique x 10 0 x), <- (Z.mod_unique (10 * x + y) 10 x y),
    <- (Z.mod_unique (100 * x + 10 * y + z) 10 (10 * x + y) z),
    <- (Z.mod_unique n 10 (100 * x + 10 * y + z) u) by lia. done.
Qed.

(** ** Lemmas: printing and parsing *)

Lemma parseDay_format n : 0 <= Year n <= 9999 -> parseDay (formatDay n) = Some n.
Proof.
  unfold formatDay, Year, Month, Day. pose proof (civilOf_spec n) as H.
  destruct (civilOf n) as [[y m] d]. cbn [fst snd]. destruct H as [Hv E]. intros Hy.
  pose proof Hv as [Hm Hd]%validDate_spec. pose proof (daysIn_bounds m y) as Hb.
  unfold pad4, pad2. rewrite !(proj2 (Z.leb_le _ _)) by lia. cbn [andb String.append].
  unfold parseDay. rewrite num4_digits, !num2_digits by lia. cbn [mbind option_bind].
  unfold checkedDate. by rewrite Hv, E.
Qed.

(** A day is parsed from its formatted string only. *)
Lemma parseDay_inv s n : parseDay s = Some n -> s = formatDay n /\ 0 <= Year n <= 9999.
Proof.
  unfold parseDay.
  destruct s as [|a [|b [|c [|d [|s1 [|e [|f [|s2 [|g [|h []]]]]]]]]]]; try done.
  destruct (Ascii.eqb_spec s1 "-") as [->|]; [|done].
  destruct (Ascii.eqb_spec s2 "-") as [->|]; [|done]. cbn [andb].
  destruct (num4 a b c d) as [y|] eqn:Ey; [|done]. destruct (num2 e f) as [m|] eqn:Em; [|done].
  destruct (num2 g h) as [dd|] eqn:Ed; [|done]. cbn [mbind option_bind].
  unfold checkedDate. destruct (validDate y m dd) eqn:Hv; [|done]. intros [= <-].
  apply num4_inv in Ey as [Hy Ey]. apply num2_inv in Em as [Hm Em]. apply num2_inv in Ed as [Hd Ed].
  unfold formatDay, Year, Month, Day. rewrite civilOf_daysOf by done. cbn [fst snd].
  rewrite <- Ey, <- Em, <- Ed. split; [done|lia].
Qed.

(** *** Scanning *)

Lemma runes_digit n rest : runes (String (digitChar n) rest) = 48 + n mod 10 :: runes rest.
Proof.
  pose proof (Z.mod_pos_bound n 10 ltac:(lia)). unfold digitChar. cbn [runes].
  rewrite byteZ_Zbyte by lia. by rewrite (proj2 (Z.ltb_lt _ _)) by lia.
Qed.

Definition isDigits (ds : list Z) : Prop := Forall (fun x => 0 <= x <= 9) ds.
Definition notDigit (rs : list Z) : Prop := forall r, head rs = Some r -> r < 48 \/ 57 < r.

Lemma scanDigits_app ds rest acc :
  isDigits ds -> notDigit rest ->
  scanDigits (map (Z.add 48) ds ++ rest) acc = (foldl (fun v x => 10 * v + x) acc ds, rest).
Proof.
  intros Hds Hrest. revert acc. induction Hds as [|x ds Hx _ IH]; intros acc; cbn [map app foldl].
  - destruct rest as [|r rest]; [done|]. cbn [scanDigits]. specialize (Hrest r eq_refl).
    destruct ((48 <=? r) && (r <=? 57)) eqn:E; [bool_to_prop; lia|done].
  - cbn [scanDigits]. rewrite !(proj2 (Z.leb_le _ _)) by lia. cbn [andb]. rewrite IH. do 2 f_equal. lia.
Qed.

Lemma scanInt_digits x ds rest :
  isDigits (x :: ds) -> notDigit rest ->
  0 <= foldl (fun v x => 10 * v + x) 0 (x :: ds) < 2 ^ 63 ->
  scanInt (map (Z.add 48) (x :: ds) ++ rest) =
    Some (foldl (fun v x => 10 * v + x) 0 (x :: ds), rest).
Proof.
  intros Hds Hrest Hv. pose proof Hds as [Hx _]%Forall_cons.
  assert (Hc : x = 0 \/ x = 1 \/ x = 2 \/ x = 3 \/ x = 4 \/ x = 5 \/ x = 6 \/ x = 7 \/ x = 8 \/ x = 9) by lia.
  assert (Hskip : skipSpace (map (Z.add 48) (x :: ds) ++ rest) = Some (map (Z.add 48) (x :: ds) ++ rest) /\
    (match map (Z.add 48) (x :: ds) ++ rest with
     | 45 :: rs' => (-1, rs') | 43 :: rs' => (1, rs') | _ => (1, map (Z.add 48) (x :: ds) ++ rest)
     end = (1, map (Z.add 48) (x :: ds) ++ rest))).
  { clear Hv Hds. repeat destruct Hc as [->|Hc]; try subst x; done. }
  destruct Hskip as [H1 H2]. unfold scanInt. rewrite H1. cbn [mbind option_bind]. rewrite H2.
  rewrite (scanDigits_app (x :: ds) rest 0) by done. cbn [map app].
  rewrite !(proj2 (Z.leb_le _ _)) by lia. cbn [andb].
  rewrite !Z.mul_1_l, (proj2 (Z.ltb_lt _ _)) by lia. done.
Qed.

(** The week periods the program writes are read back. *)
Definition formatWeek (y w : Z) : string := pad4 y +:+ ("-W" +:+ pad2 w).

Lemma runes_ascii_cons a rest : (byteZ a <? 128) = true -> runes (String a rest) = byteZ a :: runes rest.
Proof. intros H. cbn [runes]. by rewrite H. Qed.

Lemma scanYearWeek_format y w :
  0 <= y <= 9999 -> 0 <= w <= 99 -> scanYearWeek (formatWeek y w) = Some (y, w).
Proof.
  intros Hy Hw. unfold formatWeek, pad4, pad2. rewrite !(proj2 (Z.leb_le _ _)) by lia.
  cbn [andb String.append]. unfold scanYearWeek.
  rewrite !runes_digit, (runes_ascii_cons "-" _ eq_refl), (runes_ascii_cons "W" _ eq_refl), !runes_digit. cbn [runes].
  change (byteZ "-") with 45. change (byteZ "W") with 87.
  pose proof (num4_digits y Hy) as E4. unfold num4, num2 in E4. rewrite !digitOf_digitChar in E4.
  pose proof (num2_digits w Hw) as E2. unfold num2 in E2. rewrite !digitOf_digitChar in E2.
  cbn [mbind option_bind] in E4, E2. injection E4 as E4. injection E2 as E2.
  assert (Hb : forall z, 0 <= z mod 10 <= 9) by (intros z; pose proof (Z.mod_pos_bound z 10); lia).
  pose proof (scanInt_digits ((y / 1000) mod 10) [(y / 100) mod 10; (y / 10) mod 10; y mod 10]
    (45 :: 87 :: 48 + (w / 10) mod 10 :: 48 + w mod 10 :: [])) as S1.
  cbn [map app foldl] in S1.
  replace (10 * (10 * (10 * (10 * 0 + (y / 1000) mod 10) + (y / 100) mod 10) + (y / 10) mod 10) + y mod 10)
    with y in S1 by lia.
  rewrite S1; [|repeat constructor; apply Hb|intros r [= <-]; lia|lia].
  cbn [mbind option_bind].
  pose proof (scanInt_digits ((w / 10) mod 10) [w mod 10] []) as S2. cbn [map app foldl] in S2.
  replace (10 * (10 * 0 + (w / 10) mod 10) + w mod 10) with w in S2 by lia.
  rewrite S2; [done|repeat constructor; apply Hb|by intros r|lia].
Qed.
