(* ===== verification/Temporal.v ===== *)
(** * Temporal: timeframes, period ranges and relative dates
    ([src/internal/store/temporal.go])

    A range is a pair of day numbers, its end exclusive.  Instants ([now], a
    row's timestamp) are nanoseconds. *)

From Stdlib Require Import SpecFloat.
From stdpp Require Import pretty.
From S2P Require Import Prelude Utf8 Float Text Civil.
#[local] Open Scope string_scope.
#[local] Open Scope list_scope.
#[local] Open Scope Z_scope.

(** [strings.Contains(s, sub)] *)
Definition Contains (s sub : string) : bool :=
  match String.index 0 sub s with Some _ => true | None => false end.

(** ** Weeks *)

Definition mondayOfWeek (day : Z) : Z :=
  let wd := Weekday day in
  let wd := if wd =? 0 then 7 else wd in
  AddDate day 0 0 (- (wd - 1)).

Definition isoWeekStart (year week : Z) : Z :=
  let jan4 := Date year 1 4 in
  AddDate (mondayOfWeek jan4) 0 0 ((week - 1) * 7).

(** ** Timeframes *)

Definition timeframeKeywords : list (string * (Z -> Z * Z)) :=
  [("yesterday", fun today => let y := AddDate today 0 0 (-1) in (y, AddDate y 0 0 1));
   ("today", fun today => (today, AddDate today 0 0 1));
   ("last week", fun today => let monday := AddDate (mondayOfWeek today) 0 0 (-7) in
                              (monday, AddDate monday 0 0 7));
   ("this week", fun today => let monday := mondayOfWeek today in (monday, AddDate monday 0 0 7));
   ("last month", fun today => let m := Date (Year today) (Month today) 1 in (AddDate m 0 (-1) 0, m));
   ("this month", fun today => let m := Date (Year today) (Month today) 1 in (m, AddDate m 0 1 0));
   ("last year", fun today => let y := Date (Year today) 1 1 in (AddDate y (-1) 0 0, y));
   ("this year", fun today => let y := Date (Year today) 1 1 in (y, AddDate y 1 0 0))].

Fixpoint firstTimeframe (lower : string) (today : Z) (tks : list (string * (Z -> Z * Z))) :
    option (Z * Z) :=
  match tks with
  | [] => None
  | (phrase, resolver) :: tks' =>
      if Contains lower phrase then Some (resolver today) else firstTimeframe lower today tks'
  end.

Definition resolveQueryTimeframe `{Unicode} (query : string) (now : Z) : option (Z * Z) :=
  firstTimeframe (ToLower query) (TruncateDay now) timeframeKeywords.

(** ** Periods *)

(** [len(period) == 8 && period[4] == '-' && period[5] == 'W'] *)
Definition weekShape (period : string) : bool :=
  (String.length period =? 8)%nat && bool_decide (String.get 4 period = Some "-"%char) &&
  bool_decide (String.get 5 period = Some "W"%char).

Definition parsePeriodRange (period : string) : option (Z * Z) :=
  match parseDay period with
  | Some t => Some (t, AddDate t 0 0 1)
  | None =>
      match parseMonth period with
      | Some t => Some (t, AddDate t 0 1 0)
      | None =>
          let byYear := t ← parseYear period; Some (t, AddDate t 1 0 0) in
          if weekShape period then
            match scanYearWeek period with
            | Some (year, week) => let s := isoWeekStart year week in Some (s, AddDate s 0 0 7)
            | None => byYear
            end
          else byYear
      end
  end.

Definition periodsOverlap (aStart aEnd bStart bEnd : Z) : bool :=
  (aStart <? bEnd) && (bStart <? aEnd).

(** ** Relative dates *)

(** [now.Sub(start)]: a saturating 64-bit count of nanoseconds. *)
Definition Sub (now start : Z) : Z := Z.max (- 2 ^ 63) (Z.min (2 ^ 63 - 1) (now - start)).

Definition Hours (d : Z) : f64 := fadd (fofZ (Z.quot d hourNs)) (fdiv (fofZ (Z.rem d hourNs)) (fofZ hourNs)).

(** [int(x)] of a finite number. *)
Definition truncZ (x : f64) : Z :=
  match x with
  | S754_finite s m e =>
      let v := if 0 <=? e then Zpos m * 2 ^ e else Zpos m / 2 ^ (- e) in if s then - v else v
  | _ => 0
  end.

(** [math.Round]: half away from zero. *)
Definition Round (x : f64) : f64 :=
  match x with
  | S754_finite s m e =>
      if 0 <=? e then x
      else let v := (Zpos m + 2 ^ (- e - 1)) / 2 ^ (- e) in fofZ (if s then - v else v)
  | _ => x
  end.

Definition pluralUnit (n : f64) (unit : string) : string :=
  let count := truncZ n in
  let count := if count <=? 0 then 1 else count in
  if count =? 1 then "1 " +:+ (unit +:+ " before now")
  else pretty count +:+ (" " +:+ (unit +:+ "s before now")).

Definition dayLabel (days : Z) : string :=
  if days <? 0 then ""
  else if days =? 0 then "today"
  else if days =? 1 then "1 day before now"
  else if days <? 7 then pretty days +:+ " days before now"
  else if days <? 60 then pluralUnit (Round (fdiv (fofZ days) (fofZ 7))) "week"
  else
    let months := Round (fdiv (fofZ days) (fratio 3044 100)) in
    if flt months (fofZ 12) then pluralUnit months "month"
    else pluralUnit (Round (fdiv (fofZ days) (fratio 36525 100))) "year".

Definition relativeDateLabel (start now : Z) : string :=
  dayLabel (truncZ (fdiv (Hours (Sub now start)) (fofZ 24))).

(** ** Lemmas: weeks *)

Lemma monday_spec n : mondayOfWeek n = n - (n + 3) mod 7.
Proof.
  unfold mondayOfWeek, Weekday. rewrite AddDate_days.
  pose proof (Z.div_mod (n + 3) 7 ltac:(lia)) as H. pose proof (Z.mod_pos_bound (n + 3) 7 ltac:(lia)) as Hb.
  destruct (decide ((n + 3) mod 7 = 6)) as [E|E].
  - rewrite <- (Z.mod_unique (n + 4) 7 ((n + 3) / 7 + 1) 0) by lia. cbn. lia.
  - rewrite <- (Z.mod_unique (n + 4) 7 ((n + 3) / 7) ((n + 3) mod 7 + 1)) by lia.
    rewrite (proj2 (Z.eqb_neq _ _)) by lia. lia.
Qed.

Lemma isoWeekday n : (if Weekday n =? 0 then 7 else Weekday n) = n - mondayOfWeek n + 1.
Proof. unfold mondayOfWeek. rewrite AddDate_days. lia. Qed.

Lemma monday_bounds n : mondayOfWeek n <= n < mondayOfWeek n + 7.
Proof. rewrite monday_spec. pose proof (Z.mod_pos_bound (n + 3) 7). lia. Qed.

Lemma monday_same n k : mondayOfWeek n <= k < mondayOfWeek n + 7 -> mondayOfWeek k = mondayOfWeek n.
Proof.
  rewrite !monday_spec. intros H.
  pose proof (Z.div_mod (n + 3) 7 ltac:(lia)). pose proof (Z.mod_pos_bound (n + 3) 7 ltac:(lia)).
  rewrite <- (Z.mod_unique (k + 3) 7 ((n + 3) / 7) (k - (n - (n + 3) mod 7))) by lia. lia.
Qed.

Lemma monday_shift n k : mondayOfWeek (n + 7 * k) = mondayOfWeek n + 7 * k.
Proof.
  rewrite !monday_spec. replace (n + 7 * k + 3) with (n + 3 + k * 7) by lia. rewrite Z.mod_add by lia. lia.
Qed.

(** The ISO year and week of a day, by the Thursday of its week. *)
Lemma ISOWeek_monday n :
  ISOWeek n = (Year (mondayOfWeek n + 3),
               (mondayOfWeek n + 3 - Date (Year (mondayOfWeek n + 3)) 1 1) / 7 + 1).
Proof.
  unfold ISOWeek. rewrite isoWeekday.
  replace (n + (4 - (n - mondayOfWeek n + 1))) with (mondayOfWeek n + 3) by lia. done.
Qed.

(** The week that [isoWeekStart] starts is the one its arguments name. *)
Lemma isoWeekStart_ISOWeek n : isoWeekStart (ISOWeek n).1 (ISOWeek n).2 = mondayOfWeek n.
Proof.
  rewrite ISOWeek_monday. cbn [fst snd]. set (y := Year (mondayOfWeek n + 3)).
  pose proof (proj1 (Year_spec (mondayOfWeek n + 3) y) eq_refl) as [Hy _].
  unfold isoWeekStart. rewrite AddDate_days.
  assert (E4 : Date y 1 4 = Date y 1 1 + 3) by (unfold Date; lia). rewrite E4.
  set (j := Date y 1 1) in *. set (M := mondayOfWeek n) in *.
  assert (HM : M = mondayOfWeek M) by (symmetry; apply monday_same; fold M; lia).
  pose proof (Z.div_mod (M + 3 - j) 7 ltac:(lia)) as Hd. pose proof (Z.mod_pos_bound (M + 3 - j) 7 ltac:(lia)) as Hb.
  set (q := (M + 3 - j) / 7) in *.
  assert (E : mondayOfWeek (j + 3) = M - 7 * q).
  { replace (M - 7 * q) with (M + 7 * (- q)) by lia. rewrite HM, <- monday_shift.
    apply monday_same. rewrite monday_shift, <- HM. lia. }
  rewrite E. lia.
Qed.

Lemma ISOWeek_inj n k : ISOWeek n = ISOWeek k <-> mondayOfWeek n = mondayOfWeek k.
Proof.
  split; intros H.
  - rewrite <- !isoWeekStart_ISOWeek. by rewrite H.
  - rewrite !ISOWeek_monday. by rewrite H.
Qed.

Lemma same_week n k : ISOWeek k = ISOWeek n <-> mondayOfWeek n <= k < mondayOfWeek n + 7.
Proof.
  rewrite ISOWeek_inj. split; [|by apply monday_same].
  intros <-. apply monday_bounds.
Qed.

(** An ISO week of a year has a number from 1 to 53. *)
Lemma ISOWeek_bounds n : 1 <= (ISOWeek n).2 <= 53.
Proof.
  rewrite ISOWeek_monday. cbn [snd]. set (t := mondayOfWeek n + 3).
  pose proof (proj1 (Year_spec t (Year t)) eq_refl) as Hy. rewrite year_length in Hy.
  set (j := Date (Year t) 1 1) in *.
  pose proof (Z.div_mod (t - j) 7 ltac:(lia)). pose proof (Z.mod_pos_bound (t - j) 7 ltac:(lia)).
  destruct (isLeap (Year t)); lia.
Qed.

Lemma Date_Jan4 y : Date y 1 4 = Date y 1 1 + 3.
Proof. unfold Date. lia. Qed.

(** Every week number up to 52 names a week of its year. *)
Lemma ISOWeek_isoWeekStart y w : 1 <= w <= 52 -> ISOWeek (isoWeekStart y w) = (y, w).
Proof.
  intros Hw. unfold isoWeekStart. rewrite AddDate_days, Date_Jan4.
  set (j := Date y 1 1). pose proof (monday_bounds (j + 3)) as Hb.
  replace ((w - 1) * 7) with (7 * (w - 1)) by lia. set (M := mondayOfWeek (j + 3)) in *.
  assert (HM : mondayOfWeek M = M) by (apply monday_same; fold M; lia).
  rewrite ISOWeek_monday, monday_shift, HM.
  assert (HY : Year (M + 7 * (w - 1) + 3) = y).
  { apply Year_spec. rewrite year_length. fold j. destruct (isLeap y); lia. }
  rewrite HY. fold j. f_equal.
  rewrite <- (Z.div_unique (M + 7 * (w - 1) + 3 - j) 7 (w - 1) (M + 3 - j)); lia.
Qed.

(** ** Lemmas: months and years *)

Lemma Date_first_AddDate y m dy dm :
  1 <= m <= 12 -> AddDate (Date y m 1) dy dm 0 = monthStart (12 * (y + dy) + (m + dm - 1)).
Proof.
  intros Hm. rewrite Date_monthStart, Z.add_0_r.
  rewrite <- AddDate_first by done. f_equal. rewrite daysOf_monthStart by done. lia.
Qed.

Definition monthOf (n : Z) : Z * Z := (Year n, Month n).

Definition prevMonth (ym : Z * Z) : Z * Z := if ym.2 =? 1 then (ym.1 - 1, 12) else (ym.1, ym.2 - 1).

Lemma month_range y m n :
  1 <= m <= 12 ->
  monthOf n = (y, m) <-> monthStart (12 * y + (m - 1)) <= n < monthStart (12 * y + m).
Proof. intros Hm. rewrite <- month_spec by done. unfold monthOf. split; [by intros [= -> ->]|by intros [-> ->]]. Qed.

Lemma prevMonth_range y m n :
  1 <= m <= 12 ->
  monthOf n = prevMonth (y, m) <-> monthStart (12 * y + (m - 2)) <= n < monthStart (12 * y + (m - 1)).
Proof.
  intros Hm. unfold prevMonth. cbn [fst snd]. destruct (Z.eqb_spec m 1) as [->|].
  - rewrite month_range by lia.
    replace (12 * (y - 1) + (12 - 1)) with (12 * y + (1 - 2)) by lia.
    by replace (12 * (y - 1) + 12) with (12 * y + (1 - 1)) by lia.
  - rewrite month_range by lia. replace (m - 1 - 1) with (m - 2) by lia. done.
Qed.

Lemma monthStart_lt_mono k k' : k < k' -> monthStart k < monthStart k'.
Proof.
  intros H. pose proof (monthStart_lt k k' H). pose proof (daysIn_bounds (k mod 12 + 1) (k / 12)). lia.
Qed.

Lemma year_range y n : Year n = y <-> monthStart (12 * y) <= n < monthStart (12 * (y + 1)).
Proof.
  rewrite Year_spec, !Date_monthStart. by rewrite !Z.add_0_r.
Qed.

(** ** Timeframes *)

(** The days a phrase means. *)
Definition inTimeframe (phrase : string) (today day : Z) : Prop :=
  if String.eqb phrase "yesterday" then day = today - 1
  else if String.eqb phrase "today" then day = today
  else if String.eqb phrase "last week" then ISOWeek day = ISOWeek (today - 7)
  else if String.eqb phrase "this week" then ISOWeek day = ISOWeek today
  else if String.eqb phrase "last month" then monthOf day = prevMonth (monthOf today)
  else if String.eqb phrase "this month" then monthOf day = monthOf today
  else if String.eqb phrase "last year" then Year day = Year today - 1
  else Year day = Year today.

Lemma timeframe_range today phrase resolver :
  (phrase, resolver) ∈ timeframeKeywords ->
  (resolver today).1 < (resolver today).2 /\
  forall day, (resolver today).1 <= day < (resolver today).2 <-> inTimeframe phrase today day.
Proof.
  pose proof (Month_bounds today) as Hm.
  unfold timeframeKeywords. rewrite !elem_of_cons, elem_of_nil.
  intros [[= -> ->]|[[= -> ->]|[[= -> ->]|[[= -> ->]|[[= -> ->]|[[= -> ->]|[[= -> ->]|[[= -> ->]|[]]]]]]]]];
    unfold inTimeframe; cbn [String.eqb Ascii.eqb Bool.eqb fst snd]; cbv zeta; rewrite ?AddDate_days.
  - split; [lia|]. intros day. lia.
  - split; [lia|]. intros day. lia.
  - split; [lia|]. intros day. rewrite same_week.
    replace (today - 7) with (today + 7 * (-1)) by lia. rewrite monday_shift. lia.
  - split; [lia|]. intros day. by rewrite same_week.
  - rewrite Date_first_AddDate, Date_monthStart by done. rewrite !Z.add_0_r. split.
    + apply monthStart_lt_mono. lia.
    + intros day. unfold monthOf at 2. rewrite prevMonth_range by done.
      by replace (Month today + -1 - 1) with (Month today - 2) by lia.
  - rewrite Date_first_AddDate, Date_monthStart by done. rewrite !Z.add_0_r. split.
    + apply monthStart_lt_mono. lia.
    + intros day. unfold monthOf at 2. rewrite month_range by done.
      by replace (Month today + 1 - 1) with (Month today) by lia.
  - rewrite Date_first_AddDate, Date_monthStart by lia. rewrite !Z.add_0_r. split.
    + apply monthStart_lt_mono. lia.
    + intros day. rewrite year_range. by replace (Year today - 1 + 1) with (Year today) by lia.
  - rewrite Date_first_AddDate, Date_monthStart by lia. rewrite !Z.add_0_r. split.
    + apply monthStart_lt_mono. lia.
    + intros day. by rewrite year_range.
Qed.

Lemma firstTimeframe_spec lower today tks :
  match firstTimeframe lower today tks with
  | Some r => exists before phrase resolver after,
      tks = before ++ (phrase, resolver) :: after /\ Contains lower phrase = true /\
      (forall p, p ∈ before.*1 -> Contains lower p = false) /\ r = resolver today
  | None => forall p, p ∈ tks.*1 -> Contains lower p = false
  end.
Proof.
  induction tks as [|[p f] tks IH]; cbn [firstTimeframe]; [by intros p ?%elem_of_nil|].
  destruct (Contains lower p) eqn:E.
  - exists [], p, f, tks. split_and!; [done|done|by intros q ?%elem_of_nil|done].
  - destruct (firstTimeframe lower today tks).
    + destruct IH as (b & q & g & a & -> & Hc & Hb & ->). exists ((p, f) :: b), q, g, a.
      split_and!; [done|done| |done]. cbn [fmap list_fmap].
      by intros x [->|Hx]%elem_of_cons; [|apply Hb].
    + cbn [fmap list_fmap]. by intros x [->|Hx]%elem_of_cons; [|apply IH].
Qed.

(** ** Periods *)

(** The period a day belongs to at each level, as the program writes it. *)
Definition periodOf (level : string) (n : Z) : string :=
  if String.eqb level "daily" then formatDay n
  else if String.eqb level "weekly" then formatWeek (ISOWeek n).1 (ISOWeek n).2
  else if String.eqb level "monthly" then formatMonth n
  else pad4 (Year n).

Definition samePeriod (level : string) (n day : Z) : Prop :=
  if String.eqb level "daily" then day = n
  else if String.eqb level "weekly" then ISOWeek day = ISOWeek n
  else if String.eqb level "monthly" then monthOf day = monthOf n
  else Year day = Year n.

Lemma pad4_some y : 0 <= y <= 9999 -> exists a b c d,
  pad4 y = String a (String b (String c (String d ""))) /\ num4 a b c d = Some y.
Proof.
  intros Hy. unfold pad4. rewrite !(proj2 (Z.leb_le _ _)) by lia. cbn [andb].
  do 4 eexists. split; [done|]. by apply num4_digits.
Qed.

Lemma pad2_some m : 0 <= m <= 99 -> exists a b, pad2 m = String a (String b "") /\ num2 a b = Some m.
Proof.
  intros Hm. unfold pad2. rewrite !(proj2 (Z.leb_le _ _)) by lia. cbn [andb].
  do 2 eexists. split; [done|]. by apply num2_digits.
Qed.

Lemma validDate_first y m : 1 <= m <= 12 -> validDate y m 1 = true.
Proof. intros H. apply validDate_spec. pose proof (daysIn_bounds m y). lia. Qed.

Lemma range_week y w : 0 <= y <= 9999 -> 0 <= w <= 99 ->
  parsePeriodRange (formatWeek y w) = Some (isoWeekStart y w, isoWeekStart y w + 7).
Proof.
  intros Hy Hw. pose proof (scanYearWeek_format y w Hy Hw) as Hs. revert Hs. unfold formatWeek.
  destruct (pad4_some y Hy) as (a & b & c & d & -> & _). destruct (pad2_some w Hw) as (e & f & -> & _).
  cbn [String.append]. intros Hs. unfold parsePeriodRange. cbn [parseDay parseMonth].
  change (weekShape _) with true. rewrite Hs. cbv zeta. by rewrite AddDate_days.
Qed.

Lemma range_month y m : 0 <= y <= 9999 -> 1 <= m <= 12 ->
  parsePeriodRange (pad4 y +:+ ("-" +:+ pad2 m)) =
    Some (monthStart (12 * y + (m - 1)), monthStart (12 * y + m)).
Proof.
  intros Hy Hm. destruct (pad4_some y Hy) as (a & b & c & d & -> & E4).
  destruct (pad2_some m ltac:(lia)) as (e & f & -> & E2). cbn [String.append].
  unfold parsePeriodRange. cbn [parseDay]. unfold parseMonth. change (Ascii.eqb "-" "-") with true.
  rewrite E4, E2. cbn [mbind option_bind]. unfold checkedDate. rewrite validDate_first by done.
  rewrite AddDate_first, daysOf_monthStart by done. do 2 f_equal; [lia|f_equal; lia].
Qed.

Lemma range_year y : 0 <= y <= 9999 ->
  parsePeriodRange (pad4 y) = Some (monthStart (12 * y), monthStart (12 * (y + 1))).
Proof.
  intros Hy. destruct (pad4_some y Hy) as (a & b & c & d & -> & E4).
  unfold parsePeriodRange. cbn [parseDay parseMonth]. change (weekShape _) with false. cbv iota.
  unfold parseYear. rewrite E4. cbn [mbind option_bind]. unfold checkedDate.
  rewrite validDate_first by lia. cbn [mbind option_bind].
  rewrite AddDate_first, daysOf_monthStart by lia. by rewrite !Z.add_0_r.
Qed.

Lemma range_day n : 0 <= Year n <= 9999 -> parsePeriodRange (formatDay n) = Some (n, n + 1).
Proof. intros Hn. unfold parsePeriodRange. by rewrite parseDay_format, AddDate_days. Qed.

Definition levels : list string := ["daily"; "weekly"; "monthly"; "yearly"].

Lemma levels_spec level :
  level ∈ levels -> level = "daily" \/ level = "weekly" \/ level = "monthly" \/ level = "yearly".
Proof. unfold levels. rewrite !elem_of_cons, elem_of_nil. tauto. Qed.

Lemma period_range_at level n :
  level ∈ levels -> 0 <= Year n <= 9999 -> 0 <= (ISOWeek n).1 <= 9999 ->
  exists s e, parsePeriodRange (periodOf level n) = Some (s, e) /\
    forall day, s <= day < e <-> samePeriod level n day.
Proof.
  intros Hl Hy Hw. unfold periodOf, samePeriod. pose proof (Month_bounds n) as Hm.
  apply levels_spec in Hl as [->|[->|[->| ->]]]; cbn [String.eqb Ascii.eqb Bool.eqb].
  - eexists _, _. split; [by apply range_day|]. intros day. lia.
  - pose proof (ISOWeek_bounds n). eexists _, _. split; [apply range_week; lia|].
    intros day. by rewrite isoWeekStart_ISOWeek, same_week.
  - eexists _, _. split; [by apply range_month|]. intros day. unfold monthOf at 2. by rewrite month_range.
  - eexists _, _. split; [by apply range_year|]. intros day. by rewrite year_range.
Qed.

(** ** Relative dates in integers *)

(** Rounding to the nearest unit. *)
Definition nearest (num den : Z) : Z := Z.max 1 ((2 * num + den) / (2 * den)).

Definition unitLabel (n : Z) (unit : string) : string :=
  if n =? 1 then "1 " +:+ (unit +:+ " before now") else pretty n +:+ (" " +:+ (unit +:+ "s before now")).

Definition labelOf (days : Z) : string :=
  if days =? 0 then "today"
  else if days <? 7 then unitLabel days "day"
  else if days <? 60 then unitLabel (nearest days 7) "week"
  else if nearest (100 * days) 3044 <? 12 then unitLabel (nearest (100 * days) 3044) "month"
  else unitLabel (nearest (100 * days) 36525) "year".

Definition labelCheck (days : Z) : bool :=
  String.eqb (dayLabel days) (labelOf days) &&
  (truncZ (fdiv (Hours (days * dayNs)) (fofZ 24)) =? days).

(** Two years of day counts and more, every tier of the label included. *)
Lemma label_check : checkBelow labelCheck 800 = true.
Proof. vm_compute. reflexivity. Qed.

Lemma Sub_small now start : 0 <= now - start < 2 ^ 63 -> Sub now start = now - start.
Proof. unfold Sub. lia. Qed.

Lemma relative_label start n :
  0 <= n - start < 800 -> relativeDateLabel (midnight start) (midnight n) = labelOf (n - start).
Proof.
  intros H. pose proof (checkBelow_spec _ _ label_check (n - start) H) as Hc.
  unfold labelCheck in Hc. apply andb_true_iff in Hc as [H1%String.eqb_eq H2%Z.eqb_eq].
  unfold relativeDateLabel, midnight. rewrite Sub_small; [|unfold dayNs, hourNs; lia].
  replace (n * dayNs - start * dayNs) with ((n - start) * dayNs) by lia. by rewrite H2.
Qed.

(** Two non-empty ranges overlap exactly when they share a day. *)
Lemma overlap_shares_day (aStart aEnd bStart bEnd : Z) :
  aStart < aEnd -> bStart < bEnd ->
  periodsOverlap aStart aEnd bStart bEnd = true <->
  exists day, aStart <= day < aEnd /\ bStart <= day < bEnd.
Proof.
  intros Ha Hb. unfold periodsOverlap. rewrite andb_true_iff, !Z.ltb_lt. split.
  - intros [H1 H2]. exists (Z.max aStart bStart). lia.
  - intros (day & H1 & H2). lia.
Qed.

(** ** Properties *)

Section Claims.
Context `{HU : Unicode}.

(** The timeframe a question implies: [resolveQueryTimeframe] picks the
    first phrase of the table that the lower-cased question contains, and the
    range it returns is not empty and holds exactly the days that phrase means
    relative to the day [now] falls on (the day before, the day itself, the
    days of the same or of the previous ISO week, month or year); without such
    a phrase there is no timeframe. *)
Theorem query_timeframe (query : string) (now : Z) :
  match resolveQueryTimeframe query now with
  | Some (s, e) => exists before phrase resolver after,
      timeframeKeywords = before ++ (phrase, resolver) :: after /\
      Contains (ToLower query) phrase = true /\
      (forall p, p ∈ before.*1 -> Contains (ToLower query) p = false) /\
      s < e /\ forall day, s <= day < e <-> inTimeframe phrase (TruncateDay now) day
  | None => forall p, p ∈ timeframeKeywords.*1 -> Contains (ToLower query) p = false
  end.
Proof.
  unfold resolveQueryTimeframe. pose proof (firstTimeframe_spec (ToLower query) (TruncateDay now) timeframeKeywords) as H.
  destruct (firstTimeframe _ _ _) as [[s e]|]; [|done].
  destruct H as (b & p & f & a & Ht & Hc & Hb & Hr). exists b, p, f, a. split_and!; [done|done|done| |].
  all: destruct (timeframe_range (TruncateDay now) p f) as [H1 H2];
    [rewrite Ht; apply elem_of_app; right; by left|].
  all: by rewrite <- Hr in *.
Qed.
End Claims.

(** C36: [parsePeriodRange] reads back every period the program writes: for a
    day in the years 0 to 9999, each of its daily, weekly, monthly and yearly
    periods parses to the range of exactly the days with that day, ISO week,
    month or year. *)
Theorem period_range (level : string) (n : Z) :
  level ∈ levels -> 0 <= Year n <= 9999 -> 0 <= (ISOWeek n).1 <= 9999 ->
  exists s e, parsePeriodRange (periodOf level n) = Some (s, e) /\
    forall day, s <= day < e <-> samePeriod level n day.
Proof. apply period_range_at. Qed.

Lemma period_range_witness :
  periodOf "weekly" (Date 2026 1 1) = "2026-W01" /\
  exists s e, parsePeriodRange (periodOf "weekly" (Date 2026 1 1)) = Some (s, e) /\
    forall day, s <= day < e <-> samePeriod "weekly" (Date 2026 1 1) day.
Proof.
  split; [vm_compute; reflexivity|]. apply (period_range "weekly" (Date 2026 1 1)).
  - apply elem_of_cons. right. by left.
  - vm_compute. split; discriminate.
  - vm_compute. split; discriminate.
Defined.

(** [isoWeekStart] and [ISOWeek] are inverse: the week a day's ISO year
    and number name starts on the Monday at or before that day, and every
    number from 1 to 52 names a week of its year. *)
Theorem iso_week_inverse (n y w : Z) :
  (isoWeekStart (ISOWeek n).1 (ISOWeek n).2 = mondayOfWeek n /\
   mondayOfWeek n <= n < mondayOfWeek n + 7 /\ Weekday (mondayOfWeek n) = 1) /\
  (1 <= w <= 52 -> ISOWeek (isoWeekStart y w) = (y, w)).
Proof.
  split; [split; [apply isoWeekStart_ISOWeek|split; [apply monday_bounds|]]|apply ISOWeek_isoWeekStart].
  unfold Weekday. rewrite monday_spec. pose proof (Z.div_mod (n + 3) 7 ltac:(lia)).
  rewrite <- (Z.mod_unique (n - (n + 3) mod 7 + 4) 7 ((n + 3) / 7) 1); lia.
Qed.

Lemma iso_week_inverse_witness :
  1 <= 1 <= 52 /\ ISOWeek (isoWeekStart 2026 1) = (2026, 1).
Proof. split; [lia|]. apply (iso_week_inverse 0 2026 1). lia. Defined.

(** Between two midnights less than 800 days apart, the label's float
    arithmetic gives the count of days below a week, and otherwise the count
    rounded to the nearest week (below 60 days), to the nearest month of 30.44
    days (below 12 of them), or to the nearest year of 365.25 days. *)
Theorem relative_label_rounds (start n : Z) :
  0 <= n - start < 800 -> relativeDateLabel (midnight start) (midnight n) = labelOf (n - start).
Proof. apply relative_label. Qed.

Lemma relative_label_rounds_witness :
  0 <= 20 - 0 < 800 /\ relativeDateLabel (midnight 0) (midnight 20) = "3 weeks before now".
Proof. split; [lia|]. exact (relative_label_rounds 0 20 ltac:(lia)). Defined.

(** A start less than a day in the future is labelled "today", where the
    comment promises the empty string for any start in the future: dividing
    truncates toward zero. *)
Theorem future_start_is_today :
  relativeDateLabel (midnight 0 + 23 * hourNs) (midnight 0) = "today" /\
  relativeDateLabel (midnight 1) (midnight 0) = "".
Proof. split; vm_compute; reflexivity. Qed.
