(* ===== verification/Period.v ===== *)
(** * Period: the calendar of consolidation
    ([src/cmd/hupi-consolidate/rollup.go],
    [src/internal/consolidation/period.go])

    Which rollups a day makes due and which periods each is built from, and the
    date a period's summary stamps on the entities it touches.  [Temporal]
    reads the same period strings back. *)

From S2P Require Import Prelude Utf8 Float Text Civil Temporal.
#[local] Open Scope string_scope.
#[local] Open Scope list_scope.
#[local] Open Scope Z_scope.

(** ** Rollups *)

Record rollupJob := MkRollupJob {
  level : string;
  sourceLevel : string;
  period : string;
  sourcePeriods : list string
}.

(** [for d := start; !d.After(last); d = d.AddDate(0, 0, 1)] *)
Fixpoint daysThrough (fuel : nat) (d last : Z) : list Z :=
  match fuel with
  | O => []
  | S fuel' => if last <? d then [] else d :: daysThrough fuel' (AddDate d 0 0 1) last
  end.

Definition daysFromTo (start last : Z) : list Z := daysThrough (Z.to_nat (last - start + 1)) start last.

Definition isoPeriod (d : Z) : string := let '(year, week) := ISOWeek d in formatWeek year week.

Definition weeklyRollup (date : Z) : option rollupJob :=
  if negb (Weekday date =? 1) then None
  else
    let lastDay := AddDate date 0 0 (-1) in
    Some (MkRollupJob "weekly" "daily" (isoPeriod lastDay)
            (map formatDay (daysFromTo (AddDate date 0 0 (-7)) lastDay))).

Definition monthlyRollup (date : Z) : option rollupJob :=
  if negb (Day date =? 1) then None
  else
    let monthEnd := AddDate date 0 0 (-1) in
    let monthStart := Date (Year monthEnd) (Month monthEnd) 1 in
    let mondays := List.filter (fun d => Weekday d =? 1) (daysFromTo monthStart monthEnd) in
    Some (MkRollupJob "monthly" "weekly" (formatMonth monthStart) (map isoPeriod mondays)).

Definition yearlyRollup (date : Z) : option rollupJob :=
  if negb (Month date =? 1) || negb (Day date =? 1) then None
  else
    let prevYear := Year date - 1 in
    Some (MkRollupJob "yearly" "monthly" (pad4 prevYear)
            (map (fun m => pad4 prevYear +:+ ("-" +:+ pad2 m)) (seqZ 1 12))).

Definition dueRollups (date : Z) : list rollupJob :=
  option_list (weeklyRollup date) ++ option_list (monthlyRollup date) ++ option_list (yearlyRollup date).

(** ** The date of a period *)

Definition isoWeekStart (year week : Z) : Z :=
  let jan4 := Date year 1 4 in
  let wd := Weekday jan4 in
  let wd := if wd =? 0 then 7 else wd in
  let monday := AddDate jan4 0 0 (- (wd - 1)) in
  AddDate monday 0 0 ((week - 1) * 7).

Definition periodAsOfDate (level period : string) : option Z :=
  if String.eqb level "daily" then parseDay period
  else if String.eqb level "weekly" then
    '(year, week) ← scanYearWeek period; Some (AddDate (isoWeekStart year week) 0 0 6)
  else if String.eqb level "monthly" then t ← parseMonth period; Some (AddDate t 0 1 (-1))
  else if String.eqb level "yearly" then t ← parseYear period; Some (AddDate t 1 0 (-1))
  else None.

(** ** Lemmas *)

Lemma daysFromTo_seqZ start last : start <= last + 1 -> daysFromTo start last = seqZ start (last - start + 1).
Proof.
  unfold daysFromTo. intros H. remember (Z.to_nat (last - start + 1)) as n eqn:En. revert start H En.
  induction n as [|n IH]; intros start H En; cbn [daysThrough].
  - replace (last - start + 1) with 0 by lia. done.
  - rewrite (proj2 (Z.ltb_ge _ _)) by lia. rewrite AddDate_days, seqZ_cons by lia.
    f_equal. rewrite IH by lia. f_equal; lia.
Qed.

Lemma isoWeekStart_same year week : isoWeekStart year week = Temporal.isoWeekStart year week.
Proof. unfold isoWeekStart, Temporal.isoWeekStart, mondayOfWeek. reflexivity. Qed.

Lemma range_isoPeriod d : 0 <= (ISOWeek d).1 <= 9999 ->
  parsePeriodRange (isoPeriod d) = Some (mondayOfWeek d, mondayOfWeek d + 7).
Proof.
  intros H. unfold isoPeriod. pose proof (ISOWeek_bounds d) as Hw.
  pose proof (isoWeekStart_ISOWeek d) as Hs. destruct (ISOWeek d) as [y w]. cbn [fst snd] in *.
  rewrite range_week by lia. by rewrite Hs.
Qed.

Lemma monday_itself d : Weekday d = 1 <-> mondayOfWeek d = d.
Proof.
  unfold Weekday. rewrite monday_spec. pose proof (Z.div_mod (d + 3) 7 ltac:(lia)) as H.
  pose proof (Z.mod_pos_bound (d + 3) 7 ltac:(lia)) as Hb. split; intros E.
  - pose proof (Z.div_mod (d + 4) 7 ltac:(lia)) as H4.
    enough ((d + 3) mod 7 = 0) by lia. symmetry. apply (Z.mod_unique _ _ ((d + 4) / 7)); lia.
  - symmetry. apply (Z.mod_unique _ _ ((d + 3) / 7)); lia.
Qed.

Lemma Day_first n : Day n = 1 -> n = Date (Year n) (Month n) 1.
Proof.
  unfold Day, Year, Month. pose proof (civilOf_spec n) as H. destruct (civilOf n) as [[y m] d].
  cbn [fst snd]. destruct H as [[Hm _]%validDate_spec <-]. intros ->.
  by rewrite daysOf_monthStart, Date_monthStart.
Qed.

(** The day before the first of a month is the last of the month before. *)
Lemma month_before n : Day n = 1 ->
  monthOf (n - 1) = prevMonth (monthOf n) /\
  n = monthStart (12 * Year (n - 1) + Month (n - 1)) /\
  monthStart (12 * Year (n - 1) + (Month (n - 1) - 1)) <= n - 1.
Proof.
  intros Hd%Day_first. pose proof (Month_bounds n) as Hm. pose proof (Month_bounds (n - 1)) as Hm1.
  rewrite Date_monthStart, Z.add_0_r in Hd. set (k := 12 * Year n + (Month n - 1)) in *.
  assert (Hp : monthOf (n - 1) = prevMonth (monthOf n)).
  { unfold monthOf at 2. apply prevMonth_range; [done|]. fold k.
    pose proof (monthStart_lt_mono (12 * Year n + (Month n - 2)) k ltac:(lia)). lia. }
  split; [done|]. unfold monthOf, prevMonth in Hp. cbn [fst snd] in Hp.
  assert (Ek : 12 * Year (n - 1) + Month (n - 1) = k).
  { destruct (Month n =? 1) eqn:E; bool_to_prop; injection Hp as Ey Em; unfold k; lia. }
  rewrite Ek. split; [done|].
  replace (12 * Year (n - 1) + (Month (n - 1) - 1)) with (k - 1) by lia.
  pose proof (monthStart_lt_mono (k - 1) k ltac:(lia)). lia.
Qed.

Lemma Year_before n : Month n = 1 -> Day n = 1 -> n = monthStart (12 * Year n).
Proof.
  intros Hm Hd%Day_first. rewrite Hm, Date_monthStart in Hd. rewrite Hd at 1. rewrite !Z.add_0_r. done.
Qed.

Lemma Year_mono n k : n <= k -> Year n <= Year k.
Proof.
  intros H. pose proof (proj1 (year_range (Year n) n) eq_refl) as Hn.
  pose proof (proj1 (year_range (Year k) k) eq_refl) as Hk.
  destruct (Z.le_gt_cases (Year n) (Year k)) as [?|Hlt]; [done|].
  pose proof (monthStart_le (12 * (Year k + 1)) (12 * Year n) ltac:(lia)). lia.
Qed.

(** ** Consecutive ranges *)

Inductive tiles : Z -> Z -> list (Z * Z) -> Prop :=
| tiles_nil s : tiles s s []
| tiles_cons s m e l : s < m -> tiles m e l -> tiles s e ((s, m) :: l).

(** [n] ranges that each start where the one before ends. *)
Lemma tiles_seq (f : Z -> Z) k n :
  (forall i, f i < f (i + 1)) ->
  tiles (f k) (f (k + Z.of_nat n)) (map (fun i => (f i, f (i + 1))) (seqZ k (Z.of_nat n))).
Proof.
  intros Hf. revert k. induction n as [|n IH]; intros k.
  - rewrite Z.add_0_r. constructor.
  - rewrite seqZ_cons by lia. cbn [map]. constructor; [done|].
    replace (k + Z.of_nat (S n)) with (Z.succ k + Z.of_nat n) by lia.
    replace (Z.pred (Z.of_nat (S n))) with (Z.of_nat n) by lia. apply IH.
Qed.

(** The first Monday at or after a day. *)
Definition nextMonday (n : Z) : Z := mondayOfWeek (n + 6).

Lemma nextMonday_step s :
  (Weekday s = 1 /\ nextMonday s = s /\ nextMonday (s + 1) = s + 7) \/
  (Weekday s <> 1 /\ nextMonday (s + 1) = nextMonday s).
Proof.
  unfold nextMonday. destruct (decide (Weekday s = 1)) as [E|E]; [left|right]; (split; [done|]).
  - apply monday_itself in E. split.
    + rewrite <- E at 2. apply monday_same. lia.
    + replace (s + 1 + 6) with (s + 7 * 1) by lia. rewrite monday_shift. lia.
  - assert (Hne : mondayOfWeek s <> s) by (intros H; by apply E, monday_itself).
    pose proof (monday_bounds s) as Hb.
    assert (H6 : mondayOfWeek (s + 6) = mondayOfWeek s + 7).
    { replace (mondayOfWeek s + 7) with (mondayOfWeek (s + 7 * 1)) by (rewrite monday_shift; lia).
      apply monday_same. rewrite monday_shift. lia. }
    rewrite H6. replace (s + 1 + 6) with (s + 7 * 1) by lia. rewrite monday_shift. lia.
Qed.

Lemma tiles_mondays s n :
  tiles (nextMonday s) (nextMonday (s + Z.of_nat n))
    (map (fun d => (d, d + 7)) (List.filter (fun d => Weekday d =? 1) (seqZ s (Z.of_nat n)))).
Proof.
  revert s. induction n as [|n IH]; intros s.
  - rewrite Z.add_0_r. constructor.
  - rewrite seqZ_cons by lia. cbn [List.filter].
    replace (s + Z.of_nat (S n)) with (s + 1 + Z.of_nat n) by lia.
    replace (Z.pred (Z.of_nat (S n))) with (Z.of_nat n) by lia.
    replace (Z.succ s) with (s + 1) by lia. specialize (IH (s + 1)).
    destruct (nextMonday_step s) as [(E & E1 & E2)|[E E1]].
    + rewrite E, Z.eqb_refl. cbn [map]. rewrite E1. constructor; [lia|]. by rewrite <- E2.
    + rewrite (proj2 (Z.eqb_neq _ _)) by done. by rewrite <- E1.
Qed.

(** What a due rollup covers and what it is built from. *)
Definition covers (date : Z) (j : rollupJob) : Prop :=
  exists s ranges, parsePeriodRange j.(period) = Some (s, date) /\
    map parsePeriodRange j.(sourcePeriods) = map Some ranges /\
    if String.eqb j.(level) "monthly" then tiles (nextMonday s) (nextMonday date) ranges
    else tiles s date ranges.

Lemma map_Some_ext {A B} (f : A -> option B) (g : A -> B) l :
  (forall x, x ∈ l -> f x = Some (g x)) -> map f l = map Some (map g l).
Proof.
  intros H. rewrite map_map. apply map_ext_in. intros x Hx. apply H. by apply list_elem_of_In.
Qed.

Lemma weekly_covers date j :
  0 <= Year (date - 7) -> Year date <= 9999 -> weeklyRollup date = Some j -> covers date j.
Proof.
  unfold weeklyRollup. intros Hlo Hhi. destruct (Z.eqb_spec (Weekday date) 1) as [E|]; [|done].
  cbn [negb]. rewrite !AddDate_days. intros [= <-]. apply monday_itself in E.
  assert (Hy : forall d, date - 7 <= d <= date -> 0 <= Year d <= 9999).
  { intros d Hd. pose proof (Year_mono (date - 7) d ltac:(lia)). pose proof (Year_mono d date ltac:(lia)). lia. }
  assert (Em : mondayOfWeek (date + -1) = date - 7).
  { transitivity (mondayOfWeek (date + 7 * -1)); [|rewrite monday_shift; lia].
    apply monday_same. rewrite monday_shift. lia. }
  exists (date - 7), (map (fun d => (d, d + 1)) (seqZ (date - 7) 7)). cbn [period sourcePeriods level]. split_and!.
  - rewrite range_isoPeriod; [rewrite Em; do 2 f_equal; lia|].
    rewrite ISOWeek_monday, Em. cbn [fst]. apply Hy. lia.
  - rewrite daysFromTo_seqZ by lia. rewrite map_map.
    replace (date + -1 - (date + -7) + 1) with 7 by lia. replace (date + -7) with (date - 7) by lia.
    apply map_Some_ext. intros d Hd%elem_of_seqZ. apply range_day, Hy. lia.
  - cbn [level String.eqb Ascii.eqb Bool.eqb].
    pose proof (tiles_seq (fun d => d) (date - 7) 7) as H. cbv beta in H.
    replace (date - 7 + Z.of_nat 7) with date in H by lia. apply H. intros i. lia.
Qed.

Lemma monthly_covers date j :
  0 <= Year (date - 32) -> Year (date + 7) <= 9999 -> monthlyRollup date = Some j -> covers date j.
Proof.
  unfold monthlyRollup. intros Hlo Hhi. destruct (Z.eqb_spec (Day date) 1) as [E|]; [|done].
  cbn [negb]. rewrite !AddDate_days. intros [= <-].
  destruct (month_before date E) as (_ & Hd & Hs). replace (date + -1) with (date - 1) by lia.
  pose proof (Month_bounds (date - 1)) as Hm. rewrite Date_monthStart, Z.add_0_r.
  set (y := Year (date - 1)) in *. set (m := Month (date - 1)) in *. set (s := monthStart (12 * y + (m - 1))) in *.
  assert (Hlen : date - s <= 31).
  { pose proof (monthStart_succ (12 * y + (m - 1))) as H.
    replace (12 * y + (m - 1) + 1) with (12 * y + m) in H by lia.
    pose proof (daysIn_bounds ((12 * y + (m - 1)) mod 12 + 1) ((12 * y + (m - 1)) / 12)). lia. }
  assert (Hy : forall d, date - 32 <= d <= date + 7 -> 0 <= Year d <= 9999).
  { intros d Hd'. pose proof (Year_mono (date - 32) d ltac:(lia)). pose proof (Year_mono d (date + 7) ltac:(lia)). lia. }
  exists s, (map (fun d => (d, d + 7)) (List.filter (fun d => Weekday d =? 1) (seqZ s (date - s)))).
  cbn [period sourcePeriods level]. split_and!.
  - destruct (proj2 (month_spec s y m Hm)) as [Ey Em].
    { pose proof (monthStart_lt_mono (12 * y + (m - 1)) (12 * y + m) ltac:(lia)). lia. }
    unfold formatMonth. rewrite Ey, Em. rewrite range_month; [by rewrite <- Hd|apply Hy; lia|done].
  - rewrite daysFromTo_seqZ by lia. rewrite map_map.
    replace (date - 1 - s + 1) with (date - s) by lia. apply map_Some_ext.
    intros d [Hd1 Hd2]%list_elem_of_In%filter_In. apply list_elem_of_In, elem_of_seqZ in Hd1.
    apply Z.eqb_eq, monday_itself in Hd2. rewrite range_isoPeriod; [by rewrite Hd2|].
    rewrite ISOWeek_monday, Hd2. cbn [fst]. apply Hy. lia.
  - cbn [level String.eqb Ascii.eqb Bool.eqb].
    pose proof (tiles_mondays s (Z.to_nat (date - s))) as H.
    rewrite Z2Nat.id in H by lia. replace (s + (date - s)) with date in H by lia. exact H.
Qed.

Lemma yearly_covers date j :
  0 <= Year (date - 1) -> Year date <= 9999 -> yearlyRollup date = Some j -> covers date j.
Proof.
  unfold yearlyRollup. intros Hlo Hhi. destruct (Z.eqb_spec (Month date) 1) as [E1|]; [|done].
  destruct (Z.eqb_spec (Day date) 1) as [E2|]; [|done]. cbn [negb orb].
  intros Hj%(inj Some). subst j. pose proof (Year_before date E1 E2) as Hd. set (y := Year date) in *.
  assert (Hy : Year (date - 1) = y - 1).
  { apply year_range. replace (12 * (y - 1 + 1)) with (12 * y) by lia.
    pose proof (monthStart_lt_mono (12 * (y - 1)) (12 * y) ltac:(lia)). lia. }
  exists (monthStart (12 * (y - 1))),
    (map (fun k => (monthStart k, monthStart (k + 1))) (seqZ (12 * (y - 1)) 12)).
  cbn [period sourcePeriods level]. split_and!.
  - rewrite range_year by lia. replace (12 * (y - 1 + 1)) with (12 * y) by lia. by rewrite <- Hd.
  - rewrite (map_map _ parsePeriodRange). transitivity (map Some (map (fun m => (monthStart (12 * (y - 1) + (m - 1)),
      monthStart (12 * (y - 1) + m))) (seqZ 1 12))).
    + rewrite <- (map_Some_ext (fun m => parsePeriodRange (pad4 (y - 1) +:+ ("-" +:+ pad2 m)))); [done|].
      intros m Hm%elem_of_seqZ. apply range_month; lia.
    + apply (f_equal (map Some)). assert (Es : seqZ (12 * (y - 1)) 12 = map (Z.add (12 * (y - 1) - 1)) (seqZ 1 12)).
      { etransitivity; [|symmetry; apply (fmap_add_seqZ (12 * (y - 1) - 1) 1 12)]. f_equal. lia. }
      rewrite Es. rewrite (map_map (Z.add (12 * (y - 1) - 1)) (fun k => (monthStart k, monthStart (k + 1)))).
      apply map_ext. intros m. f_equal; f_equal; lia.
  - cbn [String.eqb Ascii.eqb Bool.eqb].
    pose proof (tiles_seq monthStart (12 * (y - 1)) 12) as H.
    replace (12 * (y - 1) + Z.of_nat 12) with (12 * y) in H by lia. rewrite Hd. apply H.
    intros i. apply monthStart_lt_mono. lia.
Qed.

(** ** Properties *)

(** C35: Every rollup due on a day ends at that day and is built from periods
    that leave no gap and no overlap: the week's seven days and the year's
    twelve months tile the period exactly, and the month's weeks are the weeks
    that begin in it, so the weeks of consecutive months tile the calendar. *)
Theorem due_rollups_tile (date : Z) (j : rollupJob) :
  0 <= Year (date - 32) -> Year (date + 7) <= 9999 -> j ∈ dueRollups date -> covers date j.
Proof.
  intros Hlo Hhi. pose proof (Year_mono (date - 32) (date - 7) ltac:(lia)).
  pose proof (Year_mono (date - 32) (date - 1) ltac:(lia)). pose proof (Year_mono date (date + 7) ltac:(lia)).
  unfold dueRollups. rewrite !elem_of_app.
  intros [Hj|[Hj|Hj]].
  - destruct (weeklyRollup date) eqn:E; cbn in Hj; [|by apply elem_of_nil in Hj].
    apply list_elem_of_singleton in Hj as ->. apply weekly_covers; [lia|lia|done].
  - destruct (monthlyRollup date) eqn:E; cbn in Hj; [|by apply elem_of_nil in Hj].
    apply list_elem_of_singleton in Hj as ->. apply monthly_covers; [lia|lia|done].
  - destruct (yearlyRollup date) eqn:E; cbn in Hj; [|by apply elem_of_nil in Hj].
    apply list_elem_of_singleton in Hj as ->. apply yearly_covers; [lia|lia|done].
Qed.

(** Thursday 1 January 2026: the December and the 2025 rollups. *)
Lemma due_rollups_tile_witness :
  map period (dueRollups (Date 2026 1 1)) = ["2025-12"; "2025"] /\
  forall j, j ∈ dueRollups (Date 2026 1 1) -> covers (Date 2026 1 1) j.
Proof.
  split; [vm_compute; reflexivity|]. intros j Hj.
  apply (due_rollups_tile (Date 2026 1 1) j); [vm_compute; discriminate|vm_compute; discriminate|exact Hj].
Defined.

Lemma some_pair {A B} (a c : A) (b d : B) : Some (a, b) = Some (c, d) -> a = c /\ b = d.
Proof. intros H. by injection H. Qed.

(** The date a summary stamps on its entities is the last day of its
    period: for the period of a day at any level, [periodAsOfDate] is the day
    before the end of the range [parsePeriodRange] reads, and lies in the same
    period. *)
Theorem as_of_last_day (lv : string) (n : Z) :
  lv ∈ levels -> 0 <= Year n <= 9999 -> 0 <= (ISOWeek n).1 <= 9999 ->
  exists last, periodAsOfDate lv (periodOf lv n) = Some last /\ samePeriod lv n last /\
  (exists s, parsePeriodRange (periodOf lv n) = Some (s, last + 1)) /\
  forall day, samePeriod lv n day -> day <= last.
Proof.
  intros Hl Hy Hw.
  destruct (period_range_at lv n Hl Hy Hw) as (s & e & Hp & Hs).
  assert (Hse : s <= n < e).
  { apply Hs. apply levels_spec in Hl as [->|[->|[->| ->]]]; done. }
  exists (e - 1). rewrite Hp, <- Hs. split; [|split; [lia|split; [exists s; do 2 f_equal; lia|]]].
  2: { intros day Hd%Hs. lia. }
  revert Hp. unfold periodOf, periodAsOfDate.
  apply levels_spec in Hl as [->|[->|[->| ->]]]; cbn [String.eqb Ascii.eqb Bool.eqb].
  - rewrite range_day, parseDay_format by done. intros [_ <-]%some_pair. f_equal. lia.
  - pose proof (ISOWeek_bounds n). rewrite range_week, scanYearWeek_format by lia. intros [_ <-]%some_pair.
    cbn [mbind option_bind]. rewrite AddDate_days, isoWeekStart_same. f_equal. lia.
  - pose proof (Month_bounds n) as Hm. unfold formatMonth. rewrite range_month by done. intros [_ <-]%some_pair.
    destruct (pad4_some (Year n) Hy) as (a & b & c & d & -> & E4).
    destruct (pad2_some (Month n) ltac:(lia)) as (g & h & -> & E2). cbn [String.append].
    unfold parseMonth. change (Ascii.eqb "-" "-") with true. rewrite E4, E2. cbn [mbind option_bind].
    unfold checkedDate. rewrite validDate_first by done. cbn [mbind option_bind]. f_equal.
    unfold AddDate. rewrite civilOf_daysOf by by apply validDate_first.
    rewrite Date_monthStart. replace (12 * (Year n + 0) + (Month n + 1 - 1)) with (12 * Year n + Month n) by lia. lia.
  - rewrite range_year by done. intros [_ <-]%some_pair.
    destruct (pad4_some (Year n) Hy) as (a & b & c & d & -> & E4).
    unfold parseYear. rewrite E4. cbn [mbind option_bind].
    unfold checkedDate. rewrite validDate_first by lia. cbn [mbind option_bind]. f_equal.
    unfold AddDate. rewrite civilOf_daysOf by by apply validDate_first; lia.
    rewrite Date_monthStart. replace (12 * (Year n + 1) + (1 + 0 - 1)) with (12 * (Year n + 1)) by lia. lia.
Qed.

Lemma as_of_last_day_witness :
  periodAsOfDate "monthly" "2024-02" = Some (Date 2024 2 29) /\
  exists last, periodAsOfDate "monthly" (periodOf "monthly" (Date 2024 2 3)) = Some last /\
  forall day, samePeriod "monthly" (Date 2024 2 3) day -> day <= last.
Proof.
  split; [vm_compute; reflexivity|].
  destruct (as_of_last_day "monthly" (Date 2024 2 3)) as (last & H1 & _ & _ & H2).
  - apply elem_of_cons. right. apply elem_of_cons. right. by left.
  - vm_compute. split; discriminate.
  - vm_compute. split; discriminate.
  - exists last. split; [exact H1|exact H2].
Defined.
