(* ===== verification/Slug.v ===== *)
(** * Slug: canonical names ([src/internal/consolidation/store.go])

    The identity of an entity is its kind and a slug of its name; a
    relationship's predicate is trimmed, lower-cased and bounded. *)

From S2P Require Import Prelude Utf8 Text Civil Bm25.
#[local] Open Scope string_scope.
#[local] Open Scope list_scope.
#[local] Open Scope Z_scope.

(** [strings.TrimSuffix(s, suffix)] *)
Fixpoint TrimSuffix (s suffix : string) : string :=
  if String.eqb s suffix then ""
  else match s with
       | EmptyString => ""
       | String a s' => String a (TrimSuffix s' suffix)
       end.

Definition validEntityKinds : list string :=
  ["person"; "project"; "preference"; "skill"; "place"; "organization"].

(** [validEntityKinds[kind]] *)
Definition validKind (kind : string) : bool := bool_decide (kind ∈ validEntityKinds).

Definition slugRune (r : Z) : bool := (97 <=? r) && (r <=? 122) || (48 <=? r) && (r <=? 57).

Fixpoint slugLoop (rs : list Z) (lastHyphen : bool) : string :=
  match rs with
  | [] => ""
  | r :: rs' =>
      if slugRune r then encodeRune r (slugLoop rs' false)
      else if negb lastHyphen then String "-" (slugLoop rs' true)
      else slugLoop rs' lastHyphen
  end.

Section Slug.
Context `{HU : Unicode}.

Definition slugify (s : string) : string := TrimSuffix (slugLoop (runes (ToLower s)) true) "-".

Definition canonicalEntityID (kind name fallback : string) : string :=
  let slug := slugify name in
  if String.eqb slug "" then fallback else kind +:+ (":" +:+ slug).

(** The runes [strings.TrimSpace] leaves. *)
Fixpoint trimLeft (rs : list Z) : list Z :=
  match rs with
  | r :: rs' => if isSpace r then trimLeft rs' else rs
  | [] => []
  end.
Definition trimSpace (rs : list Z) : list Z := rev (trimLeft (rev (trimLeft rs))).

Definition relationshipPredicateMaxLen : Z := 64.

Definition sanitizePredicate (s : string) : string :=
  let s := ofRunes (map to_lower (trimSpace (runes s))) in
  if String.eqb s "" || (relationshipPredicateMaxLen <? strLen s) then "" else s.
End Slug.

Definition personPredicateAliases : list (string * string) := [("based_in", "lives_in")].

Fixpoint assoc (k : string) (l : list (string * string)) : option string :=
  match l with
  | [] => None
  | (k', v) :: l' => if String.eqb k k' then Some v else assoc k l'
  end.

Definition canonicalizePredicate (subjectKind predicate : string) : string :=
  if negb (String.eqb subjectKind "person") then predicate
  else match assoc predicate personPredicateAliases with
       | Some canonical => canonical
       | None => predicate
       end.

(** ** Lemmas: suffixes *)

Lemma TrimSuffix_app a suffix : TrimSuffix (a +:+ suffix) suffix = a.
Proof.
  induction a as [|x a IH]; cbn [String.append].
  - destruct suffix; [done|]. cbn [TrimSuffix]. by rewrite String.eqb_refl.
  - cbn [TrimSuffix]. destruct (String.eqb_spec (String x (a +:+ suffix)) suffix) as [E|_]; [|by rewrite IH].
    apply (f_equal String.length) in E. cbn in E. rewrite sapp_length in E. lia.
Qed.

Fixpoint lastChar (s : string) : option ascii :=
  match s with
  | EmptyString => None
  | String a EmptyString => Some a
  | String _ s' => lastChar s'
  end.

Lemma lastChar_cons a s : s <> "" -> lastChar (String a s) = lastChar s.
Proof. by destruct s. Qed.

Lemma lastChar_app a b : b <> "" -> lastChar (a +:+ b) = lastChar b.
Proof.
  intros Hb. induction a as [|x a IH]; [done|]. cbn [String.append].
  rewrite lastChar_cons; [done|]. by destruct a, b.
Qed.

Lemma TrimSuffix_other s c : lastChar s <> Some c -> TrimSuffix s (String c "") = s.
Proof.
  induction s as [|x s IH]; intros H; [done|]. cbn [TrimSuffix].
  destruct (String.eqb_spec (String x s) (String c "")) as [[= -> ->]|_]; [done|].
  f_equal. destruct s as [|y s]; [done|]. by apply IH.
Qed.

(** ** Lemmas: slugs as joined words *)

(** What separates the words of a slug. *)
Definition slugSep (r : Z) : bool := negb (slugRune r).

(** The words of a lower-cased name: what [strings.FieldsFunc] would cut at
    every rune outside a-z and 0-9. *)
Definition slugWords (rs : list Z) : list (list Z) := fieldsFrom slugSep rs [].

Definition nameWords `{Unicode} (name : string) : list (list Z) := slugWords (runes (ToLower name)).

Definition join (ws : list (list Z)) : string := String.concat "-" (map ofRunes ws).

Lemma join_cons w ws : ws <> [] -> join (w :: ws) = ofRunes w +:+ ("-" +:+ join ws).
Proof. unfold join. by destruct ws. Qed.

(** The hyphen the loop leaves after the last word. *)
Definition trailing (rs : list Z) : string :=
  match last rs with
  | Some r => if slugRune r then "" else "-"
  | None => ""
  end.

Lemma trailing_cons r rs : rs <> [] -> trailing (r :: rs) = trailing rs.
Proof. unfold trailing. by destruct rs. Qed.

Lemma words_empty rs : fieldsFrom slugSep rs [] = [] -> Forall (fun r => slugRune r = false) rs.
Proof.
  assert (Hc : forall rs c cur, fieldsFrom slugSep rs (c :: cur) <> []).
  { clear rs. induction rs as [|r rs IH]; intros c cur; cbn; [done|]. by case_match. }
  induction rs as [|r rs IH]; [constructor|]. cbn [fieldsFrom]. unfold slugSep at 1.
  destruct (slugRune r) eqn:E; cbn [negb]; [by intros ?%Hc|]. intros H. constructor; auto.
Qed.

Lemma trailing_empty r rs : slugRune r = false -> fieldsFrom slugSep rs [] = [] -> trailing (r :: rs) = "-".
Proof.
  intros Hr H%words_empty. unfold trailing.
  assert (Hall : Forall (fun r => slugRune r = false) (r :: rs)) by by constructor.
  destruct (last (r :: rs)) as [x|] eqn:E.
  - apply last_Some_elem_of in E. rewrite Forall_forall in Hall. by rewrite (Hall x E).
  - by apply last_None in E.
Qed.

Lemma encode_app r s : encodeRune r s = ofRunes [r] +:+ s.
Proof. unfold encodeRune. cbn [ofRunes]. unfold encodeRune, encodeValid. by repeat case_match. Qed.

Lemma words_cons_ne rs c cur : fieldsFrom slugSep rs (c :: cur) <> [].
Proof. revert c cur. induction rs as [|r rs IH]; intros c cur; cbn; [done|]. by case_match. Qed.

Lemma slugLoop_words rs :
  slugLoop rs true = join (slugWords rs) +:+ (if decide (slugWords rs = []) then "" else trailing rs) /\
  forall c cur, ofRunes (rev (c :: cur)) +:+ slugLoop rs false =
    join (fieldsFrom slugSep rs (c :: cur)) +:+ trailing rs.
Proof.
  unfold slugWords. induction rs as [|r rs [IH1 IH2]]; cbn [slugLoop fieldsFrom].
  { split; [done|]. intros c cur. unfold join, trailing. cbn [map String.concat]. by rewrite !sapp_nil_r. }
  assert (Ht : slugRune r = true -> trailing (r :: rs) = trailing rs).
  { intros E. destruct rs; [|by apply trailing_cons]. unfold trailing. cbn. by rewrite E. }
  change (slugSep r) with (negb (slugRune r)). destruct (slugRune r) eqn:E; cbn [negb].
  - rewrite Ht by done. split.
    + rewrite encode_app. change (ofRunes [r]) with (ofRunes (rev [r])). rewrite (IH2 r []). rewrite decide_False by apply words_cons_ne. done.
    + intros c cur. rewrite encode_app, <- sapp_assoc, <- ofRunes_app.
      change (rev (c :: cur) ++ [r]) with (rev (r :: c :: cur)). apply IH2.
  - split.
    + rewrite IH1. case_decide as Hw; [done|]. rewrite trailing_cons; [done|]. by intros ->.
    + intros c cur. rewrite IH1. case_decide as Hw.
      * rewrite Hw. unfold join at 1 2. cbn [map String.concat String.append].
        by rewrite trailing_empty.
      * rewrite join_cons by done. rewrite trailing_cons by (by intros ->).
        by rewrite !sapp_assoc.
Qed.

(** Words are made of slug runes, and are not empty. *)
Definition slugWord (w : list Z) : Prop := w <> [] /\ Forall (fun r => slugRune r = true) w.

Lemma slugWords_ok rs : Forall slugWord (slugWords rs).
Proof.
  unfold slugWords. eapply Forall_impl; [apply (fieldsFrom_spec slugSep rs []); constructor|].
  intros w (H1 & H2 & _). split; [done|]. eapply Forall_impl; [exact H2|].
  intros r. cbn. unfold slugSep. by destruct (slugRune r).
Qed.

Lemma slugRune_bounds r : slugRune r = true -> 48 <= r <= 122.
Proof. unfold slugRune. rewrite orb_true_iff, !andb_true_iff, !Z.leb_le. lia. Qed.

Lemma encode_slugRune r s : slugRune r = true -> encodeRune r s = String (Zbyte r) s.
Proof.
  intros H%slugRune_bounds. unfold encodeRune, encodeValid.
  rewrite (proj2 (valid_rune_spec r)) by lia. by rewrite (proj2 (Z.ltb_lt _ _)) by lia.
Qed.

Lemma lastChar_word w : slugWord w -> exists r, slugRune r = true /\ lastChar (ofRunes w) = Some (Zbyte r).
Proof.
  intros [Hne Hw]. induction Hw as [|r w Hr Hw IH]; [done|]. cbn [ofRunes].
  rewrite encode_slugRune by done. destruct w as [|x w].
  - exists r. split; [done|]. done.
  - destruct IH as (x' & Hx & E); [done|]. exists x'. split; [done|]. rewrite lastChar_cons; [done|].
    cbn [ofRunes]. rewrite encode_slugRune; [done|]. by inversion Hw.
Qed.

Lemma Zbyte_hyphen r : slugRune r = true -> Zbyte r <> "-"%char.
Proof.
  intros H E. apply (f_equal byteZ) in E. rewrite byteZ_Zbyte in E by (apply slugRune_bounds in H; lia).
  assert (byteZ "-" = 45) as E2 by reflexivity. rewrite E2 in E. by subst.
Qed.

Lemma join_last ws : Forall slugWord ws -> lastChar (join ws) <> Some "-"%char.
Proof.
  induction 1 as [|w ws Hw Hws IH]; [done|]. destruct ws as [|w' ws].
  - unfold join. cbn [map String.concat]. destruct (lastChar_word w Hw) as (r & Hr & ->).
    intros [= E]. by eapply Zbyte_hyphen.
  - rewrite join_cons by done. rewrite lastChar_app by done. rewrite lastChar_app; [done|].
    apply Forall_inv in Hws as Hw'. destruct (lastChar_word w' Hw') as (r & Hr & E).
    unfold join. cbn [map String.concat]. intros E0.
    destruct ws; cbn [map] in E0; destruct (ofRunes w'); cbn in *; congruence.
Qed.

(** [slugify] joins the words of the lower-cased name by hyphens. *)
Lemma slugify_join `{Unicode} s : slugify s = join (slugWords (runes (ToLower s))).
Proof.
  unfold slugify. rewrite (proj1 (slugLoop_words (runes (ToLower s)))).
  set (rs := runes (ToLower s)). pose proof (join_last _ (slugWords_ok rs)) as Hl.
  case_decide as Hw.
  - rewrite sapp_nil_r. by apply TrimSuffix_other.
  - unfold trailing. destruct (last rs) as [r|]; [destruct (slugRune r)|].
    + rewrite sapp_nil_r. by apply TrimSuffix_other.
    + apply TrimSuffix_app.
    + rewrite sapp_nil_r. by apply TrimSuffix_other.
Qed.

(** The runes of a slug, and its words. *)
Lemma runes_word w rest : Forall (fun r => slugRune r = true) w -> runes (ofRunes w +:+ rest) = w ++ runes rest.
Proof.
  induction 1 as [|r w Hr _ IH]; [done|]. cbn [ofRunes app]. rewrite encode_slugRune by done.
  apply slugRune_bounds in Hr. cbn [String.append runes]. rewrite byteZ_Zbyte by lia.
  rewrite (proj2 (Z.ltb_lt _ _)) by lia. by rewrite IH.
Qed.

Fixpoint intersperse (ws : list (list Z)) : list Z :=
  match ws with
  | [] => []
  | w :: ws' => match ws' with [] => w | _ => w ++ 45 :: intersperse ws' end
  end.

Lemma runes_join ws : Forall slugWord ws -> runes (join ws) = intersperse ws.
Proof.
  induction 1 as [|w ws [_ Hw] Hws IH]; [done|]. destruct ws as [|w' ws].
  - unfold join. cbn [map String.concat intersperse]. rewrite <- (sapp_nil_r (ofRunes w)).
    rewrite runes_word by done. cbn. by rewrite app_nil_r.
  - rewrite join_cons by done. rewrite runes_word by done. cbn [intersperse] in *. f_equal.
    cbn [String.append]. rewrite runes_ascii_cons by reflexivity. by rewrite IH.
Qed.

Lemma fields_word w rest cur :
  Forall (fun r => slugRune r = true) w -> fieldsFrom slugSep (w ++ rest) cur = fieldsFrom slugSep rest (rev w ++ cur).
Proof.
  intros Hw. revert cur. induction Hw as [|r w Hr _ IH]; intros cur; [done|].
  cbn [app fieldsFrom]. unfold slugSep at 1. rewrite Hr. cbn [negb]. rewrite IH. cbn [rev].
  by rewrite <- app_assoc.
Qed.

Lemma words_intersperse ws : Forall slugWord ws -> slugWords (intersperse ws) = ws.
Proof.
  unfold slugWords. induction 1 as [|w ws [Hne Hw] Hws IH]; [done|].
  assert (Hrev : forall l : list Z, l <> [] -> exists x l', rev l ++ [] = x :: l' /\ rev (x :: l') = l).
  { intros l Hl. rewrite app_nil_r. destruct (rev l) as [|x l'] eqn:E.
    - apply (f_equal (@rev Z)) in E. rewrite rev_involutive in E. done.
    - exists x, l'. split; [done|]. by rewrite <- E, rev_involutive. }
  destruct (Hrev w Hne) as (x & l' & Ex & El). destruct ws as [|w' ws]; cbn [intersperse].
  - rewrite <- (app_nil_r w) at 1. rewrite fields_word, Ex by done. cbn [fieldsFrom]. by rewrite El.
  - rewrite fields_word, Ex by done. cbn [fieldsFrom]. change (slugSep 45) with true. cbv iota.
    rewrite El. f_equal. exact IH.
Qed.

Lemma join_inj ws ws' : Forall slugWord ws -> Forall slugWord ws' -> join ws = join ws' -> ws = ws'.
Proof.
  intros H H' E. rewrite <- (words_intersperse ws H), <- (words_intersperse ws' H').
  by rewrite <- !runes_join, E.
Qed.

Lemma lower_intersperse `{UnicodeLaws} ws : Forall slugWord ws ->
  map to_lower (intersperse ws) = intersperse ws.
Proof.
  assert (Hr : forall r, slugRune r = true \/ r = 45 -> to_lower r = r).
  { intros r Hr. assert (Hb : 48 <= r <= 57 \/ 97 <= r <= 122 \/ r = 45).
    { destruct Hr as [Hr|]; [|lia]. unfold slugRune in Hr. rewrite orb_true_iff, !andb_true_iff, !Z.leb_le in Hr. lia. }
    rewrite lower_ascii by lia. unfold ascii_lower. destruct (_ && _) eqn:E; [bool_to_prop; lia|done]. }
  assert (Hw : forall w, Forall (fun r => slugRune r = true) w -> map to_lower w = w).
  { induction 1 as [|r w Hx _ IH]; [done|]. cbn [map]. by rewrite IH, Hr by by left. }
  induction 1 as [|w ws [_ Hx] Hws IH]; [done|]. destruct ws as [|w' ws]; cbn [intersperse]; [by apply Hw|].
  rewrite map_app. cbn [map]. rewrite Hw, Hr by (done || by right). f_equal. f_equal. exact IH.
Qed.

Lemma slugify_idem `{UnicodeLaws} s : slugify (slugify s) = slugify s.
Proof.
  rewrite (slugify_join (slugify s)), (slugify_join s). set (ws := slugWords (runes (ToLower s))).
  assert (Hws : Forall slugWord ws) by apply slugWords_ok. f_equal. unfold ToLower.
  rewrite runes_join by done. rewrite lower_intersperse by done.
  rewrite <- runes_join by done. by rewrite runes_roundtrip, runes_join, words_intersperse.
Qed.

Lemma slugify_empty `{Unicode} s : slugify s = "" <-> slugWords (runes (ToLower s)) = [].
Proof.
  rewrite slugify_join. split; [|by intros ->]. pose proof (slugWords_ok (runes (ToLower s))) as Hw.
  intros E. by apply (join_inj _ []); [| |].
Qed.

Lemma validEntityKinds_cases k : k ∈ validEntityKinds ->
  k = "person" \/ k = "project" \/ k = "preference" \/ k = "skill" \/ k = "place" \/ k = "organization".
Proof. unfold validEntityKinds. rewrite !elem_of_cons, elem_of_nil. tauto. Qed.

(** A kind is followed by its colon. *)
Lemma kind_colon k k' a b :
  k ∈ validEntityKinds -> k' ∈ validEntityKinds -> k +:+ (":" +:+ a) = k' +:+ (":" +:+ b) -> k = k' /\ a = b.
Proof.
  destruct (decide (k = k')) as [->|Hne].
  { intros _ _ E%sapp_inj_l%sapp_inj_l. done. }
  intros [->|[->|[->|[->|[->| ->]]]]]%validEntityKinds_cases
    [->|[->|[->|[->|[->| ->]]]]]%validEntityKinds_cases; cbn; intros E;
    first [by destruct Hne|discriminate E].
Qed.

(** ** Properties *)

Section Claims.
Context `{HU : UnicodeLaws}.

(** The slug of a name is its lower-cased words of letters a-z and digits
    joined by single hyphens, with no hyphen at either end; taking the slug of
    a slug changes nothing; and two names have the same slug exactly when they
    have the same words. *)
Theorem slugify_words (s s' : string) :
  slugify s = join (slugWords (runes (ToLower s))) /\
  Forall slugWord (slugWords (runes (ToLower s))) /\
  slugify (slugify s) = slugify s /\
  (slugify s = slugify s' <-> slugWords (runes (ToLower s)) = slugWords (runes (ToLower s'))).
Proof.
  split; [apply slugify_join|]. split; [apply slugWords_ok|]. split; [apply slugify_idem|].
  rewrite !slugify_join. split; [|by intros ->]. apply join_inj; apply slugWords_ok.
Qed.

Lemma canonicalEntityID_words k name f : slugify name <> "" ->
  canonicalEntityID k name f = k +:+ (":" +:+ slugify name).
Proof. intros Hs. unfold canonicalEntityID. by rewrite (proj2 (String.eqb_neq _ _) Hs). Qed.

Lemma slugify_words_iff s s' : slugify s = slugify s' <-> nameWords s = nameWords s'.
Proof.
  unfold nameWords. rewrite !slugify_join. split; [|by intros ->].
  apply join_inj; apply slugWords_ok.
Qed.

(** C28: An entity's id says its kind and the words of its name, the maximal runs
    of a-z and 0-9 of the lower-cased name. A name without a word keeps the id
    the caller suggested. A name with words gets the kind, a colon and all its
    words in order joined by hyphens, whatever id was suggested, and deriving
    the id again from the slug in it gives the same id. Two names with words,
    of valid kinds, have the same id exactly when kinds and words agree. *)
Theorem entity_id_identifies (k k' name name' f f' : string) :
  k ∈ validEntityKinds -> k' ∈ validEntityKinds ->
  Forall slugWord (nameWords name) /\
  (nameWords name = [] -> canonicalEntityID k name f = f) /\
  (nameWords name <> [] ->
     canonicalEntityID k name f = k +:+ (":" +:+ join (nameWords name)) /\
     canonicalEntityID k (join (nameWords name)) f' = canonicalEntityID k name f) /\
  (nameWords name <> [] -> nameWords name' <> [] ->
     canonicalEntityID k name f = canonicalEntityID k' name' f' <->
     k = k' /\ nameWords name = nameWords name').
Proof.
  intros Hk Hk'.
  assert (Hne : forall n, nameWords n <> [] -> slugify n <> "") by (by intros n Hn ?%slugify_empty).
  split; [apply slugWords_ok|]. split; [|split].
  - intros Hw%slugify_empty. unfold canonicalEntityID. by rewrite Hw.
  - intros Hw%Hne. unfold nameWords. rewrite <- slugify_join.
    rewrite !canonicalEntityID_words by (rewrite ?slugify_idem; done). by rewrite slugify_idem.
  - intros Hw%Hne Hw'%Hne. rewrite !canonicalEntityID_words, <- slugify_words_iff by done.
    split; [by apply kind_colon|]. by intros [-> ->].
Qed.
End Claims.

#[local] Existing Instance asciiUnicode.
#[local] Existing Instance asciiUnicode_laws.

Lemma entity_id_identifies_witness :
  canonicalEntityID "project" "Project  Falcon!" "project:falcon" = "project:project-falcon" /\
  Forall slugWord (nameWords "Project Falcon") /\
  canonicalEntityID "person" "?!" "person:unknown" = "person:unknown" /\
  canonicalEntityID "project" "Project Falcon" "x" = "project:" +:+ join (nameWords "Project Falcon") /\
  (canonicalEntityID "project" "Project Falcon" "x" = canonicalEntityID "project" "project--FALCON" "y" <->
   "project" = "project" /\ nameWords "Project Falcon" = nameWords "project--FALCON") /\
  nameWords "Project Falcon" = nameWords "project--FALCON".
Proof.
  assert (Hp : "project" ∈ validEntityKinds) by (apply elem_of_cons; right; by left).
  assert (Hq : "person" ∈ validEntityKinds) by by left.
  destruct (entity_id_identifies "project" "project" "Project Falcon" "project--FALCON" "x" "y" Hp Hp)
    as (Hall & _ & Hwords & Hsame).
  split; [vm_compute; reflexivity|]. split; [exact Hall|].
  split; [apply (entity_id_identifies "person" "person" "?!" "" "person:unknown" "" Hq Hq);
          vm_compute; reflexivity|].
  split; [apply Hwords; vm_compute; discriminate|].
  split; [apply Hsame; vm_compute; discriminate|vm_compute; reflexivity].
Defined.

Lemma slugify_words_witness :
  let s := "  Dr. Ada -- O'Neil " in let s' := "DR ADA o neil" in
  (slugify s = join (slugWords (runes (ToLower s))) /\
   Forall slugWord (slugWords (runes (ToLower s))) /\
   slugify (slugify s) = slugify s /\
   (slugify s = slugify s' <-> slugWords (runes (ToLower s)) = slugWords (runes (ToLower s')))) /\
  slugify s = "dr-ada-o-neil" /\ slugify s' = "dr-ada-o-neil".
Proof. split; [apply (slugify_words "  Dr. Ada -- O'Neil " "DR ADA o neil")|split; vm_compute; reflexivity]. Defined.
