(* ===== verification/Entities.v ===== *)
(** * Entities: merging what a consolidation run learned about an entity
    ([src/internal/consolidation/store.go], [upsertEntities],
    [mergeAttributes]; [types.go], [EntityUpdate])

    An entity's attributes are an encrypted JSON object.  A Go map is [None]
    when nil. *)

From stdpp Require Import gmap.
From S2P Require Import Prelude Identity Schema Db KeyStore Utf8 Json Embed Slug.
#[local] Open Scope string_scope.
#[local] Open Scope list_scope.
#[local] Open Scope Z_scope.

Abbreviation goMap := (option (gmap string string)) (only parsing).

Record EntityUpdate := MkEntityUpdate {
  u_id : string;
  u_kind : string;
  u_name : string;
  u_attributes : goMap;
  u_supersedes : list string
}.

(** [mergeAttributes(existing, incoming)] *)
Definition mergeAttributes (existing incoming : goMap) : goMap :=
  match existing with
  | None => incoming
  | Some m => Some (default ∅ incoming ∪ m)
  end.

(** [for _, staleKey := range keys { delete(existing, staleKey) }] *)
Definition deleteKeys (keys : list string) (existing : goMap) : goMap :=
  foldl (fun m k => delete k <$> m) existing keys.

(** [entities_kind_check] of the schema. *)
Definition entityKindCheck (kind : string) : bool := validKind kind || String.eqb kind "self_model".

Definition sameEntity (scope : Scope) (id : string) (r : EntityRow) : bool :=
  bool_decide (r.(n_scope) = scope) && String.eqb r.(n_id) id.

(** [select .. from entities where scope_kind = .. and scope_owner = .. and
    id = ..], under row-level security. *)
Definition selectEntity (se : session) (scope : Scope) (id : string) (d : db) : option EntityRow :=
  List.find (fun r => visible se r.(n_scope) && sameEntity scope id r) d.(entities).

(** [on conflict .. do update set name, attributes, key_version, last_updated] *)
Definition touchEntity (new r : EntityRow) : EntityRow :=
  MkEntityRow r.(n_id) r.(n_scope) r.(n_kind) new.(n_name) new.(n_attributes) new.(n_key_version)
    r.(n_embedding) r.(n_embedding_model)
    (MkEntityDates r.(n_dates).(first_seen) new.(n_dates).(last_updated)).

Definition insertEntity (row : EntityRow) (d : db) : db :=
  if existsb (sameEntity row.(n_scope) row.(n_id)) d.(entities)
  then set_entities (map (fun r => if sameEntity row.(n_scope) row.(n_id) r then touchEntity row r else r)) d
  else set_entities (fun l => l ++ [row])%list d.

Section Entities.
Context `{HA : AEAD, HR : Rand}.
Variable kek : string.

(** The stored attributes of a row. *)
Definition parseStored (msg attrsJSON : string) : result error goMap :=
  if String.eqb attrsJSON "" then Ok None
  else match unmarshalMap attrsJSON with
       | Some m => Ok m
       | None => Err (ErrMsg msg)
       end.

(** The [switch] of [upsertEntities]: what to write. *)
Definition mergedAttributes (scope : Scope) (replace : bool) (e : EntityUpdate)
    (row : option EntityRow) : M goMap :=
  match row with
  | None => mret e.(u_attributes)
  | Some r =>
      if replace then mret e.(u_attributes)
      else
        existingEnc ← wrapErr "resolve encryption key for existing entity"
                        (GetVersion kek scope r.(n_key_version));
        existingJSON ← lift (wrapRes "decrypt existing attributes" (Decrypt existingEnc r.(n_attributes)));
        existing ← lift (parseStored "parse existing attributes" existingJSON);
        mret (mergeAttributes (deleteKeys e.(u_supersedes) existing) e.(u_attributes))
  end.

Definition upsertEntity (se : session) (scope : Scope) (enc : string) (keyVersion : Z)
    (replace : bool) (asOf : Z) (e : EntityUpdate) : M () :=
  if String.eqb e.(u_id) "" then mret tt
  else
    row ← wrapErr "load existing entity for merge" (query (selectEntity se scope e.(u_id)));
    merged ← mergedAttributes scope replace e row;
    attrsCT ← wrapErr "encrypt attributes for entity" (Encrypt enc (marshalMap merged));
    wrapErr "upsert entity" (
      if writable se scope && entityKindCheck e.(u_kind) then
        exec (insertEntity (MkEntityRow e.(u_id) scope e.(u_kind) e.(u_name) (Some attrsCT) keyVersion
                              None None (MkEntityDates asOf asOf)))
      else roundTrip ;; throw (ErrMsg "constraint violation")).

Definition upsertEntities (se : session) (scope : Scope) (updates : list EntityUpdate)
    (replace : bool) (asOf : Z) : M () :=
  ev ← wrapErr "resolve encryption key" (GetOrCreate kek scope);
  forM updates (upsertEntity se scope ev.1 ev.2 replace asOf).
End Entities.

(** ** What an entity is, without encryption *)

Record Entity := MkEntity {
  en_kind : string;
  en_name : string;
  en_attributes : goMap;
  en_first : Z;
  en_last : Z
}.

(** What an update does to an entity. *)
Definition applyUpdate (replace : bool) (asOf : Z) (o : option Entity) (u : EntityUpdate) : option Entity :=
  match o with
  | None => Some (MkEntity u.(u_kind) u.(u_name) u.(u_attributes) asOf asOf)
  | Some e =>
      Some (MkEntity e.(en_kind) u.(u_name)
        (if replace then u.(u_attributes)
         else mergeAttributes (deleteKeys u.(u_supersedes) e.(en_attributes)) u.(u_attributes))
        e.(en_first) asOf)
  end.

Definition applyUpdates (replace : bool) (asOf : Z) (id : string) (o : option Entity)
    (us : list EntityUpdate) : option Entity :=
  foldl (fun o u => if String.eqb u.(u_id) id then applyUpdate replace asOf o u else o) o us.

Section View.
Context `{HA : AEAD}.
Variable kek : string.

Definition viewAttributes (d : db) (r : EntityRow) : option goMap :=
  t ← readField kek d r.(n_scope) r.(n_key_version) r.(n_attributes);
  resToOption (parseStored "" t).

Definition viewRow (d : db) (r : EntityRow) : option Entity :=
  m ← viewAttributes d r;
  Some (MkEntity r.(n_kind) r.(n_name) m r.(n_dates).(first_seen) r.(n_dates).(last_updated)).

Definition findEntity (scope : Scope) (id : string) (d : db) : option EntityRow :=
  List.find (sameEntity scope id) d.(entities).

Definition viewEntity (d : db) (scope : Scope) (id : string) : option Entity :=
  r ← findEntity scope id d; viewRow d r.

(** A stored entity can be read. *)
Definition entityReadable (d : db) (scope : Scope) (id : string) : Prop :=
  forall r, findEntity scope id d = Some r -> is_Some (viewRow d r).
End View.

(** ** Lemmas: rows *)

Lemma sameEntity_spec s id r : sameEntity s id r = true <-> r.(n_scope) = s /\ r.(n_id) = id.
Proof. unfold sameEntity. by rewrite andb_true_iff, bool_decide_eq_true, String.eqb_eq. Qed.

Lemma find_ext {A} (p q : A -> bool) l : (forall x, p x = q x) -> List.find p l = List.find q l.
Proof. intros H. induction l as [|x l IH]; cbn; [done|]. by rewrite H, IH. Qed.

Lemma find_app {A} (p : A -> bool) l l' :
  List.find p (l ++ l') = match List.find p l with Some x => Some x | None => List.find p l' end.
Proof. induction l as [|x l IH]; cbn; [done|]. by destruct (p x). Qed.

Lemma existsb_find {A} (p : A -> bool) l : existsb p l = bool_decide (is_Some (List.find p l)).
Proof.
  induction l as [|x l IH]; cbn; [done|]. destruct (p x); [symmetry; by apply bool_decide_eq_true_2|done].
Qed.

(** Mapping rows with their key kept. *)
Lemma find_map_key {A} (p : A -> bool) (f : A -> A) l :
  (forall x, p (f x) = p x) -> List.find p (map f l) = f <$> List.find p l.
Proof. intros H. induction l as [|x l IH]; cbn; [done|]. rewrite H. by destruct (p x). Qed.

Lemma selectEntity_find s id d : selectEntity (MkSession s s) s id d = findEntity s id d.
Proof.
  unfold selectEntity, findEntity. apply find_ext. intros r.
  destruct (sameEntity s id r) eqn:E; [|by rewrite andb_false_r]. rewrite andb_true_r.
  apply sameEntity_spec in E as [E _]. by apply visible_same.
Qed.

Lemma find_same s id d r : findEntity s id d = Some r -> r.(n_scope) = s /\ r.(n_id) = id.
Proof. intros H. apply find_some in H as [_ H]. by apply sameEntity_spec. Qed.

Lemma insertEntity_find row d s id :
  findEntity s id (insertEntity row d) =
    if sameEntity s id row
    then Some (match findEntity s id d with Some r => touchEntity row r | None => row end)
    else findEntity s id d.
Proof.
  assert (Hkey : forall x r, sameEntity s id (if sameEntity (n_scope row) (n_id row) x then touchEntity r x else x) =
    sameEntity s id x) by (intros; by case_match).
  unfold findEntity, insertEntity. rewrite existsb_find.
  destruct (sameEntity s id row) eqn:E.
  - apply sameEntity_spec in E as [E1 E2]. rewrite E1, E2 in *.
    destruct (List.find (sameEntity s id) (entities d)) as [r|] eqn:Ef.
    + rewrite bool_decide_eq_true_2 by eauto. cbn [entities set_entities].
      rewrite find_map_key by (intros; apply Hkey). rewrite Ef. cbn. f_equal.
      apply find_some in Ef as [_ ->]. done.
    + rewrite bool_decide_eq_false_2 by (by intros [? ?]). cbn [entities set_entities].
      rewrite find_app, Ef. cbn. unfold sameEntity. by rewrite E1, E2, bool_decide_eq_true_2, String.eqb_refl.
  - case_match; cbn [entities set_entities].
    + rewrite find_map_key by (intros; apply Hkey). destruct (List.find (sameEntity s id) (entities d)) as [r|] eqn:Ef; [|done].
      cbn. f_equal. apply find_some in Ef as [_ Ef]. destruct (sameEntity (n_scope row) (n_id row) r) eqn:E2; [|done].
      apply sameEntity_spec in Ef as [<- <-]. apply sameEntity_spec in E2 as [E3 E4].
      assert (sameEntity (n_scope r) (n_id r) row = true) as Hr by (apply sameEntity_spec; split; congruence).
      congruence.
    + rewrite find_app. cbn [List.find]. rewrite E. by destruct (List.find (sameEntity s id) (entities d)).
Qed.

(** Rows of other entities stay as they are. *)
Lemma insertEntity_frame row d :
  List.filter (fun r => negb (sameEntity row.(n_scope) row.(n_id) r)) (insertEntity row d).(entities) =
  List.filter (fun r => negb (sameEntity row.(n_scope) row.(n_id) r)) d.(entities).
Proof.
  unfold insertEntity. destruct (existsb _ _); cbn [entities set_entities].
  - induction (entities d) as [|r l IH]; [done|]. cbn [map List.filter].
    destruct (sameEntity (n_scope row) (n_id row) r) eqn:E.
    + assert (E2 : sameEntity (n_scope row) (n_id row) (touchEntity row r) = true) by exact E.
      rewrite E2. cbn [negb]. exact IH.
    + rewrite E. cbn [negb]. by rewrite IH.
  - rewrite List.filter_app. cbn. unfold sameEntity. rewrite bool_decide_eq_true_2, String.eqb_refl by done.
    cbn. by rewrite app_nil_r.
Qed.

Lemma insertEntity_tables row d : insertEntity row d = set_entities (fun _ => (insertEntity row d).(entities)) d.
Proof. unfold insertEntity. by case_match; destruct d. Qed.

(** ** Lemmas: maps *)

Lemma utf8Map_none : utf8Map None.
Proof. intros k v. cbn. by rewrite lookup_empty. Qed.

Lemma utf8Map_delete keys m : utf8Map m -> utf8Map (deleteKeys keys m).
Proof.
  unfold deleteKeys. revert m. induction keys as [|k keys IH]; intros m H; cbn; [done|]. apply IH.
  destruct m as [m|]; [|done]. intros k' v. cbn. intros [_ Hl]%lookup_delete_Some. by apply (H k' v).
Qed.

Lemma utf8Map_merge m1 m2 : utf8Map m1 -> utf8Map m2 -> utf8Map (mergeAttributes m1 m2).
Proof.
  intros H1 H2. destruct m1 as [m1|]; [|done]. intros k v. cbn.
  intros [Hl|[_ Hl]]%lookup_union_Some_raw; [by apply (H2 k v)|by apply (H1 k v)].
Qed.

(** What a merge leaves under each key. *)
Lemma mergeAttributes_lookup existing incoming k :
  default ∅ (mergeAttributes existing incoming) !! k =
    match default ∅ incoming !! k with Some v => Some v | None => default ∅ existing !! k end.
Proof.
  destruct existing as [m|]; cbn.
  - destruct (default ∅ incoming !! k) eqn:E; [by apply lookup_union_Some_l|by apply lookup_union_r].
  - rewrite lookup_empty. by case_match.
Qed.

Lemma deleteKeys_lookup keys m k :
  default ∅ (deleteKeys keys m) !! k = if bool_decide (k ∈ keys) then None else default ∅ m !! k.
Proof.
  unfold deleteKeys. revert m. induction keys as [|x keys IH]; intros m; cbn; [done|]. rewrite IH.
  destruct (bool_decide_reflect (k ∈ keys)) as [Hk|Hk].
  - by rewrite bool_decide_eq_true_2 by by right.
  - destruct (decide (k = x)) as [->|Hne].
    + rewrite bool_decide_eq_true_2 by by left. destruct m; cbn; [by rewrite lookup_delete_eq|by rewrite lookup_empty].
    + rewrite bool_decide_eq_false_2 by (by intros [?|?]%elem_of_cons).
      destruct m; cbn; [by rewrite lookup_delete_ne|done].
Qed.

(** ** The upsert refines [applyUpdates] *)

Section Refinement.
Context `{HA : AEAD, HR : Rand, HL : !AEADLaws}.
Variable kek : string.
Variables (s : Scope) (replace : bool) (asOf : Z).

(** Adding keys does not change what can be read. *)
Definition keysKept (d d' : db) : Prop :=
  forall v k, keyOf kek d s v = Some k -> keyOf kek d' s v = Some k.

Lemma viewRow_kept d d' r x :
  keysKept d d' -> r.(n_scope) = s -> viewRow kek d r = Some x -> viewRow kek d' r = Some x.
Proof.
  intros Hk Hs. unfold viewRow, viewAttributes, readField. rewrite Hs.
  destruct (keyOf kek d s (n_key_version r)) as [k|] eqn:E; [|done]. by rewrite (Hk _ _ E).
Qed.

Lemma keysKept_same d d' : d'.(scope_keys) = d.(scope_keys) -> keysKept d d' /\ keysKept d' d.
Proof. intros E. split; intros v k; unfold keyOf; by rewrite E. Qed.

Lemma wp_mergedAttributes e row Q d c i fs :
  storeInv kek d c ->
  (forall r, row = Some r -> r.(n_scope) = s /\ is_Some (viewRow kek d r)) ->
  utf8Map e.(u_attributes) ->
  (forall m c' fs', quiet fs fs' -> storeInv kek d c' -> utf8Map m ->
     (forall o, o = (r ← row; viewRow kek d r) -> en_attributes <$> applyUpdate replace asOf o e = Some m) ->
     Q (Ok m) (MkWorld d (MkProcess c' i) fs')) ->
  (forall e' fs', quiet fs fs' -> fs <> [] -> Q (Err e') (MkWorld d (MkProcess c i) fs')) ->
  wp (mergedAttributes kek s replace e row) Q (MkWorld d (MkProcess c i) fs).
Proof.
  intros Hinv Hrow Hutf HOk HErr. unfold mergedAttributes. destruct row as [r|].
  2: { apply wp_ret, HOk; [oracle|done|done|]. by intros o ->. }
  destruct (Hrow r eq_refl) as [Hs [x Hx]].
  pose proof Hx as Hx'. unfold viewRow, viewAttributes, readField in Hx'.
  rewrite Hs in Hx'. destruct (keyOf kek d s (n_key_version r)) as [k|] eqn:Ek; [|done]. cbn in Hx'.
  destruct (Decrypt k (n_attributes r)) as [t|] eqn:Ed; [|done]. cbn in Hx'.
  destruct (parseStored "" t) as [m|] eqn:Ep; [|done]. cbn in Hx'. injection Hx' as <-.
  destruct replace eqn:Er.
  { apply wp_ret, HOk; [oracle|done|done|]. intros o ->. cbn. by rewrite Hx. }
  apply wp_bind, wp_wrap. eapply wp_GetVersion_stored; [done|exact Ek| |].
  2: { intros e' fs' Hq Hf. by apply HErr. }
  intros c' fs' Hq Hi _ _. rewrite Ed. cbn [wrapRes]. apply wp_bind, wp_lift.
  assert (Hp : forall msg, parseStored msg t = Ok m).
  { intros msg. unfold parseStored in *. destruct (String.eqb t ""); [done|]. by destruct (unmarshalMap t). }
  rewrite Hp. apply wp_bind, wp_lift, wp_ret, HOk; [done|done| |].
  - apply utf8Map_merge; [|done]. apply utf8Map_delete. unfold parseStored in Ep.
    destruct (String.eqb t ""); [injection Ep as <-; apply utf8Map_none|].
    destruct (unmarshalMap t) eqn:Eu; [|done]. injection Ep as <-. by eapply unmarshal_utf8.
  - intros o ->. cbn. by rewrite Hx.
Qed.

(** What writing entities did: rows of other entities are the same rows, and a
    reader sees the updates applied. *)
Definition touched (us : list EntityUpdate) (r : EntityRow) : bool :=
  existsb (fun u => sameEntity s u.(u_id) r) us.

Record upserted (us : list EntityUpdate) (d d' : db) : Prop := {
  up_tables : d' = set_entities (fun _ => d'.(entities)) d;
  up_frame : List.filter (fun r => negb (touched us r)) d'.(entities) =
             List.filter (fun r => negb (touched us r)) d.(entities);
  up_view : forall id, entityReadable kek d s id ->
    entityReadable kek d' s id /\
    (id <> "" -> viewEntity kek d' s id = applyUpdates replace asOf id (viewEntity kek d s id) us)
}.

Lemma upserted_nil d : upserted [] d d.
Proof. split; [by destruct d|done|]. intros id H. done. Qed.

Lemma filter_filter_imp {A} (p q : A -> bool) l :
  (forall x, p x = true -> q x = true) -> List.filter p (List.filter q l) = List.filter p l.
Proof.
  intros H. induction l as [|x l IH]; cbn; [done|]. destruct (q x) eqn:Eq; cbn.
  - by rewrite IH.
  - destruct (p x) eqn:Ep; [apply H in Ep; congruence|done].
Qed.

Lemma filter_weaken {A} (p q : A -> bool) l l' :
  (forall x, p x = true -> q x = true) ->
  List.filter q l = List.filter q l' -> List.filter p l = List.filter p l'.
Proof. intros H E. rewrite <- (filter_filter_imp p q l), <- (filter_filter_imp p q l') by done. by rewrite E. Qed.

Lemma upserted_snoc us u d d1 d2 :
  upserted us d d1 -> upserted [u] d1 d2 -> upserted (us ++ [u]) d d2.
Proof.
  intros [T1 F1 V1] [T2 F2 V2]. split.
  - rewrite T2, T1. by destruct d.
  - assert (H1 : forall x, negb (touched (us ++ [u]) x) = true -> negb (touched us x) = true).
    { intros x. unfold touched. rewrite existsb_app, !negb_true_iff. by intros [? _]%orb_false_iff. }
    assert (H2 : forall x, negb (touched (us ++ [u]) x) = true -> negb (touched [u] x) = true).
    { intros x. unfold touched. rewrite existsb_app, !negb_true_iff. by intros [_ ?]%orb_false_iff. }
    rewrite (filter_weaken _ _ _ _ H2 F2). by apply (filter_weaken _ _ _ _ H1).
  - intros id Hr. destruct (V1 id Hr) as [Hr1 E1]. destruct (V2 id Hr1) as [Hr2 E2].
    split; [done|]. intros Hid. rewrite E2, E1 by done. unfold applyUpdates. by rewrite foldl_app.
Qed.

(** The view of the written row. *)
Lemma viewRow_written d r row ct k m :
  r.(n_scope) = s -> keyOf kek d s row.(n_key_version) = Some k ->
  r.(n_key_version) = row.(n_key_version) -> r.(n_attributes) = Some ct ->
  Decrypt k (Some ct) = Ok (marshalMap m) -> utf8Map m ->
  viewRow kek d r = Some (MkEntity r.(n_kind) r.(n_name) m r.(n_dates).(first_seen) r.(n_dates).(last_updated)).
Proof.
  intros Hs Hk Hv Ha Hd Hu. unfold viewRow, viewAttributes, readField. rewrite Hs, Hv, Hk, Ha. cbn.
  rewrite Hd. cbn. unfold parseStored. rewrite (proj2 (String.eqb_neq _ _)) by apply marshal_not_empty.
  by rewrite unmarshal_marshal.
Qed.

Lemma insertEntity_keys row d : (insertEntity row d).(scope_keys) = d.(scope_keys).
Proof. rewrite insertEntity_tables. done. Qed.

Lemma insertEntity_upserted e d enc v ct m :
  keyOf kek d s v = Some enc -> e.(u_id) <> "" -> entityReadable kek d s e.(u_id) ->
  Decrypt enc (Some ct) = Ok (marshalMap m) -> utf8Map m ->
  en_attributes <$> applyUpdate replace asOf (viewEntity kek d s e.(u_id)) e = Some m ->
  upserted [e] d (insertEntity (MkEntityRow e.(u_id) s e.(u_kind) e.(u_name) (Some ct) v None None
                                  (MkEntityDates asOf asOf)) d).
Proof.
  set (row := MkEntityRow _ _ _ _ _ _ _ _ _). intros Hk Hid Hr Hd Hu Hm.
  assert (Hview : forall r, viewRow kek (insertEntity row d) r = viewRow kek d r).
  { intros r. unfold viewRow, viewAttributes, readField, keyOf. by rewrite insertEntity_keys. }
  split; [apply insertEntity_tables| |].
  - pose proof (insertEntity_frame row d) as H.
    assert (Ht : forall r, negb (touched [e] r) = negb (sameEntity (n_scope row) (n_id row) r)).
    { intros r. unfold touched. cbn. by rewrite orb_false_r. }
    rewrite !(List.filter_ext _ _ Ht). exact H.
  - intros id Hrid. unfold entityReadable, viewEntity. rewrite insertEntity_find.
    destruct (sameEntity s id row) eqn:E.
    + apply sameEntity_spec in E as [_ E]. cbn in E. subst id.
      assert (Hnew : viewRow kek (insertEntity row d)
        (match findEntity s (u_id e) d with Some r => touchEntity row r | None => row end) =
        applyUpdate replace asOf (viewEntity kek d s (u_id e)) e).
      { rewrite Hview. unfold viewEntity in *. destruct (findEntity s (u_id e) d) as [r|] eqn:Ef.
        - destruct (Hrid r Ef) as [x Hx]. cbn in Hm |- *. rewrite Hx in Hm |- *. cbn in Hm |- *.
          injection Hm as Hm. destruct (find_same _ _ _ _ Ef) as [Hs _].
          rewrite (viewRow_written d _ row ct enc m) by done. cbn. rewrite Hm. do 2 f_equal.
          + unfold viewRow in Hx. destruct (viewAttributes kek d r); [|done]. by injection Hx as <-.
          + unfold viewRow in Hx. destruct (viewAttributes kek d r); [|done]. by injection Hx as <-.
        - cbn in Hm |- *. injection Hm as Hm. rewrite (viewRow_written d row row ct enc m) by done.
          cbn. by rewrite Hm. }
      split.
      * intros r' [= <-]. rewrite Hnew. unfold applyUpdate. destruct (viewEntity kek d s (u_id e)); eexists; reflexivity.
      * intros _. cbn [mbind option_bind]. rewrite Hnew. unfold applyUpdates. cbn. by rewrite String.eqb_refl.
    + assert (Hne : u_id e <> id).
      { intros <-. assert (sameEntity s (u_id e) row = true) by (apply sameEntity_spec; done). congruence. }
      split.
      * intros r Hf. rewrite Hview. by apply Hrid.
      * intros _. unfold applyUpdates. cbn. rewrite (proj2 (String.eqb_neq _ _) Hne).
        destruct (findEntity s id d); [|done]. cbn. apply Hview.
Qed.

Definition updateOk (e : EntityUpdate) : Prop :=
  u_id e = "" \/ (entityKindCheck (u_kind e) = true /\ utf8Map (u_attributes e)).

Lemma wp_upsertEntity enc v e Q d c i fs :
  storeInv kek d c -> keyOf kek d s v = Some enc -> updateOk e -> entityReadable kek d s e.(u_id) ->
  (forall d' c' j fs', quiet fs fs' -> storeInv kek d' c' -> d'.(scope_keys) = d.(scope_keys) ->
     upserted [e] d d' -> Q (Ok tt) (MkWorld d' (MkProcess c' j) fs')) ->
  (forall e' c' j fs', quiet fs fs' -> storeInv kek d c' -> fs <> [] \/ ~ rand_ok ->
     Q (Err e') (MkWorld d (MkProcess c' j) fs')) ->
  wp (upsertEntity kek (MkSession s s) s enc v replace asOf e) Q (MkWorld d (MkProcess c i) fs).
Proof.
  intros Hinv Hk Hok Hr HOk HErr. unfold upsertEntity.
  destruct (String.eqb_spec (u_id e) "") as [Hid|Hid].
  { apply wp_ret, HOk; [oracle|done|done|]. split; [by destruct d| |].
    - unfold touched. cbn. assert (Hx : forall r, negb (sameEntity s (u_id e) r || false) = true ->
        negb (sameEntity s (u_id e) r || false) = true) by done. done.
    - intros id Hrid. split; [done|]. intros Hid'. unfold applyUpdates. cbn.
      rewrite (proj2 (String.eqb_neq _ _)); [done|]. rewrite Hid. done. }
  destruct Hok as [?|[Hkind Hutf]]; [done|].
  apply wp_bind, wp_wrap, wp_query; [|intros; apply HErr; [oracle|done|by left]].
  rewrite selectEntity_find. apply wp_bind. apply wp_mergedAttributes; [done| |done| |].
  { intros r Hf. split; [by apply (find_same _ _ _ _ Hf)|by apply Hr]. }
  2: { intros e' fs' Hq Hf. apply HErr; [oracle|done|]. left. destruct fs; oracle. }
  intros m c' fs' Hq Hi Hu Hm. apply wp_bind, wp_wrap, wp_Encrypt.
  2: { intros e' Hrnd. apply HErr; [oracle|done|by right]. }
  intros ct Hct. apply wp_wrap. unfold writable. cbn [workspace].
  rewrite bool_decide_eq_true_2, Hkind by done. cbn [andb]. apply wp_exec.
  - apply HOk; [oracle| | |].
    + apply (storeInv_same_keys kek d); [apply insertEntity_keys|done].
    + apply insertEntity_keys.
    + by eapply insertEntity_upserted; eauto.
  - intros Hf. apply HErr; [oracle|done|]. left. destruct fs; oracle.
Qed.

Lemma upserted_keys us d d' : upserted us d d' -> d'.(scope_keys) = d.(scope_keys).
Proof. intros [-> _ _]. done. Qed.

Lemma wp_upsertLoop enc v us Q d c i fs :
  storeInv kek d c -> keyOf kek d s v = Some enc -> Forall updateOk us ->
  Forall (fun e => entityReadable kek d s e.(u_id)) us ->
  (forall d' c' j fs', quiet fs fs' -> storeInv kek d' c' -> upserted us d d' ->
     Q (Ok tt) (MkWorld d' (MkProcess c' j) fs')) ->
  (forall e' d' c' j fs', quiet fs fs' -> storeInv kek d' c' -> d'.(scope_keys) = d.(scope_keys) ->
     fs <> [] \/ ~ rand_ok -> Q (Err e') (MkWorld d' (MkProcess c' j) fs')) ->
  wp (forM us (upsertEntity kek (MkSession s s) s enc v replace asOf)) Q (MkWorld d (MkProcess c i) fs).
Proof.
  intros Hinv Hk Hok Hr HOk HErr.
  apply (wp_forM us _ (fun l w => exists before d' c' j fs', w = MkWorld d' (MkProcess c' j) fs' /\
      us = before ++ l /\ quiet fs fs' /\ storeInv kek d' c' /\ upserted before d d')
    (fun e' w => exists d' c' j fs', w = MkWorld d' (MkProcess c' j) fs' /\ quiet fs fs' /\
      storeInv kek d' c' /\ d'.(scope_keys) = d.(scope_keys) /\ (fs <> [] \/ ~ rand_ok))).
  - exists [], d, c, i, fs. split_and!; [done|done|oracle|done|apply upserted_nil].
  - intros e l w1 (before & d1 & c1 & j & fs1 & -> & Hus & Hq & Hi & Hup).
    assert (Hin : e ∈ us) by (rewrite Hus; apply elem_of_app; right; by left).
    rewrite Forall_forall in Hok, Hr.
    apply wp_upsertEntity; [done| |by apply Hok| | |].
    + rewrite <- Hk. unfold keyOf. by rewrite (upserted_keys _ _ _ Hup).
    + apply (up_view _ _ _ Hup). by apply Hr.
    + intros d' c' j' fs' Hq' Hi' Hkeys Hup'. exists (before ++ [e]), d', c', j', fs'.
      split_and!; [done|by rewrite <- app_assoc|by eapply quiet_trans|done|by eapply upserted_snoc].
    + intros e' c' j' fs' Hq' Hi' Hor. exists d1, c', j', fs'.
      split_and!; [done|by eapply quiet_trans|done|by eapply upserted_keys|].
      destruct Hor as [Hf|]; [left; by eapply quiet_not_nil|by right].
  - intros w (before & d' & c' & j & fs' & -> & Hus & Hq & Hi & Hup).
    rewrite app_nil_r in Hus. subst before. by apply HOk.
  - intros e' w (d' & c' & j & fs' & -> & Hq & Hi & Hkeys & Hor). by apply HErr.
Qed.

(** What [upsertEntities] promises; see the theorem. *)
Definition upsertPost (us : list EntityUpdate) (w : world) (r : result error ()) (w' : world) : Prop :=
  storeInv kek w'.(w_db) w'.(w_proc).(cache) /\ quiet w.(w_faults) w'.(w_faults) /\
  (currentVersionOf s w.(w_db) <> 0 -> scope_keys w'.(w_db) = scope_keys w.(w_db)) /\
  match r with
  | Ok _ => exists d1, same_rows w.(w_db) d1 /\ keysKept w.(w_db) d1 /\ upserted us d1 w'.(w_db)
  | Err _ => w.(w_faults) <> [] \/ ~ (rand_ok /\ String.length kek = 32%nat)
  end.

Lemma findEntity_same_rows d d' id : same_rows d d' -> findEntity s id d' = findEntity s id d.
Proof. unfold same_rows. intros ->. done. Qed.

Lemma readable_kept d d' id :
  same_rows d d' -> keysKept d d' -> entityReadable kek d s id ->
  entityReadable kek d' s id /\ viewEntity kek d' s id = viewEntity kek d s id.
Proof.
  intros Hs Hk Hr. unfold entityReadable, viewEntity. rewrite (findEntity_same_rows _ _ _ Hs).
  destruct (findEntity s id d) as [r|] eqn:Ef; [|by split; [intros ? ?|]].
  destruct (Hr r Ef) as [x Hx]. destruct (find_same _ _ _ _ Ef) as [Hsc _].
  pose proof (viewRow_kept _ _ _ _ Hk Hsc Hx) as Hx'. split.
  - intros r' [= <-]. by rewrite Hx'.
  - cbn. by rewrite Hx, Hx'.
Qed.

Lemma wp_upsertEntities us w :
  storeInv kek w.(w_db) w.(w_proc).(cache) -> Forall updateOk us ->
  Forall (fun e => entityReadable kek w.(w_db) s e.(u_id)) us ->
  wp (upsertEntities kek (MkSession s s) s us replace asOf) (upsertPost us w) w.
Proof.
  intros Hinv Hok Hr. unfold upsertEntities. apply wp_bind, wp_wrap.
  eapply wp_mono; [by apply wp_GetOrCreate|].
  intros [[enc v]|e] [d1 [c1 i1] fs1] (Hi & Hsame & Hsub & Hstay & Hq & Hres); cbn in *.
  2: { split_and!; [done|done| |done]. intros Hc. by rewrite (Hstay Hc). }
  destruct Hres as (-> & _ & Hk).
  assert (Hkept : keysKept w.(w_db) d1).
  { intros v k. unfold keyOf. destruct (scope_keys (w_db w) !! (s, v)) as [wr|] eqn:E; [|done].
    by rewrite (lookup_weaken _ _ _ _ E Hsub). }
  apply (wp_upsertLoop enc (currentVersionOf s d1)); [done|done|done| | |].
  - eapply Forall_impl; [exact Hr|]. intros e He. by apply (readable_kept (w_db w)).
  - intros d' c' j fs' Hq' Hi' Hup. split_and!; [done|by eapply quiet_trans| |by exists d1].
    intros Hc. cbn. rewrite (upserted_keys _ _ _ Hup). by rewrite (Hstay Hc).
  - intros e' d' c' j fs' Hq' Hi' Hkeys Hor. split_and!; [done|by eapply quiet_trans| |].
    + intros Hc. cbn. rewrite Hkeys. by rewrite (Hstay Hc).
    + destruct Hor as [Hf|Hf]; [left; by eapply quiet_not_nil|right; by intros []].
Qed.
End Refinement.

(** ** Properties *)

Section Claims.
Context `{HA : AEAD, HR : Rand, HL : !AEADLaws}.
Variable kek : string.

(** C7: Upserting entities refines applying the updates one after the other to
    what a reader sees: every readable entity of the scope reads afterwards as
    [applyUpdates] says (a new one as given; on an existing one the name is
    replaced, kind and first-seen date stay, and the attributes are merged, or
    replaced by a correction), whatever key version its row was on; the rows of
    all other entities and every other table keep their bytes. Without faults
    and with working keys it cannot fail. *)
Theorem upsert_refines (s : Scope) (us : list EntityUpdate) (replace : bool) (asOf : Z) (w : world) :
  storeInv kek w.(w_db) w.(w_proc).(cache) -> Forall updateOk us ->
  Forall (fun e => entityReadable kek w.(w_db) s e.(u_id)) us ->
  wp (upsertEntities kek (MkSession s s) s us replace asOf)
    (fun r w' =>
       storeInv kek w'.(w_db) w'.(w_proc).(cache) /\
       match r with
       | Ok _ =>
           (forall id, id <> "" -> entityReadable kek w.(w_db) s id ->
              viewEntity kek w'.(w_db) s id = applyUpdates replace asOf id (viewEntity kek w.(w_db) s id) us) /\
           List.filter (fun r => negb (touched s us r)) w'.(w_db).(entities) =
             List.filter (fun r => negb (touched s us r)) w.(w_db).(entities) /\
           w'.(w_db) = set_entities (fun _ => w'.(w_db).(entities))
                         (set_scope_keys (fun _ => w'.(w_db).(scope_keys)) w.(w_db))
       | Err _ => w.(w_faults) <> [] \/ ~ (rand_ok /\ String.length kek = 32%nat)
       end) w.
Proof.
  intros Hinv Hok Hr. eapply wp_mono; [by apply wp_upsertEntities|].
  intros [[]|e] w' (Hi & _ & _ & Hres); (split; [done|]); [|done].
  destruct Hres as (d1 & Hsame & Hkept & [T F V]). split_and!.
  - intros id Hid Hrid. destruct (readable_kept kek s _ _ id Hsame Hkept Hrid) as [Hr1 E1].
    rewrite <- E1. by apply V.
  - rewrite F. unfold same_rows in Hsame. by rewrite Hsame.
  - unfold same_rows in Hsame. rewrite T, Hsame. by destruct (w_db w).
Qed.

(** Merging loses nothing it was not told to: on the attributes of an
    existing entity, a key the update gives has the update's value, a key it
    names as superseded and does not give is gone, and every other key keeps
    its value; a correction leaves exactly the attributes it states. *)
Theorem merge_keeps_unmentioned (asOf : Z) (e : Entity) (u : EntityUpdate) (k : string) :
  (exists e', applyUpdate false asOf (Some e) u = Some e' /\
    default ∅ e'.(en_attributes) !! k =
      match default ∅ u.(u_attributes) !! k with
      | Some v => Some v
      | None => if bool_decide (k ∈ u.(u_supersedes)) then None else default ∅ e.(en_attributes) !! k
      end) /\
  exists e', applyUpdate true asOf (Some e) u = Some e' /\ e'.(en_attributes) = u.(u_attributes).
Proof.
  split; [|by eexists]. eexists. split; [done|]. cbn [en_attributes].
  rewrite mergeAttributes_lookup. case_match; [done|]. apply deleteKeys_lookup.
Qed.
End Claims.

Import Toy.

Definition robinScope : Scope := MkScope ScopeKindPrivate "robin".

Definition robinUpdates : list EntityUpdate := [
  MkEntityUpdate "person_ada" "person" "Ada" (Some {[ "role" := "tester"; "city" := "Oslo" ]}) [];
  MkEntityUpdate "" "person" "nobody" None [];
  MkEntityUpdate "person_ada" "project" "Ada L." (Some {[ "role" := "developer" ]}) ["city"]
].

Lemma upsert_refines_witness :
  wp (upsertEntities Toy.kek (MkSession robinScope robinScope) robinScope robinUpdates false 7)
    (fun r w' =>
       storeInv Toy.kek w'.(w_db) w'.(w_proc).(cache) /\
       match r with
       | Ok _ =>
           (forall id, id <> "" -> entityReadable Toy.kek (w_db Toy.world0) robinScope id ->
              viewEntity Toy.kek w'.(w_db) robinScope id =
                applyUpdates false 7 id (viewEntity Toy.kek (w_db Toy.world0) robinScope id) robinUpdates) /\
           List.filter (fun r => negb (touched robinScope robinUpdates r)) w'.(w_db).(entities) =
             List.filter (fun r => negb (touched robinScope robinUpdates r)) (w_db Toy.world0).(entities) /\
           w'.(w_db) = set_entities (fun _ => w'.(w_db).(entities))
                         (set_scope_keys (fun _ => w'.(w_db).(scope_keys)) (w_db Toy.world0))
       | Err _ => w_faults Toy.world0 <> [] \/ ~ (rand_ok /\ String.length Toy.kek = 32%nat)
       end) Toy.world0 /\
  (let w' := (upsertEntities Toy.kek (MkSession robinScope robinScope) robinScope robinUpdates false 7
                Toy.world0).2 in
   viewEntity Toy.kek (w_db w') robinScope "person_ada" =
     Some (MkEntity "person" "Ada L." (Some ({[ "role" := "developer" ]} : gmap string string)) 7 7)).
Proof.
  split; [|vm_compute; reflexivity].
  apply (upsert_refines Toy.kek robinScope robinUpdates false 7 Toy.world0).
  - apply Toy.storeInv_empty.
  - unfold robinUpdates. repeat apply List.Forall_cons; [right|by left|right|apply List.Forall_nil];
      (split; [reflexivity|]); intros k v; cbn [u_attributes default id from_option];
      rewrite ?lookup_insert_Some, ?lookup_singleton_Some, ?lookup_empty; intros Hkv; naive_solver.
  - unfold robinUpdates. repeat apply List.Forall_cons; [..|apply List.Forall_nil]; intros r; done.
Defined.
