(* ===== verification/Relations.v ===== *)
(** * Relations: edges between entities
    ([src/internal/consolidation/store.go], [upsertRelationships] and its
    helpers; [types.go], [RelationshipUpdate]; the constraints of
    [src/schema/0015_entity_relationships.sql] and
    [src/schema/0019_entity_relationships_valid_date_order.sql])

    Predicates, entity ids and validity dates are not encrypted, so a row is
    what a reader sees.  A constraint that a statement violates makes the
    statement fail as a whole. *)

From stdpp Require Import gmap.
From S2P Require Import Prelude PgFmt Identity Schema Db KeyStore Utf8 Text Civil Slug Entities.
#[local] Open Scope string_scope.
#[local] Open Scope list_scope.
#[local] Open Scope Z_scope.

Record RelationshipUpdate := MkRelationshipUpdate {
  SubjectKind : string;
  SubjectName : string;
  Predicate : string;
  ObjectKind : string;
  ObjectName : string;
  ValidFrom : string;
  ValidUntil : string
}.

(** [parseOptionalDate]: [None] is [nil], a NULL parameter. *)
Definition parseOptionalDate (s : string) : option string :=
  if String.eqb s "" then None
  else match parseDay s with
       | None => None
       | Some _ => Some s
       end.

(** [$n::date] of PostgreSQL, which has no year 0; [None] is a statement that
    fails. *)
Definition castDate (o : option string) : option (option Z) :=
  match o with
  | None => Some None
  | Some s => n ← parseDay s; if 1 <=? Year n then Some (Some n) else None
  end.

(** [hex.EncodeToString] *)
Definition hexChar (n : Z) : ascii :=
  if n <? 10 then ascii_of_nat (Z.to_nat (48 + n)) else ascii_of_nat (Z.to_nat (87 + n)).

Fixpoint hexEncode (s : string) : string :=
  match s with
  | EmptyString => ""
  | String c s' => String (hexChar (byteZ c / 16)) (String (hexChar (byteZ c mod 16)) (hexEncode s'))
  end.

(** The key of an edge's rows. *)
Definition sameTriple (scope : Scope) (subjectID predicate objectID : string) (r : RelRow) : bool :=
  bool_decide (r.(rel_scope) = scope) && String.eqb r.(rel_subject) subjectID &&
  String.eqb r.(rel_predicate) predicate && String.eqb r.(rel_object) objectID.

(** [.. and valid_from is not distinct from .. and valid_until is not distinct
    from ..] *)
Definition sameEdge (scope : Scope) (subjectID predicate objectID : string) (from until : option Z)
    (r : RelRow) : bool :=
  sameTriple scope subjectID predicate objectID r &&
  bool_decide (r.(rel_from) = from) && bool_decide (r.(rel_until) = until).

(** The [where] of the closing update. *)
Definition openOther (scope : Scope) (subjectID predicate objectID : string) (r : RelRow) : bool :=
  bool_decide (r.(rel_scope) = scope) && String.eqb r.(rel_subject) subjectID &&
  String.eqb r.(rel_predicate) predicate && negb (String.eqb r.(rel_object) objectID) &&
  bool_decide (r.(rel_until) = None).

(** [entity_relationships_valid_date_order_check] *)
Definition dateOrder (r : RelRow) : bool :=
  match r.(rel_from), r.(rel_until) with
  | Some f, Some u => f <=? u
  | _, _ => true
  end.

Definition set_until (until : option Z) (r : RelRow) : RelRow :=
  MkRelRow r.(rel_id) r.(rel_scope) r.(rel_subject) r.(rel_predicate) r.(rel_object) r.(rel_from)
    until r.(rel_source).

Definition closeRow (hit : RelRow -> bool) (until : option Z) (r : RelRow) : RelRow :=
  if hit r then set_until until r else r.

Definition queryChecked {A} (f : db -> option A) : M A :=
  roundTrip ;;
  o ← getDb f;
  match o with
  | Some a => mret a
  | None => throw (ErrMsg "date/time field value out of range")
  end.

(** The closing [update], under row-level security. *)
Definition closeEdges (se : session) (scope : Scope) (subjectID predicate objectID : string)
    (validFrom : option string) (d : db) : option db :=
  until ← castDate validFrom;
  let hit r := visible se r.(rel_scope) && openOther scope subjectID predicate objectID r in
  let rows := map (closeRow hit until) d.(relationships) in
  if forallb (fun r => negb (hit r) || writable se r.(rel_scope) && dateOrder (set_until until r)) d.(relationships)
  then Some (set_relationships (fun _ => rows) d)
  else None.

(** The [insert]: row-level security, the primary key, the two foreign keys to
    [entities], the one to [summaries] and the date check. *)
Definition insertEdge (se : session) (row : RelRow) (d : db) : option db :=
  let hasEntity id := existsb (sameEntity row.(rel_scope) id) d.(entities) in
  if writable se row.(rel_scope) &&
     negb (existsb (fun r => String.eqb r.(rel_id) row.(rel_id)) d.(relationships)) &&
     hasEntity row.(rel_subject) && hasEntity row.(rel_object) &&
     match row.(rel_source) with
     | Some id => existsb (fun r => String.eqb r.(s_id) id) d.(summaries)
     | None => true
     end && dateOrder row
  then Some (set_relationships (fun l => l ++ [row])%list d)
  else None.

Section Relations.
Context `{HR : Rand, HU : Unicode}.

Definition newRelationshipID : M string :=
  buf ← wrapErr "generate relationship id" (readRand 12);
  mret ("rel_" +:+ hexEncode buf).

Definition entityExists (se : session) (scope : Scope) (id : string) : M bool :=
  query (fun d => existsb (fun r => visible se r.(n_scope) && sameEntity scope id r) d.(entities)).

(** The body of the loop after the endpoints are known to exist. *)
Definition writeEdge (se : session) (scope : Scope) (subjectID predicate objectID : string)
    (u : RelationshipUpdate) (sourceSummaryID : string) : M () :=
  let validFrom := parseOptionalDate u.(ValidFrom) in
  let validUntil := parseOptionalDate u.(ValidUntil) in
  found ← wrapErr "check existing relationship" (queryChecked (fun d =>
    from ← castDate validFrom;
    until ← castDate validUntil;
    Some (existsb (fun r => visible se r.(rel_scope) && sameEdge scope subjectID predicate objectID from until r)
            d.(relationships))));
  if (found : bool) then mret tt
  else
    anyExists ← (if bool_decide (validFrom = None) && bool_decide (validUntil = None)
                 then wrapErr "check existing relationship (any validity)" (query (fun d =>
                        existsb (fun r => visible se r.(rel_scope) && sameTriple scope subjectID predicate objectID r)
                          d.(relationships)))
                 else mret false);
    if (anyExists : bool) then mret tt
    else
      (if bool_decide (validFrom = None) then mret tt
       else wrapErr "close superseded relationship edges"
              (execChecked (closeEdges se scope subjectID predicate objectID validFrom))) ;;
      relID ← newRelationshipID;
      wrapErr "insert relationship" (execChecked (fun d =>
        from ← castDate validFrom;
        until ← castDate validUntil;
        insertEdge se (MkRelRow relID scope subjectID predicate objectID from until
                         (Nullable sourceSummaryID)) d)).

Definition upsertRelationship (se : session) (scope : Scope) (sourceSummaryID : string)
    (u : RelationshipUpdate) : M () :=
  if negb (validKind u.(SubjectKind)) || negb (validKind u.(ObjectKind)) then mret tt
  else
    let predicate := canonicalizePredicate u.(SubjectKind) (sanitizePredicate u.(Predicate)) in
    if String.eqb predicate "" then mret tt
    else
      let subjectID := canonicalEntityID u.(SubjectKind) u.(SubjectName) "" in
      let objectID := canonicalEntityID u.(ObjectKind) u.(ObjectName) "" in
      if String.eqb subjectID "" || String.eqb objectID "" then mret tt
      else
        subjectExists ← wrapErr "check subject entity exists" (entityExists se scope subjectID);
        objectExists ← wrapErr "check object entity exists" (entityExists se scope objectID);
        if negb subjectExists || negb objectExists then mret tt
        else writeEdge se scope subjectID predicate objectID u sourceSummaryID.

Definition upsertRelationships (se : session) (scope : Scope) (updates : list RelationshipUpdate)
    (sourceSummaryID : string) : M () :=
  forM updates (upsertRelationship se scope sourceSummaryID).
End Relations.

(** ** What a caller relies on *)

(** The endpoints and predicate of an update that is not skipped. *)
Definition edgeOf `{Unicode} (u : RelationshipUpdate) : option (string * string * string) :=
  if negb (validKind u.(SubjectKind)) || negb (validKind u.(ObjectKind)) then None
  else
    let predicate := canonicalizePredicate u.(SubjectKind) (sanitizePredicate u.(Predicate)) in
    let subjectID := canonicalEntityID u.(SubjectKind) u.(SubjectName) "" in
    let objectID := canonicalEntityID u.(ObjectKind) u.(ObjectName) "" in
    if String.eqb predicate "" || (String.eqb subjectID "" || String.eqb objectID "") then None
    else Some (subjectID, predicate, objectID).

Definition entityIn (d : db) (scope : Scope) (id : string) : bool :=
  existsb (sameEntity scope id) d.(entities).

(** What the constraints of the schema and the code's own checks keep. *)
Definition rowWf (d : db) (r : RelRow) : Prop :=
  entityIn d r.(rel_scope) r.(rel_subject) = true /\
  entityIn d r.(rel_scope) r.(rel_object) = true /\
  (r.(rel_predicate) <> "" /\ strLen r.(rel_predicate) <= relationshipPredicateMaxLen) /\
  match r.(rel_source) with
  | Some id => existsb (fun x => String.eqb x.(s_id) id) d.(summaries) = true
  | None => True
  end /\
  dateOrder r = true.

Definition relWf (d : db) : Prop :=
  NoDup (rel_id <$> d.(relationships)) /\ Forall (rowWf d) d.(relationships).

(** A row of before is still there, or was an open one of the scope and has
    been closed. *)
Definition keptRow (s : Scope) (r r' : RelRow) : Prop :=
  r' = r \/ (r.(rel_scope) = s /\ r.(rel_until) = None /\ exists until, r' = set_until (Some until) r).

Definition edgesKept (s : Scope) (l l' : list RelRow) : Prop :=
  exists l1 new, l' = l1 ++ new /\ Forall2 (keptRow s) l l1 /\ Forall (fun r => r.(rel_scope) = s) new.

(** An update whose edge the table already has. *)
Definition recorded (rows : list RelRow) (s : Scope) (sj pr ob : string) (u : RelationshipUpdate) : bool :=
  let validFrom := parseOptionalDate u.(ValidFrom) in
  let validUntil := parseOptionalDate u.(ValidUntil) in
  match castDate validFrom, castDate validUntil with
  | Some from, Some until =>
      existsb (sameEdge s sj pr ob from until) rows ||
      bool_decide (validFrom = None) && bool_decide (validUntil = None) &&
      existsb (sameTriple s sj pr ob) rows
  | _, _ => false
  end.

(** An update that has nothing to write. *)
Definition settled `{Unicode} (d : db) (s : Scope) (u : RelationshipUpdate) : bool :=
  match edgeOf u with
  | None => true
  | Some (sj, pr, ob) =>
      negb (entityIn d s sj) || negb (entityIn d s ob) || recorded d.(relationships) s sj pr ob u
  end.

(** Writing [u'] closes an open edge that [u] wrote. *)
Definition closes `{Unicode} (u' u : RelationshipUpdate) : bool :=
  match edgeOf u, edgeOf u' with
  | Some (sj, pr, ob), Some (sj', pr', ob') =>
      String.eqb sj sj' && String.eqb pr pr' && negb (String.eqb ob ob') &&
      negb (bool_decide (parseOptionalDate u'.(ValidFrom) = None)) &&
      negb (bool_decide (parseOptionalDate u.(ValidFrom) = None)) &&
      bool_decide (parseOptionalDate u.(ValidUntil) = None)
  | _, _ => false
  end.

(** ** Lemmas: statements *)

Lemma wp_queryChecked {A} (f : db -> option A) Q d p fs :
  (forall a, f d = Some a -> Q (Ok a) (MkWorld d p (tail fs))) ->
  (f d = None -> Q (Err (ErrMsg "date/time field value out of range")) (MkWorld d p (tail fs))) ->
  (fs <> [] -> Q (Err ErrDB) (MkWorld d p (tail fs))) ->
  wp (queryChecked f) Q (MkWorld d p fs).
Proof.
  intros H1 H2 H3. unfold queryChecked. apply wp_bind, wp_trip; [|by auto].
  apply wp_bind. unfold wp at 1. cbn. destruct (f d) eqn:E; [by apply H1|by apply H2].
Qed.

(** ** Lemmas: rows *)

Lemma sameTriple_spec s sj pr ob r :
  sameTriple s sj pr ob r = true <-> rel_scope r = s /\ rel_subject r = sj /\ rel_predicate r = pr /\ rel_object r = ob.
Proof. unfold sameTriple. rewrite !andb_true_iff, bool_decide_eq_true, !String.eqb_eq. tauto. Qed.

Lemma openOther_spec s sj pr ob r :
  openOther s sj pr ob r = true <->
  rel_scope r = s /\ rel_subject r = sj /\ rel_predicate r = pr /\ rel_object r <> ob /\ rel_until r = None.
Proof.
  unfold openOther. rewrite !andb_true_iff, !bool_decide_eq_true, negb_true_iff, !String.eqb_eq, String.eqb_neq.
  tauto.
Qed.

(** In a session of the scope itself the policies add nothing. *)
Lemma own_visible {s} {A} (scope_of : A -> Scope) (p : A -> bool) l :
  (forall r, p r = true -> scope_of r = s) ->
  existsb (fun r => visible (MkSession s s) (scope_of r) && p r) l = existsb p l.
Proof.
  intros H. induction l as [|r l IH]; [done|]. cbn. rewrite IH. f_equal.
  destruct (p r) eqn:E; [|by rewrite andb_false_r]. by rewrite (proj2 (visible_same s _) (H r E)).
Qed.

Lemma own_triple s sj pr ob l :
  existsb (fun r => visible (MkSession s s) r.(rel_scope) && sameTriple s sj pr ob r) l =
  existsb (sameTriple s sj pr ob) l.
Proof. apply own_visible. by intros r [? _]%sameTriple_spec. Qed.

Lemma own_edge s sj pr ob f t l :
  existsb (fun r => visible (MkSession s s) r.(rel_scope) && sameEdge s sj pr ob f t r) l =
  existsb (sameEdge s sj pr ob f t) l.
Proof.
  apply own_visible. intros r. unfold sameEdge. intros [[[? _]%sameTriple_spec _]%andb_true_iff _]%andb_true_iff.
  done.
Qed.

Lemma own_entity s id d :
  existsb (fun r => visible (MkSession s s) r.(n_scope) && sameEntity s id r) d.(entities) = entityIn d s id.
Proof. apply own_visible. by intros r [? _]%sameEntity_spec. Qed.

(** What the closing update does to the rows, when it is accepted. *)
Lemma closeEdges_spec s sj pr ob v d d' :
  closeEdges (MkSession s s) s sj pr ob v d = Some d' ->
  exists until, castDate v = Some until /\
    d' = set_relationships (map (closeRow (openOther s sj pr ob) until)) d /\
    Forall (fun r => openOther s sj pr ob r = true -> dateOrder (set_until until r) = true) d.(relationships).
Proof.
  unfold closeEdges. destruct (castDate v) as [until|]; [|done]. cbn [mbind option_bind].
  destruct (forallb _ _) eqn:E; [|done]. intros H%(inj Some). exists until. split; [done|].
  assert (Hvis : forall r, visible (MkSession s s) r.(rel_scope) && openOther s sj pr ob r = openOther s sj pr ob r).
  { intros r. destruct (openOther s sj pr ob r) eqn:Eo; [|by rewrite andb_false_r]. rewrite andb_true_r.
    apply visible_same. by apply openOther_spec in Eo as [? _]. }
  split.
  - rewrite <- H. unfold set_relationships. f_equal. apply map_ext. intros r. unfold closeRow. by rewrite Hvis.
  - rewrite forallb_forall in E. apply Forall_forall. intros r Hr Ho.
    specialize (E r (proj1 (list_elem_of_In _ _) Hr)). cbn beta in E. rewrite Hvis, Ho in E. cbn in E.
    by apply andb_true_iff in E as [_ ?].
Qed.

Lemma insertEdge_spec se row d d' :
  insertEdge se row d = Some d' ->
  d' = set_relationships (fun l => l ++ [row])%list d /\
  (forall r, r ∈ d.(relationships) -> rel_id r <> rel_id row) /\
  entityIn d row.(rel_scope) row.(rel_subject) = true /\ entityIn d row.(rel_scope) row.(rel_object) = true /\
  match row.(rel_source) with
  | Some id => existsb (fun x => String.eqb x.(s_id) id) d.(summaries) = true
  | None => True
  end /\ dateOrder row = true.
Proof.
  unfold insertEdge. destruct (_ && _) eqn:E; [|done]. intros H%(inj Some).
  rewrite !andb_true_iff in E. destruct E as [[[[[_ Hid] H1] H2] H3] H4].
  split_and!; [done| |done|done|by destruct (rel_source row)|done].
  intros r Hr Heq. apply negb_true_iff, not_true_iff_false in Hid. apply Hid, existsb_exists.
  exists r. split; [by apply list_elem_of_In|]. by apply String.eqb_eq.
Qed.

(** ** Lemmas: one update *)

(** A run that asks no more of the oracle and leaves the cache alone. *)
Definition quietP (p : process) (fs : list bool) (p' : process) (fs' : list bool) : Prop :=
  quiet fs fs' /\ p'.(cache) = p.(cache).

Ltac qp := repeat match goal with H : quietP _ _ _ _ |- _ => destruct H end; split; [oracle|cbn; congruence].


Section Steps.
Context `{HR : Rand, HL : Unicode}.
Variables (s : Scope) (src : string).

(** The rows after the closing update, if there is one. *)
Definition closeFor (sj pr ob : string) (u : RelationshipUpdate) (from : option Z) (l : list RelRow) : list RelRow :=
  if bool_decide (parseOptionalDate u.(ValidFrom) = None) then l else map (closeRow (openOther s sj pr ob) from) l.

Definition closeOk (sj pr ob : string) (u : RelationshipUpdate) (from : option Z) (l : list RelRow) : Prop :=
  parseOptionalDate u.(ValidFrom) <> None ->
  Forall (fun r => openOther s sj pr ob r = true -> dateOrder (set_until from r) = true) l.

Definition newRow (sj pr ob id : string) (from until : option Z) : RelRow :=
  MkRelRow id s sj pr ob from until (Nullable src).

(** The rows an update that is not recorded leaves. *)
Definition wroteEdge (sj pr ob : string) (u : RelationshipUpdate) (d d' : db) : Prop :=
  recorded d.(relationships) s sj pr ob u = false /\
  exists from until id,
    castDate (parseOptionalDate u.(ValidFrom)) = Some from /\
    castDate (parseOptionalDate u.(ValidUntil)) = Some until /\
    closeOk sj pr ob u from d.(relationships) /\
    insertEdge (MkSession s s) (newRow sj pr ob id from until)
      (set_relationships (closeFor sj pr ob u from) d) = Some d'.

(** The rows a failure can leave before the rollback. *)
Definition halfEdge (sj pr ob : string) (u : RelationshipUpdate) (d d' : db) : Prop :=
  d' = d \/ exists from, castDate (parseOptionalDate u.(ValidFrom)) = Some from /\
    closeOk sj pr ob u from d.(relationships) /\ d' = set_relationships (closeFor sj pr ob u from) d.

Lemma wp_newRelationshipID Q d p fs :
  (forall id i, Q (Ok id) (MkWorld d (MkProcess p.(cache) i) fs)) ->
  (forall e i, Q (Err e) (MkWorld d (MkProcess p.(cache) i) fs)) ->
  wp newRelationshipID Q (MkWorld d p fs).
Proof.
  intros H1 H2. unfold newRelationshipID. destruct p as [c i].
  apply wp_bind, wp_wrap. unfold readRand. apply wp_bind, wp_getProc, wp_bind, wp_modProc. cbn.
  destruct (rand_read i 12); [apply wp_ret; cbn; apply wp_ret, H1|apply wp_throw, H2].
Qed.

Lemma wp_writeEdge sj pr ob u Q d p fs :
  (forall p' fs', quietP p fs p' fs' -> recorded d.(relationships) s sj pr ob u = true -> Q (Ok tt) (MkWorld d p' fs')) ->
  (forall d' p' fs', quietP p fs p' fs' -> wroteEdge sj pr ob u d d' -> Q (Ok tt) (MkWorld d' p' fs')) ->
  (forall e d' p' fs', quietP p fs p' fs' -> recorded d.(relationships) s sj pr ob u = false \/ (fs <> [] /\ d' = d) ->
     halfEdge sj pr ob u d d' -> Q (Err e) (MkWorld d' p' fs')) ->
  wp (writeEdge (MkSession s s) s sj pr ob u src) Q (MkWorld d p fs).
Proof.
  intros Hrec Hnew Herr. unfold writeEdge.
  set (vf := parseOptionalDate (ValidFrom u)) in *. set (vu := parseOptionalDate (ValidUntil u)) in *.
  apply wp_bind, wp_wrap, wp_queryChecked.
  2: { intros E. apply Herr; [qp| |by left]. left. unfold recorded. fold vf vu.
       destruct (castDate vf); [|done]. by destruct (castDate vu). }
  2: { intros Hf. apply Herr; [qp|by right|by left]. }
  intros found. destruct (castDate vf) as [from|] eqn:Ef; [|done].
  destruct (castDate vu) as [until|] eqn:Eu; [|done]. cbn [mbind option_bind].
  intros Hfound%(inj Some). rewrite own_edge in Hfound. destruct found.
  { apply wp_ret, Hrec; [qp|]. unfold recorded. fold vf vu. by rewrite Ef, Eu, Hfound. }
  apply wp_bind.
  assert (Hany : forall Q' fs', quiet fs fs' ->
    (forall fs'', quiet fs fs'' -> Q' (Ok (bool_decide (vf = None) && bool_decide (vu = None) &&
       existsb (sameTriple s sj pr ob) d.(relationships))) (MkWorld d p fs'')) ->
    (forall e fs'', quiet fs fs'' -> fs <> [] -> Q' (Err e) (MkWorld d p fs'')) ->
    wp (if bool_decide (vf = None) && bool_decide (vu = None)
        then wrapErr "check existing relationship (any validity)" (query (fun d =>
               existsb (fun r => visible (MkSession s s) r.(rel_scope) && sameTriple s sj pr ob r) d.(relationships)))
        else mret false) Q' (MkWorld d p fs')).
  { intros Q' fs' Hq H1 H2. destruct (bool_decide (vf = None) && bool_decide (vu = None)).
    - apply wp_wrap, wp_query; [rewrite own_triple; apply H1; oracle|intros Hf; apply H2; [oracle|]].
      by eapply quiet_not_nil.
    - by apply wp_ret, H1. }
  apply Hany; [oracle| |].
  2: { intros e fs'' Hq Hf. apply Herr; [qp|by right|by left]. }
  intros fs1 Hq1. destruct (_ && _ && _) eqn:Hb.
  { apply wp_ret, Hrec; [qp|]. unfold recorded. fold vf vu. by rewrite Ef, Eu, Hfound, Hb. }
  assert (Hnr : recorded (relationships d) s sj pr ob u = false).
  { unfold recorded. fold vf vu. by rewrite Ef, Eu, Hfound, Hb. }
  clear Hany Hrec. apply wp_bind.
  assert (Hclose : forall Q' fs', quiet fs fs' ->
    (forall fs'', quiet fs fs'' -> closeOk sj pr ob u from d.(relationships) ->
       Q' (Ok tt) (MkWorld (set_relationships (closeFor sj pr ob u from) d) p fs'')) ->
    (forall e fs'', quiet fs fs'' -> Q' (Err e) (MkWorld d p fs'')) ->
    wp (if bool_decide (vf = None) then mret tt
        else wrapErr "close superseded relationship edges" (execChecked (closeEdges (MkSession s s) s sj pr ob vf)))
      Q' (MkWorld d p fs')).
  { intros Q' fs' Hq H1 H2. unfold closeFor, closeOk in *. fold vf in H1 |- *.
    destruct (bool_decide_reflect (vf = None)) as [E|E].
    - apply wp_ret. specialize (H1 fs' Hq ltac:(done)). by destruct d.
    - apply wp_wrap, wp_execChecked; [|intros; apply H2; oracle..].
      intros d' (until' & Eu' & -> & Hok)%closeEdges_spec. rewrite Ef in Eu'. injection Eu' as <-.
      apply H1; [oracle|done]. }
  apply Hclose; [done| |intros; apply Herr; [qp|by left|by left]].
  intros fs2 Hq2 Hok. assert (Hhalf : halfEdge sj pr ob u d (set_relationships (closeFor sj pr ob u from) d)).
  { right. by exists from. }
  apply wp_bind, wp_newRelationshipID.
  2: { intros e i. apply Herr; [qp|by left|done]. }
  intros id i. apply wp_wrap, wp_execChecked; [|intros; apply Herr; [qp|by left|done]..].
  intros d' Hins. apply Hnew; [qp|].
  split; [done|]. by exists from, until, id.
Qed.

(** The whole of one update: nothing to write, or what [writeEdge] does. *)
Lemma wp_upsertRelationship_cache u Q d p fs :
  (forall p' fs', quietP p fs p' fs' -> settled d s u = true -> Q (Ok tt) (MkWorld d p' fs')) ->
  (forall sj pr ob d' p' fs', quietP p fs p' fs' -> edgeOf u = Some (sj, pr, ob) ->
     wroteEdge sj pr ob u d d' -> Q (Ok tt) (MkWorld d' p' fs')) ->
  (forall e d' p' fs', quietP p fs p' fs' -> settled d s u = false \/ (fs <> [] /\ d' = d) ->
     d' = d \/ (exists sj pr ob, edgeOf u = Some (sj, pr, ob) /\ halfEdge sj pr ob u d d') ->
     Q (Err e) (MkWorld d' p' fs')) ->
  wp (upsertRelationship (MkSession s s) s src u) Q (MkWorld d p fs).
Proof.
  intros Hset Hnew Herr. unfold upsertRelationship.
  destruct (_ || _) eqn:Ek; [apply wp_ret, Hset; [qp|]; unfold settled, edgeOf; by rewrite Ek|].
  set (pr := canonicalizePredicate _ _) in *.
  set (sj := canonicalEntityID (SubjectKind u) _ _) in *. set (ob := canonicalEntityID (ObjectKind u) _ _) in *.
  destruct (String.eqb pr "") eqn:Ep; [apply wp_ret, Hset; [qp|]; unfold settled, edgeOf; rewrite Ek;
    fold pr; by rewrite Ep|].
  destruct (String.eqb sj "" || String.eqb ob "") eqn:Ei; [apply wp_ret, Hset; [qp|]; unfold settled, edgeOf; rewrite Ek; fold pr sj ob;
    by rewrite Ep, Ei|].
  assert (Hedge : edgeOf u = Some (sj, pr, ob)).
  { unfold edgeOf. rewrite Ek. fold pr sj ob. by rewrite Ep, Ei. }
  apply wp_bind, wp_wrap, wp_query; [|intros; apply Herr; [qp|by right|by left]].
  rewrite own_entity. apply wp_bind, wp_wrap, wp_query.
  2: { intros Hf. apply Herr; [qp| |by left]. right. split; [by destruct fs|done]. }
  rewrite own_entity. destruct (negb (entityIn d s sj) || negb (entityIn d s ob)) eqn:Ee.
  { apply wp_ret, Hset; [qp|]. unfold settled. rewrite Hedge, Ee. done. }
  assert (Hs : forall b, recorded (relationships d) s sj pr ob u = b -> settled d s u = b).
  { intros b <-. unfold settled. by rewrite Hedge, Ee. }
  apply wp_writeEdge.
  - intros p' fs' Hq Hrec. apply Hset; [qp|by apply Hs].
  - intros d' p' fs' Hq Hw. by apply (Hnew sj pr ob); [qp|..].
  - intros e d' p' fs' Hq Hor Hh. apply Herr; [qp| |right; by exists sj, pr, ob].
    destruct Hor as [Hor|[Hor ->]]; [left; by apply Hs|right; split; [by destruct fs as [|? [|]]|done]].
Qed.

Lemma wp_upsertRelationship u Q d p fs :
  (forall p' fs', quiet fs fs' -> settled d s u = true -> Q (Ok tt) (MkWorld d p' fs')) ->
  (forall sj pr ob d' p' fs', quiet fs fs' -> edgeOf u = Some (sj, pr, ob) ->
     wroteEdge sj pr ob u d d' -> Q (Ok tt) (MkWorld d' p' fs')) ->
  (forall e d' p' fs', quiet fs fs' -> settled d s u = false \/ (fs <> [] /\ d' = d) ->
     d' = d \/ (exists sj pr ob, edgeOf u = Some (sj, pr, ob) /\ halfEdge sj pr ob u d d') ->
     Q (Err e) (MkWorld d' p' fs')) ->
  wp (upsertRelationship (MkSession s s) s src u) Q (MkWorld d p fs).
Proof.
  intros H1 H2 H3. apply wp_upsertRelationship_cache.
  - intros p' fs' [Hq _]. by apply H1.
  - intros sj pr ob d' p' fs' [Hq _]. by apply H2.
  - intros e d' p' fs' [Hq _]. by apply H3.
Qed.

(** *** What a write changes *)

Lemma wroteEdge_spec sj pr ob u d d' :
  wroteEdge sj pr ob u d d' ->
  exists from until id, castDate (parseOptionalDate u.(ValidFrom)) = Some from /\
    castDate (parseOptionalDate u.(ValidUntil)) = Some until /\
    d' = set_relationships (fun l => closeFor sj pr ob u from l ++ [newRow sj pr ob id from until])%list d.
Proof.
  intros (_ & from & until & id & Ef & Eu & _ & (-> & _)%insertEdge_spec). exists from, until, id.
  split_and!; [done|done|]. by destruct d.
Qed.

Lemma kept_self l : Forall2 (keptRow s) l l.
Proof. induction l; constructor; [by left|done]. Qed.

Lemma closeFor_kept sj pr ob u from l :
  castDate (parseOptionalDate u.(ValidFrom)) = Some from -> Forall2 (keptRow s) l (closeFor sj pr ob u from l).
Proof.
  intros Ef. unfold closeFor. case_bool_decide as E.
  - apply kept_self.
  - destruct (parseOptionalDate (ValidFrom u)) as [v|]; [|done].
    unfold castDate in Ef. destruct (parseDay v) as [n|]; [|done]. cbn [mbind option_bind] in Ef. destruct (1 <=? Year n); [|done].
    injection Ef as <-. induction l as [|r l IH]; [constructor|]. cbn [map]. constructor; [|exact IH].
    unfold closeRow. destruct (openOther s sj pr ob r) eqn:Eo; [right|by left].
    apply openOther_spec in Eo as (? & _ & _ & _ & ?). split_and!; [done|done|by eexists].
Qed.

Lemma keptRow_trans r1 r2 r3 : keptRow s r1 r2 -> keptRow s r2 r3 -> keptRow s r1 r3.
Proof.
  intros [->|(H1 & H2 & t & ->)] H; [done|]. destruct H as [->|(_ & H & _)]; [right; by eauto|]. done.
Qed.

Lemma edgesKept_refl l : edgesKept s l l.
Proof.
  exists l, []. rewrite app_nil_r. split_and!; [done|apply kept_self|constructor].
Qed.

Lemma keptRow_scope r r' : keptRow s r r' -> rel_scope r' = rel_scope r.
Proof. by intros [->|(_ & _ & t & ->)]. Qed.

Lemma kept_scopes l l' :
  Forall2 (keptRow s) l l' -> Forall (fun r => rel_scope r = s) l -> Forall (fun r => rel_scope r = s) l'.
Proof.
  induction 1 as [|x y l l' Hk _ IH]; intros Hn; [constructor|]. apply Forall_cons in Hn as [Hx Hn].
  constructor; [by rewrite (keptRow_scope _ _ Hk)|by apply IH].
Qed.

Lemma edgesKept_trans l1 l2 l3 : edgesKept s l1 l2 -> edgesKept s l2 l3 -> edgesKept s l1 l3.
Proof.
  intros (a & n & -> & Ha & Hn) (b & n' & -> & Hb & Hn').
  apply Forall2_app_inv_l in Hb as (b1 & b2 & Hb1 & Hb2 & ->).
  exists b1, (b2 ++ n'). split_and!; [by rewrite app_assoc| |].
  - eapply Forall2_trans; [apply keptRow_trans|done|done].
  - apply Forall_app. split; [|done]. by eapply kept_scopes.
Qed.

Lemma closeFor_edgesKept sj pr ob u from l :
  castDate (parseOptionalDate u.(ValidFrom)) = Some from -> edgesKept s l (closeFor sj pr ob u from l).
Proof. intros Ef. exists (closeFor sj pr ob u from l), []. rewrite app_nil_r. split_and!; [done|by apply closeFor_kept|constructor]. Qed.

Lemma wroteEdge_kept sj pr ob u d d' :
  wroteEdge sj pr ob u d d' -> edgesKept s d.(relationships) d'.(relationships) /\
    d' = set_relationships (fun _ => d'.(relationships)) d.
Proof.
  intros (from & until & id & Ef & Eu & ->)%wroteEdge_spec. split; [|by destruct d].
  exists (closeFor sj pr ob u from (relationships d)), [newRow sj pr ob id from until].
  split_and!; [done|by apply closeFor_kept|by repeat constructor].
Qed.

Lemma halfEdge_kept sj pr ob u d d' :
  halfEdge sj pr ob u d d' -> edgesKept s d.(relationships) d'.(relationships) /\
    d' = set_relationships (fun _ => d'.(relationships)) d.
Proof.
  intros [->|(from & Ef & _ & ->)]; (split; [|by destruct d]); [apply edgesKept_refl|by apply closeFor_edgesKept].
Qed.
End Steps.

(** ** Lemmas: well-formed tables *)

Lemma sanitize_bound `{Unicode} t : strLen (sanitizePredicate t) <= relationshipPredicateMaxLen.
Proof.
  unfold sanitizePredicate. destruct (_ || _) eqn:E; [done|]. apply orb_false_iff in E as [_ E%Z.ltb_ge]. done.
Qed.

Lemma canonicalize_bound k t :
  strLen t <= relationshipPredicateMaxLen -> strLen (canonicalizePredicate k t) <= relationshipPredicateMaxLen.
Proof.
  intros Ht. unfold canonicalizePredicate. destruct (negb _); [done|]. cbn [assoc personPredicateAliases].
  by destruct (String.eqb t "based_in").
Qed.

Lemma edgeOf_spec `{Unicode} u sj pr ob :
  edgeOf u = Some (sj, pr, ob) -> pr <> "" /\ strLen pr <= relationshipPredicateMaxLen.
Proof.
  unfold edgeOf. destruct (negb _ || negb _); [done|]. destruct (_ || _) eqn:E; [done|].
  intros [= <- <- <-]. apply orb_false_iff in E as [E%String.eqb_neq _]. split; [done|].
  apply canonicalize_bound, sanitize_bound.
Qed.

(** The tables a row's conditions mention. *)
Definition sameContext (d d' : db) : Prop := d'.(entities) = d.(entities) /\ d'.(summaries) = d.(summaries).

Lemma rowWf_context d d' r : sameContext d d' -> rowWf d r -> rowWf d' r.
Proof. intros [E1 E2]. unfold rowWf, entityIn. by rewrite E1, E2. Qed.

Lemma rowWf_until d r until :
  rowWf d r -> dateOrder (set_until until r) = true -> rowWf d (set_until until r).
Proof. intros (? & ? & ? & ? & _) Hd. unfold rowWf. by cbn. Qed.

Section Wf.
Context `{HR : Rand, HL : Unicode}.
Variables (s : Scope) (src : string).

Lemma closeFor_wf sj pr ob u from d :
  relWf d -> closeOk s sj pr ob u from d.(relationships) ->
  relWf (set_relationships (closeFor s sj pr ob u from) d).
Proof.
  intros [Hid Hwf] Hok. unfold closeOk, closeFor in *. unfold relWf. cbn [relationships set_relationships].
  case_bool_decide as E; [by destruct d|]. specialize (Hok E). split.
  - rewrite <- list_fmap_compose. erewrite list_fmap_ext; [exact Hid|].
    intros i r _. cbn. unfold closeRow. by case_match.
  - apply Forall_forall. intros r' (r & -> & Hr)%list_elem_of_fmap. rewrite Forall_forall in Hwf, Hok.
    specialize (Hwf r Hr). unfold closeRow. destruct (openOther s sj pr ob r) eqn:Eo.
    + eapply rowWf_context; [by split|]. apply rowWf_until; [done|]. by apply Hok.
    + by eapply rowWf_context.
Qed.

Lemma wroteEdge_wf sj pr ob u d d' :
  edgeOf u = Some (sj, pr, ob) -> wroteEdge s src sj pr ob u d d' -> relWf d -> relWf d'.
Proof.
  intros He (_ & from & until & id & Ef & Eu & Hok & Hins) Hwf.
  apply (closeFor_wf _ _ _ _ _ _ Hwf) in Hok as [Hid1 Hwf1].
  apply insertEdge_spec in Hins as (-> & Hfresh & H1 & H2 & H3 & H4).
  apply edgeOf_spec in He as [Hp Hl]. split; cbn [relationships set_relationships] in *.
  - rewrite fmap_app. apply NoDup_app. split_and!; [done| |apply NoDup_singleton].
    intros x (r & -> & Hr)%list_elem_of_fmap. cbn. intros Hx%list_elem_of_singleton.
    by apply (Hfresh r Hr).
  - apply Forall_app. split; [|apply Forall_singleton].
    + eapply Forall_impl; [exact Hwf1|]. intros r. by apply rowWf_context.
    + unfold rowWf. cbn in *. unfold entityIn in *. cbn in *. split_and!; try done.
Qed.

Lemma halfEdge_wf sj pr ob u d d' : halfEdge s sj pr ob u d d' -> relWf d -> relWf d'.
Proof. intros [->|(from & _ & Hok & ->)] H; [done|by apply closeFor_wf]. Qed.
End Wf.

(** ** Lemmas: running twice *)

(** No update closes the edge of an earlier one. *)
Fixpoint calm `{Unicode} (us : list RelationshipUpdate) : bool :=
  match us with
  | [] => true
  | u :: us' => forallb (fun u' => negb (closes u' u)) us' && calm us'
  end.

Lemma calm_app `{Unicode} us u' us' u : calm (us ++ u' :: us') = true -> u ∈ us -> closes u' u = false.
Proof.
  induction us as [|x us IH]; [by intros _ ?%elem_of_nil|]. cbn [app calm].
  intros [Hx Hc]%andb_true_iff [->|Hu]%elem_of_cons; [|by apply IH].
  rewrite forallb_forall in Hx. apply negb_true_iff, Hx, in_or_app. by right; left.
Qed.

Lemma sameTriple_close s sj pr ob hit until r :
  sameTriple s sj pr ob (closeRow hit until r) = sameTriple s sj pr ob r.
Proof. unfold closeRow. by destruct (hit r). Qed.

Lemma existsb_ext' {A} (p q : A -> bool) l : (forall x, p x = q x) -> existsb p l = existsb q l.
Proof. intros H. induction l as [|x l IH]; [done|]. cbn. by rewrite H, IH. Qed.

Lemma existsb_map {A B} (f : A -> B) p l : existsb p (map f l) = existsb (fun x => p (f x)) l.
Proof. induction l as [|x l IH]; [done|]. cbn. by rewrite IH. Qed.

Lemma castDate_none o : castDate o = Some None -> o = None.
Proof. destruct o as [v|]; [|done]. unfold castDate. destruct (parseDay v); [|done]. cbn. by case_match. Qed.

Section Twice.
Context `{HR : Rand, HL : Unicode}.
Variables (s : Scope) (src : string).

Lemma closeFor_triple sj pr ob u from sj' pr' ob' l :
  existsb (sameTriple s sj' pr' ob') (closeFor s sj pr ob u from l) = existsb (sameTriple s sj' pr' ob') l.
Proof.
  unfold closeFor. case_bool_decide; [done|]. rewrite existsb_map. apply existsb_ext'.
  intros r. apply sameTriple_close.
Qed.

Lemma wroteEdge_recorded sj pr ob u d d' :
  wroteEdge s src sj pr ob u d d' -> recorded d'.(relationships) s sj pr ob u = true.
Proof.
  intros (from & until & id & Ef & Eu & ->)%wroteEdge_spec. unfold recorded. rewrite Ef, Eu.
  cbn [relationships set_relationships]. rewrite existsb_app. cbn [existsb]. rewrite orb_false_r.
  assert (E : sameEdge s sj pr ob from until (newRow s src sj pr ob id from until) = true).
  { unfold sameEdge, sameTriple, newRow. cbn. rewrite !bool_decide_eq_true_2, !String.eqb_refl by done. done. }
  rewrite E. by rewrite orb_true_r.
Qed.

Lemma wroteEdge_keeps sj pr ob u sj' pr' ob' u' d d' :
  edgeOf u = Some (sj, pr, ob) -> edgeOf u' = Some (sj', pr', ob') -> closes u' u = false ->
  wroteEdge s src sj' pr' ob' u' d d' -> recorded d.(relationships) s sj pr ob u = true ->
  recorded d'.(relationships) s sj pr ob u = true.
Proof.
  intros He He' Hc (from' & until' & id & Ef' & Eu' & ->)%wroteEdge_spec. unfold recorded.
  unfold closes in Hc. rewrite He, He' in Hc.
  destruct (castDate (parseOptionalDate (ValidFrom u))) as [from|] eqn:Ef; [|done].
  destruct (castDate (parseOptionalDate (ValidUntil u))) as [until|] eqn:Eu; [|done].
  cbn [relationships set_relationships]. rewrite !existsb_app, closeFor_triple.
  set (bare := _ && bool_decide _). destruct (existsb (sameTriple s sj pr ob) (relationships d)) eqn:Et.
  2: { intros [H|H]%orb_true_iff; [|by rewrite andb_false_r in H].
       apply existsb_exists in H as (r & Hr & H). apply andb_true_iff in H as [H _].
       apply andb_true_iff in H as [H _].
       assert (existsb (sameTriple s sj pr ob) (relationships d) = true) by (apply existsb_exists; by exists r).
       congruence. }
  intros H. destruct bare eqn:Hb; [cbn; by rewrite orb_true_r|]. rewrite orb_false_r in H |- *.
  apply orb_true_iff. left. cbn [andb] in *.
  apply existsb_exists in H as (r & Hr & H). apply existsb_exists. exists r. split; [|done].
  unfold closeFor. case_bool_decide as Hv; [done|]. apply in_map_iff. exists r. split; [|done].
  unfold closeRow. destruct (openOther s sj' pr' ob' r) eqn:Ho; [|done]. exfalso.
  apply openOther_spec in Ho as (_ & Hs & Hp & Hob & Hu). unfold sameEdge in H.
  rewrite !andb_true_iff, !bool_decide_eq_true in H. destruct H as [[[_ (Hs' & Hp' & Hob')]%sameTriple_spec Hf] Hu'].
  assert (Eu0 : parseOptionalDate (ValidUntil u) = None).
  { apply castDate_none. rewrite Eu. f_equal. congruence. }
  subst bare. assert (E : String.eqb ob ob' = false) by (apply String.eqb_neq; congruence).
  rewrite <- Hs, <- Hs', <- Hp, <- Hp', !String.eqb_refl, E in Hc. cbn [andb negb] in Hc.
  repeat case_bool_decide; cbn in Hb, Hc; congruence.
Qed.

Lemma wroteEdge_settled sj pr ob u d d' :
  edgeOf u = Some (sj, pr, ob) -> wroteEdge s src sj pr ob u d d' -> settled d' s u = true.
Proof. intros He Hw. unfold settled. rewrite He, (wroteEdge_recorded _ _ _ _ _ _ Hw). by rewrite orb_true_r. Qed.

Lemma settled_keeps sj' pr' ob' u u' d d' :
  edgeOf u' = Some (sj', pr', ob') -> closes u' u = false -> wroteEdge s src sj' pr' ob' u' d d' ->
  settled d s u = true -> settled d' s u = true.
Proof.
  intros He' Hc Hw. unfold settled. destruct (edgeOf u) as [[[sj pr] ob]|] eqn:He; [|done].
  destruct (wroteEdge_kept _ _ _ _ _ _ _ _ Hw) as [_ E]. unfold entityIn.
  assert (E' : entities d' = entities d) by (rewrite E; done). rewrite E'.
  intros H. apply orb_true_iff in H as [H|H]; [by rewrite H|].
  rewrite (wroteEdge_keeps sj pr ob u sj' pr' ob' u' d d') by done. by rewrite orb_true_r.
Qed.

(** After a run every update is settled. *)
Lemma wp_run_settles us Q d p fs :
  calm us = true ->
  (forall d' p' fs', quiet fs fs' -> Forall (fun u => settled d' s u = true) us -> Q (Ok tt) (MkWorld d' p' fs')) ->
  (forall e w', Q (Err e) w') ->
  wp (upsertRelationships (MkSession s s) s us src) Q (MkWorld d p fs).
Proof.
  intros Hcalm HOk HErr. unfold upsertRelationships.
  apply (wp_forM us _ (fun l w => exists before d' p' fs', w = MkWorld d' p' fs' /\ us = before ++ l /\
      quiet fs fs' /\ Forall (fun u => settled d' s u = true) before)
    (fun _ _ => True)).
  - exists [], d, p, fs. split_and!; [done|done|oracle|constructor].
  - intros u l w1 (before & d1 & p1 & fs1 & -> & Hus & Hq & Hset).
    apply wp_upsertRelationship; [| |done].
    + intros p' fs' Hq' Hu. exists (before ++ [u]), d1, p', fs'.
      split_and!; [done|by rewrite <- app_assoc|by eapply quiet_trans|].
      apply Forall_app. split; [done|by constructor].
    + intros sj pr ob d' p' fs' Hq' He Hw. exists (before ++ [u]), d', p', fs'.
      split_and!; [done|by rewrite <- app_assoc|by eapply quiet_trans|].
      apply Forall_app. split; [|constructor; [by eapply wroteEdge_settled|constructor]].
      apply Forall_forall. intros x Hx. rewrite Forall_forall in Hset.
      eapply settled_keeps; [exact He| |exact Hw|by apply Hset].
      eapply calm_app; [|exact Hx]. by rewrite <- Hus.
  - intros w (before & d' & p' & fs' & -> & Hus & Hq & Hset). rewrite app_nil_r in Hus. subst before. by apply HOk.
  - intros e w _. apply HErr.
Qed.

(** Settled updates write nothing. *)
Lemma wp_settled_run us Q d p fs :
  Forall (fun u => settled d s u = true) us ->
  (forall p' fs', quiet fs fs' -> Q (Ok tt) (MkWorld d p' fs')) ->
  (forall e p' fs', fs <> [] -> Q (Err e) (MkWorld d p' fs')) ->
  wp (upsertRelationships (MkSession s s) s us src) Q (MkWorld d p fs).
Proof.
  intros Hset HOk HErr. unfold upsertRelationships.
  apply (wp_forM us _ (fun l w => Forall (fun u => settled d s u = true) l /\
      exists p' fs', w = MkWorld d p' fs' /\ quiet fs fs')
    (fun _ w => fs <> [] /\ exists p' fs', w = MkWorld d p' fs')).
  - split; [done|]. exists p, fs. split; [done|oracle].
  - intros u l w1 (Hl & p1 & fs1 & -> & Hq). apply Forall_cons in Hl as [Hu Hl].
    apply wp_upsertRelationship.
    + intros p' fs' Hq' _. split; [done|]. exists p', fs'. split; [done|by eapply quiet_trans].
    + intros sj pr ob d' p' fs' Hq' He (Hrec & from & until & id & _ & _ & _ & Hins). exfalso.
      unfold settled in Hu. rewrite He, Hrec, orb_false_r in Hu.
      apply insertEdge_spec in Hins as (_ & _ & H1 & H2 & _). cbn in H1, H2.
      assert (H1' : entityIn d s sj = true) by exact H1. assert (H2' : entityIn d s ob = true) by exact H2.
      by rewrite H1', H2' in Hu.
    + intros e d' p' fs' Hq' Hor Hh. destruct Hor as [Hor|[Hf ->]]; [congruence|].
      split; [by eapply quiet_not_nil|by eexists _, _].
  - intros w (_ & p' & fs' & -> & Hq). by apply HOk.
  - intros e w (Hf & p' & fs' & ->). by apply HErr.
Qed.
End Twice.

(** ** Lemmas: a whole run *)

(** What any run does to the database. *)
Definition relStep (s : Scope) (d d' : db) : Prop :=
  (relWf d -> relWf d') /\ edgesKept s d.(relationships) d'.(relationships) /\
  d' = set_relationships (fun _ => d'.(relationships)) d.

Lemma relStep_refl s d : relStep s d d.
Proof. split_and!; [done|apply edgesKept_refl|by destruct d]. Qed.

Lemma relStep_trans s d1 d2 d3 : relStep s d1 d2 -> relStep s d2 d3 -> relStep s d1 d3.
Proof.
  intros (W1 & K1 & E1) (W2 & K2 & E2). split_and!; [by auto|by eapply edgesKept_trans|].
  rewrite E2 at 1. rewrite E1. done.
Qed.

Lemma quietP_trans p1 fs1 p2 fs2 p3 fs3 :
  quietP p1 fs1 p2 fs2 -> quietP p2 fs2 p3 fs3 -> quietP p1 fs1 p3 fs3.
Proof. intros [q1 c1] [q2 c2]. split; [by eapply quiet_trans|congruence]. Qed.

Lemma wp_upsertRelationships_step `{HR : Rand, HL : Unicode} s us src Q d p fs :
  (forall r d' p' fs', quietP p fs p' fs' -> relStep s d d' -> Q r (MkWorld d' p' fs')) ->
  wp (upsertRelationships (MkSession s s) s us src) Q (MkWorld d p fs).
Proof.
  intros H. set (I := fun w' : world => quietP p fs w'.(w_proc) w'.(w_faults) /\ relStep s d w'.(w_db)).
  apply (wp_forM us _ (fun _ w' => I w') (fun _ w' => I w')).
  - split; [split; [apply quiet_refl|done]|apply relStep_refl].
  - intros u _ [d1 p1 fs1] [Hq1 H1]. cbn in Hq1, H1.
    assert (Hgo : forall d' p' fs', quietP p1 fs1 p' fs' -> relStep s d1 d' -> I (MkWorld d' p' fs')).
    { intros d' p' fs' Hq' Hs'. split; [by eapply quietP_trans|by eapply relStep_trans]. }
    apply wp_upsertRelationship_cache.
    + intros p' fs' Hq' _. apply Hgo; [done|apply relStep_refl].
    + intros sj pr ob d' p' fs' Hq' He Hw. apply Hgo; [done|]. destruct (wroteEdge_kept _ _ _ _ _ _ _ _ Hw).
      split_and!; [by eapply wroteEdge_wf|done..].
    + intros e d' p' fs' Hq' _ [->|(sj & pr & ob & _ & Hh)]; (apply Hgo; [done|]); [apply relStep_refl|].
      destruct (halfEdge_kept _ _ _ _ _ _ _ Hh). split_and!; [by eapply halfEdge_wf|done..].
  - intros [d' p' fs'] [Hq Hs]. by apply H.
  - intros e [d' p' fs'] [Hq Hs]. by apply H.
Qed.

(** ** Properties *)

Section Claims.
Context `{HR : Rand, HL : Unicode}.

(** C8: Whatever fails on the way, [upsertRelationships] keeps the table of
    edges well-formed: ids unique, both ends stored entities of the edge's
    scope, a predicate that is not empty and at most 64 bytes, the summary it
    came from stored, and no validity that ends before it starts.  No edge is
    ever removed or rewritten: each one of before is still there, or was an
    open edge of this scope that now has an end; new edges are of this scope;
    and no other table changes. *)
Theorem relationships_invariant (s : Scope) (us : list RelationshipUpdate) (src : string) (w : world) :
  relWf w.(w_db) ->
  wp (upsertRelationships (MkSession s s) s us src)
    (fun _ w' =>
       relWf w'.(w_db) /\ edgesKept s w.(w_db).(relationships) w'.(w_db).(relationships) /\
       w'.(w_db) = set_relationships (fun _ => w'.(w_db).(relationships)) w.(w_db)) w.
Proof.
  intros Hwf. destruct w as [d p fs]. apply wp_upsertRelationships_step.
  intros r d' p' fs' _ (W & K & E). by split_and!; [apply W|..].
Qed.

(** C9: Re-consolidating a period repeats no edge: if no update closes the edge
    of an earlier one of the same list, then once a run over the list has
    succeeded another run over it, for whatever summary, changes nothing in the
    database and without faults succeeds. *)
Theorem rerun_changes_nothing (s : Scope) (us : list RelationshipUpdate) (src src' : string) (w : world) :
  calm us = true ->
  wp (upsertRelationships (MkSession s s) s us src)
    (fun r w1 => r = Ok tt ->
       wp (upsertRelationships (MkSession s s) s us src')
         (fun r' w2 => w2.(w_db) = w1.(w_db) /\ (w1.(w_faults) = [] -> r' = Ok tt)) w1) w.
Proof.
  intros Hcalm. destruct w as [d p fs]. apply wp_run_settles; [done| |done].
  intros d' p' fs' _ Hset _. by apply wp_settled_run.
Qed.

(** C10: An edge that starts before an open edge of the same subject and
    predicate to something else cannot be stored: closing the open one would
    end it before it started, which the schema refuses, so the run fails and
    nothing is written. *)
Theorem earlier_edge_fails (s : Scope) (u : RelationshipUpdate) (src sj pr ob : string) (r : RelRow)
    (v f : Z) (w : world) :
  edgeOf u = Some (sj, pr, ob) -> settled w.(w_db) s u = false ->
  castDate (parseOptionalDate u.(ValidFrom)) = Some (Some v) ->
  r ∈ w.(w_db).(relationships) -> openOther s sj pr ob r = true -> r.(rel_from) = Some f -> v < f ->
  wp (upsertRelationships (MkSession s s) s [u] src)
    (fun res w' => w'.(w_db) = w.(w_db) /\ exists e, res = Err e) w.
Proof.
  intros He Hset Hv Hr Ho Hf Hlt. destruct w as [d p fs]. cbn in *.
  assert (Hno : closeOk s sj pr ob u (Some v) d.(relationships) -> False).
  { intros Hok. assert (Hn : parseOptionalDate (ValidFrom u) <> None) by (intros E; by rewrite E in Hv).
    specialize (Hok Hn). rewrite Forall_forall in Hok. specialize (Hok r Hr Ho). unfold dateOrder in Hok.
    cbn [set_until rel_from rel_until] in Hok. rewrite Hf in Hok. apply Z.leb_le in Hok. lia. }
  unfold upsertRelationships. cbn [forM]. apply wp_bind. apply wp_upsertRelationship.
  - congruence.
  - intros sj' pr' ob' d' p' fs' _ He' (_ & from & until & id & Ef & _ & Hok & _).
    rewrite He in He'. injection He' as <- <- <-. rewrite Hv in Ef. injection Ef as <-. by destruct Hno.
  - intros e d' p' fs' _ _ Hh. split; [|by exists e]. destruct Hh as [->|(sj' & pr' & ob' & He' & Hh)]; [done|].
    rewrite He in He'. injection He' as <- <- <-. destruct Hh as [->|(from & Ef & Hok & _)]; [done|].
    rewrite Hv in Ef. injection Ef as <-. by destruct Hno.
Qed.
End Claims.

(** ** Concrete runs *)

#[local] Existing Instance asciiUnicode.
Import Toy.

Definition adaScope : Scope := MkScope ScopeKindPrivate "ada".

Definition plainEntity (id kind name : string) : EntityRow :=
  MkEntityRow id adaScope kind name None 1 None None (MkEntityDates 0 0).

Definition adaDb : db :=
  set_entities (fun _ => [plainEntity "person:ada" "person" "Ada"; plainEntity "organization:acme" "organization" "Acme";
                          plainEntity "organization:beta" "organization" "Beta"]) emptyDb.
Definition adaWorld : world := MkWorld adaDb (MkProcess ∅ 0) [].

Definition worksAt (org from until : string) : RelationshipUpdate :=
  MkRelationshipUpdate "person" "Ada" " Works_At" "organization" org from until.

(** A change of employer, its end left open or stated. *)
Definition openMove : list RelationshipUpdate := [worksAt "Acme" "2020-01-01" ""; worksAt "Beta" "2023-05-01" ""].
Definition statedMove : list RelationshipUpdate :=
  [worksAt "Acme" "2020-01-01" "2023-05-01"; worksAt "Beta" "2023-05-01" ""; worksAt "Acme" "" "";
   worksAt "Gamma" "" ""].

Lemma adaDb_wf : relWf adaDb.
Proof. split; [apply NoDup_nil_2|constructor]. Qed.

Lemma relationships_invariant_witness :
  wp (upsertRelationships (MkSession adaScope adaScope) adaScope openMove "")
    (fun _ w' => relWf w'.(w_db) /\ edgesKept adaScope adaDb.(relationships) w'.(w_db).(relationships) /\
       w'.(w_db) = set_relationships (fun _ => w'.(w_db).(relationships)) adaDb) adaWorld /\
  map (fun r => (r.(rel_object), r.(rel_predicate), r.(rel_until)))
      (upsertRelationships (MkSession adaScope adaScope) adaScope openMove "" adaWorld).2.(w_db).(relationships) =
    [("organization:acme", "works_at", parseDay "2023-05-01"); ("organization:beta", "works_at", None)].
Proof.
  split; [|vm_compute; reflexivity].
  apply (relationships_invariant adaScope openMove "" adaWorld). apply adaDb_wf.
Defined.

Lemma rerun_changes_nothing_witness :
  calm statedMove = true /\
  wp (upsertRelationships (MkSession adaScope adaScope) adaScope statedMove "")
    (fun r w1 => r = Ok tt ->
       wp (upsertRelationships (MkSession adaScope adaScope) adaScope statedMove "")
         (fun r' w2 => w2.(w_db) = w1.(w_db) /\ (w1.(w_faults) = [] -> r' = Ok tt)) w1) adaWorld /\
  (upsertRelationships (MkSession adaScope adaScope) adaScope statedMove "" adaWorld).1 = Ok tt.
Proof.
  split; [vm_compute; reflexivity|]. split; [|vm_compute; reflexivity].
  apply (rerun_changes_nothing adaScope statedMove "" "" adaWorld). vm_compute; reflexivity.
Defined.

(** The day's world after its first consolidation. *)
Definition movedWorld : world :=
  (upsertRelationships (MkSession adaScope adaScope) adaScope openMove "" adaWorld).2.

(** Consolidating that day again repeats its first edge, and fails. *)
Lemma earlier_edge_fails_witness :
  wp (upsertRelationships (MkSession adaScope adaScope) adaScope [worksAt "Acme" "2020-01-01" ""] "")
    (fun res w' => w'.(w_db) = movedWorld.(w_db) /\ exists e, res = Err e) movedWorld /\
  (upsertRelationships (MkSession adaScope adaScope) adaScope openMove "" movedWorld).1 =
    Err (Wrap "close superseded relationship edges" (ErrMsg "constraint violation")).
Proof.
  split; [|vm_compute; reflexivity].
  apply (earlier_edge_fails adaScope (worksAt "Acme" "2020-01-01" "") "" "person:ada" "works_at" "organization:acme"
    (MkRelRow "rel_424242424242424242424242" adaScope "person:ada" "works_at" "organization:beta"
       (parseDay "2023-05-01") None None) (daysOf 2020 1 1) (daysOf 2023 5 1) movedWorld).
  - vm_compute; reflexivity.
  - vm_compute; reflexivity.
  - vm_compute; reflexivity.
  - apply list_elem_of_In. vm_compute. right. left. reflexivity.
  - vm_compute; reflexivity.
  - vm_compute; reflexivity.
  - vm_compute; reflexivity.
Defined.

(** A date in the year 0 passes the code's own check and fails at the server. *)
Lemma year_zero_fails :
  parseOptionalDate "0000-06-01" = Some "0000-06-01" /\
  (upsertRelationships (MkSession adaScope adaScope) adaScope [worksAt "Acme" "0000-06-01" ""] "" adaWorld).1 =
    Err (Wrap "check existing relationship" (ErrMsg "date/time field value out of range")).
Proof. split; vm_compute; reflexivity. Qed.
