(* ===== verification/Output.v ===== *)
(** * Output: what a consolidation run is told by the language model
    ([src/internal/consolidation/types.go], [prompts.go], [extractJSON],
    [cluster.go], [mergeConsolidationOutputs])

    Decoding a JSON value into a Go struct: an unknown member is ignored, a
    member of the wrong type is an error, null leaves a field as it is, and of
    a repeated field the last value that is not null counts. *)

From stdpp Require Import gmap.
From S2P Require Import Prelude Identity Db Utf8 Json Text Slug Entities Relations.
#[local] Open Scope string_scope.
#[local] Open Scope list_scope.
#[local] Open Scope Z_scope.

Record KeyFactOutput := MkKeyFactOutput { Fact : string; SourceEpisodeIDs : list string }.

Record ConsolidationOutput := MkConsolidationOutput {
  Summary : string;
  KeyFacts : list KeyFactOutput;
  EntitiesTouched : list EntityUpdate;
  Relationships : list RelationshipUpdate
}.

(** ** The first object of a reply *)

Definition dquote : ascii := ascii_of_nat 34.

(** The loop of [extractJSON] from its opening brace: how many bytes the first
    balanced object has. *)
Fixpoint objectEnd (s : string) (depth : Z) (inString escaped : bool) : option nat :=
  match s with
  | EmptyString => None
  | String c s' =>
      let next d i e := S <$> objectEnd s' d i e in
      if escaped then next depth inString false
      else if Ascii.eqb c "\" && inString then next depth inString true
      else if Ascii.eqb c dquote then next depth (negb inString) false
      else if inString then next depth inString false
      else if Ascii.eqb c "{" then next (depth + 1) inString false
      else if Ascii.eqb c "}" then
        if depth - 1 =? 0 then Some 1%nat else next (depth - 1) inString false
      else next depth inString false
  end.

(** [s[start:]] from the first opening brace. *)
Fixpoint fromBrace (s : string) : option string :=
  match s with
  | EmptyString => None
  | String c s' => if Ascii.eqb c "{" then Some s else fromBrace s'
  end.

Definition extractJSON (s : string) : string :=
  match fromBrace s with
  | None => s
  | Some t =>
      match objectEnd t 0 false false with
      | Some n => String.substring 0 n t
      | None => t
      end
  end.

(** ** Decoding *)

(** [foldName]: the letters Go's decoder takes for one. *)
Definition foldRune (r : Z) : Z :=
  if (97 <=? r) && (r <=? 122) then r - 32
  else if r =? 8490 then 75
  else if r =? 383 then 83
  else r.

Definition sameField (name : string) (key : list Z) : bool :=
  bool_decide (map foldRune key = map foldRune (runes name)).

(** The values given to a field. *)
Definition fieldValues (name : string) (ms : list (list Z * (list Z * json))) : list json :=
  map (fun m => m.2.2) (List.filter (fun m => sameField name m.1) ms).

(** Decode them in order over the zero value. *)
Fixpoint decodeOver {A} (dec : json -> option A) (acc : A) (vs : list json) : option A :=
  match vs with
  | [] => Some acc
  | JNull :: vs' => decodeOver dec acc vs'
  | v :: vs' => a ← dec v; decodeOver dec a vs'
  end.

Definition field {A} (dec : json -> option A) (zero : A) (name : string)
    (ms : list (list Z * (list Z * json))) : option A :=
  decodeOver dec zero (fieldValues name ms).

Definition decodeString (v : json) : option string :=
  match v with JStr rs => Some (ofRunes rs) | JNull => Some "" | _ => None end.

Definition decodeBool (v : json) : option bool :=
  match v with JBool b => Some b | JNull => Some false | _ => None end.

(** A decimal integer in the range of [int]. *)
Definition digitsValue (ds : list Z) : Z := fold_left (fun n d => 10 * n + (d - 48)) ds 0.

Definition decodeInt (v : json) : option Z :=
  match v with
  | JNum ds =>
      let '(neg, body) := match ds with 45 :: ds' => (true, ds') | _ => (false, ds) end in
      if forallb isDigit body && negb (bool_decide (body = [])) then
        let n := if (neg : bool) then - digitsValue body else digitsValue body in
        if (- 2 ^ 63 <=? n) && (n <? 2 ^ 63) then Some n else None
      else None
  | JNull => Some 0
  | _ => None
  end.

Definition decodeList {A} (dec : json -> option A) (v : json) : option (list A) :=
  match v with JArr vs => mapM dec vs | JNull => Some [] | _ => None end.

(** [json.Unmarshal] of a struct whose zero value is [zero]. *)
Definition decodeObject {A} (zero : A) (dec : list (list Z * (list Z * json)) -> option A) (v : json) : option A :=
  match v with JObj ms => dec ms | JNull => Some zero | _ => None end.

Definition decodeStrings : json -> option (list string) := decodeList decodeString.

Definition decodeKeyFact : json -> option KeyFactOutput :=
  decodeObject (MkKeyFactOutput "" []) (fun ms =>
    fact ← field decodeString "" "fact" ms;
    ids ← field decodeStrings [] "source_episode_ids" ms;
    Some (MkKeyFactOutput fact ids)).

(** An attribute: a string as it is (null as the empty one), anything else as
    its own JSON text. *)
Definition attributeText (raw : list Z) (v : json) : string :=
  match decodeString v with Some s => s | None => ofRunes raw end.

Fixpoint attributesOver (ms : list (list Z * (list Z * json))) (m : gmap string string) : gmap string string :=
  match ms with
  | [] => m
  | (k, (raw, v)) :: ms' => attributesOver ms' (<[ofRunes k := attributeText raw v]> m)
  end.

(** [map[string]json.RawMessage], its values made text: none is [nil]. *)
Definition decodeAttributes (v : json) : option goMap :=
  match v with
  | JObj [] | JNull => Some None
  | JObj ms => Some (Some (attributesOver ms ∅))
  | _ => None
  end.

(** [EntityUpdate.UnmarshalJSON] *)
Definition decodeEntity : json -> option EntityUpdate :=
  decodeObject (MkEntityUpdate "" "" "" None []) (fun ms =>
    id ← field decodeString "" "id" ms;
    kind ← field decodeString "" "kind" ms;
    name ← field decodeString "" "name" ms;
    attributes ← field decodeAttributes None "attributes" ms;
    keys ← field decodeStrings [] "supersedes_keys" ms;
    Some (MkEntityUpdate id kind name attributes keys)).

Definition decodeRelationship : json -> option RelationshipUpdate :=
  decodeObject (MkRelationshipUpdate "" "" "" "" "" "" "") (fun ms =>
    subjectKind ← field decodeString "" "subject_kind" ms;
    subjectName ← field decodeString "" "subject_name" ms;
    predicate ← field decodeString "" "predicate" ms;
    objectKind ← field decodeString "" "object_kind" ms;
    objectName ← field decodeString "" "object_name" ms;
    validFrom ← field decodeString "" "valid_from" ms;
    validUntil ← field decodeString "" "valid_until" ms;
    Some (MkRelationshipUpdate subjectKind subjectName predicate objectKind objectName validFrom validUntil)).

Definition decodeOutput : json -> option ConsolidationOutput :=
  decodeObject (MkConsolidationOutput "" [] [] []) (fun ms =>
    summary ← field decodeString "" "summary" ms;
    facts ← field (decodeList decodeKeyFact) [] "key_facts" ms;
    entities ← field (decodeList decodeEntity) [] "entities_touched" ms;
    relationships ← field (decodeList decodeRelationship) [] "relationships" ms;
    Some (MkConsolidationOutput summary facts entities relationships)).

(** [json.Unmarshal([]byte(extractJSON(content)), &out)] *)
Definition parseReply {A} (dec : json -> option A) (content : string) : option A :=
  v ← parseJson (extractJSON content); dec v.

(** ** Several outputs as one *)

Definition blankLine : string := newline +:+ newline.

Definition isBlank `{Unicode} (s : string) : bool := bool_decide (trimSpace (runes s) = []).

Definition mergeConsolidationOutputs `{Unicode} (outputs : list ConsolidationOutput) : ConsolidationOutput :=
  MkConsolidationOutput
    (String.concat blankLine (List.filter (fun s => negb (isBlank s)) (map Summary outputs)))
    (flat_map KeyFacts outputs) (flat_map EntitiesTouched outputs) (flat_map Relationships outputs).
