(* ===== verification/Grounding.v ===== *)
(** * Grounding: the second opinion on every fact
    ([src/internal/consolidation/grounding.go])

    A chat completion is sampled: each call takes the next draw of the
    process, and what the model answers to the same messages may differ from
    one draw to the next; it may also be refused, and the call may fail on the
    way like any round trip. *)

From stdpp Require Import gmap pretty.
From S2P Require Import Prelude Identity Schema Db KeyStore Utf8 Json Text Output.
#[local] Open Scope string_scope.
#[local] Open Scope list_scope.
#[local] Open Scope Z_scope.

(** A chat provider: its names, and what it answers to a system and a user
    message. *)
Record ChatProvider := MkChatProvider {
  chat_vendor : string;
  chat_model : string;
  chat_answer : nat -> string -> string -> option string
}.

Definition ChatCompletion (p : ChatProvider) (system user : string) : M string :=
  wrapErr "chat provider" roundTrip ;;
  i ← getProc draws;
  modProc (fun pr => MkProcess pr.(cache) (S pr.(draws))) ;;
  match p.(chat_answer) i system user with
  | Some content => mret content
  | None => throw (ErrMsg "chat provider refused the request")
  end.

Fixpoint factLines (i : Z) (facts : list KeyFactOutput) : string :=
  match facts with
  | [] => ""
  | f :: facts' => pretty i +:+ (". " +:+ (f.(Fact) +:+ (newline +:+ factLines (i + 1) facts')))
  end.

Definition buildGroundingPrompt (sourceText : string) (facts : list KeyFactOutput) : string :=
  "Source text:" +:+ (newline +:+ (sourceText +:+ (blankLine +:+ ("Claimed facts:" +:+ (newline +:+
    factLines 1 facts))))).

Definition groundingCheckBatchSize : nat := 20.

Record groundingVerdict := MkVerdict { Index : Z; OK : bool }.

Definition decodeVerdict : json -> option groundingVerdict :=
  decodeObject (MkVerdict 0 false) (fun ms =>
    i ← field decodeInt 0 "i" ms;
    ok ← field decodeBool false "ok" ms;
    Some (MkVerdict i ok)).

Abbreviation groundingVerdicts := (gmap Z bool) (only parsing).

(** The loop of [indexVerdicts]: the first verdict of an index counts. *)
Fixpoint indexLoop (vs : list groundingVerdict) (out : groundingVerdicts) : groundingVerdicts :=
  match vs with
  | [] => out
  | v :: vs' =>
      indexLoop vs' (match out !! v.(Index) with
                     | Some _ => out
                     | None => <[v.(Index) := v.(OK)]> out
                     end)
  end.

Definition indexVerdicts (content : string) : option groundingVerdicts :=
  vs ← parseReply (decodeObject [] (field (decodeList decodeVerdict) [] "grounded")) content;
  Some (indexLoop vs ∅).

Definition complete (v : groundingVerdicts) (n : nat) : bool :=
  forallb (fun i => bool_decide (is_Some (v !! Z.of_nat i))) (seq 1 n).

Definition resolve (v : groundingVerdicts) (facts : list KeyFactOutput) : list bool :=
  map (fun i => default false (v !! (Z.of_nat i + 1))) (seq 0 (length facts)).

Section Grounding.
Variable grounding : ChatProvider.
Variable groundingSystemPrompt : string.

Definition groundingCheckOneAttempt (sourceText : string) (facts : list KeyFactOutput) : M groundingVerdicts :=
  content ← wrapErr "grounding LLM call"
              (ChatCompletion grounding groundingSystemPrompt (buildGroundingPrompt sourceText facts));
  match indexVerdicts content with
  | None => mret ∅
  | Some verdicts => mret verdicts
  end.

Definition groundingCheckOne (sourceText : string) (facts : list KeyFactOutput) : M (list bool) :=
  verdicts ← groundingCheckOneAttempt sourceText facts;
  if complete verdicts (length facts) then mret (resolve verdicts facts)
  else
    retried ← catch (groundingCheckOneAttempt sourceText facts);
    match retried with
    | Ok verdicts' => mret (resolve verdicts' facts)
    | Err _ => mret (resolve verdicts facts)
    end.

(** Fuel: one step per batch. *)
Fixpoint groundingBatches (fuel : nat) (sourceText : string) (facts : list KeyFactOutput) (start : nat)
    : M (list bool) :=
  match fuel with
  | O => throw (ErrMsg "out of fuel")
  | S fuel' =>
      if (start <? length facts)%nat then
        let end_ := Nat.min (start + groundingCheckBatchSize) (length facts) in
        batch ← groundingCheckOne sourceText (take (end_ - start) (drop start facts));
        rest ← groundingBatches fuel' sourceText facts (start + groundingCheckBatchSize);
        mret (batch ++ rest)
      else mret []
  end.

Definition groundingCheck (sourceText : string) (facts : list KeyFactOutput) : M (list bool) :=
  if (length facts =? 0)%nat then mret []
  else if (groundingCheckBatchSize <? length facts)%nat
       then groundingBatches (S (length facts)) sourceText facts 0
       else groundingCheckOne sourceText facts.
End Grounding.

(** ** Lemmas *)

(** The facts judged together with fact [i], and [i]'s number among them. *)
Definition batchOf (i : nat) (facts : list KeyFactOutput) : list KeyFactOutput :=
  take groundingCheckBatchSize (drop (groundingCheckBatchSize * (i / groundingCheckBatchSize)) facts).
Definition factNumber (i : nat) : Z := Z.of_nat (i mod groundingCheckBatchSize) + 1.

Lemma wp_ChatCompletion p system user Q d c i fs :
  (forall content fs', quiet fs fs' -> p.(chat_answer) i system user = Some content ->
     Q (Ok content) (MkWorld d (MkProcess c (S i)) fs')) ->
  (forall e j fs', quiet fs fs' -> fs <> [] \/ (exists k u, p.(chat_answer) k system u = None) ->
     Q (Err e) (MkWorld d (MkProcess c j) fs')) ->
  wp (ChatCompletion p system user) Q (MkWorld d (MkProcess c i) fs).
Proof.
  intros H1 H2. unfold ChatCompletion. apply wp_bind, wp_wrap, wp_trip.
  2: { intros Hf. apply H2; [oracle|by left]. }
  apply wp_bind, wp_getProc, wp_bind, wp_modProc. cbn.
  destruct (chat_answer p i system user) eqn:E; [apply wp_ret, H1; [oracle|done]|].
  apply wp_throw, H2; [oracle|right; by eauto].
Qed.

Lemma resolve_length v facts : length (resolve v facts) = length facts.
Proof. unfold resolve. by rewrite length_map, length_seq. Qed.

Lemma resolve_lookup v facts i b : resolve v facts !! i = Some b -> b = default false (v !! (Z.of_nat i + 1)).
Proof.
  unfold resolve. rewrite list_lookup_fmap. destruct (seq 0 (length facts) !! i) eqn:E; [|done].
  apply lookup_seq in E as [-> _]. by intros [= <-].
Qed.

(** ** What the check promises *)

Section Sound.
Variable g : ChatProvider.
Variables sys src : string.

(** Some reply to the batch says that its fact number [n] is supported. *)
Definition confirmed (batch : list KeyFactOutput) (n : Z) : Prop :=
  exists k content m, g.(chat_answer) k sys (buildGroundingPrompt src batch) = Some content /\
    indexVerdicts content = Some m /\ m !! n = Some true.

(** A failure has a cause outside this code. *)
Definition chatFailed (fs : list bool) : Prop := fs <> [] \/ exists k u, g.(chat_answer) k sys u = None.

Definition verdictsOk (batch : list KeyFactOutput) (v : gmap Z bool) : Prop :=
  forall n, v !! n = Some true -> confirmed batch n.

Lemma wp_attempt batch Q d c i fs :
  (forall v j fs', quiet fs fs' -> verdictsOk batch v -> Q (Ok v) (MkWorld d (MkProcess c j) fs')) ->
  (forall e j fs', quiet fs fs' -> chatFailed fs -> Q (Err e) (MkWorld d (MkProcess c j) fs')) ->
  wp (groundingCheckOneAttempt g sys src batch) Q (MkWorld d (MkProcess c i) fs).
Proof.
  intros H1 H2. unfold groundingCheckOneAttempt. apply wp_bind, wp_wrap, wp_ChatCompletion.
  - intros content fs' Hq E. destruct (indexVerdicts content) as [v|] eqn:Ev; apply wp_ret, H1; try done.
    intros n Hn. by exists i, content, v.
  - intros e j fs' Hq Hf. by apply H2.
Qed.

Definition batchOk (batch : list KeyFactOutput) (bs : list bool) : Prop :=
  length bs = length batch /\ forall i, bs !! i = Some true -> confirmed batch (Z.of_nat i + 1).

Lemma resolve_ok batch v : verdictsOk batch v -> batchOk batch (resolve v batch).
Proof.
  intros Hv. split; [apply resolve_length|]. intros i Hi%resolve_lookup. apply Hv.
  by destruct (v !! (Z.of_nat i + 1)) as [[]|].
Qed.

Lemma wp_groundingCheckOne batch Q d c i fs :
  (forall bs j fs', quiet fs fs' -> batchOk batch bs -> Q (Ok bs) (MkWorld d (MkProcess c j) fs')) ->
  (forall e j fs', quiet fs fs' -> chatFailed fs -> Q (Err e) (MkWorld d (MkProcess c j) fs')) ->
  wp (groundingCheckOne g sys src batch) Q (MkWorld d (MkProcess c i) fs).
Proof.
  intros H1 H2. unfold groundingCheckOne. apply wp_bind, wp_attempt; [|done].
  intros v j fs' Hq Hv. destruct (complete v (length batch)).
  { apply wp_ret, H1; [done|by apply resolve_ok]. }
  apply wp_bind, wp_catch, wp_attempt.
  - intros v' j' fs'' Hq' Hv'. apply wp_ret, H1; [by eapply quiet_trans|by apply resolve_ok].
  - intros e j' fs'' Hq' _. apply wp_ret, H1; [by eapply quiet_trans|by apply resolve_ok].
Qed.

(** Every verdict from [start] on has a confirmation in its own batch. *)
Definition restOk (facts : list KeyFactOutput) (start : nat) (bs : list bool) : Prop :=
  length bs = (length facts - start)%nat /\
  forall i, bs !! i = Some true -> confirmed (batchOf (start + i) facts) (factNumber (start + i)).

Lemma restOk_batch facts q bs rest :
  let start := (groundingCheckBatchSize * q)%nat in
  (start < length facts)%nat ->
  batchOk (take groundingCheckBatchSize (drop start facts)) bs ->
  restOk facts (start + groundingCheckBatchSize) rest -> restOk facts start (bs ++ rest).
Proof.
  intros start Hlt [Hl Hb] [Hl' Hr]. rewrite length_take, length_drop in Hl.
  unfold restOk. rewrite length_app. split; [unfold groundingCheckBatchSize in *; lia|].
  intros i Hi. apply lookup_app_Some in Hi as [Hi|[Hge Hi]].
  - assert (Hlt' : (i < 20)%nat) by (apply lookup_lt_Some in Hi; unfold groundingCheckBatchSize in *; lia).
    specialize (Hb i Hi). unfold batchOf, factNumber.
    replace ((start + i) / groundingCheckBatchSize)%nat with q
      by (apply (Nat.div_unique _ _ q i); [exact Hlt'|done]).
    replace ((start + i) mod groundingCheckBatchSize)%nat with i
      by (apply (Nat.mod_unique _ _ q i); [exact Hlt'|done]).
    exact Hb.
  - specialize (Hr _ Hi). destruct (Nat.le_gt_cases groundingCheckBatchSize (length facts - start)) as [Hc|Hc].
    + replace (start + groundingCheckBatchSize + (i - length bs))%nat with (start + i)%nat in Hr
        by (unfold groundingCheckBatchSize in *; lia). exact Hr.
    + apply lookup_lt_Some in Hi. unfold groundingCheckBatchSize in *. lia.
Qed.

Lemma wp_groundingBatches fuel facts q Q d c i fs :
  (length facts - groundingCheckBatchSize * q < fuel)%nat ->
  (forall bs j fs', quiet fs fs' -> restOk facts (groundingCheckBatchSize * q) bs ->
     Q (Ok bs) (MkWorld d (MkProcess c j) fs')) ->
  (forall e j fs', quiet fs fs' -> chatFailed fs -> Q (Err e) (MkWorld d (MkProcess c j) fs')) ->
  wp (groundingBatches g sys fuel src facts (groundingCheckBatchSize * q)) Q (MkWorld d (MkProcess c i) fs).
Proof.
  revert q i fs Q. induction fuel as [|fuel IH]; intros q i fs Q Hf H1 H2.
  { lia. }
  cbn [groundingBatches]. destruct (Nat.ltb_spec (groundingCheckBatchSize * q) (length facts)) as [Hlt|Hge].
  - apply wp_bind, wp_groundingCheckOne; [|done].
    intros bs j fs' Hq Hb. apply wp_bind.
    replace (groundingCheckBatchSize * q + groundingCheckBatchSize)%nat with (groundingCheckBatchSize * S q)%nat by lia.
    apply IH.
    + unfold groundingCheckBatchSize in *. lia.
    + intros rest j' fs'' Hq' Hr. apply wp_ret, H1; [by eapply quiet_trans|].
      apply restOk_batch; [done| |by rewrite <- Nat.mul_succ_r].
      replace (take groundingCheckBatchSize (drop (groundingCheckBatchSize * q) facts)) with
        (take (Nat.min (groundingCheckBatchSize * q + groundingCheckBatchSize) (length facts) - groundingCheckBatchSize * q)
           (drop (groundingCheckBatchSize * q) facts)); [done|].
      destruct (Nat.le_gt_cases (groundingCheckBatchSize * q + groundingCheckBatchSize) (length facts)).
      * f_equal. unfold groundingCheckBatchSize in *. lia.
      * rewrite !take_ge; [done|rewrite length_drop; unfold groundingCheckBatchSize in *; lia..].
    + intros e j' fs'' Hq' Hfail. apply H2; [by eapply quiet_trans|].
      destruct Hfail as [Hn|Hn]; [left; by eapply quiet_not_nil|by right].
  - apply wp_ret, H1; [oracle|]. split.
    { change (0 = length facts - groundingCheckBatchSize * q)%nat. lia. }
    by intros ? [=].
Qed.
End Sound.

(** One verdict per fact, each yes confirmed by a reply to the fact's batch. *)
Definition sound (g : ChatProvider) (sys src : string) (facts : list KeyFactOutput) (bs : list bool) : Prop :=
  length bs = length facts /\
  forall i, bs !! i = Some true ->
    batchOf i facts !! (i mod groundingCheckBatchSize)%nat = facts !! i /\
    confirmed g sys src (batchOf i facts) (factNumber i).

Lemma restOk_sound g sys src facts bs :
  restOk g sys src facts (groundingCheckBatchSize * 0) bs -> sound g sys src facts bs.
Proof.
  intros [Hl Hb]. rewrite Nat.mul_0_r, Nat.sub_0_r in Hl. split; [done|]. intros n Hn.
  split; [|exact (Hb n Hn)]. unfold batchOf. rewrite lookup_take_lt by (apply Nat.mod_upper_bound; done).
  rewrite lookup_drop. f_equal. symmetry. by apply Nat.div_mod.
Qed.

Lemma wp_groundingCheck g sys src facts Q d c i fs :
  (forall bs j fs', quiet fs fs' -> sound g sys src facts bs -> Q (Ok bs) (MkWorld d (MkProcess c j) fs')) ->
  (forall e j fs', quiet fs fs' -> chatFailed g sys fs -> Q (Err e) (MkWorld d (MkProcess c j) fs')) ->
  wp (groundingCheck g sys src facts) Q (MkWorld d (MkProcess c i) fs).
Proof.
  intros HOk HErr. unfold groundingCheck. destruct (Nat.eqb_spec (length facts) 0) as [E|E].
  { apply wp_ret, HOk; [oracle|]. split; [done|]. by intros ? [=]. }
  destruct (Nat.ltb_spec groundingCheckBatchSize (length facts)) as [Hlt|Hle].
  - apply (wp_groundingBatches g sys src (S (length facts)) facts 0); [lia| |done].
    intros bs j fs' Hq Hb. apply HOk; [done|]. by apply restOk_sound.
  - apply wp_groundingCheckOne; [|done]. intros bs j fs' Hq Hb. apply HOk; [done|]. apply restOk_sound.
    assert (Hall : take groundingCheckBatchSize (drop (groundingCheckBatchSize * 0) facts) = facts).
    { rewrite Nat.mul_0_r, drop_0. by apply take_ge. }
    rewrite <- (app_nil_r bs). apply restOk_batch; [lia|by rewrite Hall|].
    split; [cbn [length]; lia|]. by intros ? [=].
Qed.

(** ** Property *)

(** C11: Grounding never trusts a fact on its own: the check gives exactly one
    verdict per fact, or an error for which the call itself failed, and changes
    nothing stored; and a fact is marked grounded only if a reply of the
    grounding model to the very batch of at most 20 facts it is in says, under
    the fact's own number, that the source supports it — a missing number, an
    unreadable reply or a miscount leaves it ungrounded. *)
Theorem grounding_sound (g : ChatProvider) (sys src : string) (facts : list KeyFactOutput) (w : world) :
  wp (groundingCheck g sys src facts)
    (fun r w' =>
       w'.(w_db) = w.(w_db) /\ w'.(w_proc).(cache) = w.(w_proc).(cache) /\
       match r with
       | Ok bs =>
           length bs = length facts /\
           forall i, bs !! i = Some true ->
             batchOf i facts !! (i mod groundingCheckBatchSize)%nat = facts !! i /\
             confirmed g sys src (batchOf i facts) (factNumber i)
       | Err _ => w.(w_faults) <> [] \/ exists k u, g.(chat_answer) k sys u = None
       end) w.
Proof.
  destruct w as [d [c i] fs]. apply wp_groundingCheck.
  - intros bs j fs' _ Hb. split; [done|]. split; [done|]. exact Hb.
  - intros e j fs' _ Hf. split; [done|]. split; [done|]. exact Hf.
Qed.

(** ** Concrete replies *)

(** A text with its quotes written as apostrophes. *)
Fixpoint quoted (s : string) : string :=
  match s with
  | EmptyString => ""
  | String c s' => String (if Ascii.eqb c "'" then dquote else c) (quoted s')
  end.

Example verdicts_by_index :
  indexVerdicts (quoted "Sure: {'grounded': [{'i': 2, 'ok': false}, {'I': 1, 'ok': true, 'why': '{'}, {'i': 1}]} {}") =
    Some (<[1 := true]> {[2 := false]}) /\
  indexVerdicts (quoted "{'grounded': [{'i': 1.5, 'ok': true}]}") = None /\
  indexVerdicts "no object" = None.
Proof. split; [|split]; vm_compute; reflexivity. Qed.

Definition threeFacts : list KeyFactOutput :=
  [MkKeyFactOutput "a" []; MkKeyFactOutput "b" []; MkKeyFactOutput "c" []].

(** A first reply that skips a number is asked for once more. *)
Definition forgetful : ChatProvider := {|
  chat_vendor := "v"; chat_model := "m";
  chat_answer k _ _ :=
    Some (quoted (if (k =? 0)%nat then "{'grounded': [{'i': 1, 'ok': true}, {'i': 3, 'ok': true}]}"
                  else "{'grounded': [{'i': 2, 'ok': true}, {'i': 3, 'ok': false}]}"))
|}.

Example retry_replaces :
  (groundingCheck forgetful "" "" threeFacts (MkWorld (MkDb [] [] [] [] [] ∅ ∅ [] ∅) (MkProcess ∅ 0) [])).1 =
    Ok [false; true; false].
Proof. vm_compute. reflexivity. Qed.
