(* ===== verification/Vectors.v ===== *)
(** * Vectors: embedding what a consolidation run stored
    ([src/internal/consolidation/store.go], [embedSummary], [embedEntities],
    [embedKeyFacts])

    All three run after the transaction that stored the rows; their errors are
    collected and only logged by the caller. *)

From stdpp Require Import gmap.
From S2P Require Import Prelude Identity Schema Db KeyStore Rotate Utf8 Json Float Text Embed Keeps Reembed Entities.
#[local] Open Scope string_scope.
#[local] Open Scope list_scope.
#[local] Open Scope Z_scope.

(** [errs = append(errs, ..); continue] *)
Fixpoint collectErrs {A} (l : list A) (f : A -> M ()) : M (list error) :=
  match l with
  | [] => mret []
  | a :: l' =>
      r ← catch (f a);
      es ← collectErrs l' f;
      mret (match r with Err e => e :: es | Ok _ => es end)
  end.

(** [errors.Join(errs...)]: nil for none. *)
Definition joinErrs (errs : list error) : M () :=
  match errs with
  | [] => mret tt
  | e :: _ => throw (Wrap "joined" e)
  end.

Record keyFactToEmbed := MkKeyFactToEmbed { rowID : Z; text : string }.

Definition keyFactEmbedBatchSize : nat := 256.
Definition keyFactEmbedMaxChars : nat := 4000.

Section Vectors.
Context `{HA : AEAD, EM : Embedder, FF : FloatFormat}.
Variable kek : string.

Definition embedSummary (scope : Scope) (id text : string) : M () :=
  input ← truncatedInput text;
  vectors ← Embed [input];
  match vectors with
  | [] => throw (ErrMsg "embedder returned no vectors")
  | v :: _ =>
      Run scope scope (fun se =>
        exec (set_summaries (updateWhere (summaryWhere se id) (embSummary (VectorLiteral v) EmbedderIdentity))))
  end.

(** The body of the loop of [embedEntities]. *)
Definition embedEntity (scope : Scope) (id : string) : M () :=
  if String.eqb id "" then mret tt
  else
    row ← wrapErr "load current attributes" (Run scope scope (fun se => queryRow (selectEntity se scope id)));
    enc ← wrapErr "resolve encryption key" (GetVersion kek scope row.(n_key_version));
    attrsJSON ← lift (wrapRes "decrypt attributes" (Decrypt enc row.(n_attributes)));
    attrs ← lift (parseStored "parse attributes" attrsJSON);
    input ← truncatedInput (EntityEmbedText row.(n_kind) row.(n_name) (default ∅ attrs));
    vectors ← wrapErr "embed call" (Embed [input]);
    match vectors with
    | [] => throw (ErrMsg "embedder returned no vectors")
    | v :: _ =>
        wrapErr "write embedding" (Run scope scope (fun se =>
          exec (set_entities (updateWhere (entityWhere se scope id) (embEntity (VectorLiteral v) EmbedderIdentity)))))
    end.

Definition embedEntities (scope : Scope) (ids : list string) : M () :=
  errs ← collectErrs ids (embedEntity scope);
  joinErrs errs.

(** The text of one fact: at most so many runes, then the provider's limit. *)
Definition factInput (f : keyFactToEmbed) : M string :=
  let rs := runes f.(text) in
  let rs := if (keyFactEmbedMaxChars <? length rs)%nat then take keyFactEmbedMaxChars rs else rs in
  truncatedInput (ofRunes rs).

Fixpoint factInputs (fs : list keyFactToEmbed) : M (list string) :=
  match fs with
  | [] => mret []
  | f :: fs' => t ← factInput f; ts ← factInputs fs'; mret (t :: ts)
  end.

(** One batch of [embedKeyFacts]. *)
Definition embedChunk (scope : Scope) (chunk : list keyFactToEmbed) : M () :=
  texts ← factInputs chunk;
  vectors ← wrapErr "embed key facts batch" (Embed texts);
  if negb (Nat.eqb (length vectors) (length chunk))
  then throw (ErrMsg "embed key facts batch: wrong number of vectors")
  else
    Run scope scope (fun se =>
      forM (zip chunk vectors) (fun fv =>
        wrapErr "write embedding for key fact"
          (exec (set_key_facts (updateWhere (keyFactWhere se fv.1.(rowID))
            (embKeyFact (VectorLiteral fv.2) EmbedderIdentity)))))).

(** [facts[start:end]] for every start; fuel: one step per batch. *)
Fixpoint chunksOf {A} (fuel : nat) (l : list A) : list (list A) :=
  match fuel with
  | O => []
  | S fuel' =>
      match l with
      | [] => []
      | _ => take keyFactEmbedBatchSize l :: chunksOf fuel' (drop keyFactEmbedBatchSize l)
      end
  end.

Definition embedKeyFacts (scope : Scope) (facts : list keyFactToEmbed) : M () :=
  if (length facts =? 0)%nat then mret tt
  else
    errs ← collectErrs (chunksOf (length facts) facts) (embedChunk scope);
    joinErrs errs.
End Vectors.

(** ** Only vectors change *)

(** The rows without their vectors. *)
Definition plainSummary (r : SummaryRow) : SummaryRow :=
  MkSummaryRow r.(s_id) r.(s_scope) r.(s_text) r.(s_key_version) r.(s_supersedes) None None r.(s_info).
Definition plainEntity (r : EntityRow) : EntityRow :=
  MkEntityRow r.(n_id) r.(n_scope) r.(n_kind) r.(n_name) r.(n_attributes) r.(n_key_version) None None r.(n_dates).
Definition plainKeyFact (r : KeyFactRow) : KeyFactRow :=
  MkKeyFactRow r.(f_id) r.(f_summary_id) r.(f_scope) r.(f_fact) r.(f_key_version) r.(f_grounded) None None
    r.(f_source_episode_ids).

(** A database without the vectors of its summaries, entities and key facts. *)
Definition plainDb (d : db) : db :=
  set_summaries (map plainSummary) (set_entities (map plainEntity) (set_key_facts (map plainKeyFact) d)).

Definition sameButVectors (d d' : db) : Prop := plainDb d' = plainDb d.

#[export] Instance sameButVectors_rel : DbRel sameButVectors.
Proof.
  split; unfold sameButVectors.
  - done.
  - congruence.
  - intros d d' H. exact (f_equal scope_keys H).
Qed.

Lemma updateWhere_plain {R} (plain emb : R -> R) cond l :
  (forall r, plain (emb r) = plain r) -> map plain (updateWhere cond emb l) = map plain l.
Proof.
  intros H. unfold updateWhere. rewrite map_map. apply map_ext. intros r. by case_match.
Qed.

Lemma vectors_summaries cond lit model d :
  sameButVectors d (set_summaries (updateWhere cond (embSummary lit model)) d).
Proof. unfold sameButVectors, plainDb, set_summaries. cbn. f_equal. by apply updateWhere_plain. Qed.

Lemma vectors_entities cond lit model d :
  sameButVectors d (set_entities (updateWhere cond (embEntity lit model)) d).
Proof.
  unfold sameButVectors, plainDb, set_summaries, set_entities. cbn. f_equal. by apply updateWhere_plain.
Qed.

Lemma vectors_key_facts cond lit model d :
  sameButVectors d (set_key_facts (updateWhere cond (embKeyFact lit model)) d).
Proof.
  unfold sameButVectors, plainDb, set_summaries, set_entities, set_key_facts. cbn. f_equal.
  by apply updateWhere_plain.
Qed.

#[export] Hint Resolve vectors_summaries vectors_entities vectors_key_facts sameButVectors_rel : keeps.

Section KeepVectors.
Context `{HA : AEAD, EM : Embedder, FF : FloatFormat}.
Variable kek : string.
#[local] Abbreviation K := (keeps sameButVectors kek).

Lemma keeps_collectErrs {A} (l : list A) f : (forall a, K (f a)) -> K (collectErrs l f).
Proof. intros Hf. induction l as [|a l IH]; cbn [collectErrs]; auto 6 with keeps. Qed.

Lemma keeps_joinErrs errs : K (joinErrs errs).
Proof. destruct errs; cbn; auto with keeps. Qed.

Lemma keeps_embedSummary scope id t : K (embedSummary scope id t).
Proof. unfold embedSummary. repeat keeps_step. case_match; auto with keeps. Qed.

Lemma keeps_embedEntity scope id : K (embedEntity kek scope id).
Proof.
  unfold embedEntity. case_match; [auto with keeps|]. repeat keeps_step.
  case_match; auto with keeps.
Qed.

Lemma keeps_embedEntities scope ids : K (embedEntities kek scope ids).
Proof.
  apply keeps_bind; [exact _|apply keeps_collectErrs; intros; apply keeps_embedEntity|intros; apply keeps_joinErrs].
Qed.

Lemma keeps_factInputs fs : K (factInputs fs).
Proof. induction fs as [|f fs IH]; cbn [factInputs]; unfold factInput; auto 8 with keeps. Qed.

Lemma keeps_embedChunk scope chunk : K (embedChunk scope chunk).
Proof.
  unfold embedChunk. apply keeps_bind; [exact _|apply keeps_factInputs|intros ts].
  keeps_step. case_match; auto 8 with keeps.
Qed.

Lemma keeps_embedKeyFacts scope facts : K (embedKeyFacts scope facts).
Proof.
  unfold embedKeyFacts. case_match; [auto with keeps|].
  apply keeps_bind; [exact _|apply keeps_collectErrs; intros; apply keeps_embedChunk|intros; apply keeps_joinErrs].
Qed.
End KeepVectors.
