(* ===== verification/Summaries.v ===== *)
(** * Summaries: storing one version of a period's memory
    ([src/internal/consolidation/store.go], [storeSummary], [nextSummaryID])

    Grounding and encryption come first; then one transaction writes the
    summary, its key facts, the entities, the relationships and the audit
    entry; embedding follows and cannot fail the run. *)

From stdpp Require Import gmap pretty.
From S2P Require Import Prelude PgFmt Identity Schema Db KeyStore Rotate Utf8 Json Float Text Embed Reembed.
From S2P Require Import Civil Period Slug Entities Relations Output Grounding Vectors.
#[local] Open Scope string_scope.
#[local] Open Scope list_scope.
#[local] Open Scope Z_scope.

(** The clocks: what [now()] of the server stamps a row with when inserted
    into these tables, and the day [time.Now()] is on. *)
Class Clock := { stamp : db -> Z; today : db -> Z }.

Record storeSummaryInput := MkInput {
  in_scope : Scope;
  in_level : string;
  in_period : string;
  in_sourceEpisodeIDs : list string;
  in_sourceSummaryPeriods : list string;
  in_output : ConsolidationOutput;
  in_groundingSourceText : string;
  in_supersedes : string;
  in_correctionReason : string;
  in_actor : string;
  in_replaceEntityAttrs : bool
}.

Definition systemActor : string := "system:consolidation".

(** ** The next version's id *)

(** A string of decimal digits, and its value after the digits of [acc]. *)
Definition digitByte (c : ascii) : bool := (48 <=? byteZ c) && (byteZ c <=? 57).

Fixpoint allDigits (s : string) : bool :=
  match s with EmptyString => true | String c s' => digitByte c && allDigits s' end.

Fixpoint decimalValue (s : string) (acc : Z) : Z :=
  match s with EmptyString => acc | String c s' => decimalValue s' (10 * acc + (byteZ c - 48)) end.

(** [substring(id from 'v([0-9]+)$')]: the digits after the last v, if they
    end the id. *)
Fixpoint versionDigits (s : string) : option string :=
  match s with
  | EmptyString => None
  | String c s' =>
      if Ascii.eqb c "v" && negb (String.eqb s' "") && allDigits s' then Some s' else versionDigits s'
  end.

(** .. cast as int; no digits is NULL. *)
Definition versionOf (id : string) : option Z := (fun ds => decimalValue ds 0) <$> versionDigits id.

Definition sumID (scope : Scope) (level period : string) (n : Z) : string :=
  "sum_" +:+ (scope.(Owner) +:+ ("_" +:+ (period +:+ ("_" +:+ (level +:+ ("_v" +:+ pretty n)))))).

(** [where level = .. and period = .. and scope_kind = .. and scope_owner = ..] *)
Definition samePeriod (scope : Scope) (level period : string) (r : SummaryRow) : bool :=
  String.eqb r.(s_info).(i_level) level && String.eqb r.(s_info).(i_period) period &&
  bool_decide (r.(s_scope) = scope).

Definition versionsIn (se : session) (scope : Scope) (level period : string) (d : db) : list Z :=
  omap (fun r => versionOf r.(s_id))
    (List.filter (fun r => visible se r.(s_scope) && samePeriod scope level period r) d.(summaries)).

Definition nextSummaryID (se : session) (scope : Scope) (level period : string) : M string :=
  wrapErr "acquire next-version lock" roundTrip ;;
  maxVersion ← wrapErr "determine next summary version" (queryChecked (fun d =>
    let vs := versionsIn se scope level period d in
    if forallb (fun v => v <? 2 ^ 31) vs then Some (fold_right Z.max 0 vs) else None));
  mret (sumID scope level period (maxVersion + 1)).

(** ** The inserts *)

Definition levels : list string := ["daily"; "weekly"; "monthly"; "yearly"].

(** The [insert] of a summary: row-level security, the level check, the primary
    key, the self-reference of [supersedes] and its unique index. *)
Definition insertSummary (se : session) (row : SummaryRow) (d : db) : option db :=
  if writable se row.(s_scope) && bool_decide (row.(s_info).(i_level) ∈ levels) &&
     negb (existsb (fun r => String.eqb r.(s_id) row.(s_id)) d.(summaries)) &&
     match row.(s_supersedes) with
     | Some old =>
         existsb (fun r => String.eqb r.(s_id) old) d.(summaries) &&
         negb (existsb (fun r => bool_decide (r.(s_scope) = row.(s_scope)) &&
                                 bool_decide (r.(s_supersedes) = Some old)) d.(summaries))
     | None => true
     end
  then Some (set_summaries (fun l => l ++ [row])%list d)
  else None.

(** The serial of the next key fact. *)
Definition nextFactID (d : db) : Z := 1 + fold_right Z.max 0 (map f_id d.(key_facts)).

(** The [insert] of a key fact, [returning id]. *)
Definition insertKeyFact (se : session) (row : Z -> KeyFactRow) : M Z :=
  roundTrip ;;
  id ← getDb nextFactID;
  ok ← getDb (fun d => writable se (row id).(f_scope) &&
                       existsb (fun r => String.eqb r.(s_id) (row id).(f_summary_id)) d.(summaries));
  if (ok : bool) then modDb (set_key_facts (fun l => l ++ [row id])%list) ;; mret id
  else throw (ErrMsg "constraint violation").

(** ** The run *)

(** What is left of [output.EntitiesTouched]: a named kind outside the list is
    skipped, an id is derived anew. *)
Definition canonicalEntities `{Unicode} (touched : list EntityUpdate) : list EntityUpdate :=
  flat_map (fun e =>
    if String.eqb e.(u_id) "" then [e]
    else if negb (validKind e.(u_kind)) then []
    else [MkEntityUpdate (canonicalEntityID e.(u_kind) e.(u_name) e.(u_id)) e.(u_kind) e.(u_name)
            e.(u_attributes) e.(u_supersedes)]) touched.

Definition idsOf (entities : list EntityUpdate) : list string :=
  List.filter (fun id => negb (String.eqb id "")) (map u_id entities).

(** The citations kept for a fact. *)
Definition citeIDs (i : storeSummaryInput) (kf : KeyFactOutput) : list string :=
  if String.eqb i.(in_level) "daily"
  then List.filter (fun e => bool_decide (e ∈ i.(in_sourceEpisodeIDs))) kf.(SourceEpisodeIDs)
  else [].

Section Store.
Context `{HA : AEAD, HR : Rand, HU : Unicode, EM : Embedder, FF : FloatFormat, HC : Clock}.
Variable kek : string.
Variables consolidation grounding : ChatProvider.
Variable groundingSystemPrompt : string.

Fixpoint storeFacts (se : session) (i : storeSummaryInput) (id enc : string) (keyVersion : Z)
    (facts : list KeyFactOutput) (grounded : list bool) : M (list keyFactToEmbed) :=
  match facts with
  | [] => mret []
  | kf :: facts' =>
      factCT ← wrapErr "encrypt key fact" (Encrypt enc kf.(Fact));
      match grounded with
      | [] => throw (ErrMsg "panic: index out of range")
      | g :: grounded' =>
          factRowID ← wrapErr "insert key fact" (insertKeyFact se (fun rowID =>
            MkKeyFactRow rowID id i.(in_scope) (Some factCT) keyVersion g None None (citeIDs i kf)));
          rest ← storeFacts se i id enc keyVersion facts' grounded';
          mret (if (g : bool) then MkKeyFactToEmbed factRowID kf.(Fact) :: rest else rest)
      end
  end.

(** The transaction of [storeSummary]. *)
Definition storeTx (i : storeSummaryInput) (grounded : list bool) (enc : string) (keyVersion : Z)
    (summaryCT : string) (entities : list EntityUpdate) (se : session) : M (string * list keyFactToEmbed) :=
  id ← nextSummaryID se i.(in_scope) i.(in_level) i.(in_period);
  wrapErr "insert summary" (execChecked (fun d => insertSummary se
    (MkSummaryRow id i.(in_scope) (Some summaryCT) keyVersion (Nullable i.(in_supersedes)) None None
       (MkSummaryInfo i.(in_period) i.(in_level) consolidation.(chat_vendor) consolidation.(chat_model)
          i.(in_sourceEpisodeIDs) i.(in_sourceSummaryPeriods) (idsOf entities)
          (Nullable i.(in_correctionReason)) (stamp d))) d)) ;;
  groundedFacts ← storeFacts se i id enc keyVersion i.(in_output).(KeyFacts) grounded;
  now ← getDb today;
  let asOf := match periodAsOfDate i.(in_level) i.(in_period) with Some t => t | None => now end in
  wrapErr "upsert entities for summary"
    (upsertEntities kek se i.(in_scope) entities i.(in_replaceEntityAttrs) asOf) ;;
  wrapErr "upsert relationships for summary"
    (upsertRelationships se i.(in_scope) i.(in_output).(Relationships) id) ;;
  wrapErr "audit log write for summary" (Write se {|
    EventType := if String.eqb i.(in_supersedes) "" then "capture" else "correct";
    Actor := if String.eqb i.(in_actor) "" then systemActor else i.(in_actor);
    ActingScope := i.(in_scope); WorkspaceScope := i.(in_scope);
    TargetRef := Some (MkRef RefKindSummary i.(in_scope) id);
    Detail := [("level", JString i.(in_level)); ("period", JString i.(in_period))] |}) ;;
  mret (id, groundedFacts).

Definition storeSummary (i : storeSummaryInput) : M () :=
  grounded ← wrapErr "grounding check"
    (groundingCheck grounding groundingSystemPrompt i.(in_groundingSourceText) i.(in_output).(KeyFacts));
  ev ← wrapErr "resolve encryption key" (GetOrCreate kek i.(in_scope));
  summaryCT ← wrapErr "encrypt summary text" (Encrypt ev.1 i.(in_output).(Summary));
  let entities := canonicalEntities i.(in_output).(EntitiesTouched) in
  r ← Run i.(in_scope) i.(in_scope) (storeTx i grounded ev.1 ev.2 summaryCT entities);
  catch (embedSummary i.(in_scope) r.1 i.(in_output).(Summary)) ;;
  catch (embedEntities kek i.(in_scope) (idsOf entities)) ;;
  catch (embedKeyFacts i.(in_scope) r.2) ;;
  mret tt.
End Store.

(** ** Lemmas: version numbers *)

Lemma pretty_char_spec n : (n < 10)%N -> byteZ (pretty_N_char n) = 48 + Z.of_N n.
Proof. intros Hn. destruct n as [|p]; [done|]. do 4 (destruct p as [p|p|]; try reflexivity; try lia). Qed.

Lemma decimalValue_go x s :
  (0 < x)%N -> decimalValue (pretty_N_go x s) 0 = decimalValue s (Z.of_N x).
Proof.
  revert s. induction (N.lt_wf_0 x) as [x _ IH]; intros s Hx. rewrite pretty_N_go_step by done.
  pose proof (N.mod_lt x 10 ltac:(done)) as Hm. pose proof (N.div_mod x 10 ltac:(done)) as Hdm.
  assert (Hlt : (x / 10 < x)%N) by (apply N.div_lt; lia).
  remember (x mod 10)%N as m eqn:Em. remember (x / 10)%N as q eqn:Eq. clear Em Eq.
  destruct (decide (q = 0)%N) as [E|E].
  - rewrite E, pretty_N_go_0. cbn [decimalValue]. rewrite pretty_char_spec by done. f_equal. lia.
  - rewrite IH; [|done|lia]. cbn [decimalValue]. rewrite pretty_char_spec by done. f_equal. lia.
Qed.

Lemma digits_go x s : allDigits s = true -> allDigits (pretty_N_go x s) = true.
Proof.
  revert s. induction (N.lt_wf_0 x) as [x _ IH]; intros s Hs.
  destruct (decide (x = 0)%N) as [->|E]; [by rewrite pretty_N_go_0|].
  rewrite pretty_N_go_step by lia. apply IH; [apply N.div_lt; lia|]. cbn [allDigits]. rewrite Hs.
  pose proof (N.mod_lt x 10 ltac:(done)) as Hm. revert Hm. generalize (x mod 10)%N. intros m Hm.
  unfold digitByte. rewrite pretty_char_spec by done. rewrite !(proj2 (Z.leb_le _ _)) by lia. done.
Qed.

Lemma go_not_empty x s : s <> "" -> pretty_N_go x s <> "".
Proof.
  revert s. induction (N.lt_wf_0 x) as [x _ IH]; intros s Hs.
  destruct (decide (x = 0)%N) as [->|E]; [by rewrite pretty_N_go_0|].
  rewrite pretty_N_go_step by lia. by apply IH; [apply N.div_lt; lia|].
Qed.

Lemma pretty_positive n : 1 <= n ->
  decimalValue (pretty n) 0 = n /\ allDigits (pretty n) = true /\ pretty n <> "".
Proof.
  intros Hn. destruct n as [|p|p]; [lia| |lia].
  assert (E : pretty (Z.pos p) = pretty_N_go (N.pos p) "") by reflexivity. rewrite E. split_and!.
  - by rewrite decimalValue_go.
  - by apply digits_go.
  - rewrite pretty_N_go_step by lia. by apply go_not_empty.
Qed.

Lemma versionDigits_suffix p ds :
  ds <> "" -> allDigits ds = true -> versionDigits (p +:+ String "v" ds) = Some ds.
Proof.
  intros Hne Hd. assert (Hn : forall p, allDigits (p +:+ String "v" ds) = false).
  { intros q. induction q as [|c q IH]; [done|]. cbn [String.append allDigits]. rewrite IH. by rewrite andb_false_r. }
  induction p as [|c p IH].
  - cbn [String.append versionDigits]. rewrite (proj2 (String.eqb_neq _ _) Hne), Hd. done.
  - cbn [String.append versionDigits]. rewrite Hn, andb_false_r. apply IH.
Qed.

Lemma versionOf_sumID scope level period n : 1 <= n -> versionOf (sumID scope level period n) = Some n.
Proof.
  intros Hn. destruct (pretty_positive n Hn) as (Hv & Hd & Hne). unfold versionOf.
  assert (E : sumID scope level period n =
    ("sum_" +:+ (Owner scope +:+ ("_" +:+ (period +:+ ("_" +:+ (level +:+ "_")))))) +:+ String "v" (pretty n)).
  { unfold sumID. rewrite !sapp_assoc. done. }
  rewrite E, versionDigits_suffix by done. cbn. by rewrite Hv.
Qed.
