(* ===== verification/SummaryStore.v ===== *)
(** * SummaryStore: what [storeSummary] promises

    One run stores the new version with everything that belongs to it, or
    nothing; the versions of a period never repeat an id and no version has two
    successors. *)

From stdpp Require Import gmap pretty.
From S2P Require Import Prelude PgFmt Identity Schema Db KeyStore Rotate Utf8 Json Float Text Embed Keeps Reembed.
From S2P Require Import Civil Period Slug Entities Relations Output Grounding Vectors Summaries.
#[local] Open Scope string_scope.
#[local] Open Scope list_scope.
#[local] Open Scope Z_scope.

(** The number of the next version. *)
Definition nextVersion (d : db) (scope : Scope) (level period : string) : Z :=
  1 + fold_right Z.max 0 (omap (fun r => versionOf r.(s_id)) (List.filter (samePeriod scope level period) d.(summaries))).

Lemma fold_max_ge l : 0 <= fold_right Z.max 0 l.
Proof. induction l; cbn; lia. Qed.

Lemma fold_max_in l x : x ∈ l -> x <= fold_right Z.max 0 l.
Proof. induction l as [|y l IH]; [by intros ?%elem_of_nil|]. intros [->|H]%elem_of_cons; cbn; [lia|]. specialize (IH H). lia. Qed.

(** The next id is none of the period's. *)
Lemma nextVersion_fresh d scope level period r :
  r ∈ d.(summaries) -> samePeriod scope level period r = true ->
  r.(s_id) <> sumID scope level period (nextVersion d scope level period).
Proof.
  intros Hr Hs E. pose proof (fold_max_ge (omap (fun r => versionOf r.(s_id))
    (List.filter (samePeriod scope level period) d.(summaries)))) as Hge.
  assert (Hin : nextVersion d scope level period ∈ omap (fun r => versionOf r.(s_id))
    (List.filter (samePeriod scope level period) d.(summaries))).
  { apply list_elem_of_omap. exists r. split; [apply list_elem_of_In, filter_In; split; [by apply list_elem_of_In|done]|].
    rewrite E. apply versionOf_sumID. unfold nextVersion. lia. }
  apply fold_max_in in Hin. unfold nextVersion in Hin at 1. lia.
Qed.

(** ** What is stored *)

Section Spec.
Context `{HA : AEAD, HU : Unicode}.
Variable kek : string.
Variables consolidation grounding : ChatProvider.
Variable groundingSystemPrompt : string.

(** The row of a key fact. *)
Definition factRow (i : storeSummaryInput) (id : string) (d : db) (kg : KeyFactOutput * bool) (r : KeyFactRow) : Prop :=
  r.(f_summary_id) = id /\ r.(f_scope) = i.(in_scope) /\ r.(f_grounded) = kg.2 /\
  r.(f_source_episode_ids) = citeIDs i kg.1 /\
  readField kek d r.(f_scope) r.(f_key_version) r.(f_fact) = Some kg.1.(Fact) /\
  r.(f_embedding) = None.

Definition summaryRow (i : storeSummaryInput) (id : string) (d : db) (r : SummaryRow) : Prop :=
  r.(s_id) = id /\ r.(s_scope) = i.(in_scope) /\ r.(s_supersedes) = Nullable i.(in_supersedes) /\
  samePeriod i.(in_scope) i.(in_level) i.(in_period) r = true /\
  r.(s_info).(i_source_episode_ids) = i.(in_sourceEpisodeIDs) /\
  r.(s_info).(i_source_summary_periods) = i.(in_sourceSummaryPeriods) /\
  r.(s_info).(i_entities_touched) = idsOf (canonicalEntities i.(in_output).(EntitiesTouched)) /\
  readField kek d r.(s_scope) r.(s_key_version) r.(s_text) = Some i.(in_output).(Summary).

(** The day entities are dated with. *)
Definition asOfDay (i : storeSummaryInput) (now : Z) : Z :=
  match periodAsOfDate i.(in_level) i.(in_period) with Some t => t | None => now end.

Record stored (i : storeSummaryInput) (d d' : db) : Prop := MkStored {
  st_keys : d'.(scope_keys) = d.(scope_keys);
  st_episodes : d'.(episodes) = d.(episodes) /\ d'.(key_rotations) = d.(key_rotations);
  st_version : let id := sumID i.(in_scope) i.(in_level) i.(in_period)
                           (nextVersion d i.(in_scope) i.(in_level) i.(in_period)) in
    Forall (fun r => r.(s_id) <> id) d.(summaries) /\
    (exists r, d'.(summaries) = d.(summaries) ++ [r] /\ summaryRow i id d' r) /\
    (exists gs rows, d'.(key_facts) = d.(key_facts) ++ rows /\
       sound grounding groundingSystemPrompt i.(in_groundingSourceText) i.(in_output).(KeyFacts) gs /\
       Forall2 (factRow i id d') (zip i.(in_output).(KeyFacts) gs) rows) /\
    (exists e, d'.(audit_log) = d.(audit_log) ++ [e] /\ e.(TargetRef) = Some (MkRef RefKindSummary i.(in_scope) id) /\
       e.(EventType) = if String.eqb i.(in_supersedes) "" then "capture" else "correct");
  st_entities : exists now, forall id, id <> "" -> entityReadable kek d i.(in_scope) id ->
    viewEntity kek d' i.(in_scope) id =
      applyUpdates i.(in_replaceEntityAttrs) (asOfDay i now) id (viewEntity kek d i.(in_scope) id)
        (canonicalEntities i.(in_output).(EntitiesTouched));
  st_edges : edgesKept i.(in_scope) d.(relationships) d'.(relationships)
}.

(** Ids are unique, and so is the successor of a version in its scope. *)
Definition sumWf (d : db) : Prop :=
  NoDup (s_id <$> d.(summaries)) /\
  (forall r old, r ∈ d.(summaries) -> r.(s_supersedes) = Some old -> old ∈ (s_id <$> d.(summaries))) /\
  (forall j k r r' old, d.(summaries) !! j = Some r -> d.(summaries) !! k = Some r' ->
     r.(s_scope) = r'.(s_scope) -> r.(s_supersedes) = Some old -> r'.(s_supersedes) = Some old -> j = k).
End Spec.

(** ** Lemmas: the inserts *)

Lemma insertSummary_spec s row d d' :
  insertSummary (MkSession s s) row d = Some d' ->
  d' = set_summaries (fun l => l ++ [row])%list d /\
  Forall (fun r => r.(s_id) <> row.(s_id)) d.(summaries) /\
  forall old, row.(s_supersedes) = Some old ->
    old ∈ (s_id <$> d.(summaries)) /\
    forall r, r ∈ d.(summaries) -> r.(s_scope) = row.(s_scope) -> r.(s_supersedes) <> Some old.
Proof.
  unfold insertSummary. destruct (_ && _) eqn:E; [|done]. intros H%(inj Some).
  rewrite !andb_true_iff in E. destruct E as [[[_ _] Hid] Hsup]. split_and!; [done| |].
  - apply Forall_forall. intros r Hr Heq. apply negb_true_iff, not_true_iff_false in Hid.
    apply Hid, existsb_exists. exists r. split; [by apply list_elem_of_In|]. by apply String.eqb_eq.
  - intros old Ho. rewrite Ho in Hsup. apply andb_true_iff in Hsup as [Hex Hno]. split.
    + apply existsb_exists in Hex as (r & Hr & Heq). apply String.eqb_eq in Heq as <-.
      apply list_elem_of_fmap. exists r. split; [done|by apply list_elem_of_In].
    + intros r Hr Hs Hso. apply negb_true_iff, not_true_iff_false in Hno. apply Hno, existsb_exists.
      exists r. split; [by apply list_elem_of_In|]. by rewrite !bool_decide_eq_true_2.
Qed.

Lemma sumWf_snoc row d :
  sumWf d -> Forall (fun r => r.(s_id) <> row.(s_id)) d.(summaries) ->
  (forall old, row.(s_supersedes) = Some old ->
    old ∈ (s_id <$> d.(summaries)) /\
    forall r, r ∈ d.(summaries) -> r.(s_scope) = row.(s_scope) -> r.(s_supersedes) <> Some old) ->
  sumWf (set_summaries (fun l => l ++ [row])%list d).
Proof.
  intros (Hid & Href & Huniq) Hf Hsup. unfold sumWf. cbn [summaries set_summaries]. rewrite fmap_app. split_and!.
  - apply NoDup_app. split_and!; [done| |apply NoDup_singleton].
    intros x (r & -> & Hr)%list_elem_of_fmap Hx%list_elem_of_singleton. rewrite Forall_forall in Hf. by apply (Hf r Hr).
  - intros r old [Hr|Hr]%elem_of_app Ho; apply elem_of_app; left; [by eapply Href|].
    apply list_elem_of_singleton in Hr as ->. by apply Hsup.
  - intros j k r r' old Hj Hk Hs Ho Ho'.
    apply lookup_app_Some in Hj as [Hj|[Hj Hj']]; apply lookup_app_Some in Hk as [Hk|[Hk Hk']].
    + by eapply Huniq.
    + apply list_lookup_singleton_Some in Hk' as [_ <-]. exfalso.
      apply (proj2 (Hsup old Ho') r); [by eapply list_elem_of_lookup_2|done|done].
    + apply list_lookup_singleton_Some in Hj' as [_ <-]. exfalso.
      apply (proj2 (Hsup old Ho) r'); [by eapply list_elem_of_lookup_2|done|done].
    + apply list_lookup_singleton_Some in Hj' as [Hj' _]. apply list_lookup_singleton_Some in Hk' as [Hk' _]. lia.
Qed.

(** Vectors play no part in the history. *)
Lemma sumWf_vectors d d' : sameButVectors d d' -> sumWf d -> sumWf d'.
Proof.
  intros E. pose proof (f_equal summaries E) as Es. cbn in Es.
  assert (Hf : forall {B} (f : SummaryRow -> B), (forall r, f (plainSummary r) = f r) ->
    f <$> summaries d' = f <$> summaries d).
  { intros B f Hf. transitivity (f <$> map plainSummary (summaries d')).
    - rewrite <- list_fmap_compose. apply list_fmap_ext. intros j r _. symmetry. apply Hf.
    - rewrite Es, <- list_fmap_compose. apply list_fmap_ext. intros j r _. apply Hf. }
  assert (Hl : forall j r, summaries d' !! j = Some r -> exists r0, summaries d !! j = Some r0 /\
    s_scope r0 = s_scope r /\ s_supersedes r0 = s_supersedes r).
  { intros j r Hj. pose proof (Hf _ (fun r => (s_scope r, s_supersedes r)) (fun _ => eq_refl)) as H.
    apply (f_equal (fun l => l !! j)) in H. rewrite !list_lookup_fmap, Hj in H. cbn in H.
    destruct (summaries d !! j) as [r0|]; [|done]. cbn in H. injection H as H1 H2. by exists r0. }
  unfold sumWf. rewrite (Hf _ s_id (fun _ => eq_refl)). intros (Hid & Href & Hu). split_and!; [done| |].
  - intros r old (j & Hj)%list_elem_of_lookup_1 Ho. destruct (Hl j r Hj) as (r0 & Hj0 & _ & E0).
    apply (Href r0 old); [by eapply list_elem_of_lookup_2|congruence].
  - intros j k r r' old Hj Hk Hs Ho Ho'. destruct (Hl j r Hj) as (a & Ha & Ea & Fa).
    destruct (Hl k r' Hk) as (b & Hb & Eb & Fb). apply (Hu j k a b old); congruence.
Qed.

(** ** Lemmas: the transaction *)

Section Tx.
Context `{HA : AEAD, HR : Rand, HL : !AEADLaws, HU : Unicode, EM : Embedder, FF : FloatFormat, HC : Clock}.
Variable kek : string.
Variables consolidation grounding : ChatProvider.
Variable groundingSystemPrompt : string.

Lemma wp_nextSummaryID s level period Q d p fs :
  (forall fs', quiet fs fs' -> Q (Ok (sumID s level period (nextVersion d s level period))) (MkWorld d p fs')) ->
  (forall e fs', quiet fs fs' -> Q (Err e) (MkWorld d p fs')) ->
  wp (nextSummaryID (MkSession s s) s level period) Q (MkWorld d p fs).
Proof.
  intros H1 H2. unfold nextSummaryID. apply wp_bind, wp_wrap, wp_trip; [|intros; apply H2; oracle].
  apply wp_bind, wp_wrap, wp_queryChecked; [|intros; apply H2; oracle..].
  intros m. cbv beta zeta. destruct (forallb _ _); [|done]. intros [= <-]. apply wp_ret.
  assert (E : versionsIn (MkSession s s) s level period d =
    omap (fun r => versionOf r.(s_id)) (List.filter (samePeriod s level period) d.(summaries))).
  { unfold versionsIn. f_equal. apply List.filter_ext. intros r. unfold samePeriod.
    destruct (bool_decide_reflect (s_scope r = s)) as [Hs|_]; [|by rewrite !andb_false_r].
    by rewrite (proj2 (visible_same s _) Hs). }
  rewrite E. specialize (H1 (tail (tail fs))). unfold nextVersion in H1. rewrite (Z.add_comm 1) in H1.
  apply H1. oracle.
Qed.

(** The key facts of [facts] with their verdicts, appended. *)
Definition factsStored (i : storeSummaryInput) (id : string) (facts : list KeyFactOutput) (gs : list bool)
    (d d' : db) : Prop :=
  exists rows, d' = set_key_facts (fun l => l ++ rows)%list d /\ Forall2 (factRow kek i id d) (zip facts gs) rows.

Lemma readField_written d s v enc ct t :
  keyOf kek d s v = Some enc -> Decrypt enc (Some ct) = Ok t -> readField kek d s v (Some ct) = Some t.
Proof. intros Hk Hd. unfold readField. rewrite Hk. cbn [mbind option_bind]. by rewrite Hd. Qed.

Lemma wp_storeFacts i id enc v facts gs Q d c n fs :
  storeInv kek d c -> keyOf kek d i.(in_scope) v = Some enc -> length gs = length facts ->
  (forall ef d' m fs', quiet fs fs' -> factsStored i id facts gs d d' ->
     Q (Ok ef) (MkWorld d' (MkProcess c m) fs')) ->
  (forall e d' m fs', quiet fs fs' -> d'.(scope_keys) = d.(scope_keys) ->
     Q (Err e) (MkWorld d' (MkProcess c m) fs')) ->
  wp (storeFacts (MkSession i.(in_scope) i.(in_scope)) i id enc v facts gs) Q (MkWorld d (MkProcess c n) fs).
Proof.
  revert gs Q d n fs. induction facts as [|kf facts IH]; intros [|g gs] Q d n fs Hinv Hk Hlen HOk HErr; try done.
  { apply wp_ret, HOk; [oracle|]. exists []. split; [|constructor]. unfold set_key_facts. rewrite app_nil_r. by destruct d. }
  cbn [storeFacts]. apply wp_bind, wp_wrap, wp_Encrypt; [|by intros; apply HErr; [oracle|]].
  intros ct Hct. apply wp_bind, wp_wrap. unfold insertKeyFact.
  apply wp_bind, wp_trip; [|by intros; apply HErr; [oracle|]].
  apply wp_bind. unfold wp at 1. cbn [getDb]. apply wp_bind. unfold wp at 1. cbn [getDb]. 
  destruct (_ && _); [|apply wp_throw, HErr; [oracle|done]].
  apply wp_bind. unfold wp at 1. cbn [modDb set_db w_db w_proc w_faults]. apply wp_ret.
  set (row := MkKeyFactRow _ _ _ _ _ _ _ _ _). apply wp_bind. apply IH.
  - apply (storeInv_same_keys kek d); done.
  - exact Hk.
  - by injection Hlen.
  - intros ef d' m fs' Hq (rows & -> & Hrows). apply wp_ret.
    apply HOk; [oracle|]. exists (row :: rows). split.
    + unfold set_key_facts. cbn. by rewrite <- app_assoc.
    + cbn [zip zip_with]. constructor; [|exact Hrows]. split_and!; try done. by eapply readField_written.
  - intros e d' m fs' Hq Hkeys. apply HErr; [oracle|exact Hkeys].
Qed.

Lemma readField_keys d d' s v ct :
  scope_keys d' = scope_keys d -> readField kek d' s v ct = readField kek d s v ct.
Proof. unfold readField, keyOf. by intros ->. Qed.

Lemma factRow_keys i id d d' kg r :
  scope_keys d' = scope_keys d -> factRow kek i id d kg r -> factRow kek i id d' kg r.
Proof. intros E. unfold factRow. by rewrite (readField_keys d d' _ _ _ E). Qed.

Lemma view_same d d' s id :
  entities d' = entities d -> scope_keys d' = scope_keys d ->
  viewEntity kek d' s id = viewEntity kek d s id /\
  (entityReadable kek d s id -> entityReadable kek d' s id).
Proof.
  intros E1 E2. unfold viewEntity, entityReadable, findEntity, viewRow, viewAttributes, readField, keyOf.
  by rewrite E1, E2.
Qed.

#[local] Abbreviation canon i := (canonicalEntities i.(in_output).(EntitiesTouched)).

Definition txPre (i : storeSummaryInput) (gs : list bool) (enc : string) (v : Z) (ct : string) (d : db) c : Prop :=
  storeInv kek d c /\ keyOf kek d i.(in_scope) v = Some enc /\ currentVersionOf i.(in_scope) d <> 0 /\
  Decrypt enc (Some ct) = Ok i.(in_output).(Summary) /\ sound grounding groundingSystemPrompt i.(in_groundingSourceText) i.(in_output).(KeyFacts) gs /\
  Forall updateOk (canon i) /\ Forall (fun e => entityReadable kek d i.(in_scope) e.(u_id)) (canon i).

Lemma wp_storeTx i gs enc v ct Q d c n fs :
  txPre i gs enc v ct d c ->
  (forall r d' c' m fs', quiet fs fs' -> storeInv kek d' c' -> stored kek grounding groundingSystemPrompt i d d' -> (sumWf d -> sumWf d') ->
     Q (Ok r) (MkWorld d' (MkProcess c' m) fs')) ->
  (forall e d' c' m fs', quiet fs fs' -> storeInv kek d' c' -> d'.(scope_keys) = d.(scope_keys) ->
     Q (Err e) (MkWorld d' (MkProcess c' m) fs')) ->
  wp (storeTx kek consolidation i gs enc v ct (canon i) (MkSession i.(in_scope) i.(in_scope))) Q
    (MkWorld d (MkProcess c n) fs).
Proof.
  intros (Hinv & Hk & Hcur & Hct & Hlen & Hok & Hr) HOk HErr. unfold storeTx. set (s := in_scope i) in *.
  apply wp_bind, wp_nextSummaryID; [|by intros; apply HErr]. intros fs1 Hq1.
  set (id := sumID s (in_level i) (in_period i) _).
  apply wp_bind, wp_wrap, wp_execChecked; [|by intros; apply HErr; [oracle|..]..].
  intros dA. set (row := MkSummaryRow _ _ _ _ _ _ _ _). intros (-> & Hfresh & Hsup)%insertSummary_spec.
  pose proof (fun H => sumWf_snoc row d H Hfresh Hsup) as HwfA.
  apply wp_bind. apply wp_storeFacts; [by apply (storeInv_same_keys kek d)|exact Hk|exact (proj1 Hlen)| |].
  2: { intros e d' m fs' Hq Hkeys. apply HErr; [oracle|by apply (storeInv_same_keys kek d)|done]. }
  intros ef dB m fs2 Hq2 (rows & -> & Hrows). cbn [scope_keys set_summaries] in *.
  apply wp_bind. unfold wp at 1. cbn [getDb w_db]. apply wp_bind, wp_wrap.
  set (dB := set_key_facts _ _). set (now := today dB).
  eapply wp_mono.
  { apply (wp_upsertEntities kek s (in_replaceEntityAttrs i) (asOfDay i now) (canon i)); cbn.
    - by apply (storeInv_same_keys kek d).
    - exact Hok.
    - exact Hr. }
  intros [[]|e] [dC [cC m2] fs3] (HiC & HqC & HkC & HupC); cbn in HiC, HqC, HkC, HupC.
  2: { apply HErr; [oracle|done|by apply HkC]. }
  specialize (HkC Hcur). destruct HupC as (d1 & Hsame1 & Hkept1 & HupC).
  assert (Hview : forall x, x <> "" -> entityReadable kek d s x ->
    viewEntity kek dC s x = applyUpdates (in_replaceEntityAttrs i) (asOfDay i now) x (viewEntity kek d s x) (canon i)).
  { intros x Hx Hrx. destruct (readable_kept kek s dB d1 x Hsame1 Hkept1 Hrx) as [Hrx1 E1].
    rewrite (proj2 (up_view _ _ _ _ _ _ _ HupC x Hrx1) Hx), E1. done. }
  assert (EC : dC = set_entities (fun _ => entities dC) dB).
  { pose proof (up_tables _ _ _ _ _ _ _ HupC) as E. rewrite E. rewrite E in HkC. unfold same_rows in Hsame1.
    rewrite Hsame1 in HkC |- *. cbn in HkC. unfold set_entities, set_scope_keys. cbn. by rewrite HkC. }
  clear HupC Hsame1 Hkept1 d1.
  apply wp_bind, wp_wrap. apply wp_upsertRelationships_step.
  intros r dD [cD m3] fs4 [Hq4 HcD] (_ & Hkept & ED). cbn in HcD. subst cD.
  assert (HkD : scope_keys dD = scope_keys d) by (rewrite ED; cbn; by rewrite HkC).
  assert (HiD : storeInv kek dD cC) by (apply (storeInv_same_keys kek dC); [by rewrite ED|done]).
  destruct r as [[]|e]; [|apply HErr; [oracle|done|done]].
  apply wp_bind, wp_wrap. unfold Write. apply wp_wrap. cbn [ActingScope WorkspaceScope].
  rewrite !bool_decide_eq_true_2 by done. cbn [andb]. set (entry := {| EventType := _ |}).
  apply wp_exec; [|intros; apply HErr; [oracle|done|done]].
  apply wp_ret. apply HOk; [oracle|by apply (storeInv_same_keys kek dD)| |].
  - assert (Hsum : summaries dD = summaries d ++ [row]) by (rewrite ED, EC; done).
    assert (Hfac : key_facts dD = key_facts d ++ rows) by (rewrite ED, EC; done).
    split; cbn [scope_keys set_audit_log episodes key_rotations summaries key_facts audit_log relationships].
    + exact HkD.
    + split; rewrite ED, EC; done.
    + cbv zeta. fold s id. split_and!; [exact Hfresh| | |].
      * exists row. split; [done|]. unfold summaryRow. split_and!; try done.
        -- unfold samePeriod. cbn. by rewrite !String.eqb_refl, bool_decide_eq_true_2.
        -- cbn [s_scope s_key_version s_text row]. eapply readField_written; [|exact Hct].
           unfold keyOf. cbn [scope_keys set_audit_log]. rewrite HkD. exact Hk.
      * exists gs, rows. split_and!; [done|done|]. eapply Forall2_impl; [exact Hrows|].
        intros kg fr. apply factRow_keys. cbn [scope_keys set_audit_log]. exact HkD.
      * exists entry. split_and!; [|done|done]. rewrite ED, EC. done.
    + exists now. intros x Hx Hrx. etransitivity; [|exact (Hview x Hx Hrx)].
      apply view_same; cbn [entities scope_keys set_audit_log]; rewrite ED; done.
    + replace (relationships d) with (relationships dC) by (rewrite EC; done). exact Hkept.
  - intros Hwf. specialize (HwfA Hwf). unfold sumWf in *. cbn [summaries set_audit_log set_summaries] in *.
    assert (Hsum : summaries dD = summaries d ++ [row]) by (rewrite ED, EC; done). by rewrite Hsum.
Qed.

(** *** The run *)

Lemma canon_ok i :
  Forall (fun e => utf8Map e.(u_attributes)) i.(in_output).(EntitiesTouched) -> Forall updateOk (canon i).
Proof.
  intros H. apply Forall_forall. intros e He. unfold canonicalEntities in He.
  apply list_elem_of_In, in_flat_map in He as (x & Hx & He). rewrite Forall_forall in H.
  specialize (H x (proj2 (list_elem_of_In _ _) Hx)).
  destruct (String.eqb_spec (u_id x) "") as [E|E]; [destruct He as [<-|[]]; by left|].
  destruct (validKind (u_kind x)) eqn:Ek; [|done]. destruct He as [<-|[]]. right. split; [|done].
  unfold entityKindCheck. cbn. by rewrite Ek.
Qed.

Definition storePost (i : storeSummaryInput) (w : world) (r : result error ()) (w' : world) : Prop :=
  storeInv kek w'.(w_db) w'.(w_proc).(cache) /\
  match r with
  | Err _ => same_rows w.(w_db) w'.(w_db)
  | Ok _ => exists d1 d2, same_rows w.(w_db) d1 /\ w.(w_db).(scope_keys) ⊆ d1.(scope_keys) /\
      stored kek grounding groundingSystemPrompt i d1 d2 /\ (sumWf d1 -> sumWf d2) /\ sameButVectors d2 w'.(w_db)
  end.

Lemma step_after i w d2 w1 w2 :
  storePost i w (Ok tt) w1 -> w1.(w_db) = d2 -> step sameButVectors kek w1 w2 -> storePost i w (Ok tt) w2.
Proof.
  intros (Hi & d1 & d3 & H1 & H2 & H3 & H4 & H5) <- [a b c]. split; [by apply b|].
  exists d1, d3. split_and!; try done. by eapply rel_trans.
Qed.

Lemma wp_storeSummary i w :
  storeInv kek w.(w_db) w.(w_proc).(cache) ->
  Forall (fun e => utf8Map e.(u_attributes)) i.(in_output).(EntitiesTouched) ->
  Forall (fun e => entityReadable kek w.(w_db) i.(in_scope) e.(u_id)) (canon i) ->
  wp (storeSummary kek consolidation grounding groundingSystemPrompt i) (storePost i w) w.
Proof.
  intros Hinv Hutf Hr. destruct w as [d [c n] fs]. cbn in Hinv, Hr. unfold storeSummary.
  apply wp_bind, wp_wrap, wp_groundingCheck; [|intros; split; [done|apply same_rows_refl]].
  intros gs j fs1 Hq1 Hgs. apply wp_bind, wp_wrap. eapply wp_mono; [by apply wp_GetOrCreate|].
  intros [[enc v]|e] [d1 [c1 m] fs2] (Hi1 & Hsame & Hsub & _ & Hq2 & Hres); cbn in *; [|by split].
  destruct Hres as (-> & Hv & Hk).
  assert (Herr : forall e c' n' fs', storeInv kek d1 c' ->
    storePost i (MkWorld d (MkProcess c n) fs) (Err e) (MkWorld d1 (MkProcess c' n') fs')) by by split.
  apply wp_bind, wp_wrap, wp_Encrypt; [|intros; by apply Herr].
  intros ct Hct. cbn [fst snd]. apply wp_bind, wp_Run.
  { intros msg fs' _ _. by apply Herr. }
  intros fs3 Hq3.
  assert (Hkept : keysKept kek (in_scope i) d d1).
  { intros u k. unfold keyOf. destruct (scope_keys d !! (in_scope i, u)) as [wr|] eqn:E; [|done].
    by rewrite (lookup_weaken _ _ _ _ E Hsub). }
  apply (wp_storeTx i gs enc (currentVersionOf (in_scope i) d1) ct).
  - split_and!; [done|done|lia|done|done|by apply canon_ok|].
    eapply Forall_impl; [exact Hr|]. intros e He. by apply (readable_kept kek _ d).
  - intros r d2 c2 m2 fs4 Hq4 Hi2 Hst Hwf. split; [exact Hq4|]. intros fs5 Hq5.
    split; [|intros _ msg; apply Herr; eapply storeInv_same_keys; [|exact Hi2]; symmetry; by apply st_keys in Hst].
    assert (Hpost : forall p' fs', storeInv kek d2 (cache p') ->
      storePost i (MkWorld d (MkProcess c n) fs) (Ok tt) (MkWorld d2 p' fs')).
    { intros p' fs' Hi'. split; [done|]. exists d1, d2. split_and!; try done. }
    apply wp_bind, wp_catch. eapply wp_mono; [apply keeps_embedSummary|]. intros r1 w1 Hs1. cbn beta.
    apply wp_bind, wp_catch. eapply wp_mono; [apply keeps_embedEntities|]. intros r2 w2 Hs2. cbn beta.
    apply wp_bind, wp_catch. eapply wp_mono; [apply keeps_embedKeyFacts|]. intros r3 w3 Hs3. cbn beta.
    apply wp_ret, (step_after i _ d2 (MkWorld d2 (MkProcess c2 m2) fs5)); [by apply Hpost|done|].
    eapply step_trans; [exact _|exact Hs1|]. eapply step_trans; [exact _|exact Hs2|exact Hs3].
  - intros e d2 c2 m2 fs4 Hq4 Hi2 Hkeys. split; [exact Hq4|]. intros fs5 Hq5. apply Herr.
    by apply (storeInv_same_keys kek d2).
Qed.
End Tx.

(** ** Properties *)

Section Claims.
Context `{HA : AEAD, HR : Rand, HL : !AEADLaws, HU : Unicode, EM : Embedder, FF : FloatFormat, HC : Clock}.
Variable kek : string.
Variables consolidation grounding : ChatProvider.
Variable groundingSystemPrompt : string.

(** C5: Storing a summary is all or nothing.  Under any faults, if the run
    reports an error no row of any table but the keys has changed; if it
    succeeds, then apart from vectors the database is the one of before with a
    new version of the period - its id one number above the period's others and
    taken by no summary, its text readable, its links and touched entities
    recorded -, one readable key fact per stated fact, marked as a sound
    grounding check says and citing only source episodes of a daily summary,
    one audit entry for the new version, the entities as applying the
    canonicalised updates makes them, no edge lost, and episodes and rotations
    untouched; and unique ids and unique successors are kept.  Failing to embed
    is not an error. *)
Theorem store_summary_atomic (i : storeSummaryInput) (w : world) :
  storeInv kek w.(w_db) w.(w_proc).(cache) ->
  Forall (fun e => utf8Map e.(u_attributes)) i.(in_output).(EntitiesTouched) ->
  Forall (fun e => entityReadable kek w.(w_db) i.(in_scope) e.(u_id))
    (canonicalEntities i.(in_output).(EntitiesTouched)) ->
  wp (storeSummary kek consolidation grounding groundingSystemPrompt i)
    (fun r w' =>
       storeInv kek w'.(w_db) w'.(w_proc).(cache) /\
       match r with
       | Err _ => same_rows w.(w_db) w'.(w_db)
       | Ok _ => exists d1 d2, same_rows w.(w_db) d1 /\ w.(w_db).(scope_keys) ⊆ d1.(scope_keys) /\
           stored kek grounding groundingSystemPrompt i d1 d2 /\ (sumWf d1 -> sumWf d2) /\
           sameButVectors d2 w'.(w_db)
       end) w.
Proof. apply wp_storeSummary. Qed.

(** No version of a summary ever has two successors in its scope, and ids
    are never reused: whatever fails, storing a summary keeps the history of
    versions a set of chains. *)
Theorem versions_form_chains (i : storeSummaryInput) (w : world) :
  storeInv kek w.(w_db) w.(w_proc).(cache) ->
  Forall (fun e => utf8Map e.(u_attributes)) i.(in_output).(EntitiesTouched) ->
  Forall (fun e => entityReadable kek w.(w_db) i.(in_scope) e.(u_id))
    (canonicalEntities i.(in_output).(EntitiesTouched)) ->
  sumWf w.(w_db) ->
  wp (storeSummary kek consolidation grounding groundingSystemPrompt i) (fun _ w' => sumWf w'.(w_db)) w.
Proof.
  intros Hinv Hu Hr Hwf. eapply wp_mono; [by apply wp_storeSummary|].
  assert (Hsame : forall d, same_rows w.(w_db) d -> sumWf d).
  { intros d E. unfold same_rows in E. rewrite E. exact Hwf. }
  intros [[]|e] w' [_ Hp]; [|by apply Hsame].
  destruct Hp as (d1 & d2 & H1 & _ & _ & H4 & H5). specialize (H4 (Hsame d1 H1)). by eapply sumWf_vectors.
Qed.
End Claims.

(** ** A concrete day *)

#[local] Existing Instance asciiUnicode.
Import Toy.

Definition toyEmbedder : Embedder := {|
  Vendor := "openai"; Model := "m";
  EmbedAnswer inputs := if (length inputs =? 1)%nat then Some [[fofZ 1]] else None |}.
Definition toyFormat : FloatFormat := {| FormatFloat32 _ := "1" |}.
Definition toyClock : Clock := {| stamp d := Z.of_nat (length d.(summaries)); today _ := 0 |}.
#[local] Existing Instances toyEmbedder toyFormat toyClock.

Definition agreeing : ChatProvider := {|
  chat_vendor := "v"; chat_model := "m";
  chat_answer _ _ _ := Some (quoted "{'grounded': [{'i': 1, 'ok': true}, {'i': 2, 'ok': false}]}") |}.

Definition dayOutput (summary : string) : ConsolidationOutput := MkConsolidationOutput summary
  [MkKeyFactOutput "Ada joined Acme" ["ep1"; "ep9"]; MkKeyFactOutput "Ada is happy" ["ep1"]]
  [MkEntityUpdate "x" "person" "Ada" (Some {[ "role" := "tester" ]}) [];
   MkEntityUpdate "y" "organization" "Acme" None []; MkEntityUpdate "z" "mood" "happy" None []]
  [MkRelationshipUpdate "person" "Ada" "works_at" "organization" "Acme" "2024-05-01" ""].

Definition dayInput (summary supersedes : string) : storeSummaryInput := {|
  in_scope := MkScope ScopeKindPrivate "ada"; in_level := "daily"; in_period := "2024-05-01";
  in_sourceEpisodeIDs := ["ep1"]; in_sourceSummaryPeriods := []; in_output := dayOutput summary;
  in_groundingSourceText := "text"; in_supersedes := supersedes; in_correctionReason := "";
  in_actor := ""; in_replaceEntityAttrs := false |}.

Definition runDay (i : storeSummaryInput) : M () := storeSummary kek agreeing agreeing "" i.
Definition afterFirst : world := (runDay (dayInput "first" "") world0).2.

Lemma dayUtf8 summary p : Forall (fun e => utf8Map e.(u_attributes)) (dayInput summary p).(in_output).(EntitiesTouched).
Proof.
  cbn [dayInput in_output dayOutput EntitiesTouched].
  repeat apply List.Forall_cons; [..|apply List.Forall_nil]; intros k v; cbn [u_attributes default id from_option];
    rewrite ?lookup_singleton_Some, ?lookup_empty; [intros [<- <-]; by split|done|done].
Qed.

Lemma store_summary_atomic_witness :
  wp (runDay (dayInput "first" ""))
    (fun r w' =>
       storeInv kek w'.(w_db) w'.(w_proc).(cache) /\
       match r with
       | Err _ => same_rows (w_db world0) w'.(w_db)
       | Ok _ => exists d1 d2, same_rows (w_db world0) d1 /\ (w_db world0).(scope_keys) ⊆ d1.(scope_keys) /\
           stored kek agreeing "" (dayInput "first" "") d1 d2 /\ (sumWf d1 -> sumWf d2) /\
           sameButVectors d2 w'.(w_db)
       end) world0 /\
  (runDay (dayInput "first" "") world0).1 = Ok tt /\
  map s_id (summaries (w_db afterFirst)) = ["sum_ada_2024-05-01_daily_v1"] /\
  map (fun r => (f_grounded r, f_source_episode_ids r)) (key_facts (w_db afterFirst)) =
    [(true, ["ep1"]); (false, ["ep1"])] /\
  map n_id (entities (w_db afterFirst)) = ["person:ada"; "organization:acme"] /\
  length (relationships (w_db afterFirst)) = 1%nat.
Proof.
  split; [|vm_compute; repeat split; reflexivity].
  apply (store_summary_atomic kek agreeing agreeing "" (dayInput "first" "") world0).
  - apply storeInv_empty.
  - apply dayUtf8.
  - apply Forall_forall. intros e _ r. done.
Defined.

Lemma versions_form_chains_witness :
  wp (runDay (dayInput "first" "")) (fun _ w' => sumWf w'.(w_db)) world0 /\
  (let w := (runDay (dayInput "second" "sum_ada_2024-05-01_daily_v1") afterFirst).2 in
   map s_id (summaries (w_db w)) = ["sum_ada_2024-05-01_daily_v1"; "sum_ada_2024-05-01_daily_v2"] /\
   (runDay (dayInput "third" "sum_ada_2024-05-01_daily_v1") w).1 =
     Err (Wrap "insert summary" (ErrMsg "constraint violation"))).
Proof.
  split; [|vm_compute; split; reflexivity].
  apply (versions_form_chains kek agreeing agreeing "" (dayInput "first" "") world0).
  - apply storeInv_empty.
  - apply dayUtf8.
  - apply Forall_forall. intros e _ r. done.
  - split_and!; [apply NoDup_nil_2|intros r old Hr; by apply elem_of_nil in Hr|intros j k r r' old Hj; done].
Defined.
