(* ===== verification/Sources.v ===== *)
(** * Sources: what a consolidation run reads
    ([src/internal/consolidation/runner.go], the loaders;
    [supersession.go])

    An instant is a count of nanoseconds since 1970 UTC; a Go time is an
    instant with the offset of its location, which [Format] reads it at. *)

From stdpp Require Import gmap.
From S2P Require Import Prelude PgFmt Identity Schema Db KeyStore Rotate Utf8 Json Float Text Embed Keeps Reembed.
From S2P Require Import Civil Temporal Entities.
#[local] Open Scope string_scope.
#[local] Open Scope list_scope.
#[local] Open Scope Z_scope.

Record textSource := MkTextSource { ts_id : string; ts_text : string; ts_date : string }.

Record goTime := MkGoTime { instant : Z; offset : Z }.

Definition nanosPerDay : Z := 86400 * 1000000000.

(** [t.Format("2006-01-02")] *)
Definition FormatDay (t : goTime) : string := formatDay ((t.(instant) + t.(offset)) / nanosPerDay).

(** [t.Truncate(24 * time.Hour)] counts from the zero time, a midnight UTC. *)
Definition truncateDay (t : goTime) : Z := t.(instant) / nanosPerDay * nanosPerDay.

(** ** Joining *)

Definition sourceHeader (s : textSource) : string :=
  if String.eqb s.(ts_date) "" then "--- id: " +:+ (s.(ts_id) +:+ " ---")
  else "--- id: " +:+ (s.(ts_id) +:+ (" (date: " +:+ (s.(ts_date) +:+ ") ---"))).

Fixpoint joinSources (sources : list textSource) : string :=
  match sources with
  | [] => ""
  | s :: rest => sourceHeader s +:+ (newline +:+ (s.(ts_text) +:+ (newline +:+ (newline +:+ joinSources rest))))
  end.

(** [dst[i] = f(rows[i])], stopping at the first error. *)
Fixpoint scanRows {A B} (f : A -> M B) (rows : list A) : M (list B) :=
  match rows with
  | [] => mret []
  | r :: rows' => b ← f r; bs ← scanRows f rows'; mret (b :: bs)
  end.

(** [scanRows] over rows of which some are passed over. *)
Definition catOptions {A} (l : list (option A)) : list A := omap id l.

Record knownEntityContext := MkKnown { k_id : string; k_name : string; k_attributes : goMap }.

Section Sources.
Context `{HA : AEAD, HU : Unicode}.
Variable kek : string.
(** The offset of the process's location at an instant. *)
Variable localOffset : Z -> Z.

Definition scanEpisodeSource (scope : Scope) (r : EpisodeRow) : M textSource :=
  enc ← wrapErr "resolve encryption key for episode" (GetVersion kek scope r.(e_key_version));
  input ← lift (wrapRes "decrypt episode input_text" (Decrypt enc r.(e_input)));
  output ← lift (wrapRes "decrypt episode output_text" (Decrypt enc r.(e_output)));
  mret (MkTextSource r.(e_id) (EpisodeEmbedText input output) (FormatDay (MkGoTime r.(e_ts) (localOffset r.(e_ts))))).

Definition scanEpisodeSources (scope : Scope) (rows : list EpisodeRow) : M (list textSource) :=
  scanRows (scanEpisodeSource scope) rows.

(** [where type = 'interaction' and ts >= start and ts < end and scope] *)
Definition dayEpisode (scope : Scope) (start end_ : Z) (r : EpisodeRow) : bool :=
  String.eqb r.(e_type) "interaction" && (start <=? r.(e_ts)) && (r.(e_ts) <? end_) &&
  bool_decide (r.(e_scope) = scope).

Definition byTime (rows : list EpisodeRow) : list EpisodeRow := sort_by (fun a b => e_ts a <? e_ts b) rows.

Definition loadDailyEpisodes (se : session) (scope : Scope) (date : goTime) : M (list textSource) :=
  let start := truncateDay date in
  let end_ := start + nanosPerDay in
  rows ← query (fun d => byTime (List.filter (fun r => visible se r.(e_scope) && dayEpisode scope start end_ r) d.(episodes)));
  scanEpisodeSources scope rows.

Definition loadEpisodesByID (se : session) (scope : Scope) (ids : list string) : M (list textSource) :=
  if (length ids =? 0)%nat then mret []
  else
    rows ← query (fun d => byTime (List.filter (fun r =>
      visible se r.(e_scope) && bool_decide (r.(e_id) ∈ ids) && bool_decide (r.(e_scope) = scope)) d.(episodes)));
    scanEpisodeSources scope rows.

(** *** Summaries *)

(** [not exists (.. newer.supersedes = s.id)]: the current version. *)
Definition current (se : session) (d : db) (r : SummaryRow) : bool := negb (superseded se d.(summaries) r.(s_id)).

(** [order by s.created_at desc, s.id desc] *)
Definition newerFirst (a b : SummaryRow) : bool :=
  (i_created_at (s_info b) <? i_created_at (s_info a)) ||
  (i_created_at (s_info b) =? i_created_at (s_info a)) && String.ltb (s_id b) (s_id a).

(** The newest current version of a period; the empty string for none. *)
Definition currentID (se : session) (scope : Scope) (level period : string) (d : db) : string :=
  match sort_by newerFirst (List.filter (fun r => visible se r.(s_scope) &&
          (String.eqb r.(s_info).(i_level) level && String.eqb r.(s_info).(i_period) period &&
           bool_decide (r.(s_scope) = scope)) && current se d r) d.(summaries)) with
  | r :: _ => r.(s_id)
  | [] => ""
  end.

Definition currentSummaryID (se : session) (scope : Scope) (level period : string) : M string :=
  query (currentID se scope level period).

Definition sameSummary (se : session) (scope : Scope) (id : string) (r : SummaryRow) : bool :=
  visible se r.(s_scope) && String.eqb r.(s_id) id && bool_decide (r.(s_scope) = scope).

Definition loadSummaryText (se : session) (scope : Scope) (id : string) : M string :=
  r ← queryRow (fun d => List.find (sameSummary se scope id) d.(summaries));
  enc ← wrapErr "resolve encryption key" (GetVersion kek scope r.(s_key_version));
  lift (Decrypt enc r.(s_text)).

Definition scanSummarySource (scope : Scope) (r : SummaryRow) : M textSource :=
  enc ← wrapErr "resolve encryption key for summary" (GetVersion kek scope r.(s_key_version));
  text ← lift (wrapRes "decrypt summary" (Decrypt enc r.(s_text)));
  mret (MkTextSource r.(s_id) text "").

(** The current version of each of the periods, in their order. *)
Definition sourceRows (se : session) (scope : Scope) (level : string) (periods : list string) (d : db) : list SummaryRow :=
  sort_by (fun a b => String.ltb (i_period (s_info a)) (i_period (s_info b)))
    (List.filter (fun r => visible se r.(s_scope) && String.eqb r.(s_info).(i_level) level &&
       bool_decide (r.(s_info).(i_period) ∈ periods) && current se d r && bool_decide (r.(s_scope) = scope)) d.(summaries)).

Definition loadSummaries (se : session) (scope : Scope) (level : string) (periods : list string) : M (list textSource) :=
  rows ← query (sourceRows se scope level periods);
  scanRows (scanSummarySource scope) rows.

(** *** Known entities *)

Definition knownEntity (scope : Scope) (lowerText : string) (r : EntityRow) : M (option knownEntityContext) :=
  if String.eqb r.(n_name) "" || negb (Contains lowerText (ToLower r.(n_name))) then mret None
  else if (String.length (blobBytes r.(n_attributes)) =? 0)%nat then mret (Some (MkKnown r.(n_id) r.(n_name) None))
  else
    enc ← wrapErr "resolve encryption key for entity" (GetVersion kek scope r.(n_key_version));
    attrsJSON ← lift (wrapRes "decrypt attributes for entity" (Decrypt enc r.(n_attributes)));
    attrs ← lift (parseStored "parse attributes for entity" attrsJSON);
    mret (Some (MkKnown r.(n_id) r.(n_name) attrs)).

Definition findKnownEntities (se : session) (scope : Scope) (combinedSourceText : string) : M (list knownEntityContext) :=
  rows ← query (fun d => List.filter (fun r => visible se r.(n_scope) && negb (String.eqb r.(n_kind) "self_model") &&
                                     bool_decide (r.(n_scope) = scope)) d.(entities));
  out ← scanRows (knownEntity scope (ToLower combinedSourceText)) rows;
  mret (catOptions out).

(** One line per entity that has attributes. *)
Definition knownLine (k : knownEntityContext) : string :=
  match k.(k_attributes) with
  | Some m => if bool_decide (m = ∅) then ""
              else "- " +:+ (k.(k_name) +:+ (" (id: " +:+ (k.(k_id) +:+ ("): " +:+ (marshalMap (Some m) +:+ newline)))))
  | None => ""
  end.

Definition formatKnownEntities (known : list knownEntityContext) : string := String.concat "" (map knownLine known).
End Sources.
