(* ===== verification/Generate.v ===== *)
(** * Generate: asking the model for a period's summary
    ([src/internal/consolidation/prompts.go], [buildSummaryPrompt];
    [runner.go], [generateSummary]; [perepisode.go]; [cluster.go],
    [generateDailySummary])

    The wording of the two system prompts is a variable. *)

From stdpp Require Import gmap.
From S2P Require Import Prelude Identity Schema Db KeyStore Utf8 Json Float Text Embed Keeps.
From S2P Require Import UnionFind Cluster Slug Entities Output Grounding Sources.
#[local] Open Scope string_scope.
#[local] Open Scope list_scope.
#[local] Open Scope Z_scope.

Definition dq : string := String dquote "".

Definition concatAll (parts : list string) : string := String.concat "" parts.

(** ** The prompt *)

Definition establishedHead : list string :=
  ["ALREADY-ESTABLISHED RECORD for this "].

Definition establishedRest : list string :=
  [" — the current, reviewed summary before this re-consolidation, which may already incorporate one or more deliberate human corrections not visible anywhere in the raw source texts below. Treat every fact in it as settled and correct. Only change something from it if a source text below EXPLICITLY states a new fact that supersedes it (the user or a later message clearly states a value changed, a decision was reversed, etc). Do NOT contradict, doubt, or walk back anything here merely because a raw source phrases something differently, states an earlier value in passing, or because your own past response in a source text differs from it — this record already reflects the outcome of any corrections that were made, even when the raw sources don't show that correction happening.";
   newline;
   newline].

Definition knownHead : list string :=
  ["KNOWN ENTITIES already on record whose name appears in the source texts below, with their current attributes — if a source text below restates one of these entities' facts using a different attribute key name than shown here (e.g. the record already has ";
   dq;
   "preapproval_amount";
   dq;
   " and a source states a new pre-approval amount), name that existing key in supersedes_keys for the corresponding entities_touched entry so the old, differently-spelled key doesn't stay stale. Only do this when a source text states an update to the SAME specific real-world fact — a source stating a different, unrelated fact about the same entity is not a supersession, just an additional attribute.";
   newline;
   newline].

Definition promptSource (s : textSource) : string :=
  newline +:+ (sourceHeader s +:+ (newline +:+ (s.(ts_text) +:+ newline))).

Definition buildSummaryPrompt (level period : string) (sources : list textSource) (establishedRecord : string)
    (knownEntities : list knownEntityContext) : string :=
  let known := formatKnownEntities knownEntities in
  concatAll (
    (if String.eqb establishedRecord "" then []
     else establishedHead ++ [level] ++ establishedRest ++ [establishedRecord; blankLine]) ++
    (if String.eqb known "" then [] else knownHead ++ [known; newline]) ++
    ["Level: "; level; newline; "Period: "; period; blankLine; "Source texts:"; newline] ++
    map promptSource sources).

Definition consolidationParseRetries : nat := 2.

Section Generate.
Context `{HU : Unicode, EM : Embedder}.
Variable consolidation : ChatProvider.
Variables summarySystemPrompt perEpisodeFactPrompt : string.
Variable TeamPromptOverride : option (Scope -> option string).
Variable Getenv : string -> string.

Definition systemPromptFor (scope : Scope) : string :=
  match TeamPromptOverride with
  | Some f => match f scope with Some p => p | None => summarySystemPrompt end
  | None => summarySystemPrompt
  end.

(** [for attempt := 1; attempt <= consolidationParseRetries; attempt++] *)
Fixpoint generateAttempts (attempts : nat) (system user : string) : M ConsolidationOutput :=
  match attempts with
  | O => throw (ErrMsg "parse consolidation output")
  | S attempts' =>
      content ← wrapErr "consolidation LLM call" (ChatCompletion consolidation system user);
      match parseReply decodeOutput content with
      | Some out => mret out
      | None => generateAttempts attempts' system user
      end
  end.

Definition generateSummary (scope : Scope) (level period : string) (sources : list textSource)
    (establishedRecord : string) (knownEntities : list knownEntityContext) : M ConsolidationOutput :=
  generateAttempts consolidationParseRetries (systemPromptFor scope)
    (buildSummaryPrompt level period sources establishedRecord knownEntities).

(** ** Facts of each episode *)

Definition decodeFacts : json -> option (list string) := decodeObject [] (field decodeStrings [] "facts").

(** One chunk: a failed call or an unreadable reply is skipped. *)
Definition chunkFacts (id chunk : string) : M (list KeyFactOutput) :=
  r ← catch (ChatCompletion consolidation perEpisodeFactPrompt chunk);
  match r with
  | Err _ => mret []
  | Ok content =>
      match parseReply decodeFacts content with
      | None => mret []
      | Some facts => mret (map (fun f => MkKeyFactOutput f [id]) (List.filter (fun f => negb (isBlank f)) facts))
      end
  end.

Definition episodeFacts (s : textSource) : M (list KeyFactOutput) :=
  match chunkText s.(ts_text) perEpisodeChunkCharLimit with
  | None => throw (ErrMsg "panic: slice bounds out of range")
  | Some chunks => fs ← scanRows (chunkFacts s.(ts_id)) chunks; mret (concat fs)
  end.

Definition extractPerEpisodeFacts (sources : list textSource) : M (list KeyFactOutput) :=
  fs ← scanRows episodeFacts sources; mret (concat fs).

(** ** A day *)

Definition appendFacts (out : ConsolidationOutput) (facts : list KeyFactOutput) : ConsolidationOutput :=
  MkConsolidationOutput out.(Summary) (out.(KeyFacts) ++ facts) out.(EntitiesTouched) out.(Relationships).

Definition singlePassWithInsurance (scope : Scope) (period : string) (sources : list textSource)
    (establishedRecord : string) (knownEntities : list knownEntityContext) : M ConsolidationOutput :=
  out ← generateSummary scope "daily" period sources establishedRecord knownEntities;
  facts ← extractPerEpisodeFacts sources;
  mret (appendFacts out facts).

Fixpoint truncatedInputs (ts : list string) : M (list string) :=
  match ts with
  | [] => mret []
  | t :: ts' => x ← truncatedInput t; xs ← truncatedInputs ts'; mret (x :: xs)
  end.

Definition generateDailySummary (scope : Scope) (period : string) (sources : list textSource)
    (establishedRecord : string) (knownEntities : list knownEntityContext) : M ConsolidationOutput :=
  let single := singlePassWithInsurance scope period sources establishedRecord knownEntities in
  if Z.of_nat (length sources) <=? clusterEpisodeThreshold then single
  else
    texts ← truncatedInputs (map ts_text sources);
    r ← catch (Embed texts);
    match r with
    | Err _ => single
    | Ok vectors =>
        if negb (Nat.eqb (length vectors) (length sources)) then single
        else
          let clusters := clusterSources (maxClustersPerDay Getenv) sources vectors in
          if (length clusters <=? 1)%nat then single
          else
            outputs ← scanRows (fun cluster => wrapErr "generate cluster summary"
                        (generateSummary scope "daily" period cluster establishedRecord knownEntities)) clusters;
            facts ← extractPerEpisodeFacts sources;
            mret (appendFacts (mergeConsolidationOutputs outputs) facts)
    end.
End Generate.
