(* ===== verification/Runner.v ===== *)
(** * Runner: consolidation runs, corrections and rollups
    ([src/internal/consolidation/runner.go], [contradiction.go])

    What a run logs and goes on from is a [catch].  A rollup's refresh runs
    rollups one level up, so [RunRollup] is a recursion over the levels. *)

From stdpp Require Import gmap pretty.
From S2P Require Import Prelude PgFmt Identity Schema Db KeyStore Rotate Utf8 Json Float Text Embed Keeps Reembed.
From S2P Require Import UnionFind Cluster Civil Temporal Period Slug Entities Relations Output Grounding Vectors Summaries.
From S2P Require Import Sources Generate.
#[local] Open Scope string_scope.
#[local] Open Scope list_scope.
#[local] Open Scope Z_scope.

Definition sourceLevelBelow (level : string) : string :=
  if String.eqb level "weekly" then "daily"
  else if String.eqb level "monthly" then "weekly"
  else if String.eqb level "yearly" then "monthly"
  else "".

Definition rollupLevelAbove (level : string) : string :=
  if String.eqb level "daily" then "weekly"
  else if String.eqb level "weekly" then "monthly"
  else if String.eqb level "monthly" then "yearly"
  else "".

(** ** Staleness *)

(** [max(created_at)]: NULL of no rows. *)
Definition maxOf (l : list Z) : option Z :=
  match l with [] => None | x :: l' => Some (fold_right Z.max x l') end.

(** [where level = .. and period = any(..) and supersedes is null and scope] *)
Definition stalenessSource (se : session) (scope : Scope) (sourceLevel : string) (sourcePeriods : list string)
    (r : SummaryRow) : bool :=
  visible se r.(s_scope) && String.eqb r.(s_info).(i_level) sourceLevel &&
  bool_decide (r.(s_info).(i_period) ∈ sourcePeriods) && bool_decide (r.(s_supersedes) = None) &&
  bool_decide (r.(s_scope) = scope).

Definition rollupIsStale (se : session) (scope : Scope) (rollupID sourceLevel : string)
    (sourcePeriods : list string) : M bool :=
  rollup ← wrapErr "load rollup created_at" (queryRow (fun d =>
    List.find (fun r => visible se r.(s_scope) && String.eqb r.(s_id) rollupID) d.(summaries)));
  newest ← wrapErr "load newest source created_at for rollup" (query (fun d =>
    maxOf (map (fun r => i_created_at (s_info r))
      (List.filter (stalenessSource se scope sourceLevel sourcePeriods) d.(summaries)))));
  mret (match newest with Some t => rollup.(s_info).(i_created_at) <? t | None => false end).

(** The rollups that name a period, of the rows [refreshRollupsCovering]
    selects: their periods and source periods. *)
Definition coveringRollups (se : session) (scope : Scope) (rollupLevel correctedPeriod : string) (d : db) :
    list (string * list string) :=
  map (fun r => (r.(s_info).(i_period), r.(s_info).(i_source_summary_periods)))
    (List.filter (fun r => visible se r.(s_scope) && String.eqb r.(s_info).(i_level) rollupLevel &&
       bool_decide (correctedPeriod ∈ r.(s_info).(i_source_summary_periods)) &&
       bool_decide (r.(s_supersedes) = None) && bool_decide (r.(s_scope) = scope)) d.(summaries)).

(** [_, err := ..; if err != nil { slog.Warn(..) }] *)
Definition logged {A} (m : M A) : M () := catch m ;; mret tt.

Definition humanNote (what : string) : string := "automatic re-consolidation, not a human correction: " +:+ what.

Record relatedSummary := MkRelated { rs_id : string; rs_level : string; rs_period : string }.

Record contradictionResult := MkContradiction { OldFact : string; Replacement : string }.
Record contradictionResponse := MkContradictions { Contradictions : list contradictionResult; CorrectedProse : string }.

Definition decodeContradiction : json -> option contradictionResult :=
  decodeObject (MkContradiction "" "") (fun ms =>
    old ← field decodeString "" "old_fact" ms;
    new ← field decodeString "" "replacement" ms;
    Some (MkContradiction old new)).

Definition decodeContradictions : json -> option contradictionResponse :=
  decodeObject (MkContradictions [] "") (fun ms =>
    cs ← field (decodeList decodeContradiction) [] "contradictions" ms;
    prose ← field decodeString "" "corrected_prose" ms;
    Some (MkContradictions cs prose)).

Definition buildContradictionCheckPrompt (newPeriod : string) (newFacts : list string)
    (oldLevel oldPeriod oldProse : string) (oldFacts sharedEntityNames : list string) : string :=
  let bullets fs := concatAll (map (fun f => "- " +:+ (f +:+ newline)) fs) in
  concatAll (
    ["Entities in common: "; String.concat ", " sharedEntityNames; blankLine;
     "NEW facts (from "; newPeriod; "):"; newline; bullets newFacts; newline;
     "EXISTING prose (from "; oldLevel; " "; oldPeriod; ", which may need rewriting):"; newline; oldProse; newline; newline;
     "EXISTING facts (from the same "; oldLevel; " "; oldPeriod; ", which may need updating):"; newline;
     bullets oldFacts]).

(** One reported contradiction: the first fact of that text is replaced or
    removed; whether there was one. *)
Fixpoint applyContradiction (c : contradictionResult) (facts : list KeyFactOutput) : option (list KeyFactOutput) :=
  match facts with
  | [] => None
  | f :: facts' =>
      if String.eqb f.(Fact) c.(OldFact) then
        Some (if String.eqb c.(Replacement) "" then facts'
              else MkKeyFactOutput c.(Replacement) f.(SourceEpisodeIDs) :: facts')
      else cons f <$> applyContradiction c facts'
  end.

(** The loop over them, counting the applied ones. *)
Fixpoint applyContradictions (cs : list contradictionResult) (facts : list KeyFactOutput) (applied : Z) :
    list KeyFactOutput * Z :=
  match cs with
  | [] => (facts, applied)
  | c :: cs' =>
      match applyContradiction c facts with
      | None => applyContradictions cs' facts applied
      | Some facts' => applyContradictions cs' facts' (applied + 1)
      end
  end.

Definition maxRelatedSummaries : nat := 5.

(** How often an entity is named by the current summaries of the scope. *)
Definition entityFreq (cs : list SummaryRow) (e : string) : Z :=
  Z.of_nat (length (List.filter (String.eqb e) (flat_map (fun r => r.(s_info).(i_entities_touched)) cs))).

(** [sum(1.0 / ef.freq)] over the shared entities. *)
Definition specificity (cs : list SummaryRow) (touched : list string) (r : SummaryRow) : f64 :=
  fold_left (fun acc e => fadd acc (fdiv f1 (fofZ (entityFreq cs e))))
    (List.filter (fun e => bool_decide (e ∈ touched)) r.(s_info).(i_entities_touched)) f0.

(** [order by specificity desc, created_at desc] *)
Definition moreRelated (cs : list SummaryRow) (touched : list string) (a b : SummaryRow) : bool :=
  fgt (specificity cs touched a) (specificity cs touched b) ||
  feq (specificity cs touched a) (specificity cs touched b) && (i_created_at (s_info b) <? i_created_at (s_info a)).

Definition relatedRows (se : session) (scope : Scope) (excludeID : string) (touched : list string) (d : db) :
    list relatedSummary :=
  let cs := List.filter (fun r => visible se r.(s_scope) && bool_decide (r.(s_scope) = scope) && current se d r) d.(summaries) in
  let shares r := existsb (fun e => bool_decide (e ∈ touched)) r.(s_info).(i_entities_touched) in
  map (fun r => MkRelated r.(s_id) r.(s_info).(i_level) r.(s_info).(i_period))
    (take maxRelatedSummaries (sort_by (moreRelated cs touched)
      (List.filter (fun r => shares r && negb (String.eqb r.(s_id) excludeID)) cs))).

Section Runner.
Context `{HA : AEAD, HR : Rand, HU : Unicode, EM : Embedder, FF : FloatFormat, HC : Clock}.
Variable kek : string.
Variables consolidation grounding : ChatProvider.
Variables groundingSystemPrompt summarySystemPrompt perEpisodeFactPrompt contradictionCheckPrompt : string.
Variable TeamPromptOverride : option (Scope -> option string).
Variable Getenv : string -> string.
Variable localOffset : Z -> Z.

#[local] Abbreviation store := (storeSummary kek consolidation grounding groundingSystemPrompt).

(** ** Rollups *)

Abbreviation rollupRun := (Scope -> string -> string -> string -> list string -> M ()) (only parsing).

(** [refreshRollupsCovering], given what runs a rollup. *)
Definition refreshWith (run : rollupRun) (scope : Scope) (correctedLevel correctedPeriod : string) : M () :=
  let rollupLevel := rollupLevelAbove correctedLevel in
  if String.eqb rollupLevel "" then mret tt
  else
    r ← catch (Run scope scope (fun se => query (coveringRollups se scope rollupLevel correctedPeriod)));
    match r with
    | Err _ => mret tt
    | Ok rollups => forM rollups (fun ru => logged (run scope rollupLevel correctedLevel ru.1 ru.2))
    end.

(** What a rollup run reads: the rollup it would replace and its sources; none
    if there is nothing to do. *)
Definition rollupSources (se : session) (scope : Scope) (level sourceLevel period : string)
    (sourcePeriods : list string) : M (string * list textSource) :=
  existingCurrentID ← currentSummaryID se scope level period;
  go ← (if String.eqb existingCurrentID "" then mret true
        else rollupIsStale se scope existingCurrentID sourceLevel sourcePeriods);
  if (go : bool) then
    sources ← loadSummaries kek se scope sourceLevel sourcePeriods;
    mret (existingCurrentID, sources)
  else mret (existingCurrentID, []).

(** Fuel: one step per level, of which there are four. *)
Fixpoint runRollup (fuel : nat) (scope : Scope) (level sourceLevel period : string)
    (sourcePeriods : list string) : M () :=
  match fuel with
  | O => throw (ErrMsg "out of fuel")
  | S fuel' =>
      r ← wrapErr "consolidation: load summaries" (Run scope scope (fun se =>
            rollupSources se scope level sourceLevel period sourcePeriods));
      if (length r.2 =? 0)%nat then mret tt
      else
        output ← wrapErr "consolidation: generate summary"
          (generateSummary consolidation summarySystemPrompt TeamPromptOverride scope level period r.2 "" []);
        store {| in_scope := scope; in_level := level; in_period := period;
                 in_sourceEpisodeIDs := []; in_sourceSummaryPeriods := sourcePeriods; in_output := output;
                 in_groundingSourceText := joinSources r.2; in_supersedes := r.1;
                 in_correctionReason := if String.eqb r.1 "" then ""
                   else humanNote "a source period changed since this rollup was last generated";
                 in_actor := systemActor; in_replaceEntityAttrs := false |} ;;
        refreshWith (runRollup fuel') scope level period
  end.

Definition RunRollup : rollupRun := runRollup 4.

Definition refreshRollupsCovering : Scope -> string -> string -> M () := refreshWith RunRollup.

(** ** Corrections *)

(** What is read of the summary to correct: its level, period and sources, and
    what supersedes it. *)
Definition correctable (se : session) (scope : Scope) (oldSummaryID : string) :
    M (SummaryInfo * option string) :=
  old ← wrapErr "load summary" (queryRow (fun d => List.find (sameSummary se scope oldSummaryID) d.(summaries)));
  supersededBy ← wrapErr "check for existing supersession" (query (fun d =>
    s_id <$> List.find (fun r => visible se r.(s_scope) && bool_decide (r.(s_supersedes) = Some oldSummaryID) &&
                                 bool_decide (r.(s_scope) = scope)) d.(summaries)));
  mret (old.(s_info), supersededBy).

(** The sources of a stored summary. *)
Definition reloadSources (scope : Scope) (i : SummaryInfo) : M (list textSource) :=
  if String.eqb i.(i_level) "daily"
  then Run scope scope (fun se => loadEpisodesByID kek localOffset se scope i.(i_source_episode_ids))
  else Run scope scope (fun se => loadSummaries kek se scope (sourceLevelBelow i.(i_level)) i.(i_source_summary_periods)).

Definition Correct (scope : Scope) (oldSummaryID : string) (output : ConsolidationOutput)
    (reason actor extraGroundingSourceText : string) : M () :=
  if String.eqb reason "" then throw (ErrMsg "consolidation: correction_reason is required")
  else
    r ← wrapErr "consolidation: load summary to correct" (Run scope scope (fun se => correctable se scope oldSummaryID));
    match r.2 with
    | Some _ => throw (ErrMsg "consolidation: already superseded, correct that version instead")
    | None =>
        sources ← wrapErr "consolidation: reload sources for correction" (reloadSources scope r.1);
        let groundingSourceText := joinSources sources in
        let groundingSourceText := if String.eqb extraGroundingSourceText "" then groundingSourceText
                                   else groundingSourceText +:+ (blankLine +:+ extraGroundingSourceText) in
        store {| in_scope := scope; in_level := r.1.(i_level); in_period := r.1.(i_period);
                 in_sourceEpisodeIDs := r.1.(i_source_episode_ids);
                 in_sourceSummaryPeriods := r.1.(i_source_summary_periods); in_output := output;
                 in_groundingSourceText := groundingSourceText; in_supersedes := oldSummaryID;
                 in_correctionReason := reason; in_actor := actor; in_replaceEntityAttrs := true |}
    end.

(** *** The content of a summary *)

Definition factContent (enc : Encryptor) (r : KeyFactRow) : M KeyFactOutput :=
  t ← lift (wrapRes "decrypt key fact" (Decrypt enc r.(f_fact)));
  mret (MkKeyFactOutput t r.(f_source_episode_ids)).

Definition entityContent (se : session) (scope : Scope) (id : string) : M (option EntityUpdate) :=
  row ← wrapErr "load entity" (query (selectEntity se scope id));
  match row with
  | None => mret None
  | Some r =>
      entEnc ← wrapErr "resolve encryption key for entity" (GetVersion kek scope r.(n_key_version));
      attrsJSON ← lift (wrapRes "decrypt attributes for entity" (Decrypt entEnc r.(n_attributes)));
      attrs ← lift (parseStored "parse attributes for entity" attrsJSON);
      mret (Some (MkEntityUpdate id r.(n_kind) r.(n_name) attrs []))
  end.

Definition CurrentContent (scope : Scope) (summaryID : string) : M ConsolidationOutput :=
  row ← wrapErr "load summary" (Run scope scope (fun se =>
    queryRow (fun d => List.find (sameSummary se scope summaryID) d.(summaries))));
  enc ← wrapErr "resolve encryption key for summary" (GetVersion kek scope row.(s_key_version));
  summaryText ← lift (wrapRes "decrypt summary" (Decrypt enc row.(s_text)));
  keyFacts ← wrapErr "load key facts for summary" (Run scope scope (fun se =>
    rows ← query (fun d => List.filter (fun r => visible se r.(f_scope) && String.eqb r.(f_summary_id) summaryID) d.(key_facts));
    scanRows (factContent enc) rows));
  entities ← wrapErr "load touched entities for summary" (Run scope scope (fun se =>
    es ← scanRows (entityContent se scope) row.(s_info).(i_entities_touched);
    mret (catOptions es)));
  mret (MkConsolidationOutput summaryText keyFacts entities []).

(** ** Contradictions across periods *)

Definition loadGroundedKeyFactsByID (scope : Scope) (summaryID : string) : M (list string) :=
  row ← wrapErr "load key version for summary" (Run scope scope (fun se =>
    queryRow (fun d => List.find (sameSummary se scope summaryID) d.(summaries))));
  enc ← wrapErr "resolve encryption key for summary" (GetVersion kek scope row.(s_key_version));
  Run scope scope (fun se =>
    rows ← query (fun d => sort_by (fun a b => f_id a <? f_id b)
      (List.filter (fun r => visible se r.(f_scope) && String.eqb r.(f_summary_id) summaryID && r.(f_grounded)) d.(key_facts)));
    scanRows (fun r => lift (wrapRes "decrypt key fact for summary" (Decrypt enc r.(f_fact)))) rows).

Definition loadGroundingSourceTextForSummary (scope : Scope) (summaryID : string) : M string :=
  row ← wrapErr "load summary for grounding source" (Run scope scope (fun se =>
    queryRow (fun d => List.find (sameSummary se scope summaryID) d.(summaries))));
  sources ← wrapErr "load sources for summary" (reloadSources scope row.(s_info));
  mret (joinSources sources).

(** [checkOneRelatedSummary]; an error stands for its early return. *)
Definition checkOneRelated (scope : Scope) (newSummaryID newPeriod : string) (newFacts : list string)
    (old : relatedSummary) (sharedEntityNames : list string) : M () :=
  oldFacts ← loadGroundedKeyFactsByID scope old.(rs_id);
  if (length oldFacts =? 0)%nat then mret tt
  else
    cur ← CurrentContent scope old.(rs_id);
    content ← ChatCompletion consolidation contradictionCheckPrompt
      (buildContradictionCheckPrompt newPeriod newFacts old.(rs_level) old.(rs_period) cur.(Summary) oldFacts sharedEntityNames);
    match parseReply decodeContradictions content with
    | None => mret tt
    | Some parsed =>
        let '(facts, applied) := applyContradictions parsed.(Contradictions) cur.(KeyFacts) 0 in
        if applied =? 0 then mret tt
        else
          let summary := if isBlank parsed.(CorrectedProse) then cur.(Summary) else parsed.(CorrectedProse) in
          extra ← catch (loadGroundingSourceTextForSummary scope newSummaryID);
          let extraGrounding := match extra with Ok t => t | Err _ => "" end in
          Correct scope old.(rs_id) (MkConsolidationOutput summary facts cur.(EntitiesTouched) cur.(Relationships))
            ("system-detected contradiction: a " +:+ (newPeriod +:+ " summary stated a different value for the same fact"))
            systemActor extraGrounding ;;
          refreshRollupsCovering scope old.(rs_level) old.(rs_period)
    end.

(** [checkCrossPeriodContradictions]: no error leaves it. *)
Definition checkCrossPeriodContradictions (scope : Scope) (newSummaryID newPeriod : string)
    (entitiesTouched : list string) : M () :=
  if (length entitiesTouched =? 0)%nat then mret tt
  else
    logged (
      related ← Run scope scope (fun se => query (relatedRows se scope newSummaryID entitiesTouched));
      if (length related =? 0)%nat then mret tt
      else
        newFacts ← loadGroundedKeyFactsByID scope newSummaryID;
        if (length newFacts =? 0)%nat then mret tt
        else forM related (fun old =>
          logged (checkOneRelated scope newSummaryID newPeriod newFacts old entitiesTouched))).
End Runner.
