(* ===== verification/Daily.v ===== *)
(** * Daily: a day of a scope, and a batch over the scopes
    ([src/internal/consolidation/runner.go], [RunDaily] and the steps after
    it; [src/cmd/hupi-consolidate/main.go])

    A panic is an error: [runSafely] makes it one. *)

From stdpp Require Import gmap.
From S2P Require Import Prelude PgFmt Identity Schema Db KeyStore Rotate Utf8 Json Float Text Embed Keeps Reembed.
From S2P Require Import UnionFind Cluster Civil Temporal Period Slug Entities Relations Output Grounding Vectors Summaries.
From S2P Require Import Sources Generate Runner.
#[local] Open Scope string_scope.
#[local] Open Scope list_scope.
#[local] Open Scope Z_scope.

Section Daily.
Context `{HA : AEAD, HR : Rand, HU : Unicode, EM : Embedder, FF : FloatFormat, HC : Clock}.
Variable kek : string.
Variables consolidation grounding : ChatProvider.
Variables groundingSystemPrompt summarySystemPrompt perEpisodeFactPrompt contradictionCheckPrompt : string.
Variable TeamPromptOverride : option (Scope -> option string).
Variable Getenv : string -> string.
Variable localOffset : Z -> Z.

(** ** After the summary *)

Definition embedEpisodeSource (scope : Scope) (s : textSource) : M () :=
  input ← truncatedInput s.(ts_text);
  vectors ← wrapErr "embed episode" (Embed [input]);
  match vectors with
  | [] => throw (ErrMsg "embedder returned no vectors for episode")
  | v :: _ =>
      wrapErr "write embedding for episode" (Run scope scope (fun se =>
        exec (set_episodes (updateWhere (episodeIdWhere se s.(ts_id)) (embEpisode (VectorLiteral v) EmbedderIdentity)))))
  end.

Definition embedHighImportanceEpisodes (scope : Scope) (date : goTime) : M () :=
  let start := truncateDay date in
  let end_ := start + nanosPerDay in
  sources ← Run scope scope (fun se =>
    rows ← query (fun d => List.filter (fun r => visible se r.(e_scope) && dayEpisode scope start end_ r &&
      fge r.(e_importance) EpisodeEmbedImportanceThreshold &&
      staleEmbedding EmbedderIdentity r.(e_embedding) r.(e_embedding_model)) d.(episodes));
    scanEpisodeSources kek localOffset scope rows);
  forM sources (embedEpisodeSource scope).

Definition entitiesMissingEmbeddings (scope : Scope) : M (list string) :=
  Run scope scope (fun se => query (fun d =>
    map n_id (List.filter (fun r => visible se r.(n_scope) && entityPending scope EmbedderIdentity r) d.(entities)))).

Definition updateScopeCorpusSize (scope : Scope) : M () :=
  Run scope scope (fun se =>
    episodeCount ← wrapErr "count episodes" (query (fun d => Z.of_nat (length (List.filter (fun r =>
      visible se r.(e_scope) && String.eqb r.(e_type) "interaction" && bool_decide (r.(e_scope) = scope)) d.(episodes)))));
    summaryCount ← wrapErr "count summaries" (query (fun d => Z.of_nat (length (List.filter (fun r =>
      visible se r.(s_scope) && bool_decide (r.(s_scope) = scope) && current se d r) d.(summaries)))));
    wrapErr "upsert scope corpus size" (
      if writable se scope then exec (set_corpus_sizes (insert scope (MkCorpusSize episodeCount summaryCount)))
      else roundTrip ;; throw ErrRLS)).

(** ** The day *)

(** What the first transaction reads: the day's episodes, the draft to
    supersede, the entities the text names. *)
Definition dailyInputs (se : session) (scope : Scope) (date : goTime) (period : string) :
    M (list textSource * string * list knownEntityContext) :=
  sources ← loadDailyEpisodes kek localOffset se scope date;
  if (length sources =? 0)%nat then mret ([], "", [])
  else
    existingCurrentID ← currentSummaryID se scope "daily" period;
    knownEntities ← findKnownEntities kek se scope (joinSources sources);
    mret (sources, existingCurrentID, knownEntities).

(** The re-read of the stored row before the contradiction check. *)
Definition storedSummary (se : session) (scope : Scope) (period : string) : M SummaryRow :=
  queryRow (fun d => List.find (fun r => visible se r.(s_scope) && samePeriod scope "daily" period r && current se d r)
                       d.(summaries)).

(** Everything after [storeSummary]; every error is logged. *)
Definition afterDaily (scope : Scope) (date : goTime) (period : string) : M () :=
  refreshRollupsCovering kek consolidation grounding groundingSystemPrompt summarySystemPrompt TeamPromptOverride
    scope "daily" period ;;
  stored ← catch (Run scope scope (fun se => storedSummary se scope period));
  match stored with
  | Err _ => mret tt
  | Ok r => checkCrossPeriodContradictions kek consolidation grounding groundingSystemPrompt summarySystemPrompt
              contradictionCheckPrompt TeamPromptOverride localOffset scope r.(s_id) period r.(s_info).(i_entities_touched)
  end ;;
  logged (embedHighImportanceEpisodes scope date) ;;
  missing ← catch (entitiesMissingEmbeddings scope);
  match missing with
  | Err _ => mret tt
  | Ok missingIDs =>
      logged (embedEntities kek scope missingIDs) ;;
      logged (updateScopeCorpusSize scope)
  end.

Definition RunDaily (scope : Scope) (date : goTime) : M () :=
  let period := FormatDay date in
  r ← wrapErr "consolidation: load episodes" (Run scope scope (fun se => dailyInputs se scope date period));
  let '(sources, existingCurrentID, knownEntities) := r in
  if (length sources =? 0)%nat then mret tt
  else
    establishedRecord ← (if String.eqb existingCurrentID "" then mret ""
      else wrapErr "consolidation: load established record"
             (Run scope scope (fun se => loadSummaryText kek se scope existingCurrentID)));
    output ← wrapErr "consolidation: generate daily summary"
      (generateDailySummary consolidation summarySystemPrompt perEpisodeFactPrompt TeamPromptOverride Getenv
         scope period sources establishedRecord knownEntities);
    storeSummary kek consolidation grounding groundingSystemPrompt {|
      in_scope := scope; in_level := "daily"; in_period := period;
      in_sourceEpisodeIDs := map ts_id sources; in_sourceSummaryPeriods := []; in_output := output;
      in_groundingSourceText := joinSources sources; in_supersedes := existingCurrentID;
      in_correctionReason := if String.eqb existingCurrentID "" then ""
        else humanNote "regenerated from the full day's episodes";
      in_actor := systemActor; in_replaceEntityAttrs := false |} ;;
    afterDaily scope date period.

(** ** The batch *)

(** A loop that goes on after a failure, and counts them. *)
Fixpoint countFailed {A} (l : list A) (f : A -> M ()) : M Z :=
  match l with
  | [] => mret 0
  | a :: l' => r ← catch (f a); n ← countFailed l' f; mret (match r with Ok _ => n | Err _ => n + 1 end)
  end.

(** The day [dueRollups] looks at is the date's own. *)
Definition runDueRollups (date : goTime) (scopes : list Scope) : M Z :=
  countFailed (flat_map (fun job => map (fun scope => (job, scope)) scopes)
                 (dueRollups ((date.(instant) + date.(offset)) / nanosPerDay)))
    (fun js => RunRollup kek consolidation grounding groundingSystemPrompt summarySystemPrompt TeamPromptOverride
                 js.2 js.1.(level) js.1.(sourceLevel) js.1.(Period.period) js.1.(sourcePeriods)).

Definition consolidateAll (date : goTime) (scopes : list Scope) : M () :=
  failed ← countFailed scopes (fun scope => RunDaily scope date);
  rollupFailed ← runDueRollups date scopes;
  if 0 <? failed + rollupFailed then throw (ErrMsg "consolidation failed") else mret tt.
End Daily.
