(* ===== verification/Reads.v ===== *)
(** * Reads: the parts of a consolidation run that only read

    Loading sources, asking a model and checking a reply leave the database as
    it was, whatever fails: they respect every preorder. *)

From stdpp Require Import gmap.
From S2P Require Import Prelude PgFmt Identity Schema Db KeyStore Rotate Utf8 Json Float Text Embed Keeps Reembed.
From S2P Require Import UnionFind Cluster Slug Entities Relations Output Grounding Vectors Sources Generate Runner Daily.
#[local] Open Scope string_scope.
#[local] Open Scope list_scope.
#[local] Open Scope Z_scope.

(** Reading: the database stays equal. *)
Lemma eq_db_pre : PreOrder (@eq db).
Proof. exact _. Qed.
#[export] Hint Resolve eq_db_pre : respects.

Lemma respects_scanRows (D : db -> db -> Prop) `{!PreOrder D} {A B} (f : A -> M B) rows :
  (forall a, respects D (f a)) -> respects D (scanRows f rows).
Proof.
  intros Hf. induction rows as [|r rows IH]; cbn [scanRows]; [auto with respects|].
  apply respects_bind; [exact _|apply Hf|intros b]. respects_step. auto with respects.
Qed.

(** Binds and branches down to what the hints know. *)
Ltac respects_head :=
  lazymatch goal with
  | |- respects _ (mbind _ _) => apply respects_bind; [typeclasses eauto| |intros ?]
  | |- respects _ (wrapErr _ _) => apply respects_wrap
  | |- respects _ (catch _) => apply respects_catch
  | |- respects _ (Run _ _ _) => apply respects_Run; [typeclasses eauto|intros ?]
  | |- respects _ (forM _ _) => apply respects_forM; [typeclasses eauto|intros ?]
  | |- respects _ (scanRows _ _) => apply respects_scanRows; [typeclasses eauto|intros ?]
  end.
Ltac respects_solve := repeat first [progress auto 4 with respects | respects_head | case_match].

Section Reads.
Context (D : db -> db -> Prop) `{HD : !PreOrder D}.
Context `{HA : AEAD, HR : Rand, HU : Unicode, EM : Embedder, FF : FloatFormat}.
Variable kek : string.
Variable localOffset : Z -> Z.
#[local] Abbreviation R := (respects D).

Lemma respects_chat p system user : R (ChatCompletion p system user).
Proof. unfold ChatCompletion. respects_solve. Qed.

Lemma respects_collectErrs {A} (l : list A) f : (forall a, R (f a)) -> R (collectErrs l f).
Proof. intros Hf. induction l as [|a l IH]; cbn [collectErrs]; respects_solve. Qed.

Lemma respects_joinErrs errs : R (joinErrs errs).
Proof. destruct errs; cbn; auto with respects. Qed.

Lemma respects_queryChecked {A} (f : db -> option A) : R (queryChecked f).
Proof. unfold queryChecked. respects_solve. Qed.

Lemma respects_logged {A} (m : M A) : R m -> R (logged m).
Proof. intros Hm. unfold logged. respects_solve. Qed.
End Reads.

#[export] Hint Resolve respects_scanRows respects_chat respects_collectErrs respects_joinErrs
  respects_queryChecked respects_logged : respects.

Section Loaders.
Context (D : db -> db -> Prop) `{HD : !PreOrder D}.
Context `{HA : AEAD, HR : Rand, HU : Unicode, EM : Embedder, FF : FloatFormat}.
Variable kek : string.
Variable localOffset : Z -> Z.
#[local] Abbreviation R := (respects D).

Lemma respects_scanEpisodes scope rows : R (scanEpisodeSources kek localOffset scope rows).
Proof. apply respects_scanRows; [exact _|]. intros r. unfold scanEpisodeSource. respects_solve. Qed.

Lemma respects_scanSummary scope r : R (scanSummarySource kek scope r).
Proof. unfold scanSummarySource. respects_solve. Qed.

Lemma respects_knownEntity scope t r : R (knownEntity kek scope t r).
Proof. unfold knownEntity. respects_solve. Qed.
End Loaders.

#[export] Hint Resolve respects_scanEpisodes respects_scanSummary respects_knownEntity : respects.

Section Queries.
Context (D : db -> db -> Prop) `{HD : !PreOrder D}.
Context `{HA : AEAD, HR : Rand, HU : Unicode, EM : Embedder, FF : FloatFormat}.
Variable kek : string.
Variable localOffset : Z -> Z.
Variables consolidation grounding : ChatProvider.
Variables groundingSystemPrompt summarySystemPrompt perEpisodeFactPrompt contradictionCheckPrompt : string.
Variable TeamPromptOverride : option (Scope -> option string).
Variable Getenv : string -> string.
#[local] Abbreviation R := (respects D).

Lemma respects_loadDaily se scope date : R (loadDailyEpisodes kek localOffset se scope date).
Proof. unfold loadDailyEpisodes. respects_solve. Qed.

Lemma respects_loadEpisodes se scope ids : R (loadEpisodesByID kek localOffset se scope ids).
Proof. unfold loadEpisodesByID. respects_solve. Qed.

Lemma respects_currentID se scope level period : R (currentSummaryID se scope level period).
Proof. apply respects_query, _. Qed.

Lemma respects_loadSummaryText se scope id : R (loadSummaryText kek se scope id).
Proof. unfold loadSummaryText. respects_solve. Qed.

Lemma respects_loadSummaries se scope level periods : R (loadSummaries kek se scope level periods).
Proof. unfold loadSummaries. respects_solve. Qed.

Lemma respects_known se scope t : R (findKnownEntities kek se scope t).
Proof. unfold findKnownEntities. respects_solve. Qed.

Lemma respects_attempts n system user : R (generateAttempts consolidation n system user).
Proof. induction n as [|n IH]; cbn [generateAttempts]; respects_solve. Qed.

Lemma respects_generate scope level period sources record known :
  R (generateSummary consolidation summarySystemPrompt TeamPromptOverride scope level period sources record known).
Proof. apply respects_attempts. Qed.

Lemma respects_chunkFacts id chunk : R (chunkFacts consolidation perEpisodeFactPrompt id chunk).
Proof. unfold chunkFacts. respects_solve. Qed.

Lemma respects_truncatedInputs ts : R (truncatedInputs ts).
Proof. induction ts as [|t ts IH]; cbn [truncatedInputs]; respects_solve. Qed.
End Queries.

#[export] Hint Resolve respects_loadDaily respects_loadEpisodes respects_currentID respects_loadSummaryText
  respects_loadSummaries respects_known respects_generate respects_chunkFacts respects_truncatedInputs : respects.

Section Generation.
Context (D : db -> db -> Prop) `{HD : !PreOrder D}.
Context `{HA : AEAD, HR : Rand, HU : Unicode, EM : Embedder, FF : FloatFormat}.
Variable kek : string.
Variable localOffset : Z -> Z.
Variables consolidation grounding : ChatProvider.
Variables groundingSystemPrompt summarySystemPrompt perEpisodeFactPrompt contradictionCheckPrompt : string.
Variable TeamPromptOverride : option (Scope -> option string).
Variable Getenv : string -> string.
#[local] Abbreviation R := (respects D).

Lemma respects_perEpisode sources : R (extractPerEpisodeFacts consolidation perEpisodeFactPrompt sources).
Proof. unfold extractPerEpisodeFacts, episodeFacts. respects_solve. Qed.

Lemma respects_generateDaily scope period sources record known :
  R (generateDailySummary consolidation summarySystemPrompt perEpisodeFactPrompt TeamPromptOverride Getenv
       scope period sources record known).
Proof.
  pose proof respects_perEpisode as Hp. unfold generateDailySummary, singlePassWithInsurance.
  respects_solve.
Qed.
End Generation.
