(* ===== verification/History.v ===== *)
(** * History: the versions of every summary form one chain per period

    [histWf] is what retrieval and every later run rely on: ids are never
    reused, a version is superseded at most once and only by a version of its
    own period, and no period has two current versions.  Every write of a
    consolidation run only appends to the history, and keeps it so.  [versions]
    says what is appended: numbered versions, each with its own key facts. *)

From stdpp Require Import gmap.
From S2P Require Import Prelude PgFmt Identity Schema Db KeyStore Rotate Utf8 Json Float Text Embed Keeps Reembed.
From S2P Require Import Civil Period Slug Entities Relations Output Grounding Vectors Summaries SummaryStore.
From S2P Require Import Sources Generate Runner Daily Reads.
#[local] Open Scope string_scope.
#[local] Open Scope list_scope.
#[local] Open Scope Z_scope.

(** ** The invariant *)

(** The summaries without their vectors. *)
Definition sums (d : db) : list SummaryRow := map plainSummary d.(summaries).

(** The key facts without theirs. *)
Definition facts (d : db) : list KeyFactRow := map plainKeyFact d.(key_facts).

(** Two versions of the same period. *)
Definition alike (r r' : SummaryRow) : Prop :=
  r.(s_scope) = r'.(s_scope) /\ r.(s_info).(i_level) = r'.(s_info).(i_level) /\
  r.(s_info).(i_period) = r'.(s_info).(i_period).

(** No version supersedes it. *)
Definition isCurrent (l : list SummaryRow) (r : SummaryRow) : Prop :=
  r ∈ l /\ forall r', r' ∈ l -> r'.(s_supersedes) <> Some r.(s_id).

Record histWf (l : list SummaryRow) : Prop := MkHistWf {
  h_ids : NoDup (s_id <$> l);
  h_named : forall r, r ∈ l -> r.(s_id) <> "";
  h_chain : forall j r old, l !! j = Some r -> r.(s_supersedes) = Some old ->
    exists k r0, (k < j)%nat /\ l !! k = Some r0 /\ r0.(s_id) = old /\ alike r r0;
  h_successor : forall r r' old, r ∈ l -> r' ∈ l -> r.(s_supersedes) = Some old -> r'.(s_supersedes) = Some old -> r = r';
  h_current : forall r r', isCurrent l r -> isCurrent l r' -> alike r r' -> r = r'
}.

(** A row that may follow these: a fresh id, and what it supersedes is there
    and has no successor in the scope. *)
Definition follows (l : list SummaryRow) (row : SummaryRow) : Prop :=
  row.(s_id) <> "" /\ Forall (fun r => r.(s_id) <> row.(s_id)) l /\
  forall old, row.(s_supersedes) = Some old ->
    old ∈ (s_id <$> l) /\ forall r, r ∈ l -> r.(s_scope) = row.(s_scope) -> r.(s_supersedes) <> Some old.

(** A row that goes on its period's chain: it supersedes the current version,
    or is the first. *)
Definition chained (l : list SummaryRow) (row : SummaryRow) : Prop :=
  match row.(s_supersedes) with
  | Some old => exists r, isCurrent l r /\ r.(s_id) = old /\ alike row r
  | None => forall r, isCurrent l r -> ~ alike row r
  end.

(** The number after the highest of the period's ids. *)
Definition nextOf (l : list SummaryRow) (scope : Scope) (level period : string) : Z :=
  1 + fold_right Z.max 0 (omap (fun r => versionOf r.(s_id)) (List.filter (samePeriod scope level period) l)).

(** A key fact of a version: under its id, in its scope, citing its sources. *)
Definition factOf (row : SummaryRow) (f : KeyFactRow) : Prop :=
  f.(f_summary_id) = row.(s_id) /\ f.(f_scope) = row.(s_scope) /\
  forall e, e ∈ f.(f_source_episode_ids) -> e ∈ row.(s_info).(i_source_episode_ids).

(** The versions [rows] and key facts [new] that runs append to the versions
    [l]: each version takes the next number of its period, with facts of its
    own following those of the versions before it. *)
Inductive versions : list SummaryRow -> list SummaryRow -> list KeyFactRow -> Prop :=
| versions_none l : versions l [] []
| versions_next l row fs rows new :
    row.(s_id) = sumID row.(s_scope) row.(s_info).(i_level) row.(s_info).(i_period)
      (nextOf l row.(s_scope) row.(s_info).(i_level) row.(s_info).(i_period)) ->
    Forall (factOf row) fs -> versions (l ++ [row]) rows new ->
    versions l (row :: rows) (fs ++ new).

Lemma versions_app l rows new rows' new' :
  versions l rows new -> versions (l ++ rows) rows' new' -> versions l (rows ++ rows') (new ++ new').
Proof.
  induction 1 as [l|l row fs rows new Hid Hfs _ IH]; [by rewrite app_nil_r|].
  intros H'. rewrite <- app_assoc. cbn [app]. constructor; [done..|]. apply IH. by rewrite <- app_assoc.
Qed.

(** The database has grown by versions and their facts. *)
Definition grown (d d' : db) : Prop :=
  exists rows new, sums d' = sums d ++ rows /\ facts d' = facts d ++ new /\ versions (sums d) rows new.

(** What every step of a run does: the schema's constraints stay true, versions
    are only added, and the history stays well-formed. *)
Record batchStep (d d' : db) : Prop := MkBatchStep {
  bs_schema : db_ok d -> db_ok d';
  bs_grown : grown d d';
  bs_history : histWf (sums d) -> histWf (sums d')
}.

(** A step that writes no summary and no key fact. *)
Definition sameSums (d d' : db) : Prop := (db_ok d -> db_ok d') /\ sums d' = sums d /\ facts d' = facts d.

#[export] Instance sameSums_pre : PreOrder sameSums.
Proof.
  split.
  - intros d. by split.
  - intros d1 d2 d3 (H1 & E1 & F1) (H2 & E2 & F2). split; [auto|split; congruence].
Qed.

#[export] Instance batchStep_pre : PreOrder batchStep.
Proof.
  split.
  - intros d. split; [done| |done]. exists [], []. rewrite !app_nil_r. split_and!; [done..|constructor].
  - intros d1 d2 d3 [a1 (r1 & n1 & b1 & f1 & v1) c1] [a2 (r2 & n2 & b2 & f2 & v2) c2]. split; [auto| |auto].
    exists (r1 ++ r2), (n1 ++ n2). rewrite b2, b1, f2, f1, !app_assoc. split_and!; [done..|].
    apply versions_app; [done|]. by rewrite <- b1.
Qed.

Lemma sameSums_step d d' : sameSums d d' -> batchStep d d'.
Proof.
  intros (H & E & F). split; [done| |by rewrite E]. exists [], []. rewrite !app_nil_r.
  split_and!; [done..|constructor].
Qed.

(** ** Lemmas: chains *)

Lemma histWf_nil : histWf [].
Proof.
  split; [apply NoDup_nil_2|..]; [by intros r ?%elem_of_nil|done|by intros r r' old ?%elem_of_nil|].
  by intros r r' [?%elem_of_nil _].
Qed.

Lemma alike_sym r r' : alike r r' -> alike r' r.
Proof. intros (a & b & c). done. Qed.

Lemma alike_trans r1 r2 r3 : alike r1 r2 -> alike r2 r3 -> alike r1 r3.
Proof. intros (a & b & c) (a' & b' & c'). split_and!; congruence. Qed.

Lemma current_snoc l row r : isCurrent (l ++ [row]) r -> r = row \/ isCurrent l r.
Proof.
  intros [[Hr|Hr]%elem_of_app H]; [|left; by apply list_elem_of_singleton].
  right. split; [done|]. intros r' Hr'. apply H. apply elem_of_app. by left.
Qed.

(** The new version is the only current one of its period. *)
Lemma chained_current l row r :
  histWf l -> chained l row -> isCurrent (l ++ [row]) r -> alike row r -> r = row.
Proof.
  intros Hwf Hc Hr Ha. destruct (current_snoc _ _ _ Hr) as [->|Hl]; [done|]. unfold chained in Hc.
  destruct (s_supersedes row) as [old|] eqn:Eo; [|by destruct (Hc r Hl)].
  destruct Hc as (r0 & H0 & E0 & A0).
  assert (r = r0) as ->.
  { apply (h_current l Hwf); [done|done|]. eapply alike_trans; [by apply alike_sym|done]. }
  exfalso. apply (proj2 Hr row); [apply elem_of_app; right; by left|]. by rewrite Eo, E0.
Qed.

Lemma histWf_snoc l row : histWf l -> follows l row -> chained l row -> histWf (l ++ [row]).
Proof.
  intros Hwf (Hne & Hfresh & Hsup) Hc. pose proof Hwf as [Hids Hnm Hch Hsu Hcu]. rewrite Forall_forall in Hfresh.
  assert (Hrow : forall r old, s_supersedes row = Some old -> r ∈ l -> s_supersedes r <> Some old).
  { intros r old Ho Hr. unfold chained in Hc. rewrite Ho in Hc.
    destruct Hc as (r0 & [_ H0] & <- & _). by apply H0. }
  split.
  - rewrite fmap_app. apply NoDup_app. split_and!; [done| |apply NoDup_singleton].
    intros x (r & -> & Hr)%list_elem_of_fmap Hx%list_elem_of_singleton. by apply (Hfresh r Hr).
  - intros r [Hr|Hr%list_elem_of_singleton]%elem_of_app; [by apply Hnm|by subst].
  - intros j r old [Hj|[Hj Hr]]%lookup_app_Some Ho.
    + destruct (Hch j r old Hj Ho) as (k & r0 & Hk & H0 & E0 & A0). exists k, r0.
      split_and!; [done|by apply lookup_app_l_Some|done..].
    + apply list_lookup_singleton_Some in Hr as [_ <-]. unfold chained in Hc. rewrite Ho in Hc.
      destruct Hc as (r0 & [(k & H0)%list_elem_of_lookup_1 _] & E0 & A0). exists k, r0.
      split_and!; [apply lookup_lt_Some in H0; lia|by apply lookup_app_l_Some|done..].
  - intros r r' old [Hr|Hr%list_elem_of_singleton]%elem_of_app [Hr'|Hr'%list_elem_of_singleton]%elem_of_app Ho Ho'; subst.
    + by eapply Hsu.
    + exfalso. by eapply Hrow.
    + exfalso. by eapply (Hrow r').
    + done.
  - intros r r' Hr Hr' Ha.
    destruct (current_snoc _ _ _ Hr) as [->|Hl].
    + symmetry. by eapply chained_current.
    + destruct (current_snoc _ _ _ Hr') as [->|Hl']; [|by eapply Hcu].
      eapply chained_current; [done..|by apply alike_sym].
Qed.

(** Every period with a version has a current one: its last. *)
Lemma current_exists l r : histWf l -> r ∈ l -> exists r', isCurrent l r' /\ alike r r'.
Proof.
  intros Hwf (j & Hj)%list_elem_of_lookup_1.
  remember (length l - j)%nat as n eqn:En. revert j r Hj En. induction (lt_wf n) as [n _ IH]. intros j r Hj ->.
  destruct (existsb (fun r' => bool_decide (s_supersedes r' = Some (s_id r))) l) eqn:E.
  - apply existsb_exists in E as (r' & Hr' & Hs%bool_decide_eq_true).
    apply list_elem_of_In, list_elem_of_lookup_1 in Hr' as [j' Hj'].
    destruct (h_chain l Hwf j' r' (s_id r) Hj' Hs) as (k & r0 & Hk & H0 & E0 & Ha).
    assert (k = j) as ->.
    { apply (NoDup_lookup (s_id <$> l) k j (s_id r)); [apply (h_ids l Hwf)|by rewrite list_lookup_fmap, H0, <- E0|].
      by rewrite list_lookup_fmap, Hj. }
    assert (r0 = r) as -> by congruence. pose proof (lookup_lt_Some _ _ _ Hj').
    destruct (IH (length l - j')%nat ltac:(lia) j' r' Hj' eq_refl) as (rc & Hc & Ac). exists rc. split; [done|].
    eapply alike_trans; [by apply alike_sym|done].
  - exists r. split; [|done]. split; [by eapply list_elem_of_lookup_2|]. intros r' Hr' Hs.
    apply not_true_iff_false in E. apply E, existsb_exists. exists r'. split; [by apply list_elem_of_In|].
    by apply bool_decide_eq_true.
Qed.

(** ** Lemmas: the schema's constraints *)

(** What [db_ok] speaks of. *)
Definition shape (d : db) :=
  (e_id <$> d.(episodes), (fun r => (s_id r, s_scope r)) <$> d.(summaries),
   (fun r => (f_id r, f_summary_id r, f_scope r)) <$> d.(key_facts), (fun r => (n_scope r, n_id r)) <$> d.(entities)).

Lemma shape_ok d d' : shape d' = shape d -> db_ok d -> db_ok d'.
Proof.
  intros E [He Hs Hf Hn Hp]. injection E as Ee Es Ef En.
  assert (Es1 : s_id <$> summaries d' = s_id <$> summaries d).
  { apply (f_equal (fmap fst)) in Es. by rewrite <- !list_fmap_compose in Es. }
  assert (Ef1 : f_id <$> key_facts d' = f_id <$> key_facts d).
  { apply (f_equal (fmap (fun x => x.1.1))) in Ef. by rewrite <- !list_fmap_compose in Ef. }
  split.
  - change (NoDup (e_id <$> episodes d')). by rewrite Ee.
  - change (NoDup (s_id <$> summaries d')). by rewrite Es1.
  - change (NoDup (f_id <$> key_facts d')). by rewrite Ef1.
  - change (NoDup ((fun r => (n_scope r, n_id r)) <$> entities d')). by rewrite En.
  - intros f Hin. apply (list_elem_of_fmap_2 (fun r => (f_id r, f_summary_id r, f_scope r))) in Hin.
    rewrite Ef in Hin. apply list_elem_of_fmap in Hin as (f0 & [= E1 E2 E3] & H0).
    destruct (Hp f0 H0) as (s0 & Hs0 & Ei & Esc).
    apply (list_elem_of_fmap_2 (fun r => (s_id r, s_scope r))) in Hs0. rewrite <- Es in Hs0.
    apply list_elem_of_fmap in Hs0 as (s1 & [= F1 F2] & Hs1). exists s1. split; [done|split; congruence].
Qed.

Lemma sameSums_shape d d' :
  shape d' = shape d -> sums d' = sums d -> facts d' = facts d -> sameSums d d'.
Proof. intros E1 E2 E3. split; [by apply shape_ok|done]. Qed.

Lemma fmap_updateWhere {R B} (g : R -> B) cond f (l : list R) :
  (forall r, g (f r) = g r) -> g <$> updateWhere cond f l = g <$> l.
Proof.
  intros H. unfold updateWhere. rewrite <- list_fmap_compose. apply list_fmap_ext. intros j r _. cbn. by case_match.
Qed.

Lemma sums_summaries cond lit model d :
  sameSums d (set_summaries (updateWhere cond (embSummary lit model)) d).
Proof.
  apply sameSums_shape; [|by apply (fmap_updateWhere plainSummary cond (embSummary lit model))|done].
  unfold shape. cbn. by rewrite fmap_updateWhere.
Qed.

Lemma sums_entities cond lit model d : sameSums d (set_entities (updateWhere cond (embEntity lit model)) d).
Proof. apply sameSums_shape; [|done..]. unfold shape. cbn. by rewrite fmap_updateWhere. Qed.

Lemma sums_key_facts cond lit model d : sameSums d (set_key_facts (updateWhere cond (embKeyFact lit model)) d).
Proof.
  apply sameSums_shape; [|done|by apply (fmap_updateWhere plainKeyFact cond (embKeyFact lit model))].
  unfold shape. cbn. by rewrite fmap_updateWhere.
Qed.

Lemma sums_episodes cond lit model d : sameSums d (set_episodes (updateWhere cond (embEpisode lit model)) d).
Proof. apply sameSums_shape; [|done..]. unfold shape. cbn. by rewrite fmap_updateWhere. Qed.

Lemma sums_scope_key key wr d : sameSums d (insertScopeKey key wr d).
Proof. unfold insertScopeKey. case_match; [done|by apply sameSums_shape]. Qed.

Lemma sums_audit g d : sameSums d (set_audit_log g d).
Proof. by apply sameSums_shape. Qed.

Lemma sums_corpus g d : sameSums d (set_corpus_sizes g d).
Proof. by apply sameSums_shape. Qed.

(** An entity is updated in place, or its key is new. *)
Lemma sums_insertEntity row d : sameSums d (insertEntity row d).
Proof.
  unfold insertEntity. destruct (existsb _ _) eqn:E.
  - apply sameSums_shape; [|done..]. unfold shape. cbn. f_equal. rewrite <- list_fmap_compose.
    apply list_fmap_ext. intros j r _. cbn. by case_match.
  - split; [|done]. intros [He Hs Hf Hn Hp]. split; try done. cbn. rewrite map_app. apply NoDup_app. split_and!.
    + done.
    + intros x Hx [->|[]%elem_of_nil]%elem_of_cons. apply list_elem_of_fmap in Hx as (r & [= E1 E2] & Hr).
      apply not_true_iff_false in E. apply E, existsb_exists. exists r. split; [by apply list_elem_of_In|].
      by apply sameEntity_spec.
    + apply NoDup_singleton.
Qed.
#[export] Hint Resolve sums_summaries sums_entities sums_key_facts sums_episodes sums_scope_key sums_audit sums_corpus
  sums_insertEntity sameSums_pre batchStep_pre : respects.

(** ** Lemmas: what writes no summary *)

Section Steps.
Context `{HA : AEAD, HR : Rand, HU : Unicode, EM : Embedder, FF : FloatFormat, HC : Clock}.
Variable kek : string.
#[local] Abbreviation R := (respects sameSums).

Lemma sums_GetOrCreate s : R (GetOrCreate kek s).
Proof. unfold GetOrCreate, CurrentVersion, createVersion, GenerateDEK, WrapDEK. respects_solve. Qed.

Lemma sums_embedSummary scope id t : R (embedSummary scope id t).
Proof. unfold embedSummary. respects_solve. Qed.

Lemma sums_embedEntity scope id : R (embedEntity kek scope id).
Proof.
  unfold embedEntity. respects_solve.
Qed.

Lemma sums_embedEntities scope ids : R (embedEntities kek scope ids).
Proof. pose proof sums_embedEntity. unfold embedEntities. respects_solve. Qed.

Lemma sums_factInputs fs : R (factInputs fs).
Proof. induction fs as [|f fs IH]; cbn [factInputs]; unfold factInput; respects_solve. Qed.

Lemma sums_embedChunk scope chunk : R (embedChunk scope chunk).
Proof.
  pose proof sums_factInputs. unfold embedChunk. respects_solve.
Qed.

Lemma sums_embedKeyFacts scope facts : R (embedKeyFacts scope facts).
Proof. pose proof sums_embedChunk. unfold embedKeyFacts. respects_solve. Qed.

Lemma sums_upsertEntity se scope enc v replace asOf e : R (upsertEntity kek se scope enc v replace asOf e).
Proof. unfold upsertEntity, mergedAttributes. respects_solve. Qed.

Lemma sums_upsertEntities se scope us replace asOf : R (upsertEntities kek se scope us replace asOf).
Proof.
  pose proof sums_GetOrCreate. pose proof sums_upsertEntity. unfold upsertEntities. respects_solve.
Qed.

Lemma sums_upsertRelationships s us id : R (upsertRelationships (MkSession s s) s us id).
Proof.
  intros [d p fs]. apply wp_upsertRelationships_step. intros r d' p' fs' _ (_ & _ & ->). cbn. by apply sameSums_shape.
Qed.

Lemma sums_Write se e : R (Write se e).
Proof. unfold Write. respects_solve. Qed.

Lemma respects_groundingCheckOne D `{!PreOrder D} g sys src facts : respects D (groundingCheckOne g sys src facts).
Proof.
  assert (H : respects D (groundingCheckOneAttempt g sys src facts)) by (unfold groundingCheckOneAttempt; respects_solve).
  unfold groundingCheckOne. respects_solve.
Qed.

Lemma sums_groundingCheck g sys src facts : R (groundingCheck g sys src facts).
Proof.
  pose proof (respects_groundingCheckOne sameSums g sys src) as H. unfold groundingCheck.
  do 2 (case_match; [respects_solve|]); [|done]. generalize 0%nat as start. generalize (S (length facts)) as fuel.
  intros fuel. induction fuel as [|fuel IH]; intros start; cbn [groundingBatches]; respects_solve.
Qed.

(** *** Key facts *)

(** The summary the facts belong to. *)
Definition hasSummary (id : string) (s : Scope) (d : db) : Prop :=
  exists r, r ∈ d.(summaries) /\ r.(s_id) = id /\ r.(s_scope) = s.

(** Facts of the kind [P] are added under the summary, and no summary. *)
Definition underSummary (id : string) (s : Scope) (P : KeyFactRow -> Prop) (d d' : db) : Prop :=
  hasSummary id s d -> hasSummary id s d' /\ (db_ok d -> db_ok d') /\ sums d' = sums d /\
  exists new, facts d' = facts d ++ new /\ Forall P new.

#[local] Instance underSummary_pre id s P : PreOrder (underSummary id s P).
Proof.
  split.
  - intros d H. split_and!; [done..|]. exists []. by rewrite app_nil_r.
  - intros d1 d2 d3 H1 H2 H. destruct (H1 H) as (H' & O1 & S1 & n1 & F1 & P1).
    destruct (H2 H') as (H'' & O2 & S2 & n2 & F2 & P2). split_and!; [done|auto|congruence|].
    exists (n1 ++ n2). split; [by rewrite F2, F1, app_assoc|by apply Forall_app].
Qed.

#[local] Hint Resolve underSummary_pre : respects.

Lemma insertKeyFact_under se s id (P : KeyFactRow -> Prop) row :
  (forall n, (row n).(f_id) = n /\ (row n).(f_summary_id) = id /\ (row n).(f_scope) = s) ->
  (forall n, P (plainKeyFact (row n))) ->
  respects (underSummary id s P) (insertKeyFact se row).
Proof.
  intros Hrow HP [d p fs]. pose proof (underSummary_pre id s P) as Hpre.
  unfold insertKeyFact. apply wp_bind, wp_trip; [|done].
  apply wp_bind. unfold wp at 1, getDb. apply wp_bind. unfold wp at 1. cbn [w_db]. set (n := nextFactID d).
  case_match; [|by apply wp_throw]. apply wp_bind. unfold wp at 1, modDb. apply wp_ret.
  cbn [w_db set_db]. intros (r & Hr & Eid & Es). split; [by exists r|]. split_and!; [|done|].
  2: { exists [plainKeyFact (row n)]. split; [|by repeat constructor]. unfold facts. cbn. by rewrite map_app. }
  destruct (Hrow n) as (En & Ei & Ec). intros [He Hs Hf Hn Hp]. split; try done.
  - cbn. rewrite map_app. cbn. apply NoDup_app. split_and!; [done| |apply NoDup_singleton].
    intros x Hx [->|[]%elem_of_nil]%elem_of_cons. rewrite En in Hx. unfold n, nextFactID in Hx.
    apply (fold_max_in (map f_id (key_facts d))) in Hx. lia.
  - intros f [Hin|Hin%list_elem_of_singleton]%elem_of_app; [by apply Hp|]. subst f. exists r. by rewrite Ei, Ec.
Qed.

Lemma storeFacts_under se i id enc v kfs grounded (P : KeyFactRow -> Prop) :
  (forall n ct g kf, P (MkKeyFactRow n id (in_scope i) ct v g None None (citeIDs i kf))) ->
  respects (underSummary id (in_scope i) P) (storeFacts se i id enc v kfs grounded).
Proof.
  intros HP. revert grounded. induction kfs as [|kf kfs IH]; intros grounded; cbn [storeFacts]; [auto with respects|].
  respects_step. destruct grounded as [|g gs]; [auto with respects|].
  apply respects_bind; [exact _|apply respects_wrap, insertKeyFact_under; [by intros n|intros n; apply HP]|intros n].
  apply respects_bind; [exact _|apply IH|intros; auto with respects].
Qed.
End Steps.

Lemma respects_sub (D D' : db -> db -> Prop) {A} (m : M A) :
  (forall d d', D d d' -> D' d d') -> respects D m -> respects D' m.
Proof. intros Hs Hm w. eapply wp_mono; [apply Hm|]. intros r w'. apply Hs. Qed.

Lemma sameSums_under id s P d d' : sameSums d d' -> underSummary id s P d d'.
Proof.
  intros (Hok & E & F) (r & Hr & Ei & Es). split_and!; [|done..|exists []; by rewrite app_nil_r].
  apply (list_elem_of_fmap_2 plainSummary) in Hr.
  change (plainSummary r ∈ sums d) in Hr. rewrite <- E in Hr. apply list_elem_of_fmap in Hr as (r' & Er & Hr').
  exists r'. split; [done|]. split.
  - change (s_id (plainSummary r') = id). by rewrite <- Er.
  - change (s_scope (plainSummary r') = s). by rewrite <- Er.
Qed.

(** ** Lemmas: storing a summary *)

(** What a run of [storeSummary] adds. *)
Definition addedBy (i : storeSummaryInput) (l : list SummaryRow) (row : SummaryRow) : Prop :=
  follows l row /\ row.(s_scope) = i.(in_scope) /\ row.(s_info).(i_level) = i.(in_level) /\
  row.(s_info).(i_period) = i.(in_period) /\ row.(s_supersedes) = Nullable i.(in_supersedes) /\
  row.(s_id) = sumID i.(in_scope) i.(in_level) i.(in_period) (nextOf l i.(in_scope) i.(in_level) i.(in_period)).

Definition storeStep (i : storeSummaryInput) (d d' : db) : Prop :=
  (db_ok d -> db_ok d') /\
  ((sums d' = sums d /\ facts d' = facts d) \/
   exists row fs, sums d' = sums d ++ [row] /\ facts d' = facts d ++ fs /\
     addedBy i (sums d) row /\ Forall (factOf row) fs).

Lemma storeStep_same i d1 d2 d3 d4 : sameSums d1 d2 -> storeStep i d2 d3 -> sameSums d3 d4 -> storeStep i d1 d4.
Proof. intros (H1 & E1 & F1) [H2 E2] (H3 & E3 & F3). split; [auto|]. rewrite E3, F3, <- E1, <- F1. exact E2. Qed.

(** Vectors play no part in the numbering. *)
Lemma nextOf_sums d s level period : nextOf (sums d) s level period = nextVersion d s level period.
Proof.
  unfold nextOf, nextVersion, sums. do 2 f_equal.
  induction (summaries d) as [|r l IH]; [done|]. cbn [map List.filter].
  change (samePeriod s level period (plainSummary r)) with (samePeriod s level period r).
  destruct (samePeriod s level period r); [|exact IH]. cbn. by rewrite IH.
Qed.

Lemma cited_sources i kf e : e ∈ citeIDs i kf -> e ∈ i.(in_sourceEpisodeIDs).
Proof.
  unfold citeIDs. destruct (String.eqb _ _); [|by intros ?%elem_of_nil].
  intros [_ H%bool_decide_eq_true]%list_elem_of_In%filter_In. exact H.
Qed.

(** Plain rows have the ids, scopes and links of the rows. *)
Lemma plain_in d r : r ∈ d.(summaries) -> plainSummary r ∈ sums d.
Proof. apply list_elem_of_fmap_2. Qed.

Lemma in_plain d r : r ∈ sums d -> exists r0, r0 ∈ d.(summaries) /\ r = plainSummary r0.
Proof. intros (r0 & -> & H)%list_elem_of_fmap. by exists r0. Qed.

Lemma insertSummary_follows s row d d' :
  row.(s_id) <> "" -> insertSummary (MkSession s s) row d = Some d' ->
  (db_ok d -> db_ok d') /\ sums d' = sums d ++ [plainSummary row] /\ facts d' = facts d /\ follows (sums d) (plainSummary row) /\
  hasSummary row.(s_id) row.(s_scope) d'.
Proof.
  intros Hne (-> & Hfresh & Hsup)%insertSummary_spec. rewrite Forall_forall in Hfresh. split_and!.
  - intros [He Hs Hf Hn Hp]. split; try done; cbn.
    + rewrite map_app. apply NoDup_app. split_and!; [done| |apply NoDup_singleton].
      intros x (r & -> & Hr)%list_elem_of_fmap Hx%list_elem_of_singleton. by apply (Hfresh r Hr).
    + intros f Hin. destruct (Hp f Hin) as (r & Hr & E). exists r. split; [apply elem_of_app; by left|done].
  - unfold sums. cbn. by rewrite map_app.
  - done.
  - split_and!; [done| |].
    + apply Forall_forall. intros r (r0 & H0 & ->)%in_plain. exact (Hfresh r0 H0).
    + intros old Ho. destruct (Hsup old Ho) as [Hin Hno]. split.
      * apply list_elem_of_fmap in Hin as (r & -> & Hr). exact (list_elem_of_fmap_2 s_id _ _ (plain_in _ _ Hr)).
      * intros r (r0 & H0 & ->)%in_plain. exact (Hno r0 H0).
  - exists row. split; [apply elem_of_app; right; by left|done].
Qed.

Section Store.
Context `{HA : AEAD, HR : Rand, HU : Unicode, EM : Embedder, FF : FloatFormat, HC : Clock}.
Variable kek : string.
Variables consolidation grounding : ChatProvider.
Variable groundingSystemPrompt : string.

Lemma storeTx_step i gs enc v ct entities w :
  wp (storeTx kek consolidation i gs enc v ct entities (MkSession i.(in_scope) i.(in_scope)))
    (fun r w' => match r with Ok _ => storeStep i w.(w_db) w'.(w_db) | Err _ => True end) w.
Proof.
  destruct w as [d p fs]. set (s := in_scope i). unfold storeTx. apply wp_bind, wp_nextSummaryID; [|done].
  intros fs1 _. set (id := sumID s (in_level i) (in_period i) (nextVersion d s (in_level i) (in_period i))).
  apply wp_bind, wp_wrap, wp_execChecked; [|done..]. intros d1 Hins.
  apply insertSummary_follows in Hins as (Hok & E & F & Hf & Hh); [|done]. cbn [s_id s_scope] in Hh.
  match type of Hf with follows _ (plainSummary ?r) => set (row := r) in * end.
  match goal with |- wp ?m _ _ => assert (Hr : respects (underSummary id s (factOf (plainSummary row))) m) end.
  { pose proof (underSummary_pre id s (factOf (plainSummary row))) as Hpre.
    pose proof (fun m : M () => respects_sub _ _ m (sameSums_under id s (factOf (plainSummary row)))) as Hsub.
    apply respects_bind; [done|apply storeFacts_under|intros kfs].
    { intros n fct g kf. split_and!; [done..|]. intros ep. apply cited_sources. }
    apply respects_bind; [done|auto with respects|intros now].
    apply respects_bind; [done|apply respects_wrap, Hsub, sums_upsertEntities|intros []].
    apply respects_bind; [done|apply respects_wrap, Hsub, sums_upsertRelationships|intros []].
    apply respects_bind; [done|apply respects_wrap, Hsub, sums_Write|intros []]. by apply respects_ret. }
  eapply wp_mono; [apply Hr|]. intros [r|e] w' H; [|done].
  destruct (H Hh) as (_ & Hok' & E' & fs' & F' & Hfs). cbn [w_db] in *.
  split; [cbn; auto|]. right. exists (plainSummary row), fs'. split_and!; [by rewrite E', E|by rewrite F', F| |done].
  split_and!; [done..|]. cbn. by rewrite nextOf_sums.
Qed.

Lemma wp_storeSummary_step i w :
  wp (storeSummary kek consolidation grounding groundingSystemPrompt i)
    (fun _ w' => storeStep i w.(w_db) w'.(w_db)) w.
Proof.
  assert (H0 : forall d d', sameSums d d' -> storeStep i d d') by (intros d d' (H & E & F); split; [done|by left]).
  unfold storeSummary. apply wp_bind, wp_wrap. eapply wp_mono; [apply sums_groundingCheck|].
  intros [gs|e] w1 H1; [|by apply H0]. apply wp_bind, wp_wrap. eapply wp_mono; [apply sums_GetOrCreate|].
  intros [[enc v]|e] w2 H2; [|apply H0; by etrans]. apply wp_bind, wp_wrap.
  eapply wp_mono; [apply (respects_Encrypt sameSums)|]. intros [ct|e] w3 H3; [|apply H0; etrans; [exact H1|by etrans]].
  apply wp_bind. eapply wp_mono.
  { apply (wp_Run_db _ _ _ (storeStep i (w_db w3))); [by apply H0|].
    intros p fs. eapply wp_mono; [apply storeTx_step|]. by intros [r|e] w'. }
  assert (H03 : sameSums (w_db w) (w_db w3)) by (etrans; [exact H1|]; by etrans).
  intros r w4 H4. destruct r as [r|e]; [|by eapply storeStep_same].
  match goal with |- wp ?m _ _ => assert (Hr : respects sameSums m) end.
  { pose proof sums_embedSummary. pose proof sums_embedEntities. pose proof sums_embedKeyFacts. respects_solve. }
  eapply wp_mono; [apply Hr|]. intros r' w5 H5. by eapply storeStep_same.
Qed.
End Store.

(** ** Lemmas: what a run reads of the history *)

(** The current version of a period: none for the empty string. *)
Definition currentIs (l : list SummaryRow) (s : Scope) (level period id : string) : Prop :=
  let inPeriod r := samePeriod s level period r = true in
  if String.eqb id "" then forall r, isCurrent l r -> ~ inPeriod r
  else exists r, isCurrent l r /\ r.(s_id) = id /\ inPeriod r.

Lemma samePeriod_spec s level period r :
  samePeriod s level period r = true <->
  r.(s_scope) = s /\ r.(s_info).(i_level) = level /\ r.(s_info).(i_period) = period.
Proof.
  unfold samePeriod. rewrite !andb_true_iff, !String.eqb_eq, bool_decide_eq_true. naive_solver.
Qed.

(** Under row-level security a session of the row's scope sees its successor. *)
Lemma superseded_spec d s r :
  histWf (sums d) -> r ∈ d.(summaries) -> r.(s_scope) = s ->
  superseded (MkSession s s) d.(summaries) r.(s_id) = false <-> isCurrent (sums d) (plainSummary r).
Proof.
  intros Hwf Hr Hs. unfold superseded. split.
  - intros Hno%not_true_iff_false. split; [by apply plain_in|]. intros r1 (r0 & H0 & ->)%in_plain Hsup.
    apply Hno, existsb_exists. exists r0. split; [by apply list_elem_of_In|].
    destruct (list_elem_of_lookup_1 _ _ (plain_in _ _ H0)) as [j Hj].
    destruct (h_chain _ Hwf _ _ _ Hj Hsup) as (k & r2 & _ & H2%list_elem_of_lookup_2 & E2 & Ha & _).
    assert (r2 = plainSummary r) as ->.
    { eapply (NoDup_map_inj s_id); [apply (h_ids _ Hwf)|done|by apply plain_in|done]. }
    apply andb_true_iff. split; [apply visible_same; cbn in Ha; congruence|by apply bool_decide_eq_true].
  - intros [_ Hno]. apply not_true_iff_false. intros (r0 & H0 & [_ E%bool_decide_eq_true]%andb_true_iff)%existsb_exists.
    apply (Hno (plainSummary r0)); [by apply plain_in, list_elem_of_In|done].
Qed.

Lemma wp_pure {A} (m : M A) (Q : result error A -> world -> Prop) w :
  respects eq m -> (forall r w', w'.(w_db) = w.(w_db) -> Q r w') -> wp m Q w.
Proof. intros Hm HQ. eapply wp_mono; [apply Hm|]. intros r w' E. by apply HQ. Qed.

Lemma currentID_current d s level period :
  histWf (sums d) -> currentIs (sums d) s level period (currentID (MkSession s s) s level period d).
Proof.
  intros Hwf. unfold currentID, currentIs. set (se := MkSession s s). set (cand := List.filter _ _).
  assert (Hc : forall r, r ∈ cand <-> r ∈ d.(summaries) /\ samePeriod s level period r = true /\ isCurrent (sums d) (plainSummary r)).
  { intros r. unfold cand. rewrite list_elem_of_In, filter_In, <- list_elem_of_In, !andb_true_iff, samePeriod_spec.
    unfold current. rewrite negb_true_iff, !String.eqb_eq, bool_decide_eq_true. split.
    - intros (Hr & (_ & (E1 & E2) & E3) & Hcur). split_and!; [done..|]. by apply (superseded_spec d s).
    - intros (Hr & (E3 & E1 & E2) & Hcur). split_and!; [done|by apply visible_same|done..|]. by apply superseded_spec. }
  destruct (sort_by newerFirst cand) as [|r rest] eqn:Es.
  - cbn. intros r Hcur Hp. destruct (in_plain _ _ (proj1 Hcur)) as (r0 & H0 & ->).
    assert (Hin : r0 ∈ cand) by by apply Hc.
    apply (elem_of_sort_by newerFirst) in Hin. rewrite Es in Hin. by apply elem_of_nil in Hin.
  - assert (Hin : r ∈ cand) by (apply (elem_of_sort_by newerFirst); rewrite Es; by left).
    apply Hc in Hin as (Hr & Hp & Hcur).
    rewrite (proj2 (String.eqb_neq _ _)) by exact (h_named _ Hwf _ (plain_in _ _ Hr)).
    by exists (plainSummary r).
Qed.

Lemma wp_currentID s level period (Q : result error string -> world -> Prop) w :
  (forall id w', w'.(w_db) = w.(w_db) ->
     (histWf (sums w.(w_db)) -> currentIs (sums w.(w_db)) s level period id) -> Q (Ok id) w') ->
  (forall e w', w'.(w_db) = w.(w_db) -> Q (Err e) w') ->
  wp (currentSummaryID (MkSession s s) s level period) Q w.
Proof.
  destruct w as [d p fs]. cbn. intros HOk HErr. apply wp_query; [|intros; by apply HErr].
  apply HOk; [done|]. apply currentID_current.
Qed.

(** A stored row whose link is the current version keeps the history. *)
Lemma storeStep_batch i d d' :
  storeStep i d d' -> (histWf (sums d) -> currentIs (sums d) i.(in_scope) i.(in_level) i.(in_period) i.(in_supersedes)) ->
  batchStep d d'.
Proof.
  intros [Hok [[E F]|(row & fs & E & F & (Hf & Es & El & Ep & Eo & Eid) & Hfs)]] Hc; [by apply sameSums_step|].
  split; [done| |].
  { exists [row], fs. split_and!; [done..|]. rewrite <- (app_nil_r fs). constructor; [|done|constructor].
    by rewrite Es, El, Ep. }
  intros Hwf. rewrite E. apply histWf_snoc; [done..|]. specialize (Hc Hwf).
  unfold chained. rewrite Eo. unfold currentIs, Nullable in *.
  destruct (String.eqb_spec (in_supersedes i) "") as [E0|E0].
  - intros r Hr (A1 & A2 & A3). apply (Hc r Hr), samePeriod_spec. split_and!; congruence.
  - destruct Hc as (r & Hr & Ei & (A1 & A2 & A3)%samePeriod_spec). exists r. split_and!; [done..|].
    split_and!; congruence.
Qed.

(** ** Lemmas: runs *)

Section Runs.
Context `{HA : AEAD, HR : Rand, HU : Unicode, EM : Embedder, FF : FloatFormat, HC : Clock}.
Variable kek : string.
Variables consolidation grounding : ChatProvider.
Variables groundingSystemPrompt summarySystemPrompt perEpisodeFactPrompt contradictionCheckPrompt : string.
Variable TeamPromptOverride : option (Scope -> option string).
Variable Getenv : string -> string.
Variable localOffset : Z -> Z.
#[local] Abbreviation B := (respects batchStep).
#[local] Abbreviation store := (storeSummary kek consolidation grounding groundingSystemPrompt).
#[local] Abbreviation rollup := (runRollup kek consolidation grounding groundingSystemPrompt summarySystemPrompt TeamPromptOverride).

Lemma batch_sub {A} (m : M A) : respects sameSums m -> B m.
Proof. apply respects_sub, sameSums_step. Qed.

Lemma wp_store_chained i d (Q : result error () -> world -> Prop) w :
  w.(w_db) = d ->
  (histWf (sums d) -> currentIs (sums d) i.(in_scope) i.(in_level) i.(in_period) i.(in_supersedes)) ->
  (forall r w', batchStep d w'.(w_db) -> Q r w') -> wp (store i) Q w.
Proof.
  intros <- Hc HQ. eapply wp_mono; [apply wp_storeSummary_step|]. intros r w' H. apply HQ, (storeStep_batch _ _ _ H Hc).
Qed.

(** *** Rollups *)

Lemma batch_refreshWith run scope level period :
  (forall s l sl p ps, B (run s l sl p ps)) -> B (refreshWith run scope level period).
Proof. intros H. unfold refreshWith. respects_solve. Qed.

Lemma respects_stale D `{!PreOrder D} se scope id sl ps : respects D (rollupIsStale se scope id sl ps).
Proof. unfold rollupIsStale. respects_solve. Qed.

(** What the first transaction of a rollup run tells. *)
Lemma wp_rollupSources s level sl period ps (Q : result error (string * list textSource) -> world -> Prop) w :
  (forall r w', w'.(w_db) = w.(w_db) ->
     (forall x, r = Ok x -> histWf (sums w.(w_db)) -> currentIs (sums w.(w_db)) s level period x.1) -> Q r w') ->
  wp (rollupSources kek (MkSession s s) s level sl period ps) Q w.
Proof.
  intros HQ. unfold rollupSources. apply wp_bind, wp_currentID; [|intros e w' E; apply HQ; [done|intros x [=]]].
  intros id w1 E1 Hid. apply wp_bind, wp_pure.
  { case_match; [auto with respects|apply respects_stale, _]. }
  intros r w2 E2. destruct r as [go|e]; [|apply HQ; [congruence|intros x [=]]].
  destruct go.
  - apply wp_bind, wp_pure; [auto with respects|]. intros r w3 E3.
    destruct r as [src|e]; [|apply HQ; [congruence|intros x [=]]].
    apply wp_ret, HQ; [congruence|]. intros x [= <-]. exact Hid.
  - apply wp_ret, HQ; [congruence|]. intros x [= <-]. exact Hid.
Qed.

Lemma batch_runRollup fuel scope level sl period ps : B (rollup fuel scope level sl period ps).
Proof.
  revert scope level sl period ps. induction fuel as [|fuel IH]; intros s level sl period ps; cbn [runRollup].
  { auto with respects. }
  intros w. apply wp_bind, wp_wrap.
  apply (wp_Run_read _ _ _ (fun x => histWf (sums w.(w_db)) -> currentIs (sums w.(w_db)) s level period x.1)).
  - intros p fs. apply wp_rollupSources. intros r w' E H. by split.
  - intros r w1 E1 Hid. case_match; [apply wp_ret; by rewrite E1|].
    apply wp_bind, wp_wrap, wp_pure; [auto with respects|]. intros [out|e] w2 E2; [|rewrite E2, E1; reflexivity].
    apply wp_bind, (wp_store_chained _ (w_db w)); [congruence|exact Hid|].
    intros [[]|e] w3 H3; [|done]. eapply wp_mono; [apply batch_refreshWith, IH|]. intros r' w4 H4. by etrans.
  - intros e w' E. by rewrite E.
Qed.

Lemma batch_RunRollup scope level sl period ps :
  B (RunRollup kek consolidation grounding groundingSystemPrompt summarySystemPrompt TeamPromptOverride scope level sl period ps).
Proof. apply batch_runRollup. Qed.

Lemma batch_refresh scope level period :
  B (refreshRollupsCovering kek consolidation grounding groundingSystemPrompt summarySystemPrompt TeamPromptOverride scope level period).
Proof. apply batch_refreshWith, batch_RunRollup. Qed.

(** *** Corrections *)

Lemma find_in {A} (p : A -> bool) l x : List.find p l = Some x -> x ∈ l /\ p x = true.
Proof. intros H%List.find_some. by rewrite list_elem_of_In. Qed.

(** A version that may be corrected is the current one of its period. *)
Lemma wp_correctable s old (Q : result error (SummaryInfo * option string) -> world -> Prop) w :
  (forall r w', w'.(w_db) = w.(w_db) ->
     (forall i, r = Ok (i, None) -> histWf (sums w.(w_db)) ->
        currentIs (sums w.(w_db)) s i.(i_level) i.(i_period) old) -> Q r w') ->
  wp (correctable (MkSession s s) s old) Q w.
Proof.
  destruct w as [d p fs]. cbn. intros HQ. unfold correctable. apply wp_bind, wp_wrap. unfold queryRow.
  apply wp_bind, wp_query; [|intros; apply HQ; [done|by intros]].
  destruct (List.find _ _) as [r|] eqn:Ef; [|apply wp_throw, HQ; [done|by intros]].
  apply find_in in Ef as [Hr Hp]. unfold sameSummary in Hp. rewrite !andb_true_iff, String.eqb_eq, bool_decide_eq_true in Hp.
  destruct Hp as [[_ Ei] Es]. apply wp_ret, wp_bind, wp_wrap, wp_query; [|intros; apply HQ; [done|by intros]].
  apply wp_ret, HQ; [done|]. intros i [= <- Hno] Hwf.
  assert (Hcur : isCurrent (sums d) (plainSummary r)).
  { apply (superseded_spec d s); [done..|]. apply not_true_iff_false. unfold superseded.
    intros (r' & Hr' & [Hv Hsup]%andb_true_iff)%existsb_exists.
    destruct (List.find _ _) eqn:E in Hno; [done|]. apply (List.find_none _ _ E) in Hr'.
    rewrite Ei in Hsup. rewrite Hv, Hsup in Hr'. cbn in Hr'. apply visible_same in Hv.
    by rewrite bool_decide_eq_true_2 in Hr'. }
  unfold currentIs. rewrite (proj2 (String.eqb_neq _ _)).
  - exists (plainSummary r). split_and!; [done|done|]. by apply samePeriod_spec.
  - rewrite <- Ei. exact (h_named _ Hwf _ (plain_in _ _ Hr)).
Qed.

Lemma batch_Correct scope old output reason actor extra :
  B (Correct kek consolidation grounding groundingSystemPrompt localOffset scope old output reason actor extra).
Proof.
  intros w. unfold Correct. case_match; [by apply wp_throw|]. apply wp_bind, wp_wrap.
  apply (wp_Run_read _ _ _ (fun x => x.2 = None -> histWf (sums w.(w_db)) ->
    currentIs (sums w.(w_db)) scope x.1.(i_level) x.1.(i_period) old)).
  - intros p fs. apply wp_correctable. intros r w' E Hx. split; [done|]. intros [i o] Er Eo. cbn in Eo. subst o. by apply Hx.
  - intros [i [o|]] w1 E1 Hx; [apply wp_throw; by rewrite E1|]. cbn [fst snd] in *. apply wp_bind, wp_wrap, wp_pure.
    { unfold reloadSources. respects_solve. }
    intros [src|e] w2 E2; [|rewrite E2, E1; reflexivity].
    apply (wp_store_chained _ (w_db w)); [congruence|by apply Hx|done].
  - intros e w' E. by rewrite E.
Qed.

Lemma respects_content D `{!PreOrder D} scope id : respects D (CurrentContent kek scope id).
Proof. unfold CurrentContent, factContent, entityContent. respects_solve. Qed.

Lemma respects_facts D `{!PreOrder D} scope id : respects D (loadGroundedKeyFactsByID kek scope id).
Proof. unfold loadGroundedKeyFactsByID. respects_solve. Qed.

Lemma respects_groundingText D `{!PreOrder D} scope id :
  respects D (loadGroundingSourceTextForSummary kek localOffset scope id).
Proof. unfold loadGroundingSourceTextForSummary, reloadSources. respects_solve. Qed.

Lemma batch_checkOne scope newID newPeriod newFacts old names :
  B (checkOneRelated kek consolidation grounding groundingSystemPrompt summarySystemPrompt contradictionCheckPrompt
       TeamPromptOverride localOffset scope newID newPeriod newFacts old names).
Proof.
  pose proof (respects_content batchStep). pose proof (respects_facts batchStep).
  pose proof (respects_groundingText batchStep). pose proof batch_Correct. pose proof batch_refresh.
  unfold checkOneRelated. respects_solve.
Qed.

Lemma batch_contradictions scope newID newPeriod touched :
  B (checkCrossPeriodContradictions kek consolidation grounding groundingSystemPrompt summarySystemPrompt
       contradictionCheckPrompt TeamPromptOverride localOffset scope newID newPeriod touched).
Proof.
  pose proof batch_checkOne. pose proof (respects_facts batchStep).
  unfold checkCrossPeriodContradictions. respects_solve. apply respects_logged; [exact _|]. respects_solve.
Qed.

(** *** The day and the batch *)

Lemma sums_embedEpisodes scope date : respects sameSums (embedHighImportanceEpisodes kek localOffset scope date).
Proof. unfold embedHighImportanceEpisodes, embedEpisodeSource. respects_solve. Qed.

Lemma sums_corpusSize scope : respects sameSums (updateScopeCorpusSize scope).
Proof. unfold updateScopeCorpusSize. respects_solve. Qed.

Lemma batch_afterDaily scope date period :
  B (afterDaily kek consolidation grounding groundingSystemPrompt summarySystemPrompt contradictionCheckPrompt
       TeamPromptOverride localOffset scope date period).
Proof.
  pose proof batch_refresh. pose proof batch_contradictions. pose proof (fun s d => batch_sub _ (sums_embedEpisodes s d)).
  pose proof (fun s => batch_sub _ (sums_corpusSize s)). pose proof (fun s ids => batch_sub _ (sums_embedEntities kek s ids)).
  unfold afterDaily, storedSummary, entitiesMissingEmbeddings. respects_solve.
Qed.

Lemma wp_dailyInputs s date period (Q : result error (list textSource * string * list knownEntityContext) -> world -> Prop) w :
  (forall r w', w'.(w_db) = w.(w_db) ->
     (forall x, r = Ok x -> x.1.1 <> [] -> histWf (sums w.(w_db)) ->
        currentIs (sums w.(w_db)) s "daily" period x.1.2) -> Q r w') ->
  wp (dailyInputs kek localOffset (MkSession s s) s date period) Q w.
Proof.
  intros HQ. unfold dailyInputs. apply wp_bind, wp_pure; [auto with respects|]. intros [src|e] w1 E1; [|apply HQ; [done|by intros]].
  case_match; [apply wp_ret, HQ; [done|]; by intros x [= <-]|].
  apply wp_bind, wp_currentID; [|intros e w' E; apply HQ; [congruence|by intros]]. intros id w2 E2 Hid. rewrite E1 in Hid.
  apply wp_bind, wp_pure; [auto with respects|]. intros [known|e] w3 E3; [|apply HQ; [congruence|by intros]].
  apply wp_ret, HQ; [congruence|]. intros x [= <-] _. exact Hid.
Qed.

Lemma batch_RunDaily scope date :
  B (RunDaily kek consolidation grounding groundingSystemPrompt summarySystemPrompt perEpisodeFactPrompt
       contradictionCheckPrompt TeamPromptOverride Getenv localOffset scope date).
Proof.
  intros w. unfold RunDaily. apply wp_bind, wp_wrap.
  apply (wp_Run_read _ _ _ (fun x => x.1.1 <> [] -> histWf (sums w.(w_db)) ->
    currentIs (sums w.(w_db)) scope "daily" (FormatDay date) x.1.2)).
  - intros p fs. apply wp_dailyInputs. intros r w' E H. by split.
  - intros [[src id] known] w1 E1 Hid. cbn [fst snd] in Hid.
    destruct src as [|x src]; [apply wp_ret; by rewrite E1|]. specialize (Hid ltac:(done)). cbn [length Nat.eqb].
    apply wp_bind, wp_pure; [case_match; respects_solve|].
    intros [record|e] w2 E2; [|rewrite E2, E1; reflexivity].
    apply wp_bind, wp_wrap, wp_pure; [apply respects_generateDaily, _|]. intros [out|e] w3 E3; [|rewrite E3, E2, E1; reflexivity].
    apply wp_bind, (wp_store_chained _ (w_db w)); [congruence|exact Hid|].
    intros [[]|e] w4 H4; [|done]. eapply wp_mono; [apply batch_afterDaily|]. intros r w5 H5. by etrans.
  - intros e w' E. by rewrite E.
Qed.

Lemma respects_countFailed D `{!PreOrder D} {A} (l : list A) f :
  (forall a, respects D (f a)) -> respects D (countFailed l f).
Proof. intros Hf. induction l as [|a l IH]; cbn [countFailed]; respects_solve. Qed.

Lemma batch_consolidateAll date scopes :
  B (consolidateAll kek consolidation grounding groundingSystemPrompt summarySystemPrompt perEpisodeFactPrompt
       contradictionCheckPrompt TeamPromptOverride Getenv localOffset date scopes).
Proof.
  unfold consolidateAll, runDueRollups. apply respects_bind; [exact _|apply respects_countFailed; [exact _|]; intros; apply batch_RunDaily|].
  intros failed. apply respects_bind; [exact _|apply respects_countFailed; [exact _|]; intros; apply batch_RunRollup|].
  intros rf. respects_solve.
Qed.
End Runs.

(** ** Properties *)

Section Claims.
Context `{HA : AEAD, HR : Rand, HU : Unicode, EM : Embedder, FF : FloatFormat, HC : Clock}.
Variable kek : string.
Variables consolidation grounding : ChatProvider.
Variables groundingSystemPrompt summarySystemPrompt perEpisodeFactPrompt contradictionCheckPrompt : string.
Variable TeamPromptOverride : option (Scope -> option string).
Variable Getenv : string -> string.
Variable localOffset : Z -> Z.

#[local] Abbreviation batch := (consolidateAll kek consolidation grounding groundingSystemPrompt summarySystemPrompt
  perEpisodeFactPrompt contradictionCheckPrompt TeamPromptOverride Getenv localOffset).
#[local] Abbreviation correct := (Correct kek consolidation grounding groundingSystemPrompt localOffset).

(** C6: Memory is never edited in place, and no period ever has two current
    versions.  Whatever the models reply and whatever fails, a batch over any
    scopes - daily runs, rollups and their cascades, contradiction corrections -
    and a correction by hand leave every stored summary as it was, vectors
    apart, and only append versions to the table; ids stay unique, a version
    is superseded at most once and by a version of its own period, and every
    period of a scope has at most one version that nothing supersedes. *)
Theorem consolidation_keeps_history (date : goTime) (scopes : list Scope) (w : world)
    (scope : Scope) (old : string) (output : ConsolidationOutput) (reason actor extra : string) :
  histWf (sums w.(w_db)) ->
  wp (batch date scopes)
    (fun _ w' => (exists rows, sums w'.(w_db) = sums w.(w_db) ++ rows) /\ histWf (sums w'.(w_db))) w /\
  wp (correct scope old output reason actor extra)
    (fun _ w' => (exists rows, sums w'.(w_db) = sums w.(w_db) ++ rows) /\ histWf (sums w'.(w_db))) w.
Proof.
  intros Hwf. split; (eapply wp_mono; [apply batch_consolidateAll || apply batch_Correct|]).
  all: intros r w' [_ (rows & new & E & _) Hh]; split; [by exists rows|auto].
Qed.

(** C16: What a consolidation adds is numbered and complete.  Whatever the models
    reply and whatever fails, a batch over any scopes and a correction append
    to the summaries versions only, each under the id made of its scope, level
    and period and the number after the highest that period had when it was
    written; and to the key facts exactly those of these versions, in their
    order, each under its version's id, in its scope, and citing only episodes
    the version was made from.  The keys and references the schema declares
    stay in force, as the theorems of the rotation assume. *)
Theorem consolidation_numbers_versions (date : goTime) (scopes : list Scope) (w : world)
    (scope : Scope) (old : string) (output : ConsolidationOutput) (reason actor extra : string) :
  wp (batch date scopes)
    (fun _ w' => grown w.(w_db) w'.(w_db) /\ (db_ok w.(w_db) -> db_ok w'.(w_db))) w /\
  wp (correct scope old output reason actor extra)
    (fun _ w' => grown w.(w_db) w'.(w_db) /\ (db_ok w.(w_db) -> db_ok w'.(w_db))) w.
Proof.
  split; (eapply wp_mono; [apply batch_consolidateAll || apply batch_Correct|]).
  all: by intros r w' [Ha Hg _].
Qed.
End Claims.

(** ** A concrete week *)

#[local] Existing Instance asciiUnicode.
Import Toy.
#[local] Existing Instances toyEmbedder toyFormat toyClock.

(** One model for every step, told apart by the system prompt. *)
Definition weekModel : ChatProvider := {|
  chat_vendor := "v"; chat_model := "m";
  chat_answer _ system _ := Some (
    if String.eqb system "ground" then quoted "{'grounded': [{'i': 1, 'ok': true}]}"
    else if String.eqb system "facts" then quoted "{'facts': ['Ada rests']}"
    else if String.eqb system "contradict" then quoted "{'contradictions': []}"
    else quoted "Here: {'summary': 'a quiet time', 'key_facts': [], 'entities_touched': [{'id': 'x', 'kind': 'person', 'name': 'Ada'}]}") |}.

Definition ada : Scope := MkScope ScopeKindPrivate "ada".

(** Monday, 2024-05-06, with one episode at noon. *)
Definition monday : goTime := MkGoTime (default 0 (parseDay "2024-05-06") * nanosPerDay) 0.
Definition mondayEpisode : EpisodeRow := {|
  e_id := "ep2"; e_scope := ada; e_ts := monday.(instant) + nanosPerDay / 2; e_type := "interaction";
  e_vendor := None; e_model := None; e_input := None; e_output := None; e_note := None; e_key_version := 1;
  e_importance := f0; e_hash := ""; e_truncated := false; e_gate := None; e_refers_to := None; e_rating := None;
  e_refs := []; e_embedding := None; e_embedding_model := None |}.

Definition weekWorld : world := set_db (set_episodes (fun _ => [mondayEpisode])) afterFirst.

Definition weekBatch : M () :=
  consolidateAll kek weekModel weekModel "ground" "summarize" "facts" "contradict" None (fun _ => "") (fun _ => 0) monday [ada].
Definition weekCorrect : M () :=
  Correct kek weekModel weekModel "ground" (fun _ => 0) ada "sum_ada_2024-05-01_daily_v1"
    (MkConsolidationOutput "Ada left Acme" [] [] []) "she says so" "ada" "".

Definition weekIds (w : world) : list (string * option string) :=
  map (fun r => (s_id r, s_supersedes r)) (summaries (w_db w)).

Lemma afterFirst_step : batchStep (w_db world0) (w_db afterFirst).
Proof.
  assert (H : wp (runDay (dayInput "first" "")) (fun _ w' => batchStep (w_db world0) w'.(w_db)) world0).
  { unfold runDay. apply (wp_store_chained kek agreeing agreeing "" (dayInput "first" "") (w_db world0)); [done| |done].
    intros _. cbn. intros r [Hr%elem_of_nil _]. done. }
  unfold afterFirst, wp in *. by destruct (runDay (dayInput "first" "") world0).
Qed.

Lemma weekWorld_def : weekWorld = set_db (set_episodes (fun _ => [mondayEpisode])) afterFirst.
Proof. reflexivity. Qed.

Lemma sums_set_episodes f w : sums (w_db (set_db (set_episodes f) w)) = sums (w_db w).
Proof. reflexivity. Qed.

Lemma weekWorld_history : histWf (sums (w_db weekWorld)).
Proof. rewrite weekWorld_def, sums_set_episodes. exact (bs_history _ _ afterFirst_step histWf_nil). Qed.

Lemma consolidation_keeps_history_witness :
  (wp weekBatch
     (fun _ w' => (exists rows, sums w'.(w_db) = sums (w_db weekWorld) ++ rows) /\ histWf (sums w'.(w_db))) weekWorld /\
   wp weekCorrect
     (fun _ w' => (exists rows, sums w'.(w_db) = sums (w_db weekWorld) ++ rows) /\ histWf (sums w'.(w_db))) weekWorld) /\
  weekIds (weekBatch (weekBatch weekWorld).2).2 =
    [("sum_ada_2024-05-01_daily_v1", None); ("sum_ada_2024-05-06_daily_v1", None); ("sum_ada_2024-W18_weekly_v1", None);
     ("sum_ada_2024-05-06_daily_v2", Some "sum_ada_2024-05-06_daily_v1")].
Proof.
  split; [|vm_compute; reflexivity]. unfold weekBatch, weekCorrect.
  apply (consolidation_keeps_history kek weekModel weekModel "ground" "summarize" "facts" "contradict" None (fun _ => "")
           (fun _ => 0) monday [ada] weekWorld).
  apply weekWorld_history.
Defined.

(** The key facts of two batches: each under the version it came with. *)
Example week_facts :
  map (fun f => (f_id f, f_summary_id f)) (key_facts (w_db (weekBatch (weekBatch weekWorld).2).2)) =
    [(1, "sum_ada_2024-05-01_daily_v1"); (2, "sum_ada_2024-05-01_daily_v1");
     (3, "sum_ada_2024-05-06_daily_v1"); (4, "sum_ada_2024-05-06_daily_v2")].
Proof. vm_compute. reflexivity. Qed.
