(* ===== verification/Batch.v ===== *)
(** * Batch: what rollups read, when they run, and who a failure stops

    A rollup reads exactly the current version of each of its source periods;
    the cascade of refreshes ends; one scope's failure keeps no other scope
    from its run.  Whether a rollup is out of date is asked of first versions
    only. *)

From stdpp Require Import gmap.
From S2P Require Import Prelude PgFmt Identity Schema Db KeyStore Rotate Utf8 Json Float Text Embed Keeps Reembed.
From S2P Require Import Civil Period Slug Entities Relations Output Grounding Vectors Summaries SummaryStore.
From S2P Require Import Sources Generate Runner Daily Reads History.
#[local] Open Scope string_scope.
#[local] Open Scope list_scope.
#[local] Open Scope Z_scope.

Definition periodOf (r : SummaryRow) : string := r.(s_info).(i_period).

(** The sources of a rollup. *)
Definition isSource (d : db) (s : Scope) (level : string) (periods : list string) (r : SummaryRow) : Prop :=
  r ∈ d.(summaries) /\ samePeriod s level (periodOf r) r = true /\ periodOf r ∈ periods /\
  isCurrent (sums d) (plainSummary r).

(** ** Lemmas: what a rollup reads *)

#[export] Instance by_period_sw : StrictWeak (fun a b => String.ltb (periodOf a) (periodOf b)).
Proof.
  split.
  - intros r. apply (sw_irrefl (less := String.ltb)).
  - intros x y z. apply (sw_trans (less := String.ltb)).
  - intros x y z. apply (sw_cotrans (less := String.ltb)).
Qed.

Lemma sourceRows_in d s level periods r :
  histWf (sums d) -> r ∈ sourceRows (MkSession s s) s level periods d <-> isSource d s level periods r.
Proof.
  intros Hwf. unfold sourceRows, isSource. rewrite elem_of_sort_by, list_elem_of_In, filter_In, <- list_elem_of_In.
  rewrite !andb_true_iff, String.eqb_eq, !bool_decide_eq_true, samePeriod_spec. unfold current, periodOf.
  rewrite negb_true_iff. split.
  - intros (Hr & (((_ & El) & Ep) & Hc) & Es). split_and!; [done..|]. by apply (superseded_spec d s).
  - intros (Hr & (Es & El & _) & Ep & Hc). split_and!; [done|by apply visible_same|done|done| |done]. by apply superseded_spec.
Qed.

Lemma sourceRows_unique d s level periods r r' :
  histWf (sums d) -> isSource d s level periods r -> isSource d s level periods r' ->
  periodOf r = periodOf r' -> r = r'.
Proof.
  intros Hwf (Hr & (Es & El & _)%samePeriod_spec & _ & Hc) (Hr' & (Es' & El' & _)%samePeriod_spec & _ & Hc') E.
  assert (Hp : plainSummary r = plainSummary r').
  { apply (h_current _ Hwf); [done..|]. split_and!; cbn; [congruence..|exact E]. }
  assert (Hid : s_id r = s_id r') by exact (f_equal s_id Hp).
  pose proof (h_ids _ Hwf) as Hn. unfold sums in Hn. rewrite <- list_fmap_compose in Hn.
  by apply (NoDup_map_inj s_id (summaries d)).
Qed.

Section Loads.
Context `{HA : AEAD, HR : Rand, HL : !AEADLaws}.
Variable kek : string.

(** What a reader sees of a summary. *)
Definition summaryText (d : db) (r : SummaryRow) : option string := readField kek d r.(s_scope) r.(s_key_version) r.(s_text).

Definition loadedAs (d : db) (r : SummaryRow) (src : textSource) : Prop :=
  src.(ts_id) = r.(s_id) /\ src.(ts_date) = "" /\ summaryText d r = Some src.(ts_text).

Lemma wp_scanSummary s r Q d c n fs :
  storeInv kek d c -> r.(s_scope) = s -> is_Some (d.(scope_keys) !! (s, r.(s_key_version))) ->
  (forall src c' fs', quiet fs fs' -> storeInv kek d c' -> loadedAs d r src -> Q (Ok src) (MkWorld d (MkProcess c' n) fs')) ->
  (forall e c' fs', quiet fs fs' -> (fs = [] -> summaryText d r = None) -> Q (Err e) (MkWorld d (MkProcess c' n) fs')) ->
  wp (scanSummarySource kek s r) Q (MkWorld d (MkProcess c n) fs).
Proof.
  intros Hinv Es Hwr HOk HErr. unfold scanSummarySource. apply wp_bind, wp_wrap.
  destruct (keyOf_present kek d s _ (si_keys _ _ _ Hinv) Hwr) as [k Hk].
  apply (wp_GetVersion_stored kek s _ k); [done..| |].
  2: { intros e fs' Hq Hf. apply HErr; [done|by intros ->]. }
  intros c' fs' Hq Hc' _ _. apply wp_bind, wp_lift.
  assert (Ht : summaryText d r = resToOption (Decrypt k (s_text r))) by (unfold summaryText, readField; by rewrite Es, Hk).
  destruct (Decrypt k (s_text r)) as [t|e]; [|by apply HErr].
  by apply wp_ret, HOk.
Qed.

Lemma wp_scanSummaries s rows Q d c n fs :
  storeInv kek d c ->
  Forall (fun r => r.(s_scope) = s /\ is_Some (d.(scope_keys) !! (s, r.(s_key_version)))) rows ->
  (forall srcs c' fs', quiet fs fs' -> storeInv kek d c' -> Forall2 (loadedAs d) rows srcs ->
     Q (Ok srcs) (MkWorld d (MkProcess c' n) fs')) ->
  (forall e c' fs', quiet fs fs' -> (fs = [] -> exists r, r ∈ rows /\ summaryText d r = None) ->
     Q (Err e) (MkWorld d (MkProcess c' n) fs')) ->
  wp (scanRows (scanSummarySource kek s) rows) Q (MkWorld d (MkProcess c n) fs).
Proof.
  revert Q c fs. induction rows as [|r rows IH]; intros Q c fs Hinv Hrows HOk HErr; cbn [scanRows].
  { apply wp_ret, HOk; [apply quiet_refl|done|constructor]. }
  apply Forall_cons in Hrows as [[Es Hk] Hrows]. apply wp_bind, (wp_scanSummary s r); [done..| |].
  2: { intros e c' fs' Hq Hn. apply HErr; [done|]. intros Hf. exists r. split; [by left|by apply Hn]. }
  intros src c' fs' Hq Hc' Hsrc. apply wp_bind, IH; [done|done| |].
  2: { intros e c'' fs'' Hq' Hn. apply HErr; [by eapply quiet_trans|]. intros Hf.
       destruct (Hn (Hq Hf)) as (x & Hx & E). exists x. split; [by right|done]. }
  intros srcs c'' fs'' Hq' Hc'' Hsrcs. apply wp_ret, HOk; [by eapply quiet_trans|done|by constructor].
Qed.

Lemma rows_facts d s level periods :
  histWf (sums d) ->
  let rows := sourceRows (MkSession s s) s level periods d in
  StronglySorted (fun a b => String.ltb (periodOf b) (periodOf a) = false) rows /\ NoDup (periodOf <$> rows) /\
  (forall x, x ∈ d.(summaries) -> samePeriod s level (periodOf x) x = true -> periodOf x ∈ periods ->
     periodOf x ∈ (periodOf <$> rows)).
Proof.
  intros Hwf rows. split_and!.
  - exact (sort_by_sorted (fun a b => String.ltb (periodOf a) (periodOf b)) _).
  - apply NoDup_fmap_2_strong.
    + intros x y Hx%sourceRows_in Hy%sourceRows_in E; [by eapply sourceRows_unique|done..].
    + unfold rows, sourceRows. apply sort_by_NoDup, NoDup_ListNoDup, List.NoDup_filter, NoDup_ListNoDup.
      pose proof (h_ids _ Hwf) as Hn. unfold sums in Hn. rewrite <- list_fmap_compose in Hn. by eapply NoDup_fmap_1.
  - intros x Hx Hs Hp. destruct (current_exists _ _ Hwf (plain_in _ _ Hx)) as (c & Hc & Ha).
    destruct (in_plain _ _ (proj1 Hc)) as (r & Hr & ->). destruct Ha as (A1 & A2 & A3). cbn in A1, A2, A3.
    apply samePeriod_spec in Hs as (B1 & B2 & _). apply list_elem_of_fmap. exists r. split; [exact A3|].
    apply sourceRows_in; [done|]. split_and!; [done| |by unfold periodOf in *; rewrite <- A3|done].
    apply samePeriod_spec. split_and!; [congruence..|done].
Qed.
End Loads.

(** ** Lemmas: the cascade *)

(** How many levels of rollups there are from a level on. *)
Definition levelsAbove (level : string) : nat :=
  if String.eqb level "daily" then 3%nat
  else if String.eqb level "weekly" then 2%nat
  else if String.eqb level "monthly" then 1%nat
  else 0%nat.

Lemma levelsAbove_step level :
  rollupLevelAbove level <> "" -> levelsAbove level = S (levelsAbove (rollupLevelAbove level)).
Proof. unfold rollupLevelAbove, levelsAbove. repeat (case_match; try done). Qed.

Lemma levelsAbove_bound level : (levelsAbove level <= 3)%nat.
Proof. unfold levelsAbove. repeat case_match; lia. Qed.

Section Pointwise.
(** Operations that agree at every world. *)
Definition same {A} (m m' : M A) : Prop := forall w, m w = m' w.

Lemma same_bind {A B} (m m' : M A) (f f' : A -> M B) :
  same m m' -> (forall a, same (f a) (f' a)) -> same (m ≫= f) (m' ≫= f').
Proof. intros Hm Hf w. unfold mbind, M_bind. rewrite Hm. destruct (m' w) as [[a|e] w']; [apply Hf|done]. Qed.

Lemma same_catch {A} (m m' : M A) : same m m' -> same (catch m) (catch m').
Proof. intros H w. unfold catch. by rewrite H. Qed.

Lemma same_forM {A} (l : list A) (f f' : A -> M ()) : (forall a, same (f a) (f' a)) -> same (forM l f) (forM l f').
Proof.
  intros H. induction l as [|a l IH]; [done|]. cbn [forM]. apply same_bind; [apply H|by intros []].
Qed.

Lemma same_refl {A} (m : M A) : same m m.
Proof. done. Qed.
End Pointwise.

(** Fuel beyond the levels there are changes nothing. *)
Lemma runRollup_fuel `{HA : AEAD, HR : Rand, HU : Unicode, EM : Embedder, FF : FloatFormat, HC : Clock}
    kek c g gp sp tp n n' scope level sl period ps :
  (levelsAbove level < n)%nat -> (levelsAbove level < n')%nat ->
  same (runRollup kek c g gp sp tp n scope level sl period ps) (runRollup kek c g gp sp tp n' scope level sl period ps).
Proof.
  revert n' scope level sl period ps. induction n as [|n IH]; intros [|n'] scope level sl period ps Hn Hn'; try lia.
  cbn [runRollup]. apply same_bind; [apply same_refl|intros r]. case_match; [apply same_refl|].
  apply same_bind; [apply same_refl|intros out]. apply same_bind; [apply same_refl|intros _].
  unfold refreshWith. destruct (String.eqb_spec (rollupLevelAbove level) "") as [|Hne]; [apply same_refl|].
  apply same_bind; [apply same_refl|intros [rs|e]]; [|apply same_refl].
  apply same_forM. intros ru. unfold logged. apply same_bind; [|intros; apply same_refl]. apply same_catch, IH.
  all: pose proof (levelsAbove_step _ Hne); lia.
Qed.

(** ** Lemmas: staleness *)

Lemma find_known {A} (p : A -> bool) l x : x ∈ l -> p x = true -> exists y, List.find p l = Some y.
Proof.
  intros Hx Hp. destruct (List.find p l) as [y|] eqn:E; [by exists y|].
  apply list_elem_of_In in Hx. pose proof (List.find_none _ _ E _ Hx). congruence.
Qed.

Lemma maxOf_le l m t : (forall x, x ∈ l -> x <= m) -> maxOf l = Some t -> t <= m.
Proof.
  intros H. destruct l as [|x l]; [done|]. cbn. intros [= <-]. assert (Hx : x <= m) by (apply H; by left).
  assert (Hl : forall y, y ∈ l -> y <= m) by (intros y Hy; apply H; by right). clear H.
  induction l as [|y l IH]; cbn; [done|]. apply Z.max_lub; [apply Hl; by left|apply IH; intros z Hz; apply Hl; by right].
Qed.

(** The current version of the period is the one a run of the rollup finds. *)
Lemma currentID_is d s level period r :
  histWf (sums d) -> r ∈ d.(summaries) -> samePeriod s level period r = true -> isCurrent (sums d) (plainSummary r) ->
  currentID (MkSession s s) s level period d = r.(s_id) /\ r.(s_id) <> "".
Proof.
  intros Hwf Hr Hp Hc. pose proof (h_named _ Hwf _ (plain_in _ _ Hr)) as Hne. split; [|exact Hne].
  pose proof (currentID_current d s level period Hwf) as H. unfold currentIs in H.
  apply samePeriod_spec in Hp as (E1 & E2 & E3). destruct (String.eqb _ ""); [exfalso|].
  - apply (H _ Hc), samePeriod_spec. done.
  - destruct H as (r' & Hc' & Ei & (A1 & A2 & A3)%samePeriod_spec). rewrite <- Ei.
    rewrite (h_current _ Hwf r' (plainSummary r)); [done..|]. split_and!; cbn; congruence.
Qed.

Lemma wp_not_stale s sl ps r Q d p fs :
  histWf (sums d) -> r ∈ d.(summaries) -> r.(s_scope) = s ->
  (forall x, x ∈ d.(summaries) -> stalenessSource (MkSession s s) s sl ps x = true ->
     i_created_at (s_info x) <= i_created_at (s_info r)) ->
  (forall fs', quiet fs fs' -> Q (Ok false) (MkWorld d p fs')) ->
  (forall e fs', quiet fs fs' -> fs <> [] -> Q (Err e) (MkWorld d p fs')) ->
  wp (rollupIsStale (MkSession s s) s r.(s_id) sl ps) Q (MkWorld d p fs).
Proof.
  intros Hwf Hr Es Hold HOk HErr. unfold rollupIsStale, queryRow. apply wp_bind, wp_wrap, wp_bind.
  apply wp_query; [|intros Hf; by apply HErr; [oracle|]].
  destruct (find_known (fun x => visible (MkSession s s) (s_scope x) && String.eqb (s_id x) (s_id r)) (summaries d) r)
    as [y Ey]; [done|by rewrite String.eqb_refl, andb_true_r; apply visible_same|].
  rewrite Ey. apply wp_ret. apply find_in in Ey as [Hy [_ Ei%String.eqb_eq]%andb_true_iff].
  assert (y = r) as ->.
  { pose proof (h_ids _ Hwf) as Hn. unfold sums in Hn. rewrite <- list_fmap_compose in Hn.
    by apply (NoDup_map_inj s_id (summaries d)). }
  apply wp_bind, wp_wrap, wp_query; [|intros Hf; apply HErr; [oracle|]; by destruct fs].
  match goal with |- wp (mret ?b) _ _ => assert (E : b = false) end.
  { destruct (maxOf _) as [t|] eqn:Em; [|done]. apply Z.ltb_ge. eapply maxOf_le; [|exact Em].
    intros x (z & -> & Hz)%list_elem_of_fmap. apply list_elem_of_In, filter_In in Hz as [Hz Hs].
    apply Hold; [by apply list_elem_of_In|done]. }
  rewrite E. apply wp_ret, HOk. oracle.
Qed.

(** ** Lemmas: the batch *)

(** Every operation is run, each from the world the one before left, whatever
    that returned; which of them succeeded. *)
Fixpoint runAll (ops : list (M ())) (w : world) : list bool * world :=
  match ops with
  | [] => ([], w)
  | op :: ops' =>
      let (r, w1) := op w in
      let (oks, w2) := runAll ops' w1 in
      (is_ok r :: oks, w2)
  end.

Definition failures (oks : list bool) : Z := Z.of_nat (length (List.filter negb oks)).

Lemma runAll_app ops ops' w :
  runAll (ops ++ ops') w =
    let (oks, w1) := runAll ops w in let (oks', w2) := runAll ops' w1 in (oks ++ oks', w2).
Proof.
  revert w. induction ops as [|op ops IH]; intros w; cbn [app runAll]; [by destruct (runAll ops' w)|].
  destruct (op w) as [r w1]. rewrite IH. destruct (runAll ops w1) as [oks w2]. by destruct (runAll ops' w2).
Qed.

Lemma runAll_length ops w : length (runAll ops w).1 = length ops.
Proof.
  revert w. induction ops as [|op ops IH]; intros w; cbn [runAll]; [done|]. destruct (op w) as [r w1].
  specialize (IH w1). destruct (runAll ops w1). cbn in *. lia.
Qed.

Lemma countFailed_runAll {A} (l : list A) (f : A -> M ()) w :
  countFailed l f w = (Ok (failures (runAll (map f l) w).1), (runAll (map f l) w).2).
Proof.
  revert w. induction l as [|a l IH]; intros w; [done|]. cbn [countFailed map runAll]. unfold mbind, M_bind, catch.
  destruct (f a w) as [r w1]. rewrite IH. destruct (runAll (map f l) w1) as [oks w2]. cbn.
  unfold mret, M_ret, failures. do 2 f_equal. destruct r; cbn [is_ok negb List.filter length]; lia.
Qed.

Lemma failures_none oks : (0 <? failures oks) = negb (forallb id oks).
Proof.
  induction oks as [|[] oks IH]; [done|exact IH|]. cbn. apply Z.ltb_lt. unfold failures. cbn [List.filter negb length]. lia.
Qed.

Lemma failures_app oks oks' : failures (oks ++ oks') = failures oks + failures oks'.
Proof. unfold failures. rewrite List.filter_app, length_app. lia. Qed.

(** ** Properties *)

Section Claims.
Context `{HA : AEAD, HR : Rand, HL : !AEADLaws, HU : Unicode, EM : Embedder, FF : FloatFormat, HC : Clock}.
Variable kek : string.
Variables consolidation grounding : ChatProvider.
Variables groundingSystemPrompt summarySystemPrompt perEpisodeFactPrompt contradictionCheckPrompt : string.
Variable TeamPromptOverride : option (Scope -> option string).
Variable Getenv : string -> string.
Variable localOffset : Z -> Z.

#[local] Abbreviation daily := (RunDaily kek consolidation grounding groundingSystemPrompt summarySystemPrompt
  perEpisodeFactPrompt contradictionCheckPrompt TeamPromptOverride Getenv localOffset).
#[local] Abbreviation rollup := (RunRollup kek consolidation grounding groundingSystemPrompt summarySystemPrompt
  TeamPromptOverride).
#[local] Abbreviation batch := (consolidateAll kek consolidation grounding groundingSystemPrompt summarySystemPrompt
  perEpisodeFactPrompt contradictionCheckPrompt TeamPromptOverride Getenv localOffset).

(** The runs of a batch: a day of every scope, then every due rollup of every
    scope. *)
Definition batchRuns (date : goTime) (scopes : list Scope) : list (M ()) :=
  map (fun scope => daily scope date) scopes ++
  map (fun js => rollup js.2 js.1.(level) js.1.(sourceLevel) js.1.(Period.period) js.1.(sourcePeriods))
    (flat_map (fun job => map (fun scope => (job, scope)) scopes)
       (dueRollups ((date.(instant) + date.(offset)) / nanosPerDay))).

(** C14: A batch is every run, in order: each scope's day, then each due rollup
    of each scope, starts from what the runs before it left and is made whatever
    they returned, a panic included; the batch reports success exactly if all of
    them did. *)
Theorem batch_runs_all (date : goTime) (scopes : list Scope) (w : world) :
  let (oks, w') := runAll (batchRuns date scopes) w in
  batch date scopes w = (if forallb id oks then Ok tt else Err (ErrMsg "consolidation failed"), w') /\
  length oks = (length scopes + length (dueRollups ((date.(instant) + date.(offset)) / nanosPerDay)) * length scopes)%nat.
Proof.
  pose proof (runAll_length (batchRuns date scopes) w) as Hl. unfold batchRuns in *. rewrite runAll_app in *.
  unfold consolidateAll, runDueRollups, mbind, M_bind. rewrite countFailed_runAll.
  destruct (runAll (map _ scopes) w) as [oks w1]. cbn [fst snd]. rewrite countFailed_runAll.
  destruct (runAll _ w1) as [oks' w2]. cbn [fst snd] in *. rewrite <- failures_app, failures_none. split.
  - by destruct (forallb id (oks ++ oks')).
  - rewrite Hl, length_app, !length_map. f_equal.
    generalize (dueRollups ((instant date + offset date) / nanosPerDay)). intros jobs. clear Hl.
    induction jobs as [|j jobs IH]; [done|]. cbn [flat_map length]. rewrite length_app, length_map, IH. lia.
Qed.

(** C15: The cascade of rollup refreshes ends: a refresh runs rollups one level
    up, of which a level has at most three, so the model's fuel never runs out
    - with any larger amount [RunRollup] does the same. *)
Theorem rollup_cascade_ends (n : nat) (scope : Scope) (level sourceLevel period : string)
    (sourcePeriods : list string) (w : world) :
  (levelsAbove level < n)%nat ->
  runRollup kek consolidation grounding groundingSystemPrompt summarySystemPrompt TeamPromptOverride n
    scope level sourceLevel period sourcePeriods w = rollup scope level sourceLevel period sourcePeriods w.
Proof. intros Hn. apply runRollup_fuel; [done|]. pose proof (levelsAbove_bound level). lia. Qed.

(** C12: A rollup is made from the current version of every source period that
    has one, and of nothing else.  For a well-formed history the rows it reads
    are sorted by period, one per period; a period with any version is among
    them; and loading them gives each row's id and plaintext, in that order,
    changes nothing, and without a database fault fails only if one of them
    cannot be decrypted. *)
Theorem rollup_reads_current (s : Scope) (level : string) (periods : list string) (w : world) :
  let d := w.(w_db) in
  let rows := sourceRows (MkSession s s) s level periods d in
  histWf (sums d) -> storeInv kek d w.(w_proc).(cache) ->
  (forall r, isSource d s level periods r -> is_Some (d.(scope_keys) !! (s, r.(s_key_version)))) ->
  (forall r, r ∈ rows <-> isSource d s level periods r) /\
  StronglySorted (fun a b => String.ltb (periodOf b) (periodOf a) = false) rows /\ NoDup (periodOf <$> rows) /\
  (forall x, x ∈ d.(summaries) -> samePeriod s level (periodOf x) x = true -> periodOf x ∈ periods ->
     periodOf x ∈ (periodOf <$> rows)) /\
  wp (loadSummaries kek (MkSession s s) s level periods) (fun res w' => w'.(w_db) = d /\
    match res with
    | Ok srcs => Forall2 (loadedAs kek d) rows srcs
    | Err _ => w.(w_faults) = [] -> exists r, r ∈ rows /\ summaryText kek d r = None
    end) w.
Proof.
  intros d rows Hwf Hinv Hkeys. split; [intros r; by apply sourceRows_in|].
  destruct (rows_facts d s level periods Hwf) as (H1 & H2 & H3). split_and!; [done..|].
  destruct w as [d' [c n] fs]. cbn in *. unfold loadSummaries. apply wp_bind, wp_query; [|by split].
  apply (wp_scanSummaries kek s rows); [done| | |].
  - apply Forall_forall. intros r Hr. apply sourceRows_in in Hr; [|done]. split; [|by apply Hkeys].
    destruct Hr as (_ & (Es & _)%samePeriod_spec & _). done.
  - intros srcs c' fs' _ _ Hs. by split.
  - intros e c' fs' Hq Hn. split; [done|]. cbn. intros ->. apply Hn. done.
Qed.

(** C13: A correction never makes a rollup out of date.  If the current rollup
    of a period is no older than the first versions of its source periods - as
    it is once the rollup has run - then, whatever later versions those periods
    have been given by corrections or re-consolidation, running the rollup again
    changes nothing and reports success: the staleness query asks for source
    rows that supersede nothing, which are first versions and not current
    ones. *)
Theorem rollup_ignores_corrections (s : Scope) (level sourceLevel period : string) (sourcePeriods : list string)
    (r : SummaryRow) (w : world) :
  let d := w.(w_db) in
  histWf (sums d) -> r ∈ d.(summaries) -> samePeriod s level period r = true -> isCurrent (sums d) (plainSummary r) ->
  (forall x, x ∈ d.(summaries) -> samePeriod s sourceLevel (periodOf x) x = true -> periodOf x ∈ sourcePeriods ->
     x.(s_supersedes) = None -> x.(s_info).(i_created_at) <= r.(s_info).(i_created_at)) ->
  wp (rollup s level sourceLevel period sourcePeriods)
    (fun res w' => w'.(w_db) = d /\ (w.(w_faults) = [] -> res = Ok tt)) w.
Proof.
  destruct w as [d p fs]. cbn [w_db w_faults]. intros Hwf Hr Hp Hc Hold.
  destruct (currentID_is d s level period r Hwf Hr Hp Hc) as [Ei Hne].
  unfold RunRollup. cbn [runRollup]. apply wp_bind, wp_wrap, wp_Run; [done|]. intros fs1 Hq1.
  assert (Hno : fs1 <> [] -> fs = [] -> False) by (intros Hf E; by apply Hf, Hq1).
  unfold rollupSources, currentSummaryID. apply wp_bind, wp_query; [|intros Hf; split; [oracle|]; intros fs2 _; split; [done|intros E; by destruct Hno]].
  rewrite Ei, (proj2 (String.eqb_neq _ _)) by done.
  apply wp_bind, wp_not_stale; [done|done|by apply samePeriod_spec in Hp as []| | |].
  - intros x Hx Hs. unfold stalenessSource in Hs. rewrite !andb_true_iff, String.eqb_eq, !bool_decide_eq_true in Hs.
    destruct Hs as ((((_ & El) & Ep) & En) & Es). apply Hold; [done| |done|done]. by apply samePeriod_spec.
  - intros fs2 Hq2. apply wp_ret. split; [cbn; oracle|]. intros fs3 Hq3. cbn. split.
    + by split.
    + intros Hf msg. split; [done|]. by intros ->.
  - intros e fs2 Hq2 Hf. split; [oracle|]. intros fs3 _. split; [done|]. intros E. destruct Hno; [by destruct fs1|done].
Qed.
End Claims.

(** ** A concrete week *)

#[local] Existing Instance asciiUnicode.
Import Toy.
#[local] Existing Instances toyEmbedder toyFormat toyClock.

(** The week's rollup has run; then a summary of the week is corrected. *)
Definition weekDone : world := (weekBatch weekWorld).2.
Definition weekCorrected : world := (weekCorrect weekDone).2.
Definition weekDays : list string :=
  ["2024-04-29"; "2024-04-30"; "2024-05-01"; "2024-05-02"; "2024-05-03"; "2024-05-04"; "2024-05-05"].

Definition weekRollup : M () :=
  RunRollup kek weekModel weekModel "ground" "summarize" None ada "weekly" "daily" "2024-W18" weekDays.

Definition sourceTexts (w : world) : list (option string) :=
  map (summaryText kek w.(w_db)) (sourceRows (MkSession ada ada) ada "daily" weekDays w.(w_db)).

Definition noRow : SummaryRow := MkSummaryRow "" ada None 0 None None None (MkSummaryInfo "" "" "" "" [] [] [] None 0).
Definition weeklyRow : SummaryRow := default noRow (summaries (w_db weekCorrected) !! 2%nat).

Lemma respects_run D (m : M ()) w : respects D m -> D (w_db w) (w_db (m w).2).
Proof. intros H. specialize (H w). unfold wp in H. by destruct (m w). Qed.

Lemma weekBatch_step : respects batchStep weekBatch.
Proof. unfold weekBatch. apply batch_consolidateAll. Qed.
Lemma weekCorrect_step : respects batchStep weekCorrect.
Proof. unfold weekCorrect. apply batch_Correct. Qed.

Lemma weekDone_step : batchStep (w_db weekWorld) (w_db weekDone).
Proof. unfold weekDone. exact (respects_run batchStep weekBatch weekWorld weekBatch_step). Qed.

Lemma weekCorrected_step : batchStep (w_db weekDone) (w_db weekCorrected).
Proof. unfold weekCorrected. exact (respects_run batchStep weekCorrect weekDone weekCorrect_step). Qed.

Lemma weekCorrected_history : histWf (sums (w_db weekCorrected)).
Proof. exact (bs_history _ _ weekCorrected_step (bs_history _ _ weekDone_step weekWorld_history)). Qed.

Lemma weeklyRow_at : summaries (w_db weekCorrected) !! 2%nat = Some weeklyRow.
Proof. vm_compute. reflexivity. Qed.

(** Every row that supersedes nothing is no newer than this one. *)
Definition firstsBefore (r : SummaryRow) (l : list SummaryRow) : bool :=
  forallb (fun x => negb (bool_decide (s_supersedes x = None)) || (i_created_at (s_info x) <=? i_created_at (s_info r))) l.

Lemma firstsBefore_spec r l x : firstsBefore r l = true -> x ∈ l -> s_supersedes x = None ->
  x.(s_info).(i_created_at) <= r.(s_info).(i_created_at).
Proof.
  intros H Hx En. unfold firstsBefore in H. rewrite List.forallb_forall in H.
  specialize (H x (proj1 (list_elem_of_In _ _) Hx)). rewrite bool_decide_eq_true_2 in H by done. by apply Z.leb_le.
Qed.

Lemma rollup_ignores_corrections_witness :
  wp weekRollup (fun res w' => w'.(w_db) = w_db weekCorrected /\ (w_faults weekCorrected = [] -> res = Ok tt)) weekCorrected /\
  weekIds weekCorrected =
    [("sum_ada_2024-05-01_daily_v1", None); ("sum_ada_2024-05-06_daily_v1", None); ("sum_ada_2024-W18_weekly_v1", None);
     ("sum_ada_2024-05-01_daily_v2", Some "sum_ada_2024-05-01_daily_v1")] /\
  sourceTexts weekDone = [Some "first"] /\ sourceTexts weekCorrected = [Some "Ada left Acme"].
Proof.
  split; [|vm_compute; repeat split; reflexivity]. unfold weekRollup.
  apply (rollup_ignores_corrections kek weekModel weekModel "ground" "summarize" None ada "weekly" "daily" "2024-W18" weekDays
           weeklyRow weekCorrected).
  - apply weekCorrected_history.
  - exact (list_elem_of_lookup_2 _ _ _ weeklyRow_at).
  - vm_compute. reflexivity.
  - apply (superseded_spec (w_db weekCorrected) ada); [apply weekCorrected_history| | |].
    + exact (list_elem_of_lookup_2 _ _ _ weeklyRow_at).
    + vm_compute. reflexivity.
    + vm_compute. reflexivity.
  - intros x Hx _ _. apply (firstsBefore_spec weeklyRow (summaries (w_db weekCorrected))); [vm_compute; reflexivity|done].
Defined.

Lemma rollup_cascade_ends_witness :
  (levelsAbove "weekly" < 3)%nat /\
  runRollup kek weekModel weekModel "ground" "summarize" None 3 ada "weekly" "daily" "2024-W18" weekDays weekWorld =
  RunRollup kek weekModel weekModel "ground" "summarize" None ada "weekly" "daily" "2024-W18" weekDays weekWorld.
Proof.
  assert (H : (levelsAbove "weekly" < 3)%nat) by (vm_compute; lia). split; [exact H|].
  exact (rollup_cascade_ends kek weekModel weekModel "ground" "summarize" None 3 ada "weekly" "daily" "2024-W18" weekDays
           weekWorld H).
Defined.

(** *** The day's summary as a source *)

Lemma afterFirst_inv : storeInv kek (w_db afterFirst) (cache (w_proc afterFirst)).
Proof.
  assert (H : wp (runDay (dayInput "first" "")) (fun _ w' => storeInv kek (w_db w') (cache (w_proc w'))) world0).
  { unfold runDay. eapply wp_mono.
    - apply wp_storeSummary; [apply storeInv_empty|apply dayUtf8|]. apply Forall_forall. by intros e _ r.
    - intros r w' [H _]. exact H. }
  unfold afterFirst, wp in *. by destruct (runDay (dayInput "first" "") world0).
Qed.

Lemma afterFirst_history : histWf (sums (w_db afterFirst)).
Proof. exact (bs_history _ _ afterFirst_step histWf_nil). Qed.

Definition keysStored (d : db) (s : Scope) : bool :=
  forallb (fun r => bool_decide (is_Some (d.(scope_keys) !! (s, s_key_version r)))) d.(summaries).

Lemma keysStored_spec d s r : keysStored d s = true -> r ∈ summaries d -> is_Some (d.(scope_keys) !! (s, s_key_version r)).
Proof.
  intros H Hr. unfold keysStored in H. rewrite List.forallb_forall in H.
  specialize (H r (proj1 (list_elem_of_In _ _) Hr)). by apply bool_decide_eq_true in H.
Qed.

Lemma rollup_reads_current_witness :
  (let d := w_db afterFirst in
   let rows := sourceRows (MkSession ada ada) ada "daily" weekDays d in
   (forall r, r ∈ rows <-> isSource d ada "daily" weekDays r) /\
   StronglySorted (fun a b => String.ltb (periodOf b) (periodOf a) = false) rows /\ NoDup (periodOf <$> rows) /\
   (forall x, x ∈ d.(summaries) -> samePeriod ada "daily" (periodOf x) x = true -> periodOf x ∈ weekDays ->
      periodOf x ∈ (periodOf <$> rows)) /\
   wp (loadSummaries kek (MkSession ada ada) ada "daily" weekDays) (fun res w' => w'.(w_db) = d /\
     match res with
     | Ok srcs => Forall2 (loadedAs kek d) rows srcs
     | Err _ => (w_faults afterFirst) = [] -> exists r, r ∈ rows /\ summaryText kek d r = None
     end) afterFirst) /\
  sourceTexts afterFirst = [Some "first"].
Proof.
  split; [|vm_compute; reflexivity].
  apply (rollup_reads_current kek ada "daily" weekDays afterFirst).
  - exact afterFirst_history.
  - exact afterFirst_inv.
  - intros r (Hr & _). apply keysStored_spec; [vm_compute; reflexivity|exact Hr].
Defined.
