(* ===== verification/Facts.v ===== *)
(** * Facts: which of a summary's facts come first
    ([src/internal/store/retrieve.go], from [keyFact] to
    [rankFactsByRelevance])

    Reciprocal-rank fusion of a lexical and a semantic order.  A function
    returns [None] where the Go code panics. *)

From Stdlib Require Import SpecFloat.
From stdpp Require Import gmap.
From S2P Require Import Prelude Utf8 Float Text Bm25 Temporal.
#[local] Open Scope string_scope.
#[local] Open Scope list_scope.
#[local] Open Scope Z_scope.

(** A fact and its cosine similarity to the query, if it has one. *)
Record keyFact := MkKeyFact { kf_text : string; kf_similarity : option f64 }.

Definition keyFactTexts (facts : list keyFact) : list string := map kf_text facts.

Definition rrfK : f64 := f1.

Definition reciprocalRank (rank : Z) : f64 := fdiv f1 (fadd rrfK (fofZ (rank + 1))).

Definition factMarkerFusedMargin : f64 := fratio 1 10.
Definition guaranteedFactMaxCount : Z := 3.
Definition guaranteedProseFallbackChars : Z := 300.
Definition guaranteeSectionFraction : f64 := fratio 1 2.
Definition guaranteeMinPerSummary : Z := 220.
Definition guaranteeMinFactChars : Z := 60.
Definition proseDepthCap : Z := 500.
Definition summaryDepthCap : Z := 700.

(** [v[i]] of a list of scores, for the indices the code makes. *)
Definition scoreAt (scores : list f64) (i : nat) : f64 := nth i scores f0.

(** [sort.SliceStable(order, scores[order[a]] > scores[order[b]])] from
    [0 .. n-1]. *)
Definition byScore (scores : list f64) : list nat :=
  sort_by (fun a b => fgt (scoreAt scores a) (scoreAt scores b)) (seq 0 (length scores)).

(** [for rank, idx := range order { ranks[idx] = rank }] *)
Definition ranksOf (order : list nat) : list nat :=
  foldl (fun ranks ri => <[ri.2 := ri.1]> ranks) (replicate (length order) 0%nat) (zip (seq 0 (length order)) order).

Section Facts.
Context `{HU : Unicode, HL : MathLog}.
Variable Getenv : string -> string.

Definition semanticFactRankingEnabled : bool := negb (String.eqb (Getenv "HUPI_ENABLE_SEMANTIC_FACT_RANKING") "false").

Definition factScores (facts queryTerms : list string) : list f64 :=
  let docs := map (newBM25Document "") facts in
  let docFreq := bm25DocFrequency docs in
  map (fun doc => bm25ScoreNoLengthNorm doc queryTerms docFreq (Z.of_nat (length docs))) docs.

(** The loop of [mostRelevantFactIndex]: best, its score, and whether it is
    tied; -1 for none yet. *)
Fixpoint bestFact (scores : list f64) (i best : Z) (bestScore : f64) (tied : bool) : Z * f64 * bool :=
  match scores with
  | [] => (best, bestScore, tied)
  | score :: scores' =>
      if fgt score bestScore then bestFact scores' (i + 1) i score false
      else bestFact scores' (i + 1) best bestScore
             (if feq score bestScore && negb (i =? best) then true else tied)
  end.

Definition mostRelevantFactIndex (facts queryTerms : list string) : Z :=
  if (length facts <? 2)%nat || (length queryTerms =? 0)%nat then -1
  else
    let '(best, bestScore, tied) := bestFact (factScores facts queryTerms) 0 (-1) f0 false in
    if feq bestScore f0 || tied then -1 else best.

Definition rankFactsByRelevance (facts queryTerms : list string) : list nat :=
  if (length queryTerms =? 0)%nat then seq 0 (length facts)
  else byScore (factScores facts queryTerms).

(** The order, and the fact to mark as most relevant, -1 for none. *)
Definition rankKeyFacts (facts : list keyFact) (queryTerms : list string) : list nat * Z :=
  let texts := keyFactTexts facts in
  let lexOrder := rankFactsByRelevance texts queryTerms in
  let lexBest := mostRelevantFactIndex texts queryTerms in
  if negb semanticFactRankingEnabled || (length facts =? 0)%nat then (lexOrder, lexBest)
  else if negb (forallb (fun f => bool_decide (is_Some (kf_similarity f))) facts) then (lexOrder, lexBest)
  else
    let lexRank := ranksOf lexOrder in
    let semOrder := byScore (map (fun f => default f0 (kf_similarity f)) facts) in
    let semRank := ranksOf semOrder in
    let fused := map (fun i => fadd (reciprocalRank (Z.of_nat (nth i lexRank 0%nat)))
                                    (reciprocalRank (Z.of_nat (nth i semRank 0%nat)))) (seq 0 (length facts)) in
    let order := byScore fused in
    let best :=
      match order with
      | a :: b :: _ => if fge (fsub (scoreAt fused a) (scoreAt fused b)) factMarkerFusedMargin then Z.of_nat a else -1
      | _ => -1
      end in
    (order, best).

Definition factAt (facts : list keyFact) (i : nat) : string := nth i (keyFactTexts facts) "".

Definition writeKeyFacts (facts : list keyFact) (queryTerms : list string) : string :=
  let '(order, best) := rankKeyFacts facts queryTerms in
  String.concat "" (map (fun idx =>
    newline +:+ ((if Z.of_nat idx =? best then "  - (most relevant) " else "  - ") +:+ factAt facts idx)) order).

Definition guaranteedFact (prose : string) (facts : list keyFact) (queryTerms : list string) : option string :=
  if (length facts =? 0)%nat then truncateToBudget prose guaranteedProseFallbackChars
  else if Z.of_nat (length facts) <=? guaranteedFactMaxCount then Some (String.concat " " (keyFactTexts facts))
  else match (rankKeyFacts facts queryTerms).1 with
       | idx :: _ => Some (factAt facts idx)
       | [] => None
       end.

Definition guaranteeBudgetPerSummary (numPicks : Z) : Z :=
  if numPicks <=? 0 then 0
  else
    let share := Z.quot (truncZ (fmul (fofZ (contextCharBudget Getenv)) guaranteeSectionFraction)) numPicks in
    if share <? guaranteeMinPerSummary then guaranteeMinPerSummary else share.

Definition depthText (prose : string) (facts : list keyFact) (queryTerms : list string) : option string :=
  t ← truncateToBudget prose proseDepthCap;
  Some (writeKeyFacts facts queryTerms +:+ (newline +:+ t)).

Definition summaryCitationSnippet (prose : string) (facts : list keyFact) (queryTerms : list string) : string :=
  let best := (rankKeyFacts facts queryTerms).2 in
  if 0 <=? best then prose +:+ (newline +:+ ("  - (most relevant) " +:+ factAt facts (Z.to_nat best)))
  else prose.
End Facts.

(** ** Lemmas *)

Lemma byScore_perm scores : byScore scores ≡ₚ seq 0 (length scores).
Proof. apply sort_by_perm. Qed.

Section FactLemmas.
Context `{HU : Unicode, HL : MathLog}.
Variable Getenv : string -> string.

Lemma factScores_length facts qs : length (factScores facts qs) = length facts.
Proof. unfold factScores. by rewrite !length_map. Qed.

Lemma rankFacts_perm facts qs : rankFactsByRelevance facts qs ≡ₚ seq 0 (length facts).
Proof.
  unfold rankFactsByRelevance. case_match; [done|]. rewrite byScore_perm. by rewrite factScores_length.
Qed.

Lemma rankKeyFacts_perm facts qs : (rankKeyFacts Getenv facts qs).1 ≡ₚ seq 0 (length facts).
Proof.
  assert (Hlex : rankFactsByRelevance (keyFactTexts facts) qs ≡ₚ seq 0 (length facts)).
  { rewrite rankFacts_perm. unfold keyFactTexts. by rewrite length_map. }
  unfold rankKeyFacts. repeat (case_match; [done|]). cbn [fst]. rewrite byScore_perm.
  by rewrite length_map, length_seq.
Qed.

(** *** The one best score *)

Definition numbers (scores : list f64) : Prop := Forall (fun x => isNaN x = false) scores.

Lemma fgt_key a b : isNaN a = false -> isNaN b = false -> fgt a b = klt (fkey b) (fkey a).
Proof. intros Ha Hb. exact (flt_key b a Hb Ha). Qed.

(** Above one that no other exceeds. *)
Lemma fgt_over a b c :
  isNaN a = false -> isNaN b = false -> isNaN c = false -> fgt a b = true -> fgt c b = false -> fgt a c = true.
Proof.
  intros Ha Hb Hc. rewrite !fgt_key by done. intros Hab Hcb.
  destruct (sw_cotrans (less := klt) (fkey b) (fkey c) (fkey a) Hab) as [H|H]; [congruence|done].
Qed.

Record bestInv (pre : list f64) (best : Z) (bs : f64) (tied : bool) : Prop := MkBestInv {
  bi_num : isNaN bs = false;
  bi_top : forall x, x ∈ pre -> fgt x bs = false;
  bi_at : (best = -1 /\ bs = f0) \/
          (exists k, best = Z.of_nat k /\ pre !! k = Some bs /\
             (tied = false -> forall j x, pre !! j = Some x -> j <> k -> fgt bs x = true))
}.

Lemma fgt_self a : fgt a a = false.
Proof.
  destruct (isNaN a) eqn:E; [|rewrite fgt_key by done; apply (sw_irrefl (less := klt))].
  apply not_true_iff_false. intros H%fgt_nan_l. congruence.
Qed.

(** Neither greater nor equal is less. *)
Lemma fgt_total a b : isNaN a = false -> isNaN b = false -> fgt a b = false -> feq a b = false -> fgt b a = true.
Proof.
  intros Ha Hb. rewrite !fgt_key, feq_key by done. intros H1 H2. apply bool_decide_eq_false in H2.
  destruct (klt (fkey a) (fkey b)) eqn:E; [done|]. by destruct H2; apply klt_total.
Qed.

Lemma bestFact_inv scores : forall pre best bs tied n s t,
  numbers pre -> numbers scores -> bestInv pre best bs tied ->
  bestFact scores (Z.of_nat (length pre)) best bs tied = (n, s, t) -> bestInv (pre ++ scores) n s t.
Proof.
  induction scores as [|x scores IH]; intros pre best bs tied n s t Hp Hs Hi; cbn [bestFact].
  { intros [= <- <- <-]. by rewrite app_nil_r. }
  apply Forall_cons in Hs as [Hx Hs]. pose proof Hi as [Hn Htop Hat]. unfold numbers in Hp. rewrite Forall_forall in Hp.
  assert (Hp' : numbers (pre ++ [x])).
  { apply Forall_app. split; [by apply Forall_forall|by constructor]. }
  assert (El : Z.of_nat (length pre) + 1 = Z.of_nat (length (pre ++ [x]))) by (rewrite length_app; cbn; lia).
  rewrite El. replace (pre ++ x :: scores) with ((pre ++ [x]) ++ scores) by by rewrite <- app_assoc.
  destruct (fgt x bs) eqn:E; apply IH; try done.
  - assert (Hover : forall y, y ∈ pre -> fgt x y = true).
    { intros y Hy. eapply (fgt_over x bs y); [done|done|by apply Hp|done|by apply Htop]. }
    split; [done| |].
    + intros y [Hy| ->%list_elem_of_singleton]%elem_of_app; [|apply fgt_self].
      specialize (Hover y Hy). rewrite fgt_key in * by (done || by apply Hp). apply not_true_iff_false. intros H.
      pose proof (sw_trans (less := klt) _ _ _ Hover H) as H'. by rewrite (sw_irrefl (less := klt)) in H'.
    + right. exists (length pre). split_and!; [done|by rewrite lookup_app_r, Nat.sub_diag|].
      intros _ j y Hj Hne. apply Hover. apply lookup_app_Some in Hj as [Hj|[Hge Hj]]; [by eapply list_elem_of_lookup_2|].
      apply list_lookup_singleton_Some in Hj as [Hj _]. lia.
  - split; [done| |].
    + by intros y [Hy| ->%list_elem_of_singleton]%elem_of_app; [apply Htop|].
    + destruct Hat as [Hat|(k & -> & Hk & Ht)]; [by left|right]. pose proof (lookup_lt_Some _ _ _ Hk).
      exists k. split_and!; [done|by apply lookup_app_l_Some|].
      destruct (feq x bs) eqn:Ef; cbn [andb].
      * rewrite (proj2 (Z.eqb_neq _ _)) by lia. done.
      * intros Ht' j y Hj Hne. apply lookup_app_Some in Hj as [Hj|[Hge Hj]]; [by eapply Ht|].
        apply list_lookup_singleton_Some in Hj as [_ <-]. by apply fgt_total.
Qed.

(** The fact said to be the most relevant outscores every other. *)
Lemma mostRelevant_best facts qs k :
  numbers (factScores facts qs) -> mostRelevantFactIndex facts qs = Z.of_nat k ->
  (k < length facts)%nat /\
  forall j, (j < length facts)%nat -> j <> k -> fgt (scoreAt (factScores facts qs) k) (scoreAt (factScores facts qs) j) = true.
Proof.
  intros Hn. unfold mostRelevantFactIndex. case_match; [intros; lia|].
  destruct (bestFact _ _ _ _ _) as [[best bs] tied] eqn:E.
  destruct (feq bs f0 || tied) eqn:Et; [lia|]. apply orb_false_iff in Et as [Ez Et]. intros ->.
  apply (bestFact_inv _ []) in E; [|constructor|done|].
  2: { split; [done|by intros x ?%elem_of_nil|by left]. }
  cbn [app] in E. destruct E as [_ _ [[Hb _]|(k' & Hk' & Hk & Ht)]]; [lia|]. assert (k' = k) as -> by lia.
  pose proof (lookup_lt_Some _ _ _ Hk) as Hlt. rewrite factScores_length in Hlt. split; [done|].
  intros j Hj Hne. rewrite <- (factScores_length facts qs) in Hj. destruct (lookup_lt_is_Some_2 _ _ Hj) as [y Hy].
  unfold scoreAt. rewrite (nth_lookup_Some _ _ _ _ Hk), (nth_lookup_Some _ _ _ _ Hy). by eapply Ht.
Qed.

Lemma mostRelevantFactIndex_range facts qs :
  mostRelevantFactIndex facts qs = -1 \/ exists k, mostRelevantFactIndex facts qs = Z.of_nat k.
Proof.
  unfold mostRelevantFactIndex. case_match; [by left|].
  assert (Hr : forall scores i best bs tied, 0 <= i -> (best = -1 \/ 0 <= best) ->
    let n := (bestFact scores i best bs tied).1.1 in n = -1 \/ 0 <= n).
  { induction scores as [|x scores IH]; intros i best bs tied Hi Hb; cbn [bestFact]; [done|].
    case_match; apply IH; lia. }
  specialize (Hr (factScores facts qs) 0 (-1) f0 false ltac:(lia) ltac:(by left)).
  destruct (bestFact _ _ _ _ _) as [[best bs] tied]. cbn in Hr. case_match; [by left|].
  destruct Hr as [->|Hr]; [by left|right]. exists (Z.to_nat best). lia.
Qed.

(** It comes first in the order. *)
Lemma byScore_head scores k :
  numbers scores -> (k < length scores)%nat ->
  (forall j, (j < length scores)%nat -> j <> k -> fgt (scoreAt scores k) (scoreAt scores j) = true) ->
  head (byScore scores) = Some k.
Proof.
  intros Hn Hk Hbest. assert (Hin : k ∈ byScore scores) by (rewrite byScore_perm; apply elem_of_seq; lia).
  assert (Hnum : forall i, isNaN (scoreAt scores i) = false).
  { intros i. unfold scoreAt. destruct (nth_in_or_default i scores f0) as [H| ->]; [|done].
    unfold numbers in Hn. rewrite Forall_forall in Hn. by apply Hn, list_elem_of_In. }
  unfold byScore in *.
  rewrite (sort_by_ext _ (fun a b => klt (fkey (scoreAt scores b)) (fkey (scoreAt scores a)))) in *
    by (intros x y _ _; by apply fgt_key).
  pose proof (sort_by_sorted (fun a b => klt (fkey (scoreAt scores b)) (fkey (scoreAt scores a))) (seq 0 (length scores))) as Hs.
  pose proof (sort_by_perm (fun a b => klt (fkey (scoreAt scores b)) (fkey (scoreAt scores a))) (seq 0 (length scores))) as Hp.
  destruct (sort_by _ _) as [|h l]; [by apply elem_of_nil in Hin|]. cbn. f_equal.
  destruct (decide (h = k)) as [|Hne]; [done|exfalso]. apply elem_of_cons in Hin as [|Hin]; [done|].
  apply StronglySorted_inv in Hs as [_ Hs]. rewrite Forall_forall in Hs. specialize (Hs k Hin). unfold nless in Hs.
  rewrite <- fgt_key in Hs by done. rewrite Hbest in Hs; [done| |done].
  assert (h ∈ seq 0 (length scores)) as Hh by (rewrite <- Hp; by left). apply elem_of_seq in Hh. lia.
Qed.
End FactLemmas.

(** ** Properties *)

Section Claims.
Context `{HU : Unicode, HL : MathLog}.
Variable Getenv : string -> string.

(** C31: The order of a summary's facts names every fact exactly once, so each
    is written once; the fact marked as the most relevant, if any, is the first
    written, and it is the one guaranteed a place when there are too many to
    guarantee all.  For keyword scores that are numbers. *)
Theorem key_facts_ranked (prose : string) (facts : list keyFact) (qs : list string) :
  numbers (factScores (keyFactTexts facts) qs) ->
  let '(order, best) := rankKeyFacts Getenv facts qs in
  order ≡ₚ seq 0 (length facts) /\
  (best = -1 \/ 0 <= best /\ head order = Some (Z.to_nat best) /\
     (guaranteedFactMaxCount < Z.of_nat (length facts) ->
      guaranteedFact Getenv prose facts qs = Some (factAt facts (Z.to_nat best)))).
Proof.
  intros Hn. pose proof (rankKeyFacts_perm Getenv facts qs) as Hp.
  assert (Hh : let '(order, best) := rankKeyFacts Getenv facts qs in
    best = -1 \/ 0 <= best /\ head order = Some (Z.to_nat best)).
  { assert (Hlex : mostRelevantFactIndex (keyFactTexts facts) qs = -1 \/
      0 <= mostRelevantFactIndex (keyFactTexts facts) qs /\
      head (rankFactsByRelevance (keyFactTexts facts) qs) = Some (Z.to_nat (mostRelevantFactIndex (keyFactTexts facts) qs))).
    { destruct (mostRelevantFactIndex_range (keyFactTexts facts) qs) as [E|[k E]]; [by left|right].
      destruct (mostRelevant_best _ _ _ Hn E) as [Hk Hb]. rewrite E, Nat2Z.id. split; [lia|].
      unfold rankFactsByRelevance. unfold mostRelevantFactIndex in E.
      destruct (Nat.eqb_spec (length qs) 0) as [E0|_]; [rewrite orb_true_r in E; lia|].
      apply byScore_head; rewrite ?factScores_length; done. }
    unfold rankKeyFacts. destruct (negb _ || _); [done|]. destruct (negb (forallb _ _)); [done|]. cbv beta zeta iota.
    set (fused := map _ (seq 0 _)). destruct (byScore fused) as [|a [|b l]]; [by left|by left|].
    destruct (fge _ _); [|by left]. right. split; [lia|]. cbn. by rewrite Nat2Z.id. }
  destruct (rankKeyFacts Getenv facts qs) as [order best] eqn:E. cbn in Hp. split; [done|].
  destruct Hh as [->|[Hb Hh]]; [by left|right]. split_and!; [done|done|]. intros Hl. unfold guaranteedFact, guaranteedFactMaxCount in *.
  destruct (Nat.eqb_spec (length facts) 0) as [E0|_]; [rewrite E0 in Hl; lia|].
  rewrite (proj2 (Z.leb_gt _ _)) by done. rewrite E. cbn [fst]. destruct order; [done|]. cbn in Hh. by injection Hh as ->.
Qed.
End Claims.

(** ** Concrete facts *)

#[local] Existing Instance asciiUnicode.
#[local] Instance oneLog : MathLog := { Log := fun _ => f1 }.

Definition threeFacts : list keyFact :=
  [MkKeyFact "Ada joined Acme" (Some (fratio 1 2)); MkKeyFact "Ada bought a bicycle" (Some (fratio 9 10));
   MkKeyFact "The weather was fine" (Some (fratio 1 10)); MkKeyFact "Nothing else happened" (Some (fratio 1 5))].

Lemma key_facts_ranked_witness :
  (let '(order, best) := rankKeyFacts (fun _ => "") threeFacts ["bicycle"] in
   order ≡ₚ seq 0 (length threeFacts) /\
   (best = -1 \/ 0 <= best /\ head order = Some (Z.to_nat best) /\
      (guaranteedFactMaxCount < Z.of_nat (length threeFacts) ->
       guaranteedFact (fun _ => "") "prose" threeFacts ["bicycle"] = Some (factAt threeFacts (Z.to_nat best))))) /\
  rankKeyFacts (fun _ => "") threeFacts ["bicycle"] = ([1; 0; 2; 3]%nat, 1).
Proof.
  split; [|vm_compute; reflexivity].
  apply (key_facts_ranked (fun _ => "") "prose" threeFacts ["bicycle"]).
  vm_compute. repeat constructor.
Defined.
