(* ===== verification/Signals.v ===== *)
(** * Signals: what a message asks for, and who it names
    ([src/internal/store/retrieve.go], stage one)

    The keyword and question signals, the entities whose name the message
    contains, an entity's line and the anchor every answer starts from. *)

From stdpp Require Import gmap.
From S2P Require Import Prelude Identity Schema Db KeyStore Rotate Utf8 Json Float Text Embed Keeps Reembed.
From S2P Require Import Civil Temporal Slug Entities Sources.
#[local] Open Scope string_scope.
#[local] Open Scope list_scope.
#[local] Open Scope Z_scope.

Definition stage1SignalKeywords : list string :=
  ["remember"; "recall"; "decided"; "decide"; "prefer";
   "we discussed"; "last time"; "again"; "what did"; "earlier"; "before"].

Definition recommendationKeywords : list string :=
  ["recommend"; "suggest"; "should i"; "any tips"; "any advice";
   "do you think"; "any ideas"; "what would you"; "any suggestions";
   "could there be a reason"; "why might"; "any idea why"].

Definition orderingKeywords : list string :=
  ["order of"; "which came first"; "came first"; "first or"; "or first";
   "which task did i"; "which item did i"; "which did i";
   "how many months"; "how many weeks"; "how many days";
   "in a row"; "consecutive"; "earliest to latest"; "earliest"].

Definition stage1QuestionStarters : list string :=
  ["what"; "whats"; "when"; "whens"; "where"; "wheres";
   "who"; "whos"; "whom"; "whose"; "why"; "whys"; "how"; "hows";
   "is"; "are"; "was"; "were"; "do"; "does"; "did";
   "can"; "could"; "should"; "would"; "will"; "has"; "have"; "had"].

(** [strings.HasSuffix] *)
Fixpoint HasSuffix (s suffix : string) : bool :=
  String.eqb s suffix || match s with EmptyString => false | String _ s' => HasSuffix s' suffix end.

Record Message := MkMessage { Role : string; Content : string }.

Definition RoleUser : string := "user".

Definition lastUserMessage (msgs : list Message) : string :=
  match List.find (fun m => String.eqb m.(Role) RoleUser) (rev msgs) with
  | Some m => m.(Content)
  | None => ""
  end.

Definition refIDsOfKind (refs : list Ref) (kind : string) : list string :=
  map ref_id (List.filter (fun r => String.eqb r.(ref_kind) kind) refs).

(** What follows the first colon, or all of it. *)
Fixpoint afterColon (id : string) : option string :=
  match id with
  | EmptyString => None
  | String c id' => if Ascii.eqb c ":" then Some id' else afterColon id'
  end.

Definition slugPart (id : string) : string := default id (afterColon id).

Section Query.
Context `{HU : Unicode}.

Definition containsAny (query : string) (keywords : list string) : bool := existsb (Contains (ToLower query)) keywords.

Definition looksLikeRecommendationRequest (query : string) : bool := containsAny query recommendationKeywords.
Definition looksLikeOrderingRequest (query : string) : bool := containsAny query orderingKeywords.
Definition stage1KeywordSignal (query : string) : bool := containsAny query stage1SignalKeywords.

(** [strings.TrimSpace]; bytes that are no rune come out as U+FFFD, which no
    test here looks for. *)
Definition TrimSpace (s : string) : string := ofRunes (trimSpace (runes s)).

Definition stage1QuestionSignal (query : string) : bool :=
  let trimmed := TrimSpace query in
  if String.eqb trimmed "" then false
  else if HasSuffix trimmed "?" then true
  else
    let lower := ToLower trimmed in
    existsb (fun w => String.eqb lower w || String.prefix (w +:+ " ") lower) stage1QuestionStarters.
End Query.

(** ** Matched entities *)

Record entityMatch := MkEntityMatch { em_id : string; em_lastUpdated : Z }.

(** [, <what> <day> (<relative>)], if the relative label is not empty. *)
Definition dateLabelOf (what day rel : string) : string :=
  if String.eqb rel "" then "" else ", " +:+ (what +:+ (" " +:+ (day +:+ (" (" +:+ (rel +:+ ")"))))).

(** The label of an entity; its date is a midnight UTC. *)
Definition entityDateLabel (lastUpdated now : Z) : string :=
  dateLabelOf "last updated" (formatDay lastUpdated) (relativeDateLabel (midnight lastUpdated) now).

Section Stage1.
Context `{HA : AEAD, HU : Unicode}.
Variable kek : string.

Definition namedIn (lowerQuery : string) (r : EntityRow) : bool :=
  negb (String.eqb r.(n_name) "") && Contains lowerQuery (ToLower r.(n_name)) ||
  negb (String.eqb (slugPart r.(n_id)) "") && Contains lowerQuery (ToLower (slugPart r.(n_id))).

Definition stage1EntityMatches (se : session) (scope : Scope) (query : string) : M (list entityMatch) :=
  rows ← Db.query (fun d => List.filter (fun r => visible se r.(n_scope) && negb (String.eqb r.(n_kind) "self_model") &&
                                          bool_decide (r.(n_scope) = scope)) d.(entities));
  mret (map (fun r => MkEntityMatch r.(n_id) r.(n_dates).(last_updated)) (List.filter (namedIn (ToLower query)) rows)).

Definition formatEntity (se : session) (scope : Scope) (id dateLabel : string) : M string :=
  row ← queryRow (selectEntity se scope id);
  enc ← wrapErr "resolve encryption key" (GetVersion kek scope row.(n_key_version));
  attrs ← lift (Decrypt enc row.(n_attributes));
  mret ("entity " +:+ (id +:+ (dateLabel +:+ (" (" +:+ (row.(n_name) +:+ ("): " +:+ attrs)))))).

(** *** The anchor *)

Record Citation := MkCitation { c_ref : Ref; c_snippet : string }.

Definition selfModel (se : session) (actingUser : Scope) (d : db) : option EntityRow :=
  List.find (fun r => visible se r.(n_scope) && (String.eqb r.(n_kind) "self_model" && bool_decide (r.(n_scope) = actingUser)))
    d.(entities).

(** [order by period desc limit 1] *)
Definition latestDaily (se : session) (ws : Scope) (d : db) : option SummaryRow :=
  head (sort_by (fun a b => String.ltb (i_period (s_info b)) (i_period (s_info a)))
    (List.filter (fun r => visible se r.(s_scope) && (String.eqb r.(s_info).(i_level) "daily" && bool_decide (r.(s_scope) = ws)) &&
                          current se d r) d.(summaries))).

(** The text every answer starts with, and its citations; each cites its ref. *)
Definition buildAnchor (se : session) (actingUser ws : Scope) : M (string * list Ref * list Citation) :=
  self ← wrapErr "load self_model" (Db.query (selfModel se actingUser));
  r ← match self with
      | None => mret ("", [], [])
      | Some row =>
          actingEnc ← wrapErr "resolve encryption key for self_model" (GetVersion kek actingUser row.(n_key_version));
          attrs ← lift (wrapRes "decrypt self_model attributes" (Decrypt actingEnc row.(n_attributes)));
          let ref := MkRef RefKindEntity actingUser row.(n_id) in
          mret ("self_model: " +:+ (attrs +:+ newline), [ref], [MkCitation ref ("self_model: " +:+ attrs)])
      end;
  latest ← wrapErr "load latest daily summary period" (Db.query (latestDaily se ws));
  mret (match latest with
        | None => r
        | Some row => (r.1.1 +:+ ("(latest daily summary: " +:+ (row.(s_info).(i_period) +:+ (")" +:+ newline))), r.1.2, r.2)
        end).
End Stage1.
