(* ===== verification/Search.v ===== *)
(** * Search: the mechanisms that find memory
    ([src/internal/store/retrieve.go], the searches)

    Summaries are found by their vector, by keyword and by their facts'
    vectors, fused by reciprocal rank and picked for relevance and diversity;
    episodes and entities by vector and by keyword; entities along
    relationships.  A search returns what it writes, refers to and cites. *)

From Stdlib Require Import SpecFloat.
From stdpp Require Import gmap.
From S2P Require Import Prelude PgFmt Identity Schema Db KeyStore Rotate Utf8 Json Float Text Bm25 Mmr Embed Keeps Reembed.
From S2P Require Import Civil Temporal Slug Entities Sources Reads Facts Signals.
#[local] Open Scope string_scope.
#[local] Open Scope list_scope.
#[local] Open Scope Z_scope.

(** pgvector's [a <=> b] on stored literals: an error of vectors of different
    dimensions; and [strconv.ParseFloat] to 64 bits. *)
Class SearchOps := {
  cosDistance : string -> string -> option f64;
  ParseFloat : string -> option f64
}.

(** A slice out of range is a panic. *)
Definition orPanic {A} (o : option A) : M A :=
  match o with
  | Some a => mret a
  | None => throw (ErrMsg "panic: slice bounds out of range")
  end.

(** A statement the server may fail to evaluate. *)
Definition queryFallible {A} (f : db -> option A) : M A :=
  o ← query f;
  match o with
  | Some a => mret a
  | None => throw (ErrMsg "statement failed")
  end.

(** ** Configuration *)

Definition vectorSimilarityThreshold : f64 := fratio 40 100.
Definition entityVectorSimilarityThreshold : f64 := fratio 50 100.
Definition recommendationEntitySimilarityThreshold : f64 := fratio 25 100.
Definition recommendationEntityMaxResults : Z := 10.
Definition orderingSummarySimilarityThreshold : f64 := fratio 25 100.
Definition orderingSummaryMaxResults : Z := 15.
Definition episodeVectorSimilarityThreshold : f64 := fratio 55 100.
Definition episodeExchangeCap : Z := 400.
Definition summaryOverfetchFactor : Z := 3.
Definition graphWalkMaxHops : nat := 2.
Definition graphWalkMaxResults : nat := 10.
Definition temporalRelevanceBoost : f64 := reciprocalRank 0.
Definition defaultKeywordSearchNarrowThreshold : Z := 500.
Definition defaultKeywordSearchDisableThreshold : Z := 3000.

(** The product of two ints wraps around. *)
Definition int64 (n : Z) : Z := (n + 2 ^ 63) mod 2 ^ 64 - 2 ^ 63.
Definition overfetch (maxResults : Z) : Z := int64 (maxResults * summaryOverfetchFactor).

Inductive keywordSearchTier := keywordSearchFull | keywordSearchNarrowed | keywordSearchDisabled.

#[export] Instance tier_eq_dec : EqDecision keywordSearchTier.
Proof. solve_decision. Defined.

Section Config.
Context `{SO : SearchOps}.
Variable Getenv : string -> string.

(** A positive integer override. *)
Definition envInt (name : string) (dflt : Z) : Z :=
  let v := Getenv name in
  if negb (String.eqb v "") then
    match Atoi v with
    | Some n => if 0 <? n then n else dflt
    | None => dflt
    end
  else dflt.

Definition keywordSearchNarrowThreshold : Z :=
  envInt "HUPI_KEYWORD_SEARCH_NARROW_THRESHOLD" defaultKeywordSearchNarrowThreshold.
Definition keywordSearchDisableThreshold : Z :=
  envInt "HUPI_KEYWORD_SEARCH_DISABLE_THRESHOLD" defaultKeywordSearchDisableThreshold.

Definition mmrLambda : f64 :=
  let v := Getenv "HUPI_MMR_LAMBDA" in
  if negb (String.eqb v "") then
    match ParseFloat v with
    | Some f => if fge f f0 && fge f1 f then f else fratio 7 10
    | None => fratio 7 10
    end
  else fratio 7 10.

Definition tierOf (total : Z) : keywordSearchTier :=
  if keywordSearchDisableThreshold <? total then keywordSearchDisabled
  else if keywordSearchNarrowThreshold <? total then keywordSearchNarrowed
  else keywordSearchFull.

Definition keywordSearchTierForScope (se : session) (scope : Scope) : M keywordSearchTier :=
  if negb (keywordSearchEnabled Getenv) then mret keywordSearchDisabled
  else
    row ← wrapErr "load scope corpus size" (query (fun d =>
      if visible se scope then d.(corpus_sizes) !! scope else None));
    mret (match row with
          | None => keywordSearchFull
          | Some c => tierOf (c.(episode_count) + c.(summary_count))
          end).
End Config.

(** ** What a search finds *)

Record found := MkFound {
  fd_text : string;
  fd_refs : list Ref;
  fd_citations : list Citation
}.

Definition nothing : found := MkFound "" [] [].

(** The writes of one search after those of another. *)
Definition also (a b : found) : found :=
  MkFound (a.(fd_text) +:+ b.(fd_text)) (a.(fd_refs) ++ b.(fd_refs)) (a.(fd_citations) ++ b.(fd_citations)).

(** Something written about one row, cited. *)
Definition hit (kind : string) (scope : Scope) (id text snippet : string) : found :=
  let ref := MkRef kind scope id in MkFound text [ref] [MkCitation ref snippet].

Definition allFound (l : list found) : found := foldr also nothing l.

(** [order by distance]: NaN sorts last. *)
Definition distLess (a b : f64) : bool := if isNaN a then false else if isNaN b then true else flt a b.

(** [order by <distance> limit n] of the rows that pass the filter. *)
Definition nearest {R} (dist : R -> option f64) (limit : Z) (rows : list R) : option (list (R * f64)) :=
  if limit <? 0 then None
  else
    rds ← mapM (fun r => d ← dist r; Some (r, d)) rows;
    Some (take (Z.to_nat limit) (sort_by (fun x y => distLess x.2 y.2) rds)).

(** [embedding is not null and (embedding_model is null or embedding_model = ..)] *)
Definition comparable (model : string) (embedding embedding_model : option string) : bool :=
  bool_decide (is_Some embedding) &&
  (bool_decide (embedding_model = None) || bool_decide (embedding_model = Some model)).

Definition inRange (t : Z) (tf : Z * Z) : bool := (midnight tf.1 <=? t) && (t <? midnight tf.2).

(** What lies in the timeframe, if anything does. *)
Definition preferIn {A} (inTime : Z * Z -> A -> bool) (timeframe : option (Z * Z)) (l : list A) : list A :=
  match timeframe with
  | None => l
  | Some tf => let kept := List.filter (inTime tf) l in if (0 <? length kept)%nat then kept else l
  end.

(** What lies in the timeframe, even if nothing does. *)
Definition onlyIn {A} (inTime : Z * Z -> A -> bool) (timeframe : option (Z * Z)) (l : list A) : list A :=
  match timeframe with
  | None => l
  | Some tf => List.filter (inTime tf) l
  end.

(** A day in a timeframe. *)
Definition dayIn (tf : Z * Z) (day : Z) : bool := periodsOverlap day (AddDate day 0 0 1) tf.1 tf.2.

(** A loop that stops the function at its first error. *)
Fixpoint foldM {A B} (f : B -> A -> M B) (b : B) (l : list A) : M B :=
  match l with
  | [] => mret b
  | x :: l' => b' ← f b x; foldM f b' l'
  end.

(** ** Summaries *)

(** [enc] opens the summary's facts; a rank is -1 where a search did not find
    it. *)
Record candidate := MkCandidate {
  cd_text : string;
  cd_period : string;
  cd_enc : string;
  vectorRank : Z;
  keywordRank : Z;
  factRank : Z
}.

Definition setVectorRank (k : Z) (c : candidate) : candidate :=
  MkCandidate c.(cd_text) c.(cd_period) c.(cd_enc) k c.(keywordRank) c.(factRank).
Definition setKeywordRank (k : Z) (c : candidate) : candidate :=
  MkCandidate c.(cd_text) c.(cd_period) c.(cd_enc) c.(vectorRank) k c.(factRank).
Definition setFactRank (k : Z) (c : candidate) : candidate :=
  MkCandidate c.(cd_text) c.(cd_period) c.(cd_enc) c.(vectorRank) c.(keywordRank) k.

(** A summary the policy shows, in the scope and not superseded. *)
Definition searchable (se : session) (scope : Scope) (d : db) (r : SummaryRow) : bool :=
  visible se r.(s_scope) && bool_decide (r.(s_scope) = scope) && current se d r.

(** [min(..)] of at least one distance. *)
Definition minDistance (x : f64) (xs : list f64) : f64 :=
  foldl (fun m y => if distLess y m then y else m) x xs.

(** A picked summary. *)
Record pickedSummary := MkPicked {
  pk_id : string;
  pk_c : candidate;
  pk_label : string;
  pk_facts : list keyFact
}.

(** A period that is known and does not overlap the timeframe. *)
Definition outside (tf : Z * Z) (c : candidate) : bool :=
  match parsePeriodRange c.(cd_period) with
  | Some (pStart, pEnd) => negb (periodsOverlap pStart pEnd tf.1 tf.2)
  | None => false
  end.

Definition overlaps (tf : Z * Z) (c : candidate) : bool :=
  match parsePeriodRange c.(cd_period) with
  | Some (pStart, pEnd) => periodsOverlap pStart pEnd tf.1 tf.2
  | None => false
  end.

(** [if c.rank >= 0 { fused += reciprocalRank(c.rank) }] *)
Definition addRank (fused : f64) (rank : Z) : f64 := if 0 <=? rank then fadd fused (reciprocalRank rank) else fused.

Definition fusedScore (timeframe : option (Z * Z)) (c : candidate) : f64 :=
  let fused := addRank (addRank (addRank f0 c.(vectorRank)) c.(keywordRank)) c.(factRank) in
  match timeframe with
  | Some tf => if overlaps tf c then fadd fused temporalRelevanceBoost else fused
  | None => fused
  end.

(** [byID[id]], for the ids the code takes from the map. *)
Definition candidateOf (byID : gmap string candidate) (id : string) : candidate :=
  default (MkCandidate "" "" "" (-1) (-1) (-1)) (byID !! id).

Definition sortedIds (byID : gmap string candidate) : list string := sort_by String.ltb (map_to_list byID).*1.

Definition matchLabel (c : candidate) : string :=
  if (0 <=? c.(vectorRank)) && (0 <=? c.(keywordRank)) then ", vector+keyword match"
  else if 0 <=? c.(keywordRank) then ", keyword match" else "".

(** [for rank, m := range matches]; what the map lacks is in [seen]. *)
Fixpoint keywordRanks (seen : gmap string candidate) (matches : list string) (rank : Z)
    (byID : gmap string candidate) : gmap string candidate :=
  match matches with
  | [] => byID
  | id :: rest =>
      keywordRanks seen rest (rank + 1) (<[id := setKeywordRank rank (default (candidateOf seen id) (byID !! id))]> byID)
  end.

Section Search.
Context `{HA : AEAD, HU : Unicode, HL : MathLog, EM : Embedder, SO : SearchOps}.
Variable kek : string.
Variable Getenv : string -> string.
(** The offset of the process's location at an instant. *)
Variable localOffset : Z -> Z.

Definition currentEmbeddingModel : string := EmbedderIdentity.

Definition loadKeyFacts (se : session) (summaryID enc queryVector : string) : M (list keyFact) :=
  rows ← wrapErr "load key facts for summary" (queryFallible (fun d =>
    mapM (fun r =>
        match r.(f_embedding) with
        | Some e => if bool_decide (r.(f_embedding_model) = Some currentEmbeddingModel)
                    then x ← cosDistance e queryVector; Some (r, Some (fsub f1 x))
                    else Some (r, None)
        | None => Some (r, None)
        end)
      (sort_by (fun a b => f_id a <? f_id b) (List.filter (fun r => visible se r.(f_scope) &&
         String.eqb r.(f_summary_id) summaryID && r.(f_grounded)) d.(key_facts)))));
  scanRows (fun rs : KeyFactRow * option f64 =>
    fact ← lift (wrapRes "decrypt key fact for summary" (Decrypt enc rs.1.(f_fact)));
    mret (MkKeyFact fact rs.2)) rows.

(** *** The three searches *)

(** A row's candidate, found by no search yet. *)
Definition openSummary (scope : Scope) (r : SummaryRow) : M candidate :=
  enc ← wrapErr "resolve encryption key for summary" (GetVersion kek scope r.(s_key_version));
  text ← lift (Decrypt enc r.(s_text));
  mret (MkCandidate text r.(s_info).(i_period) enc (-1) (-1) (-1)).

Definition vectorRows (se : session) (scope : Scope) (queryVector : string) (limit : Z) (d : db) :
    option (list (SummaryRow * f64)) :=
  nearest (fun r => e ← r.(s_embedding); cosDistance e queryVector) limit
    (List.filter (fun r => searchable se scope d r &&
       comparable currentEmbeddingModel r.(s_embedding) r.(s_embedding_model)) d.(summaries)).

(** The candidates so far, and the next rank. *)
Definition vectorStep (scope : Scope) (threshold : f64) (st : gmap string candidate * Z) (rd : SummaryRow * f64) :
    M (gmap string candidate * Z) :=
  if flt (fsub f1 rd.2) threshold then mret st
  else
    c ← openSummary scope rd.1;
    mret (<[rd.1.(s_id) := setVectorRank st.2 c]> st.1, st.2 + 1).

Definition keywordRows (se : session) (scope : Scope) (narrow : bool) (matchedEntityIDs : list string) (d : db) :
    list SummaryRow :=
  List.filter (fun r => searchable se scope d r && bool_decide (is_Some r.(s_text)) &&
    (negb narrow || existsb (fun e => bool_decide (e ∈ matchedEntityIDs)) r.(s_info).(i_entities_touched))) d.(summaries).

(** The documents so far, and what the vector search had not opened. *)
Definition keywordStep (scope : Scope) (byID : gmap string candidate)
    (st : list bm25Document * gmap string candidate) (r : SummaryRow) : M (list bm25Document * gmap string candidate) :=
  match byID !! r.(s_id) with
  | Some c => mret (st.1 ++ [newBM25Document r.(s_id) c.(cd_text)], st.2)
  | None =>
      c ← openSummary scope r;
      mret (st.1 ++ [newBM25Document r.(s_id) c.(cd_text)], <[r.(s_id) := c]> st.2)
  end.

Definition keywordPass (se : session) (scope : Scope) (tier : keywordSearchTier) (matchedEntityIDs queryTerms : list string)
    (maxResults : Z) (byID : gmap string candidate) : M (gmap string candidate) :=
  if bool_decide (tier = keywordSearchDisabled) || (length queryTerms =? 0)%nat then mret byID
  else
    let narrow := bool_decide (tier = keywordSearchNarrowed) && (0 <? length matchedEntityIDs)%nat in
    rows ← query (keywordRows se scope narrow matchedEntityIDs);
    st ← foldM (keywordStep scope byID) ([], ∅) rows;
    mret (keywordRanks st.2 (rankBM25 (overfetch maxResults) st.1 queryTerms) 0 byID).

(** The distances of a summary's grounded facts. *)
Definition factDistances (se : session) (scope : Scope) (queryVector : string) (d : db) (s : SummaryRow) :
    option (list f64) :=
  mapM (fun f => e ← f.(f_embedding); cosDistance e queryVector)
    (List.filter (fun f => visible se f.(f_scope) && String.eqb f.(f_summary_id) s.(s_id) &&
       comparable currentEmbeddingModel f.(f_embedding) f.(f_embedding_model) && f.(f_grounded) &&
       bool_decide (f.(f_scope) = scope)) d.(key_facts)).

Definition factRows (se : session) (scope : Scope) (queryVector : string) (limit : Z) (d : db) :
    option (list (SummaryRow * f64)) :=
  best ← mapM (fun s => ds ← factDistances se scope queryVector d s; Some (s, ds))
    (List.filter (fun s => visible se s.(s_scope) && current se d s) d.(summaries));
  nearest (fun sd => match sd.2 with x :: xs => Some (minDistance x xs) | [] => None end) limit
    (List.filter (fun sd : SummaryRow * list f64 => negb (length sd.2 =? 0)%nat) best) ≫= fun rows =>
  Some (map (fun rd => (rd.1.1, rd.2)) rows).

Definition factStep (scope : Scope) (threshold : f64) (st : gmap string candidate * Z) (rd : SummaryRow * f64) :
    M (gmap string candidate * Z) :=
  if flt (fsub f1 rd.2) threshold then mret st
  else
    match st.1 !! rd.1.(s_id) with
    | Some c => mret (<[rd.1.(s_id) := setFactRank st.2 c]> st.1, st.2 + 1)
    | None =>
        c ← openSummary scope rd.1;
        mret (<[rd.1.(s_id) := setFactRank st.2 c]> st.1, st.2 + 1)
    end.

Definition candidates (se : session) (scope : Scope) (queryVector : string) (queryTerms : list string)
    (threshold : f64) (maxResults : Z) (tier : keywordSearchTier) (matchedEntityIDs : list string) :
    M (gmap string candidate) :=
  vecRows ← queryFallible (vectorRows se scope queryVector (overfetch maxResults));
  byVector ← foldM (vectorStep scope threshold) (∅, 0) vecRows;
  byID ← keywordPass se scope tier matchedEntityIDs queryTerms maxResults byVector.1;
  fRows ← queryFallible (factRows se scope queryVector (overfetch maxResults));
  byFact ← foldM (factStep scope threshold) (byID, 0) fRows;
  mret byFact.1.

(** *** Fusion *)

(** The ids to choose from. *)
Definition poolIDs (timeframe : option (Z * Z)) (byID : gmap string candidate) : list string :=
  preferIn (fun tf id => negb (outside tf (candidateOf byID id))) timeframe (sortedIds byID).

Definition pickIDs (timeframe : option (Z * Z)) (maxResults : Z) (byID : gmap string candidate) : list string :=
  let ids := poolIDs timeframe byID in
  let pool := map (fun id => let c := candidateOf byID id in
                             Build_mmrCandidate (fusedScore timeframe c) (tokenSet c.(cd_text))) ids in
  map (fun idx => nth idx ids "") (mmrSelect pool (mmrLambda Getenv) maxResults).

Definition loadPick (se : session) (queryVector : string) (byID : gmap string candidate) (id : string) : M pickedSummary :=
  let c := candidateOf byID id in
  facts ← loadKeyFacts se id c.(cd_enc) queryVector;
  mret (MkPicked id c (matchLabel c) facts).

Definition summaryDateLabel (now : Z) (c : candidate) : string :=
  match parsePeriodRange c.(cd_period) with
  | Some (pStart, _) => dateLabelOf "dated" c.(cd_period) (relativeDateLabel (midnight pStart) now)
  | None => ""
  end.

Definition guaranteeLine (queryTerms : list string) (now cap : Z) (p : pickedSummary) : M string :=
  let prefix := newline +:+ ("related memory (summary " +:+ (p.(pk_id) +:+ (summaryDateLabel now p.(pk_c) +:+
                  (p.(pk_label) +:+ "): ")))) in
  let factCap := Z.max guaranteeMinFactChars (cap - strLen prefix) in
  fact ← orPanic (guaranteedFact Getenv p.(pk_c).(cd_text) p.(pk_facts) queryTerms);
  guarantee ← orPanic (hardTruncate fact factCap);
  mret (prefix +:+ guarantee).

Definition depthOf (scope : Scope) (queryTerms : list string) (p : pickedSummary) : M found :=
  depth ← orPanic (depthText Getenv p.(pk_c).(cd_text) p.(pk_facts) queryTerms);
  cut ← orPanic (hardTruncate depth summaryDepthCap);
  mret (hit RefKindSummary scope p.(pk_id) (newline +:+ cut)
          (summaryCitationSnippet Getenv p.(pk_c).(cd_text) p.(pk_facts) queryTerms)).

Definition fusedSearchSummaries (se : session) (scope : Scope) (queryVector : string) (queryTerms : list string)
    (threshold : f64) (maxResults : Z) (query : string) (now : Z) (tier : keywordSearchTier)
    (matchedEntityIDs : list string) : M found :=
  byID ← candidates se scope queryVector queryTerms threshold maxResults tier matchedEntityIDs;
  picks ← scanRows (loadPick se queryVector byID) (pickIDs (resolveQueryTimeframe query now) maxResults byID);
  let cap := guaranteeBudgetPerSummary Getenv (Z.of_nat (length picks)) in
  guarantees ← scanRows (guaranteeLine queryTerms now cap) picks;
  depths ← scanRows (depthOf scope queryTerms) picks;
  mret (also (MkFound (String.concat "" guarantees) [] []) (allFound depths)).

(** ** Entities *)

(** An entity found by a search, opened. *)
Record entityHit := MkEntityHit { eh_id : string; eh_name : string; eh_attrs : string; eh_lastUpdated : Z }.

(** An entity a search may find, and its excluded ids. *)
Definition entityFindable (se : session) (scope : Scope) (excludeIDs : list string) (r : EntityRow) : bool :=
  visible se r.(n_scope) && negb (String.eqb r.(n_kind) "self_model") && negb (bool_decide (r.(n_id) ∈ excludeIDs)) &&
  bool_decide (r.(n_scope) = scope).

Definition openEntity (scope : Scope) (r : EntityRow) : M entityHit :=
  enc ← wrapErr "resolve encryption key for entity" (GetVersion kek scope r.(n_key_version));
  attrs ← lift (Decrypt enc r.(n_attributes));
  mret (MkEntityHit r.(n_id) r.(n_name) attrs r.(n_dates).(last_updated)).

Definition entityFound (scope : Scope) (now : Z) (how : string) (e : entityHit) : found :=
  hit RefKindEntity scope e.(eh_id)
    (newline +:+ ("related memory (entity " +:+ (e.(eh_id) +:+ (entityDateLabel e.(eh_lastUpdated) now +:+
       (", " +:+ (e.(eh_name) +:+ (how +:+ ("): " +:+ e.(eh_attrs)))))))))
    ("entity " +:+ (e.(eh_id) +:+ (" (" +:+ (e.(eh_name) +:+ ("): " +:+ e.(eh_attrs)))))).

Definition entityVectorRows (se : session) (scope : Scope) (queryVector : string) (excludeIDs : list string) (limit : Z)
    (d : db) : option (list (EntityRow * f64)) :=
  nearest (fun r => e ← r.(n_embedding); cosDistance e queryVector) limit
    (List.filter (fun r => entityFindable se scope excludeIDs r &&
       comparable currentEmbeddingModel r.(n_embedding) r.(n_embedding_model)) d.(entities)).

(** Close enough, and of the timeframe. *)
Definition entityClose (threshold : f64) (timeframe : option (Z * Z)) (rd : EntityRow * f64) : bool :=
  negb (flt (fsub f1 rd.2) threshold) &&
  match timeframe with Some tf => dayIn tf rd.1.(n_dates).(last_updated) | None => true end.

Definition vectorSearchEntities (se : session) (scope : Scope) (queryVector : string) (excludeIDs : list string)
    (threshold : f64) (maxResults : Z) (query : string) (now : Z) : M found :=
  rows ← queryFallible (entityVectorRows se scope queryVector excludeIDs maxResults);
  hits ← scanRows (fun rd : EntityRow * f64 => openEntity scope rd.1)
    (List.filter (entityClose threshold (resolveQueryTimeframe query now)) rows);
  mret (allFound (map (entityFound scope now "") hits)).

Definition keywordSearchEntities (se : session) (scope : Scope) (queryTerms excludeIDs : list string)
    (query : string) (now : Z) : M found :=
  rows ← Db.query (fun d => List.filter (fun r => entityFindable se scope excludeIDs r &&
                                          bool_decide (is_Some r.(n_attributes))) d.(entities));
  hits ← scanRows (openEntity scope) rows;
  let byID := foldl (fun m e => <[e.(eh_id) := e]> m) (∅ : gmap string entityHit) hits in
  let docs := map (fun e => newBM25Document e.(eh_id) (e.(eh_name) +:+ (" " +:+ e.(eh_attrs)))) hits in
  let matches := omap (fun id => byID !! id) (rankBM25 (maxVectorResults Getenv) docs queryTerms) in
  mret (allFound (map (entityFound scope now ", keyword match")
    (onlyIn (fun tf e => dayIn tf e.(eh_lastUpdated)) (resolveQueryTimeframe query now) matches))).

(** ** Episodes *)

Record exchange := MkExchange { ex_id : string; ex_input : string; ex_output : string; ex_ts : Z }.

Definition openEpisode (scope : Scope) (r : EpisodeRow) : M exchange :=
  enc ← wrapErr "resolve encryption key for episode" (GetVersion kek scope r.(e_key_version));
  input ← lift (Decrypt enc r.(e_input));
  output ← lift (Decrypt enc r.(e_output));
  mret (MkExchange r.(e_id) input output r.(e_ts)).

Definition episodeDateLabel (ts now : Z) : string :=
  dateLabelOf "dated" (FormatDay (MkGoTime ts (localOffset ts))) (relativeDateLabel ts now).

Definition exchangeFound (scope : Scope) (queryTerms : list string) (now : Z) (how : string) (m : exchange) : M found :=
  let whole := "USER: " +:+ (m.(ex_input) +:+ (" ASSISTANT: " +:+ m.(ex_output))) in
  excerpt ← orPanic (centeredExcerpt whole queryTerms episodeExchangeCap);
  mret (hit RefKindEpisode scope m.(ex_id)
    (newline +:+ ("related exchange (episode " +:+ (m.(ex_id) +:+ (episodeDateLabel m.(ex_ts) now +:+
       (how +:+ ("): " +:+ excerpt)))))) whole).

Definition episodeVectorRows (se : session) (scope : Scope) (queryVector : string) (d : db) :
    option (list (EpisodeRow * f64)) :=
  nearest (fun r => e ← r.(e_embedding); cosDistance e queryVector) (maxVectorResults Getenv)
    (List.filter (fun r => visible se r.(e_scope) && String.eqb r.(e_type) "interaction" &&
       comparable currentEmbeddingModel r.(e_embedding) r.(e_embedding_model) && bool_decide (r.(e_scope) = scope)) d.(episodes)).

Definition vectorSearchEpisodes (se : session) (scope : Scope) (queryVector : string) (queryTerms : list string)
    (query : string) (now : Z) : M found :=
  rows ← queryFallible (episodeVectorRows se scope queryVector);
  matches ← scanRows (fun rd : EpisodeRow * f64 => openEpisode scope rd.1)
    (List.filter (fun rd => negb (flt (fsub f1 rd.2) episodeVectorSimilarityThreshold)) rows);
  l ← scanRows (exchangeFound scope queryTerms now "")
    (preferIn (fun tf m => inRange m.(ex_ts) tf) (resolveQueryTimeframe query now) matches);
  mret (allFound l).

Definition keywordSearchEpisodes (se : session) (scope : Scope) (queryTerms excludeIDs : list string)
    (query : string) (now : Z) : M found :=
  rows ← Db.query (fun d => List.filter (fun r => visible se r.(e_scope) && String.eqb r.(e_type) "interaction" &&
           negb (bool_decide (r.(e_id) ∈ excludeIDs)) && bool_decide (r.(e_scope) = scope)) d.(episodes));
  exchanges ← scanRows (openEpisode scope) rows;
  let byID := foldl (fun m e => <[e.(ex_id) := e]> m) (∅ : gmap string exchange) exchanges in
  let docs := map (fun e => newBM25Document e.(ex_id) (e.(ex_input) +:+ (" " +:+ e.(ex_output)))) exchanges in
  let matches := omap (fun id => byID !! id) (rankBM25 (maxVectorResults Getenv) docs queryTerms) in
  l ← scanRows (exchangeFound scope queryTerms now ", keyword match")
    (preferIn (fun tf m => inRange m.(ex_ts) tf) (resolveQueryTimeframe query now) matches);
  mret (allFound l).

(** ** Relationships *)

(** What a hop has seen, found in all, and found in this hop. *)
Record walk := MkWalk { visited : gset string; discovered : list string; nextFrontier : list string }.

Definition visit (w : walk) (candidate : string) : walk :=
  if bool_decide (candidate ∈ w.(visited)) || (graphWalkMaxResults <=? length w.(discovered))%nat then w
  else MkWalk ({[candidate]} ∪ w.(visited)) (w.(discovered) ++ [candidate]) (w.(nextFrontier) ++ [candidate]).

Definition edgesAt (se : session) (scope : Scope) (frontier : list string) (d : db) : list RelRow :=
  List.filter (fun r => visible se r.(rel_scope) && bool_decide (r.(rel_scope) = scope) &&
    (bool_decide (r.(rel_subject) ∈ frontier) || bool_decide (r.(rel_object) ∈ frontier)) &&
    bool_decide (r.(rel_until) = None)) d.(relationships).

(** [hops] of [graphWalkMaxHops] are left. *)
Fixpoint walkHops (hops : nat) (se : session) (scope : Scope) (seen : gset string) (found frontier : list string) :
    M (list string) :=
  match hops with
  | O => mret found
  | S hops' =>
      if (length frontier =? 0)%nat || (graphWalkMaxResults <=? length found)%nat then mret found
      else
        rows ← wrapErr "graph walk hop" (Db.query (edgesAt se scope frontier));
        let w := foldl (fun w r => visit (visit w r.(rel_subject)) r.(rel_object)) (MkWalk seen found []) rows in
        walkHops hops' se scope w.(visited) w.(discovered) w.(nextFrontier)
  end.

Definition walked (se : session) (scope : Scope) (id : string) : M found :=
  line ← wrapErr "load graph-walked entity" (formatEntity kek se scope id "");
  let line := line +:+ ", relationship graph" in
  mret (hit RefKindEntity scope id (newline +:+ line) line).

Definition graphWalkRelationships (se : session) (scope : Scope) (seedEntityIDs : list string) : M found :=
  if (length seedEntityIDs =? 0)%nat || negb (graphWalkEnabled Getenv) then mret nothing
  else
    ids ← walkHops graphWalkMaxHops se scope (list_to_set seedEntityIDs) [] seedEntityIDs;
    l ← scanRows (walked se scope) ids;
    mret (allFound l).
End Search.
