(* ===== verification/Retrieve.v ===== *)
(** * Retrieve: one turn's memory ([src/internal/store/retrieve.go],
    [Store.Retrieve] and [Store.retrieve])

    The anchor and the entities a message names in a first transaction; the
    query's vector; the searches in a second one, each told what those before
    it found; then the context cut to its budget, and an audit row. *)

From stdpp Require Import gmap.
From S2P Require Import Prelude PgFmt Identity Schema Db KeyStore Rotate Utf8 Json Float Text Bm25 Embed Keeps Reembed.
From S2P Require Import Civil Temporal Sources Runner Facts Signals Search.
#[local] Open Scope string_scope.
#[local] Open Scope list_scope.
#[local] Open Scope Z_scope.

Definition GateSkipped : string := "skipped".
Definition GatePartial : string := "partial".
Definition GateFull : string := "full".

Record RetrievalResult := MkRetrieval {
  Gate : string;
  ContextMessage : string;
  Refs : list Ref;
  Citations : list Citation;
  NeedsAggregationPass : bool
}.

Section Retrieve.
Context `{HA : AEAD, HU : Unicode, HL : MathLog, EM : Embedder, FF : FloatFormat, SO : SearchOps}.
Variable kek : string.
Variable Getenv : string -> string.
Variable localOffset : Z -> Z.

(** An entity the message names, and its line. *)
Definition matchedFound (ws : Scope) (m : string * string) : found :=
  hit RefKindEntity ws m.1 (newline +:+ m.2) m.2.

Definition matchedLine (se : session) (ws : Scope) (now : Z) (m : entityMatch) : M (string * string) :=
  line ← wrapErr "load matched entity"
    (formatEntity kek se ws m.(em_id) (entityDateLabel m.(em_lastUpdated) now));
  mret (m.(em_id), line).

(** The first transaction: the anchor, and the named entities. *)
Definition stage1 (actingUser ws : Scope) (query : string) (now : Z) : M (found * list (string * string)) :=
  Run actingUser ws (fun se =>
    a ← wrapErr "build anchor" (buildAnchor kek se actingUser ws);
    let anchor := MkFound a.1.1 a.1.2 a.2 in
    if String.eqb query "" then mret (anchor, [])
    else
      matched ← wrapErr "stage1 entity scan" (stage1EntityMatches se ws query);
      lines ← scanRows (matchedLine se ws now)
        (onlyIn (fun tf m => dayIn tf m.(em_lastUpdated)) (resolveQueryTimeframe query now) matched);
      mret (anchor, lines)).

Definition embedQuery (query : string) : M string :=
  input ← truncatedInput query;
  vectors ← wrapErr "store: embed query" (Embed [input]);
  match vectors with
  | [] => throw (ErrMsg "store: embedder returned no vectors")
  | v :: _ => mret (VectorLiteral v)
  end.

(** One search after those that found [sofar]. *)
Definition andThen (sofar : found) (msg : string) (search : M found) : M found :=
  f ← wrapErr msg search;
  mret (also sofar f).

Definition searches (se : session) (ws : Scope) (query queryVector : string) (now : Z) (sofar : found)
    (matchedEntityIDs : list string) : M found :=
  let queryTerms := tokenize query in
  let wide := looksLikeRecommendationRequest query in
  let entityThreshold := if wide then recommendationEntitySimilarityThreshold else entityVectorSimilarityThreshold in
  let entityMaxResults := if wide then recommendationEntityMaxResults else maxVectorResults Getenv in
  let ordering := looksLikeOrderingRequest query in
  let summaryThreshold := if ordering then orderingSummarySimilarityThreshold else vectorSimilarityThreshold in
  let summaryMaxResults := if ordering then orderingSummaryMaxResults else maxVectorResults Getenv in
  tier ← wrapErr "determine keyword search tier" (keywordSearchTierForScope Getenv se ws);
  f ← andThen sofar "fused search summaries"
    (fusedSearchSummaries kek Getenv se ws queryVector queryTerms summaryThreshold summaryMaxResults query now tier
       matchedEntityIDs);
  f ← andThen f "vector search episodes"
    (vectorSearchEpisodes kek Getenv localOffset se ws queryVector queryTerms query now);
  f ← andThen f "vector search entities"
    (vectorSearchEntities kek se ws queryVector matchedEntityIDs entityThreshold entityMaxResults query now);
  f ← (if (0 <? length queryTerms)%nat && negb (bool_decide (tier = keywordSearchDisabled)) then
         f ← andThen f "keyword search episodes"
           (keywordSearchEpisodes kek Getenv localOffset se ws queryTerms (refIDsOfKind f.(fd_refs) RefKindEpisode) query now);
         andThen f "keyword search entities"
           (keywordSearchEntities kek Getenv se ws queryTerms (refIDsOfKind f.(fd_refs) RefKindEntity) query now)
       else mret f);
  andThen f "graph walk relationships"
    (graphWalkRelationships kek Getenv se ws (refIDsOfKind f.(fd_refs) RefKindEntity)).

Definition skipped (anchor : found) : RetrievalResult :=
  MkRetrieval GateSkipped anchor.(fd_text) anchor.(fd_refs) anchor.(fd_citations) false.

Definition retrieve (actingUser ws : Scope) (messages : list Message) (now : Z) : M RetrievalResult :=
  let query := lastUserMessage messages in
  s1 ← wrapErr "store" (stage1 actingUser ws query now);
  let anchor := s1.1 in
  if String.eqb query "" then mret (skipped anchor)
  else
    let hasSignal := stage1KeywordSignal query || stage1QuestionSignal query in
    if (length s1.2 =? 0)%nat && negb hasSignal then mret (skipped anchor)
    else
      let matched := allFound (map (matchedFound ws) s1.2) in
      queryVector ← embedQuery query;
      f ← wrapErr "store" (Run ws ws (fun se => searches se ws query queryVector now (also anchor matched) (map fst s1.2)));
      context ← orPanic (truncateToBudget f.(fd_text) (contextCharBudget Getenv));
      (* [strongHit] is set with every ref but the anchor's. *)
      let strongHit := (length anchor.(fd_refs) <? length f.(fd_refs))%nat in
      mret (MkRetrieval (if strongHit then GateFull else GatePartial) context f.(fd_refs) f.(fd_citations)
              (looksLikeOrderingRequest query)).

Definition retrieveEntry (actingUser ws : Scope) (r : RetrievalResult) : AuditEntry := {|
  EventType := "retrieve"; Actor := actingUser.(Owner); ActingScope := actingUser; WorkspaceScope := ws;
  TargetRef := None;
  Detail := [("gate", JString r.(Gate)); ("ref_count", JInt (Z.of_nat (length r.(Refs))))] |}.

(** An error of the audit row is logged and dropped. *)
Definition Retrieve (actingUser ws : Scope) (messages : list Message) (now : Z) : M RetrievalResult :=
  r ← retrieve actingUser ws messages now;
  logged (Run actingUser ws (fun se => Write se (retrieveEntry actingUser ws r))) ;;
  mret r.
End Retrieve.
