(* ===== verification/Finds.v ===== *)
(** * Finds: what a search can find

    Searches only read.  [yields d m P] says that [m], started on the database
    [d], leaves it as it is whatever fails, and that what it returns satisfies
    [P]; the searches are put together from such operations.  What a search
    [finds] are distinct stored rows, each cited once. *)

From stdpp Require Import gmap.
From S2P Require Import Prelude PgFmt Identity Schema Db KeyStore Rotate Utf8 Json Float Text Bm25 Mmr Embed Keeps Reembed.
From S2P Require Import Civil Temporal Slug Entities Sources Runner Daily Reads Facts Signals Search.
#[local] Open Scope string_scope.
#[local] Open Scope list_scope.
#[local] Open Scope Z_scope.

Definition yields {A} (d : db) (m : M A) (P : A -> Prop) : Prop :=
  forall p fs, wp m (fun r w' => w'.(w_db) = d /\ forall a, r = Ok a -> P a) (MkWorld d p fs).

Section Yields.
Context (d : db).

Lemma yields_mono {A} (m : M A) (P Q : A -> Prop) : yields d m P -> (forall a, P a -> Q a) -> yields d m Q.
Proof. intros Hm HPQ p fs. eapply wp_mono; [apply Hm|]. intros r w' [E H]. split; [done|]. intros a Ha. by apply HPQ, H. Qed.

Lemma yields_ret {A} (a : A) (P : A -> Prop) : P a -> yields d (mret a) P.
Proof. intros Ha p fs. apply wp_ret. split; [done|by intros b [= <-]]. Qed.

Lemma yields_lift {A} (r : result error A) (P : A -> Prop) : (forall a, r = Ok a -> P a) -> yields d (lift r) P.
Proof. intros H p fs. by apply wp_lift. Qed.

Lemma yields_throw {A} e (P : A -> Prop) : yields d (throw e) P.
Proof. intros p fs. by apply wp_throw. Qed.

Lemma yields_bind {A B} (m : M A) (f : A -> M B) (P : A -> Prop) Q :
  yields d m P -> (forall a, P a -> yields d (f a) Q) -> yields d (m ≫= f) Q.
Proof.
  intros Hm Hf p fs. apply wp_bind. eapply wp_mono; [apply Hm|]. intros [a|e] [d' p' fs'] [E H]; cbn in E; subst d'.
  - by apply (Hf a), H.
  - by split.
Qed.

Lemma yields_wrap {A} msg (m : M A) P : yields d m P -> yields d (wrapErr msg m) P.
Proof.
  intros Hm p fs. apply wp_wrap. eapply wp_mono; [apply Hm|]. intros [a|e] w' [E H]; (split; [done|]); [done|by intros a].
Qed.

(** An operation that leaves the database alone. *)
Lemma yields_reads {A} (m : M A) : respects (@eq db) m -> yields d m (fun _ => True).
Proof. intros Hm p fs. eapply wp_mono; [apply Hm|]. cbn. intros r w' E. by split. Qed.

Lemma yields_query {A} (f : db -> A) (P : A -> Prop) : P (f d) -> yields d (query f) P.
Proof. intros H p fs. apply wp_query; [|intros _]; (split; [done|]); [by intros a [= <-]|by intros a]. Qed.

Lemma yields_queryRow {A} (f : db -> option A) (P : A -> Prop) :
  (forall a, f d = Some a -> P a) -> yields d (queryRow f) P.
Proof.
  intros H. unfold queryRow. apply (yields_bind _ _ (fun o => o = f d)); [by apply yields_query|].
  intros [a|] E; [by apply yields_ret, H|apply yields_throw].
Qed.

Lemma yields_queryFallible {A} (f : db -> option A) (P : A -> Prop) :
  (forall a, f d = Some a -> P a) -> yields d (queryFallible f) P.
Proof.
  intros H. unfold queryFallible. apply (yields_bind _ _ (fun o => o = f d)); [by apply yields_query|].
  intros [a|] E; [by apply yields_ret, H|apply yields_throw].
Qed.

Lemma yields_orPanic {A} (o : option A) (P : A -> Prop) : (forall a, o = Some a -> P a) -> yields d (orPanic o) P.
Proof. intros H. destruct o; [by apply yields_ret, H|apply yields_throw]. Qed.

Lemma yields_scanRows {A B} (f : A -> M B) (R : A -> B -> Prop) l :
  (forall a, yields d (f a) (R a)) -> yields d (scanRows f l) (Forall2 R l).
Proof.
  intros Hf. induction l as [|a l IH]; cbn [scanRows]; [by apply yields_ret|].
  apply (yields_bind _ _ (R a)); [apply Hf|]. intros b Hb.
  apply (yields_bind _ _ (Forall2 R l)); [done|]. intros bs Hbs. apply yields_ret. by constructor.
Qed.

Lemma yields_foldM {A B} (f : B -> A -> M B) (I : B -> Prop) l b :
  (forall a b', a ∈ l -> I b' -> yields d (f b' a) I) -> I b -> yields d (foldM f b l) I.
Proof.
  intros Hf. revert b. induction l as [|a l IH]; intros b Hb; cbn [foldM]; [by apply yields_ret|].
  apply (yields_bind _ _ I); [apply Hf; [by left|done]|].
  intros b' Hb'. apply IH; [|done]. intros x y Hx. apply Hf. by right.
Qed.

Lemma yields_Run {A} act ws (fn : session -> M A) P : yields d (fn (MkSession act ws)) P -> yields d (Run act ws fn) P.
Proof.
  intros Hfn p fs. apply (wp_Run_read act ws fn P).
  - exact Hfn.
  - intros a w' E Ha. split; [done|by intros b [= <-]].
  - intros e w' E. by split.
Qed.
End Yields.

Lemma respects_eq_GetVersion `{AEAD} kek s v : respects (@eq db) (GetVersion kek s v).
Proof. apply respects_GetVersion. exact _. Qed.

Lemma respects_orPanic {A} (o : option A) : respects (@eq db) (orPanic o).
Proof. unfold orPanic. respects_solve. Qed.

Lemma respects_queryFallible {A} (f : db -> option A) : respects (@eq db) (queryFallible f).
Proof. unfold queryFallible. respects_solve. Qed.

Create HintDb yields.
#[export] Hint Resolve respects_eq_GetVersion respects_orPanic respects_queryFallible : yields.

(** The first of a sequence, of which only the database matters. *)
Ltac yields_skip := eapply yields_bind; [apply yields_reads; auto 6 with respects yields|intros ? _].

(** ** Sublists *)

Lemma List_filter_submseteq {A} (f : A -> bool) l : List.filter f l ⊆+ l.
Proof.
  induction l as [|x l IH]; [done|]. cbn. destruct (f x); [by apply submseteq_skip|by apply submseteq_cons].
Qed.

Lemma elem_of_List_filter {A} (f : A -> bool) l x : x ∈ List.filter f l <-> x ∈ l /\ f x = true.
Proof. by rewrite !list_elem_of_In, filter_In. Qed.

Lemma NoDup_sub {A} (l k : list A) : l ⊆+ k -> NoDup k -> NoDup l.
Proof. intros [l' E]%submseteq_Permutation Hk. rewrite E in Hk. by apply NoDup_app in Hk as [? _]. Qed.

Lemma Forall_sub {A} (P : A -> Prop) (l k : list A) : l ⊆+ k -> Forall P k -> Forall P l.
Proof. rewrite !Forall_forall. intros Hs Hk x Hx. by apply Hk, (elem_of_submseteq l). Qed.

Lemma preferIn_sub {A} (inT : Z * Z -> A -> bool) tf l : preferIn inT tf l ⊆+ l.
Proof. unfold preferIn. destruct tf; [|done]. case_match; [apply List_filter_submseteq|done]. Qed.

Lemma onlyIn_sub {A} (inT : Z * Z -> A -> bool) tf l : onlyIn inT tf l ⊆+ l.
Proof. unfold onlyIn. destruct tf; [apply List_filter_submseteq|done]. Qed.

Lemma mapM_snd_fst {R} (dist : R -> option f64) rows rds :
  mapM (fun r => d ← dist r; Some (r, d)) rows = Some rds -> rds.*1 = rows.
Proof.
  revert rds. induction rows as [|r rows IH]; intros rds; cbn; [by intros [= <-]|].
  destruct (dist r) as [x|]; [|done]. cbn. destruct (mapM _ rows) as [rds'|]; [|done].
  intros [= <-]. cbn. f_equal. by apply IH.
Qed.

Lemma nearest_sub {R} (dist : R -> option f64) limit rows rds : nearest dist limit rows = Some rds -> rds.*1 ⊆+ rows.
Proof.
  unfold nearest. case_match; [done|]. destruct (mapM _ rows) as [l|] eqn:E; [|done]. intros [= <-].
  apply mapM_snd_fst in E as <-. apply fmap_submseteq. rewrite submseteq_take. by rewrite sort_by_perm.
Qed.

Lemma rankBM25_sub `{Unicode, MathLog} limit docs qs : rankBM25 limit docs qs ⊆+ map id docs.
Proof.
  assert (Hm : (bm25Matches docs qs).*1 ⊆+ map id docs).
  { unfold bm25Matches. set (l := map _ docs). assert (E : map id docs = l.*1) by (unfold l; by rewrite <- list_fmap_compose).
    rewrite E. apply fmap_submseteq, sublist_submseteq, sublist_filter. }
  etrans; [|exact Hm]. unfold rankBM25. apply fmap_submseteq.
  case_match; rewrite ?submseteq_take; by rewrite sort_by_perm.
Qed.

(** The values an index of [l] gives to keys are values of [l]. *)
Lemma index_sub {E} (key : E -> string) (l : list E) ids :
  map key (omap (fun i => foldl (fun m e => <[key e := e]> m) (∅ : gmap string E) l !! i) ids) ⊆+ ids /\
  Forall (fun e => e ∈ l) (omap (fun i => foldl (fun m e => <[key e := e]> m) (∅ : gmap string E) l !! i) ids).
Proof.
  assert (Hm : forall (m : gmap string E) (k : list E),
    (forall i e, m !! i = Some e -> key e = i /\ e ∈ l) -> (forall e, e ∈ k -> e ∈ l) ->
    forall i e, foldl (fun m e => <[key e := e]> m) m k !! i = Some e -> key e = i /\ e ∈ l).
  { intros m k. revert m. induction k as [|x k IH]; intros m Hm Hk i e; cbn [foldl]; [apply Hm|].
    apply IH; [|intros y Hy; apply Hk; by right]. intros j y. rewrite lookup_insert_Some.
    intros [[<- <-]|[_ Hy]]; [split; [done|apply Hk; by left]|by apply Hm]. }
  specialize (Hm ∅ l). set (m := foldl _ _ l) in *.
  assert (Hm' : forall i e, m !! i = Some e -> key e = i /\ e ∈ l).
  { apply Hm; [|done]. intros i e. by rewrite lookup_empty. }
  clear Hm. induction ids as [|i ids [IH1 IH2]]; [split; [done|constructor]|]. cbn.
  destruct (m !! i) as [e|] eqn:Ee.
  - destruct (Hm' _ _ Ee) as [<- He]. split; [by apply submseteq_skip|by constructor].
  - split; [by apply submseteq_cons|done].
Qed.

(** ** Finds *)

Definition hits (kind : string) (scope : Scope) (id : string) (f : found) : Prop :=
  f.(fd_refs) = [MkRef kind scope id] /\ map c_ref f.(fd_citations) = f.(fd_refs).

(** The distinct ids a search found, all [ok], each cited once and in order. *)
Definition finds (kind : string) (scope : Scope) (ok : string -> Prop) (f : found) : Prop :=
  exists ids, NoDup ids /\ Forall ok ids /\ f.(fd_refs) = map (MkRef kind scope) ids /\
    map c_ref f.(fd_citations) = f.(fd_refs).

Lemma hits_hit kind scope id text snippet : hits kind scope id (hit kind scope id text snippet).
Proof. done. Qed.

Lemma finds_nothing kind scope ok : finds kind scope ok nothing.
Proof. exists []. by split_and!; constructor. Qed.

Lemma allFound_refs kind scope ids l :
  Forall2 (hits kind scope) ids l ->
  (allFound l).(fd_refs) = map (MkRef kind scope) ids /\ map c_ref (allFound l).(fd_citations) = (allFound l).(fd_refs).
Proof.
  induction 1 as [|id f ids l [E1 E2] _ [IH1 IH2]]; [done|]. cbn.
  fold (allFound l). rewrite map_app. split; [by rewrite E1, IH1|]. by rewrite E2, IH2.
Qed.

Lemma finds_all kind scope (ok : string -> Prop) base ids l :
  Forall2 (hits kind scope) ids l -> ids ⊆+ base -> NoDup base -> Forall ok base -> finds kind scope ok (allFound l).
Proof.
  intros Hl Hs Hn Ho. destruct (allFound_refs _ _ _ _ Hl) as [E1 E2]. exists ids.
  split_and!; [by eapply NoDup_sub|by eapply Forall_sub|done|done].
Qed.

Lemma finds_mono kind scope (ok ok' : string -> Prop) f :
  (forall id, ok id -> ok' id) -> finds kind scope ok f -> finds kind scope ok' f.
Proof.
  intros H (ids & Hn & Ho & E). exists ids. split_and!; [done| |by destruct E..].
  eapply Forall_impl; [exact Ho|done].
Qed.

(** Rows paired one to one with what was made of them. *)
Lemma Forall2_ids {A B} (f : A -> string) (g : B -> string) (l : list A) (k : list B) :
  Forall2 (fun a b => g b = f a) l k -> map g k = map f l.
Proof. induction 1; cbn; congruence. Qed.

(** One hit per row. *)
Lemma Forall2_hits {A} (f : A -> string) kind scope (l : list A) (k : list found) :
  Forall2 (fun a => hits kind scope (f a)) l k -> Forall2 (hits kind scope) (map f l) k.
Proof. induction 1; cbn; by constructor. Qed.
