(* ===== verification/SearchFacts.v ===== *)
(** * SearchFacts: each search finds stored rows of the workspace

    Summaries it finds are current; a later search finds nothing an earlier one
    was excluded from. *)

From stdpp Require Import gmap.
From S2P Require Import Prelude PgFmt Identity Schema Db KeyStore Rotate Utf8 Json Float Text Bm25 Mmr Embed Keeps Reembed.
From S2P Require Import Civil Temporal Slug Entities Sources Runner Daily Reads Facts Signals Search Finds.
#[local] Open Scope string_scope.
#[local] Open Scope list_scope.
#[local] Open Scope Z_scope.

(** ** Stored rows *)

Definition isSummary (d : db) (ws : Scope) (id : string) : Prop :=
  exists r, r ∈ d.(summaries) /\ r.(s_id) = id /\ r.(s_scope) = ws /\ current (MkSession ws ws) d r = true.

Definition isEpisode (d : db) (ws : Scope) (id : string) : Prop :=
  exists r, r ∈ d.(episodes) /\ r.(e_id) = id /\ r.(e_scope) = ws /\ r.(e_type) = "interaction".

Definition isEntity (d : db) (s : Scope) (id : string) : Prop :=
  exists r, r ∈ d.(entities) /\ r.(n_id) = id /\ r.(n_scope) = s.

(** An entity that is nobody's self model. *)
Definition ordinary (d : db) (s : Scope) (id : string) : Prop :=
  exists r, r ∈ d.(entities) /\ r.(n_id) = id /\ r.(n_scope) = s /\ r.(n_kind) <> "self_model".

(** The keys of the rows a search may return. *)
Definition entityKeys (d : db) : Prop := NoDup (map (fun n => (n.(n_scope), n.(n_id))) d.(entities)).
Definition episodeKeys (d : db) : Prop := NoDup (map e_id d.(episodes)).

Section Bases.
Context (d : db) (ws : Scope).

Lemma scope_ids_NoDup (f : EntityRow -> bool) :
  entityKeys d -> (forall r, f r = true -> r.(n_scope) = ws) -> NoDup (map n_id (List.filter f d.(entities))).
Proof.
  unfold entityKeys. intros Hk Hf. induction (entities d) as [|r l IH]; [constructor|].
  cbn in Hk. apply NoDup_cons in Hk as [Hr Hl]. cbn. destruct (f r) eqn:E; [|by apply IH]. cbn. constructor; [|by apply IH].
  intros (x & Ex & Hin)%list_elem_of_fmap. apply elem_of_List_filter in Hin as [Hx Hfx]. apply Hr.
  apply list_elem_of_fmap. exists x. split; [|done]. by rewrite (Hf _ E), (Hf _ Hfx), Ex.
Qed.

Lemma findable_spec se exclude r :
  entityFindable se ws exclude r = true -> n_scope r = ws /\ n_kind r <> "self_model" /\ ~ n_id r ∈ exclude.
Proof.
  unfold entityFindable. rewrite !andb_true_iff, !negb_true_iff, String.eqb_neq, bool_decide_eq_true, bool_decide_eq_false.
  tauto.
Qed.

(** What an entity search may find, once each. *)
Lemma findable_base se exclude (f : EntityRow -> bool) :
  entityKeys d ->
  let base := map n_id (List.filter (fun r => entityFindable se ws exclude r && f r) d.(entities)) in
  NoDup base /\ Forall (fun id => ordinary d ws id /\ ~ id ∈ exclude) base.
Proof.
  intros Hk base. unfold base. split.
  - apply scope_ids_NoDup; [done|]. intros r [Hr _]%andb_true_iff. by apply findable_spec in Hr as [? _].
  - apply Forall_forall. intros id (r & -> & Hin)%list_elem_of_fmap.
    apply elem_of_List_filter in Hin as [Hr [Hf _]%andb_true_iff].
    apply findable_spec in Hf as (H1 & H2 & H3). split; [|done]. by exists r.
Qed.

Lemma episode_base (f : EpisodeRow -> bool) (exclude : list string) :
  episodeKeys d ->
  (forall r, f r = true -> r.(e_scope) = ws /\ r.(e_type) = "interaction" /\ ~ r.(e_id) ∈ exclude) ->
  NoDup (map e_id (List.filter f d.(episodes))) /\
  Forall (fun id => isEpisode d ws id /\ ~ id ∈ exclude) (map e_id (List.filter f d.(episodes))).
Proof.
  intros Hk Hf. split.
  - eapply NoDup_sub; [|exact Hk]. apply fmap_submseteq, List_filter_submseteq.
  - apply Forall_forall. intros id (r & -> & Hin)%list_elem_of_fmap.
    apply elem_of_List_filter in Hin as [Hr Hfr].
    destruct (Hf _ Hfr) as (H1 & H2 & H3). split; [|done]. by exists r.
Qed.
End Bases.

Section Searches.
Context `{HA : AEAD, HU : Unicode, HL : MathLog, EM : Embedder, SO : SearchOps}.
Variable kek : string.
Variable Getenv : string -> string.
Variable localOffset : Z -> Z.
Variables (d : db) (ws : Scope).
#[local] Abbreviation se := (MkSession ws ws).

(** ** Summaries *)

(** Every candidate is a current summary of the workspace. *)
Definition known (byID : gmap string candidate) : Prop := forall id, is_Some (byID !! id) -> isSummary d ws id.

Lemma known_insert byID id c : known byID -> isSummary d ws id -> known (<[id := c]> byID).
Proof. intros Hk Hid i. rewrite lookup_insert_is_Some. intros [<-|[_ Hi]]; [done|by apply Hk]. Qed.

Lemma known_empty : known ∅.
Proof. intros id [c Hc]. by rewrite lookup_empty in Hc. Qed.

Lemma searchable_spec r : r ∈ d.(summaries) -> searchable se ws d r = true -> isSummary d ws (s_id r).
Proof.
  intros Hr. unfold searchable. rewrite !andb_true_iff, bool_decide_eq_true. intros [[_ Es] Hc]. by exists r.
Qed.

Lemma yields_open scope r : yields d (openSummary kek scope r) (fun _ => True).
Proof. apply yields_reads. unfold openSummary. respects_solve. Qed.

Lemma nearest_elem {R} (dist : R -> option f64) limit rows rds rd : nearest dist limit rows = Some rds -> rd ∈ rds -> rd.1 ∈ rows.
Proof.
  intros H%nearest_sub Hin. eapply elem_of_submseteq; [|exact H]. apply list_elem_of_fmap. by exists rd.
Qed.

Lemma vectorRows_known qv limit rds rd :
  vectorRows se ws qv limit d = Some rds -> rd ∈ rds -> isSummary d ws (s_id rd.1).
Proof.
  intros H Hin. pose proof (nearest_elem _ _ _ _ _ H Hin) as [Hr [Hs _]%andb_true_iff]%elem_of_List_filter.
  by apply searchable_spec.
Qed.

Lemma factRows_known qv limit rds rd :
  factRows se ws qv limit d = Some rds -> rd ∈ rds -> isSummary d ws (s_id rd.1).
Proof.
  unfold factRows. destruct (mapM _ _) as [best|] eqn:Eb; [|done]. cbn [mbind option_bind].
  destruct (nearest _ _ _) as [rows|] eqn:En; [|done]. cbn. intros [= <-] Hin.
  apply list_elem_of_fmap in Hin as (rd' & -> & Hin). cbn.
  pose proof (nearest_elem _ _ _ _ _ En Hin) as [Hr Hne]%elem_of_List_filter.
  apply mapM_Some in Eb. destruct (list_elem_of_lookup_1 _ _ Hr) as [i Hi].
  destruct (Forall2_lookup_r _ _ _ _ _ Eb Hi) as (s & Hs & E). apply list_elem_of_lookup_2 in Hs.
  destruct (factDistances se ws qv d s) as [ds|] eqn:Ed; [|done]. cbn in E. injection E as E. rewrite <- E in *. cbn in *.
  apply elem_of_List_filter in Hs as [Hs [Hv Hc]%andb_true_iff].
  exists s. split_and!; [done|done|by apply visible_same|done].
Qed.

Lemma keywordRows_known narrow ids r : r ∈ keywordRows se ws narrow ids d -> isSummary d ws (s_id r).
Proof. intros [Hr [[Hs _]%andb_true_iff _]%andb_true_iff]%elem_of_List_filter. by apply searchable_spec. Qed.

Lemma vectorStep_known threshold st rd :
  isSummary d ws (s_id rd.1) -> known st.1 -> yields d (vectorStep kek ws threshold st rd) (fun st' => known st'.1).
Proof.
  intros Hid Hk. unfold vectorStep. case_match; [by apply yields_ret|].
  eapply yields_bind; [apply yields_open|]. intros c _. by apply yields_ret, known_insert.
Qed.

Lemma factStep_known threshold st rd :
  isSummary d ws (s_id rd.1) -> known st.1 -> yields d (factStep kek ws threshold st rd) (fun st' => known st'.1).
Proof.
  intros Hid Hk. unfold factStep. case_match; [by apply yields_ret|].
  case_match; [by apply yields_ret, known_insert|].
  eapply yields_bind; [apply yields_open|]. intros c _. by apply yields_ret, known_insert.
Qed.

Lemma keywordStep_known byID st r :
  isSummary d ws (s_id r) -> Forall (isSummary d ws) (map id st.1) ->
  yields d (keywordStep kek ws byID st r) (fun st' => Forall (isSummary d ws) (map id st'.1)).
Proof.
  intros Hid Hst. unfold keywordStep. case_match.
  - apply yields_ret. cbn. rewrite map_app. apply Forall_app. split; [done|]. by constructor.
  - eapply yields_bind; [apply yields_open|]. intros c _. apply yields_ret. cbn. rewrite map_app.
    apply Forall_app. split; [done|]. by constructor.
Qed.

Lemma keywordRanks_known seen matches rank byID :
  known byID -> Forall (isSummary d ws) matches -> known (keywordRanks seen matches rank byID).
Proof.
  revert rank byID. induction matches as [|i matches IH]; intros rank byID Hk Hm; cbn [keywordRanks]; [done|].
  apply Forall_cons in Hm as [Hi Hm]. by apply IH; [apply known_insert|].
Qed.

Lemma keywordPass_known tier ids qs maxResults byID :
  known byID -> yields d (keywordPass kek se ws tier ids qs maxResults byID) known.
Proof.
  intros Hk. unfold keywordPass. case_match; [by apply yields_ret|].
  set (narrow := _ && _).
  apply (yields_bind d _ _ (fun rows => rows = keywordRows se ws narrow ids d)); [by apply yields_query|]. intros rows ->.
  apply (yields_bind d _ _ (fun st => Forall (isSummary d ws) (map id st.1))).
  { apply (yields_foldM d _ (fun st => Forall (isSummary d ws) (map id st.1))); [|by constructor].
    intros r st Hr Hst. apply keywordStep_known; [|done]. by eapply keywordRows_known. }
  intros st Hst. apply yields_ret, keywordRanks_known; [done|].
  eapply Forall_sub; [apply rankBM25_sub|done].
Qed.

Lemma candidates_known qv qs threshold maxResults tier ids :
  yields d (candidates kek se ws qv qs threshold maxResults tier ids) known.
Proof.
  unfold candidates.
  apply (yields_bind d _ _ (fun rds => forall rd, rd ∈ rds -> isSummary d ws (s_id rd.1))).
  { apply yields_queryFallible. intros rds H rd. by apply (vectorRows_known _ _ _ _ H). }
  intros vecRows Hv. apply (yields_bind d _ _ (fun st => known st.1)).
  { apply (yields_foldM d _ (fun st => known st.1)); [|apply known_empty].
    intros rd st Hrd Hst. by apply vectorStep_known; [apply Hv|]. }
  intros st Hst. eapply yields_bind; [by apply keywordPass_known|]. intros byID Hk. cbn beta in Hk.
  apply (yields_bind d _ _ (fun rds => forall rd, rd ∈ rds -> isSummary d ws (s_id rd.1))).
  { apply yields_queryFallible. intros rds H rd. by apply (factRows_known _ _ _ _ H). }
  intros fRows Hf. apply (yields_bind d _ _ (fun st => known st.1)).
  { apply (yields_foldM d _ (fun st => known st.1)); [|done].
    intros rd st' Hrd Hst'. by apply factStep_known; [apply Hf|]. }
  intros st' Hst'. by apply yields_ret.
Qed.

Lemma nth_sub (l : list string) (idx : list nat) :
  NoDup idx -> (forall i, i ∈ idx -> (i < length l)%nat) -> map (fun i => nth i l "") idx ⊆+ l.
Proof.
  intros Hn Hr. assert (Hs : idx ⊆+ seq 0 (length l)).
  { apply NoDup_submseteq; [done|]. intros i Hi. apply elem_of_seq. specialize (Hr i Hi). lia. }
  assert (E : map (fun i => nth i l "") (seq 0 (length l)) = l).
  { clear. apply list_eq. intros i. rewrite list_lookup_fmap. destruct (decide (i < length l)%nat) as [Hi|Hi].
    - rewrite lookup_seq_lt by done. cbn. destruct (lookup_lt_is_Some_2 l i Hi) as [x Hx]. rewrite Hx. f_equal.
      by apply nth_lookup_Some.
    - rewrite lookup_ge_None_2 by (rewrite length_seq; lia). symmetry. apply lookup_ge_None. lia. }
  etrans; [by apply (fmap_submseteq (fun i => nth i l "")), Hs|].
  change (map (fun i => nth i l "") (seq 0 (length l)) ⊆+ l). by rewrite E.
Qed.

Lemma pickIDs_known tf maxResults byID :
  known byID -> NoDup (pickIDs Getenv tf maxResults byID) /\ Forall (isSummary d ws) (pickIDs Getenv tf maxResults byID).
Proof.
  intros Hk. assert (Hs : pickIDs Getenv tf maxResults byID ⊆+ (map_to_list byID).*1).
  { unfold pickIDs. set (pool := map _ (poolIDs tf byID)).
    destruct (mmrSelect_indices pool (mmrLambda Getenv) maxResults) as [Hn Hr].
    assert (El : length pool = length (poolIDs tf byID)) by (unfold pool; by rewrite length_map).
    etrans; [apply nth_sub; [done|]|].
    { intros i Hi. rewrite <- El. by apply Hr. }
    unfold poolIDs, sortedIds. rewrite preferIn_sub. by rewrite sort_by_perm. }
  split.
  - eapply NoDup_sub; [exact Hs|]. apply NoDup_fst_map_to_list.
  - eapply Forall_sub; [exact Hs|]. apply Forall_forall.
    intros i ([j c] & -> & Hc%elem_of_map_to_list)%list_elem_of_fmap. apply Hk. by exists c.
Qed.

Lemma summaries_found qv qs threshold maxResults query now tier ids :
  yields d (fusedSearchSummaries kek Getenv se ws qv qs threshold maxResults query now tier ids)
    (finds RefKindSummary ws (isSummary d ws)).
Proof.
  unfold fusedSearchSummaries. eapply yields_bind; [apply candidates_known|]. intros byID Hk. cbn beta in Hk.
  set (tf := resolveQueryTimeframe query now). destruct (pickIDs_known tf maxResults byID Hk) as [Hn Ho].
  set (picked := pickIDs _ _ _ _) in *.
  apply (yields_bind d _ _ (Forall2 (fun id p => pk_id p = id) picked)).
  { apply yields_scanRows. intros i. unfold loadPick.
    eapply yields_bind; [apply yields_reads; unfold loadKeyFacts, queryFallible; respects_solve|].
    intros facts _. by apply yields_ret. }
  intros picks Hp. eapply yields_bind; [apply yields_reads|intros guarantees _].
  { apply respects_scanRows; [exact _|]. intros p. unfold guaranteeLine, orPanic. respects_solve. }
  apply (yields_bind d _ _ (Forall2 (fun p => hits RefKindSummary ws (pk_id p)) picks)).
  { apply yields_scanRows. intros p. unfold depthOf.
    yields_skip. yields_skip. apply yields_ret, hits_hit. }
  intros depths Hd. apply yields_ret.
  apply Forall2_hits in Hd. apply Forall2_ids in Hp. rewrite map_id in Hp. rewrite Hp in Hd.
  destruct (finds_all _ _ (isSummary d ws) picked _ _ Hd) as (ids' & H1 & H2 & H3 & H4); [done..|].
  exists ids'. by split_and!.
Qed.

(** ** Entities *)

Lemma yields_openEntity r : yields d (openEntity kek ws r) (fun e => eh_id e = n_id r).
Proof. unfold openEntity. yields_skip. yields_skip. by apply yields_ret. Qed.

Lemma entities_found_vector qv exclude threshold maxResults query now :
  entityKeys d ->
  yields d (vectorSearchEntities kek se ws qv exclude threshold maxResults query now)
    (finds RefKindEntity ws (fun id => ordinary d ws id /\ ~ id ∈ exclude)).
Proof.
  intros Hk. unfold vectorSearchEntities.
  destruct (findable_base d ws se exclude (fun r => comparable currentEmbeddingModel (n_embedding r) (n_embedding_model r)) Hk) as [Hn Ho].
  set (base := map n_id _) in *.
  apply (yields_bind d _ _ (fun rds => map n_id rds.*1 ⊆+ base)).
  { apply yields_queryFallible. intros rds H. apply fmap_submseteq. exact (nearest_sub _ _ _ _ H). }
  intros rows Hs. set (close := List.filter _ rows).
  apply (yields_bind d _ _ (Forall2 (fun rd e => eh_id e = n_id rd.1) close)).
  { apply yields_scanRows. intros rd. apply yields_openEntity. }
  intros hs Hh. apply yields_ret. apply (finds_all _ _ _ base (map eh_id hs)); [| |done|done].
  - clear. induction hs; constructor; [apply hits_hit|done].
  - rewrite (Forall2_ids _ _ _ _ Hh). etrans; [|exact Hs].
    assert (E : map n_id rows.*1 = map (fun rd : EntityRow * f64 => n_id rd.1) rows) by by rewrite <- list_fmap_compose.
    rewrite E. apply fmap_submseteq, List_filter_submseteq.
Qed.

Lemma entities_found_keyword qs exclude query now :
  entityKeys d ->
  yields d (keywordSearchEntities kek Getenv se ws qs exclude query now)
    (finds RefKindEntity ws (fun id => ordinary d ws id /\ ~ id ∈ exclude)).
Proof.
  intros Hk. unfold keywordSearchEntities.
  destruct (findable_base d ws se exclude (fun r => bool_decide (is_Some (n_attributes r))) Hk) as [Hn Ho].
  set (base := map n_id _) in *. set (sel := fun d : db => List.filter _ _).
  apply (yields_bind d _ _ (fun rows => rows = sel d)); [by apply yields_query|]. intros rows ->.
  apply (yields_bind d _ _ (Forall2 (fun r e => eh_id e = n_id r) (sel d))).
  { apply yields_scanRows. intros r. apply yields_openEntity. }
  intros hs Hh. apply yields_ret. set (docs := map _ hs). set (l := onlyIn _ _ _).
  apply (finds_all _ _ _ base (map eh_id l)); [| |done|done].
  - clear. induction l; constructor; [apply hits_hit|done].
  - etrans; [apply fmap_submseteq, onlyIn_sub|]. etrans; [apply (index_sub eh_id hs)|].
    etrans; [apply rankBM25_sub|]. unfold docs. rewrite map_map. cbn [id].
    change (map eh_id hs ⊆+ base). by rewrite (Forall2_ids _ _ _ _ Hh).
Qed.

(** ** Episodes *)

Lemma yields_openEpisode r : yields d (openEpisode kek ws r) (fun e => ex_id e = e_id r).
Proof. unfold openEpisode. yields_skip. yields_skip. yields_skip. by apply yields_ret. Qed.

Lemma yields_exchanges qs now how l :
  yields d (scanRows (exchangeFound localOffset ws qs now how) l) (Forall2 (fun m => hits RefKindEpisode ws (ex_id m)) l).
Proof. apply yields_scanRows. intros m. unfold exchangeFound. yields_skip. apply yields_ret, hits_hit. Qed.

Lemma episodes_found_vector qv qs query now :
  episodeKeys d ->
  yields d (vectorSearchEpisodes kek Getenv localOffset se ws qv qs query now)
    (finds RefKindEpisode ws (isEpisode d ws)).
Proof.
  intros Hk. unfold vectorSearchEpisodes, episodeVectorRows. set (sel := fun r : EpisodeRow => _ && _ && _ && _).
  destruct (episode_base d ws sel [] Hk) as [Hn Ho].
  { intros r. unfold sel. rewrite !andb_true_iff, String.eqb_eq, bool_decide_eq_true.
    intros [[[_ Et] _] Es]. split_and!; [done|done|apply not_elem_of_nil]. }
  set (base := map e_id _) in *.
  apply (yields_bind d _ _ (fun rds => map e_id rds.*1 ⊆+ base)).
  { apply yields_queryFallible. intros rds H. apply fmap_submseteq. exact (nearest_sub _ _ _ _ H). }
  intros rows Hs. set (close := List.filter _ rows).
  apply (yields_bind d _ _ (Forall2 (fun rd m => ex_id m = e_id rd.1) close)).
  { apply yields_scanRows. intros rd. apply yields_openEpisode. }
  intros ms Hm. set (l := preferIn _ _ ms).
  eapply yields_bind; [apply yields_exchanges|]. intros fs Hf. apply yields_ret.
  eapply finds_mono; [|apply (finds_all _ _ _ base (map ex_id l) fs); [by apply Forall2_hits| |done|exact Ho]].
  { by intros i [Hi _]. }
  etrans; [apply fmap_submseteq, preferIn_sub|]. change (map ex_id ms ⊆+ base). rewrite (Forall2_ids _ _ _ _ Hm).
  etrans; [|exact Hs].
  assert (E : map e_id rows.*1 = map (fun rd : EpisodeRow * f64 => e_id rd.1) rows) by by rewrite <- list_fmap_compose.
  rewrite E. apply fmap_submseteq, List_filter_submseteq.
Qed.

Lemma episodes_found_keyword qs exclude query now :
  episodeKeys d ->
  yields d (keywordSearchEpisodes kek Getenv localOffset se ws qs exclude query now)
    (finds RefKindEpisode ws (fun id => isEpisode d ws id /\ ~ id ∈ exclude)).
Proof.
  intros Hk. unfold keywordSearchEpisodes. set (sel := fun r : EpisodeRow => _ && _ && _ && _).
  destruct (episode_base d ws sel exclude Hk) as [Hn Ho].
  { intros r. unfold sel. rewrite !andb_true_iff, String.eqb_eq, negb_true_iff, bool_decide_eq_true, bool_decide_eq_false.
    intros [[[_ Et] Hx] Es]. by split_and!. }
  apply (yields_bind d _ _ (fun rows => rows = List.filter sel d.(episodes))); [by apply yields_query|]. intros rows ->.
  apply (yields_bind d _ _ (Forall2 (fun r m => ex_id m = e_id r) (List.filter sel d.(episodes)))).
  { apply yields_scanRows. intros r. apply yields_openEpisode. }
  intros ms Hm. set (docs := map _ ms). set (l := preferIn _ _ _).
  eapply yields_bind; [apply yields_exchanges|]. intros fs Hf. apply yields_ret.
  apply (finds_all _ _ _ (map e_id (List.filter sel d.(episodes))) (map ex_id l)); [by apply Forall2_hits| |done|done].
  etrans; [apply fmap_submseteq, preferIn_sub|]. etrans; [apply (index_sub ex_id ms)|].
  etrans; [apply rankBM25_sub|]. unfold docs. rewrite map_map. cbn [id].
  change (map ex_id ms ⊆+ map e_id (List.filter sel d.(episodes))). by rewrite (Forall2_ids _ _ _ _ Hm).
Qed.

(** ** Relationships *)

(** What a walk holds on to: new entities, once each, all seen. *)
Record walkInv (seeds : list string) (w : walk) : Prop := MkWalkInv {
  wi_nodup : NoDup w.(discovered);
  wi_seen : forall id, id ∈ seeds \/ id ∈ w.(discovered) -> id ∈ w.(visited);
  wi_new : forall id, id ∈ w.(discovered) -> ~ id ∈ seeds
}.

Lemma visit_inv seeds w id : walkInv seeds w -> walkInv seeds (visit w id).
Proof.
  intros [Hn Hs Hw]. unfold visit. destruct (_ || _) eqn:E; [by split|].
  apply orb_false_iff in E as [Hv%bool_decide_eq_false _]. split; cbn.
  - apply NoDup_app. split_and!; [done| |by apply NoDup_singleton].
    intros x Hx ->%list_elem_of_singleton. apply Hv, Hs. by right.
  - intros x. rewrite elem_of_app, list_elem_of_singleton, elem_of_union, elem_of_singleton.
    intros [Hx|[Hx| ->]]; [right; apply Hs; by left|right; apply Hs; by right|by left].
  - intros x [Hx| ->%list_elem_of_singleton]%elem_of_app; [by apply Hw|]. intros Hx. apply Hv, Hs. by left.
Qed.

Lemma walkHops_inv seeds hops seen l frontier :
  walkInv seeds (MkWalk seen l []) ->
  yields d (walkHops hops se ws seen l frontier) (fun ids => NoDup ids /\ forall id, id ∈ ids -> ~ id ∈ seeds).
Proof.
  revert seen l frontier. induction hops as [|hops IH]; intros seen l frontier Hi; cbn [walkHops].
  { destruct Hi. by apply yields_ret. }
  case_match; [destruct Hi; by apply yields_ret|]. yields_skip. rename a into rows.
  assert (Hw : walkInv seeds (foldl (fun w r => visit (visit w r.(rel_subject)) r.(rel_object)) (MkWalk seen l []) rows)).
  { clear H. generalize (MkWalk seen l []) Hi. induction rows as [|r rows IHr]; intros w Hw; [done|].
    cbn [foldl]. by apply IHr, visit_inv, visit_inv. }
  apply IH. destruct Hw. by split.
Qed.

Lemma yields_formatEntity s' scope id label :
  yields d (formatEntity kek s' scope id label) (fun _ => isEntity d scope id).
Proof.
  clear Getenv. unfold formatEntity. apply (yields_bind d _ _ (fun r => selectEntity s' scope id d = Some r)).
  { apply yields_queryRow. by intros r. }
  intros r [Hr Hs]%List.find_some. yields_skip. yields_skip. apply yields_ret.
  rewrite !andb_true_iff in Hs. unfold sameEntity in Hs. rewrite andb_true_iff, String.eqb_eq, bool_decide_eq_true in Hs.
  exists r. split_and!; [by apply list_elem_of_In|tauto|tauto].
Qed.

Lemma connected_found seeds :
  yields d (graphWalkRelationships kek Getenv se ws seeds)
    (finds RefKindEntity ws (fun id => isEntity d ws id /\ ~ id ∈ seeds)).
Proof.
  unfold graphWalkRelationships. case_match; [apply yields_ret, finds_nothing|].
  eapply yields_bind; [apply (walkHops_inv seeds)|].
  { split; cbn; [constructor| |by intros i ?%elem_of_nil].
    intros i [Hi|Hi%elem_of_nil]; [by apply elem_of_list_to_set|done]. }
  intros ids [Hn Hnew].
  apply (yields_bind d _ _ (Forall2 (fun id f => isEntity d ws id /\ hits RefKindEntity ws id f) ids)).
  { apply yields_scanRows. intros i. unfold walked.
    eapply yields_bind; [apply yields_wrap, yields_formatEntity|]. intros line Hi. by apply yields_ret. }
  intros l Hl. apply yields_ret.
  assert (Ho : Forall (fun id => isEntity d ws id /\ ~ id ∈ seeds) ids).
  { apply Forall_forall. intros i Hi. split; [|by apply Hnew]. destruct (list_elem_of_lookup_1 _ _ Hi) as [k Hk].
    destruct (Forall2_lookup_l _ _ _ _ _ Hl Hk) as (f & _ & H' & _). done. }
  eapply finds_all; [|done|done|done]. eapply Forall2_impl; [exact Hl|]. by intros i f [_ ?].
Qed.
End Searches.
