(* ===== verification/RetrieveFacts.v ===== *)
(** * RetrieveFacts: what a turn is given, and when

    Whatever fails, a retrieval changes nothing but its audit row; what it
    cites is stored, current, in the workspace (the self model aside), each
    memory once; its gate says whether it searched and whether it found. *)

From stdpp Require Import gmap.
From S2P Require Import Prelude PgFmt Identity Schema Db KeyStore Rotate Utf8 Json Float Text Bm25 Mmr Embed Keeps Reembed.
From S2P Require Import Civil Temporal Slug Entities Relations Output Grounding Vectors Summaries SummaryStore.
From S2P Require Import Sources Runner Daily Reads Facts Signals Search Finds SearchFacts Retrieve.
#[local] Open Scope string_scope.
#[local] Open Scope list_scope.
#[local] Open Scope Z_scope.

(** ** What may be cited *)

Inductive cited (d : db) (act ws : Scope) : Ref -> Prop :=
| cited_self r : r ∈ d.(entities) -> r.(n_scope) = act -> r.(n_kind) = "self_model" ->
    cited d act ws (MkRef RefKindEntity act r.(n_id))
| cited_entity id : isEntity d ws id -> cited d act ws (MkRef RefKindEntity ws id)
| cited_summary id : isSummary d ws id -> cited d act ws (MkRef RefKindSummary ws id)
| cited_episode id : isEpisode d ws id -> cited d act ws (MkRef RefKindEpisode ws id).

(** The self model's reference, if there is one. *)
Definition anchorRefs (d : db) (act ws : Scope) : list Ref :=
  match selfModel (MkSession act ws) act d with
  | Some r => [MkRef RefKindEntity act r.(n_id)]
  | None => []
  end.

(** Each memory once, each stored, each with its citation. *)
Record good (d : db) (act ws : Scope) (refs : list Ref) (citations : list Citation) : Prop := MkGood {
  g_once : NoDup refs;
  g_stored : Forall (cited d act ws) refs;
  g_cited : map c_ref citations = refs
}.

Lemma refIDs_spec refs kind scope id : MkRef kind scope id ∈ refs -> id ∈ refIDsOfKind refs kind.
Proof.
  intros H. unfold refIDsOfKind. apply list_elem_of_fmap. exists (MkRef kind scope id). split; [done|].
  apply elem_of_List_filter. split; [done|apply String.eqb_refl].
Qed.

Section Retrieval.
Context `{HA : AEAD, HU : Unicode, HL : MathLog, EM : Embedder, FF : FloatFormat, SO : SearchOps}.
Variable kek : string.
Variable Getenv : string -> string.
Variable localOffset : Z -> Z.
Variables (d : db) (act ws : Scope).

(** The entities a query names, those of its timeframe if it has one. *)
Definition namedEntities (query : string) (now : Z) : list entityMatch :=
  onlyIn (fun tf m => dayIn tf m.(em_lastUpdated)) (resolveQueryTimeframe query now)
    (map (fun r => MkEntityMatch r.(n_id) r.(n_dates).(last_updated))
       (List.filter (namedIn (ToLower query))
          (List.filter (fun r => visible (MkSession act ws) r.(n_scope) && negb (String.eqb r.(n_kind) "self_model") &&
                                 bool_decide (r.(n_scope) = ws)) d.(entities)))).

Definition namedIds (query : string) (now : Z) : list string :=
  if String.eqb query "" then [] else map em_id (namedEntities query now).

(** Whether stage one finds something to search for. *)
Definition worthSearching (query : string) (now : Z) : bool :=
  negb (String.eqb query "") &&
  (bool_decide (namedIds query now <> []) || stage1KeywordSignal query || stage1QuestionSignal query).

(** ** Stage one *)

Lemma namedIds_ok query now :
  entityKeys d -> NoDup (namedIds query now) /\ Forall (ordinary d ws) (namedIds query now).
Proof.
  intros Hk. unfold namedIds. case_match; [split; constructor|].
  set (f := fun r : EntityRow => visible (MkSession act ws) r.(n_scope) && negb (String.eqb r.(n_kind) "self_model") &&
                                bool_decide (r.(n_scope) = ws)).
  assert (Hf : forall r, f r = true -> n_scope r = ws /\ n_kind r <> "self_model").
  { intros r. unfold f. rewrite !andb_true_iff, negb_true_iff, String.eqb_neq, bool_decide_eq_true. tauto. }
  assert (Hs : map em_id (namedEntities query now) ⊆+ map n_id (List.filter f d.(entities))).
  { unfold namedEntities. etrans; [apply fmap_submseteq, onlyIn_sub|]. rewrite <- list_fmap_compose.
    apply (fmap_submseteq n_id), List_filter_submseteq. }
  split.
  - eapply NoDup_sub; [exact Hs|]. apply (scope_ids_NoDup d ws); [done|]. by intros r [? _]%Hf.
  - eapply Forall_sub; [exact Hs|]. apply Forall_forall. intros i (r & -> & Hin)%list_elem_of_fmap.
    apply elem_of_List_filter in Hin as [Hr [E1 E2]%Hf]. by exists r.
Qed.

Lemma anchor_yields :
  yields d (buildAnchor kek (MkSession act ws) act ws)
    (fun a => a.1.2 = anchorRefs d act ws /\ map c_ref a.2 = a.1.2).
Proof.
  unfold buildAnchor. apply (yields_bind d _ _ (fun self => self = selfModel (MkSession act ws) act d)).
  { by apply yields_wrap, yields_query. }
  intros self ->. apply (yields_bind d _ _ (fun a => a.1.2 = anchorRefs d act ws /\ map c_ref a.2 = a.1.2)).
  { unfold anchorRefs. destruct (selfModel _ _ _) as [r|]; [|by apply yields_ret].
    yields_skip. yields_skip. by apply yields_ret. }
  intros a Ha. yields_skip. apply yields_ret. by case_match.
Qed.

Lemma stage1_yields query now :
  yields d (stage1 kek act ws query now) (fun s =>
    s.1.(fd_refs) = anchorRefs d act ws /\ map c_ref s.1.(fd_citations) = s.1.(fd_refs) /\
    map fst s.2 = namedIds query now).
Proof.
  unfold stage1. apply yields_Run. eapply yields_bind; [apply yields_wrap, anchor_yields|]. intros a [E1 E2].
  unfold namedIds. destruct (String.eqb query "") eqn:Eq; [by apply yields_ret|].
  apply (yields_bind d _ _ (fun ms => onlyIn (fun tf m => dayIn tf m.(em_lastUpdated)) (resolveQueryTimeframe query now) ms =
                                      namedEntities query now)).
  { apply yields_wrap. unfold stage1EntityMatches. set (sel := fun d : db => List.filter _ d.(entities)).
    apply (yields_bind d _ _ (fun rows => rows = sel d)); [by apply yields_query|]. intros rows ->. by apply yields_ret. }
  intros ms ->. apply (yields_bind d _ _ (Forall2 (fun m l => fst l = em_id m) (namedEntities query now))).
  { apply yields_scanRows. intros m. unfold matchedLine.
    apply (yields_bind d _ _ (fun _ => isEntity d ws (em_id m))); [apply yields_wrap, yields_formatEntity|].
    intros line _. by apply yields_ret. }
  intros ls Hl. apply yields_ret. cbn. split_and!; [done|done|]. by apply (Forall2_ids em_id fst).
Qed.

(** ** The searches, one after another *)

(** What has been found so far: of some kinds, under [Q]. *)
Definition sofarOk (Q : Ref -> Prop) (f : found) : Prop :=
  good d act ws f.(fd_refs) f.(fd_citations) /\ Forall Q f.(fd_refs) /\
  exists rest, f.(fd_refs) = anchorRefs d act ws ++ rest.

Lemma andThen_ok (Q Q' : Ref -> Prop) kind (ok : string -> Prop) sofar msg search :
  sofarOk Q sofar -> (forall r, Q r -> Q' r) ->
  yields d search (finds kind ws ok) ->
  (forall id, ok id -> cited d act ws (MkRef kind ws id) /\ Q' (MkRef kind ws id) /\
                      ~ MkRef kind ws id ∈ sofar.(fd_refs)) ->
  yields d (andThen sofar msg search) (sofarOk Q').
Proof.
  intros ([Hn Hs Hc] & HQ & rest & Er) HQQ Hf Hok. unfold andThen.
  eapply yields_bind; [by apply yields_wrap|]. intros f (ids & Hid & Ho & E & Ec). apply yields_ret.
  rewrite Forall_forall in Ho.
  assert (Hin : forall r, r ∈ fd_refs f -> exists id, r = MkRef kind ws id /\ ok id).
  { intros r. rewrite E. intros (id & -> & Hi)%list_elem_of_fmap. exists id. split; [done|by apply Ho]. }
  split_and!; cbn.
  - split.
    + apply NoDup_app. split_and!; [done| |].
      * intros r Hr (id & -> & Hi)%Hin. by apply (Hok id).
      * rewrite E. apply NoDup_fmap_2; [by intros x y [= ->]|done].
    + apply Forall_app. split; [done|]. apply Forall_forall. intros r (id & -> & Hi)%Hin. by apply Hok.
    + by rewrite map_app, Hc, Ec.
  - apply Forall_app. split; [eapply Forall_impl; [exact HQ|done]|].
    apply Forall_forall. intros r (id & -> & Hi)%Hin. by apply Hok.
  - exists (rest ++ fd_refs f). by rewrite Er, app_assoc.
Qed.

(** The self model, or named by the query. *)
Definition early (ids : list string) (r : Ref) : Prop :=
  r.(ref_kind) = RefKindEntity ->
  r.(ref_scope) = ws -> r.(ref_id) ∈ ids \/
    exists row, row ∈ d.(entities) /\ n_scope row = ws /\ n_id row = r.(ref_id) /\ n_kind row = "self_model".

Lemma ordinary_not_early ids id :
  entityKeys d -> ordinary d ws id -> ~ id ∈ ids -> ~ early ids (MkRef RefKindEntity ws id).
Proof.
  intros Hk (r & Hr & <- & Es & Hkind) Hid He. destruct (He eq_refl eq_refl) as [?|(r' & Hr' & Es' & Ei & Ek)]; [done|].
  apply Hkind. cbn in Ei. rewrite <- Ek. f_equal. apply (NoDup_map_inj (fun n => (n_scope n, n_id n)) (entities d)); [done..|].
  cbn. congruence.
Qed.

Lemma not_early_not_in ids refs r : Forall (early ids) refs -> ~ early ids r -> ~ r ∈ refs.
Proof. rewrite Forall_forall. intros H Hr Hin. by apply Hr, H. Qed.

Lemma searches_ok query qv now sofar :
  entityKeys d -> episodeKeys d ->
  sofarOk (fun r => r.(ref_kind) = RefKindEntity /\ early (namedIds query now) r) sofar ->
  yields d (searches kek Getenv localOffset (MkSession ws ws) ws query qv now sofar (namedIds query now))
    (sofarOk (fun _ => True)).
Proof.
  intros Hek Hpk H0. unfold searches. set (ids := namedIds query now) in *. 
  eapply yields_bind; [apply yields_reads; unfold keywordSearchTierForScope; respects_solve|intros tier _].
  eapply yields_bind.
  { eapply (andThen_ok _ (fun r => r.(ref_kind) <> RefKindEpisode /\ early ids r)); [exact H0| |apply summaries_found|].
    - intros r [E He]. by rewrite E.
    - intros i Hi. split_and!; [by constructor|done|done|]. destruct H0 as (_ & Hq & _). rewrite Forall_forall in Hq.
      intros Hin. by destruct (Hq _ Hin). }
  intros f1 H1. cbn beta in H1. eapply yields_bind.
  { eapply (andThen_ok _ (early ids)); [exact H1|by intros r [_ ?]|by apply episodes_found_vector|].
    intros i Hi. split_and!; [by constructor|done|]. destruct H1 as (_ & Hq & _). rewrite Forall_forall in Hq.
    intros Hin. by destruct (Hq _ Hin). }
  intros f2 H2. cbn beta in H2. eapply yields_bind.
  { eapply (andThen_ok _ (fun _ => True)); [exact H2|done|by apply entities_found_vector|].
    intros i [Hi Hx]. split_and!; [|done|].
    - destruct Hi as (r & Hr & <- & Es & _). constructor. by exists r.
    - destruct H2 as (_ & Hq & _). eapply not_early_not_in; [exact Hq|]. by apply ordinary_not_early. }
  intros f3 H3. cbn beta in H3.
  eapply (yields_bind d _ _ (sofarOk (fun _ => True))).
  { case_match; [|by apply yields_ret]. eapply yields_bind.
    - eapply (andThen_ok _ (fun _ => True)); [exact H3|done|by apply episodes_found_keyword|].
      intros i [Hi Hx]. split_and!; [by constructor|done|]. intros Hin. by apply Hx, (refIDs_spec _ _ ws).
    - intros f4 H4. cbn beta in H4. eapply (andThen_ok _ (fun _ => True)); [exact H4|done|by apply entities_found_keyword|].
      intros i [Hi Hx]. split_and!; [|done|].
      + destruct Hi as (r & Hr & <- & Es & _). constructor. by exists r.
      + intros Hin. by apply Hx, (refIDs_spec _ _ ws). }
  intros f5 H5. eapply (andThen_ok _ (fun _ => True)); [exact H5|done|apply connected_found|].
  intros i [Hi Hx]. split_and!; [by constructor|done|]. intros Hin. by apply Hx, (refIDs_spec _ _ ws).
Qed.

(** ** A retrieval *)

(** What a retrieval returns. *)
Definition retrieved (query : string) (now : Z) (res : RetrievalResult) : Prop :=
  good d act ws res.(Refs) res.(Citations) /\
  exists rest, res.(Refs) = anchorRefs d act ws ++ rest /\
    if worthSearching query now then
      res.(Gate) = (if bool_decide (rest = []) then GatePartial else GateFull) /\
      res.(NeedsAggregationPass) = looksLikeOrderingRequest query /\
      RuneCount res.(ContextMessage) <= contextCharBudget Getenv + RuneCount budgetMarker
    else res.(Gate) = GateSkipped /\ rest = [] /\ res.(NeedsAggregationPass) = false.

Lemma anchorRefs_stored : NoDup (anchorRefs d act ws) /\ Forall (cited d act ws) (anchorRefs d act ws) /\
  forall ids, Forall (early ids) (anchorRefs d act ws) /\ Forall (fun r => ref_kind r = RefKindEntity) (anchorRefs d act ws).
Proof.
  unfold anchorRefs. destruct (selfModel _ _ _) as [r|] eqn:E; [|by repeat constructor].
  apply List.find_some in E as [Hr Hs]. rewrite !andb_true_iff, String.eqb_eq, bool_decide_eq_true in Hs.
  destruct Hs as (_ & Ek & Es). apply list_elem_of_In in Hr.
  split_and!; [apply NoDup_singleton|constructor; [|done]; by constructor|].
  intros ids. split; (constructor; [|done]); [|done]. intros _ Hw. right. cbn in *. exists r. by rewrite Es.
Qed.

Lemma matched_good anchor lines query now :
  entityKeys d -> anchor.(fd_refs) = anchorRefs d act ws -> map c_ref anchor.(fd_citations) = anchor.(fd_refs) ->
  map fst lines = namedIds query now ->
  sofarOk (fun r => r.(ref_kind) = RefKindEntity /\ early (namedIds query now) r)
    (also anchor (allFound (map (matchedFound ws) lines))).
Proof.
  intros Hk Er Ec El. destruct anchorRefs_stored as (Hn & Hs & Hq). specialize (Hq (namedIds query now)) as [He Hkind].
  destruct (namedIds_ok query now Hk) as [Hn' Ho]. rewrite Forall_forall in Ho.
  assert (Hl : Forall2 (hits RefKindEntity ws) (map fst lines) (map (matchedFound ws) lines)).
  { clear. induction lines; constructor; [apply hits_hit|done]. }
  apply allFound_refs in Hl as [Hl Hlc]. rewrite El in Hl. set (m := allFound _) in *.
  assert (Hin : forall r, r ∈ fd_refs m -> exists id, r = MkRef RefKindEntity ws id /\ id ∈ namedIds query now).
  { intros r. rewrite Hl. intros (i & -> & Hi)%list_elem_of_fmap. by exists i. }
  split_and!; cbn [also fd_refs fd_citations]; rewrite ?Er.
  - split.
    + apply NoDup_app. split_and!; [done| |].
      * intros r Hr (i & -> & Hi)%Hin. unfold anchorRefs in Hr. destruct (selfModel _ _ _) as [row|] eqn:E; [|by apply elem_of_nil in Hr].
        apply list_elem_of_singleton in Hr. injection Hr as -> ->.
        apply List.find_some in E as [Hrow Hself]. rewrite !andb_true_iff, String.eqb_eq, bool_decide_eq_true in Hself.
        destruct Hself as (_ & Ek & Es), (Ho _ Hi) as (r & Hr & Ei & Esr & Hne). apply Hne. rewrite <- Ek. f_equal.
        apply (NoDup_map_inj (fun n => (n_scope n, n_id n)) (entities d)); [done|done|by apply list_elem_of_In|cbn; congruence].
      * rewrite Hl. apply NoDup_fmap_2; [by intros x y [= ->]|done].
    + apply Forall_app. split; [done|]. apply Forall_forall. intros r (i & -> & Hi)%Hin. constructor.
      destruct (Ho _ Hi) as (row & Hrow & Ei & Es & _). by exists row.
    + by rewrite map_app, Ec, Hlc, Er.
  - apply Forall_app. split.
    + rewrite Forall_forall in *. intros r Hr. split; [by apply Hkind|by apply He].
    + apply Forall_forall. intros r (i & -> & Hi)%Hin. split; [done|]. intros _ _. by left.
  - by eexists.
Qed.

Lemma skipped_retrieved query now anchor :
  worthSearching query now = false -> anchor.(fd_refs) = anchorRefs d act ws ->
  map c_ref anchor.(fd_citations) = anchor.(fd_refs) -> retrieved query now (skipped anchor).
Proof.
  intros Hw Er Ec. destruct anchorRefs_stored as (Hn & Hs & _). split.
  - split; cbn; by rewrite ?Ec, ?Er.
  - exists []. rewrite Hw, app_nil_r. by split.
Qed.

Lemma retrieve_yields messages now :
  entityKeys d -> episodeKeys d ->
  yields d (retrieve kek Getenv localOffset act ws messages now) (retrieved (lastUserMessage messages) now).
Proof.
  intros Hek Hpk. unfold retrieve. set (query := lastUserMessage messages).
  eapply yields_bind; [apply yields_wrap, stage1_yields|]. intros [anchor lines] (Er & Ec & El). cbn [fst snd] in *.
  assert (Hw : worthSearching query now =
    negb (String.eqb query "") && (negb (length lines =? 0)%nat || (stage1KeywordSignal query || stage1QuestionSignal query))).
  { unfold worthSearching. rewrite <- El, orb_assoc. f_equal. f_equal. f_equal. destruct lines; [done|].
    by rewrite bool_decide_eq_true_2. }
  destruct (String.eqb query "") eqn:Eq; [by apply yields_ret, skipped_retrieved|]. cbn [negb andb] in Hw.
  destruct (_ && negb _) eqn:Es.
  { apply yields_ret, skipped_retrieved; [|done|done]. rewrite Hw. apply andb_true_iff in Es as [-> ->%negb_true_iff]. done. }
  assert (Hw' : worthSearching query now = true).
  { rewrite Hw. apply andb_false_iff in Es as [->| ->%negb_false_iff]; [done|by rewrite orb_true_r]. }
  eapply yields_bind; [apply yields_reads; unfold embedQuery; respects_solve|]. intros qv _.
  rewrite El. eapply yields_bind.
  { apply yields_wrap, yields_Run, (searches_ok query); [done|done|by apply matched_good]. }
  intros f (Hg & _ & rest & Ef). cbn beta.
  eapply (yields_bind d _ _ (fun c => truncateToBudget (fd_text f) (contextCharBudget Getenv) = Some c)).
  { by apply yields_orPanic. }
  intros context Hctx. apply yields_ret. split; [exact Hg|]. exists rest. rewrite Hw'. cbn [Refs Gate NeedsAggregationPass ContextMessage]. split_and!; [by rewrite Ef| |done|].
  - rewrite Ef, Er. destruct rest as [|x rest].
    + rewrite app_nil_r, Nat.ltb_irrefl, bool_decide_eq_true_2; done.
    + rewrite bool_decide_eq_false_2, (proj2 (Nat.ltb_lt _ _)); [done|rewrite length_app; cbn; lia|done].
  - apply truncateToBudget_bound in Hctx; [done|]. pose proof (contextCharBudget_pos Getenv). lia.
Qed.

Definition audited (res : RetrievalResult) : db := set_audit_log (fun l => l ++ [retrieveEntry act ws res]) d.

Lemma audit_row p fs res :
  wp (logged (Run act ws (fun se => Write se (retrieveEntry act ws res))))
    (fun r w' => (exists u, r = Ok u) /\ (w'.(w_db) = d \/ w'.(w_db) = audited res) /\ (fs = [] -> w'.(w_db) = audited res))
    (MkWorld d p fs).
Proof.
  unfold logged. apply wp_bind, wp_catch, wp_Run.
  - intros msg fs' Hf Hq. apply wp_ret. cbn. split_and!; [by eexists|by left|done].
  - intros fs' Hq. unfold Write. cbn [acting workspace retrieveEntry ActingScope WorkspaceScope].
    rewrite !bool_decide_eq_true_2 by done. cbn [andb]. apply wp_wrap, wp_exec.
    + cbn. split; [oracle|]. intros fs'' Hq''. split.
      * split_and!; [by eexists|by right|done].
      * intros Hf msg. split_and!; [by eexists|by left|done].
    + intros Hf. cbn. split; [oracle|]. intros fs'' Hq''. split_and!; [by eexists|by left|].
      intros ->. exfalso. by apply Hf, Hq.
Qed.

Lemma Retrieve_spec messages now p fs :
  entityKeys d -> episodeKeys d ->
  wp (Retrieve kek Getenv localOffset act ws messages now)
    (fun r w' => match r with
                 | Ok res => retrieved (lastUserMessage messages) now res /\ (w'.(w_db) = d \/ w'.(w_db) = audited res)
                 | Err _ => w'.(w_db) = d
                 end) (MkWorld d p fs).
Proof.
  intros Hek Hpk. unfold Retrieve. apply wp_bind. eapply wp_mono; [by apply retrieve_yields|].
  intros [res|e] [d' p' fs'] [E H]; cbn in E; subst d'; [|done]. specialize (H res eq_refl).
  apply wp_bind. eapply wp_mono; [apply audit_row|]. intros [u|e] w' ([u' Hu] & Hd & _); [|done].
  by apply wp_ret.
Qed.
End Retrieval.

(** ** Properties *)

Section Claims.
Context `{HA : AEAD, HU : Unicode, HL : MathLog, EM : Embedder, FF : FloatFormat, SO : SearchOps}.
Variable kek : string.
Variable Getenv : string -> string.
Variable localOffset : Z -> Z.

(** C20: Whatever fails, a retrieval writes nothing but its own audit row, and
    only if it answers.  What an answer refers to are distinct memories, each
    stored: the acting user's self model, entities and episodes of the
    workspace, and current summaries of the workspace; and there is exactly one
    citation for each, in order.  For unique keys of entities and episodes. *)
Theorem retrieval_cites_stored (act ws : Scope) (messages : list Message) (now : Z) (w : world) :
  entityKeys w.(w_db) -> episodeKeys w.(w_db) ->
  wp (Retrieve kek Getenv localOffset act ws messages now)
    (fun r w' =>
       match r with
       | Err _ => w'.(w_db) = w.(w_db)
       | Ok res =>
           (w'.(w_db) = w.(w_db) \/ w'.(w_db) = set_audit_log (fun l => l ++ [retrieveEntry act ws res]) w.(w_db)) /\
           NoDup res.(Refs) /\ Forall (cited w.(w_db) act ws) res.(Refs) /\ map c_ref res.(Citations) = res.(Refs)
       end) w.
Proof.
  destruct w as [d p fs]. intros Hek Hpk. eapply wp_mono; [by apply (Retrieve_spec kek Getenv localOffset d act ws)|].
  intros [res|e] w'; [|done]. by intros [[[H1 H2 H3] _] Hd].
Qed.

(** C21: The gate says what was done.  Exactly if the last user message is not
    empty and names an entity (of its timeframe), has a keyword of recall or
    reads as a question, memory is searched; the gate is then [full] if
    anything was found beyond the self model and [partial] if not, and the
    context is cut to the budget.  Otherwise the gate is [skipped] and only the
    self model is referred to. *)
Theorem retrieval_gate (act ws : Scope) (messages : list Message) (now : Z) (w : world) :
  entityKeys w.(w_db) -> episodeKeys w.(w_db) ->
  wp (Retrieve kek Getenv localOffset act ws messages now)
    (fun r _ => forall res, r = Ok res ->
       exists rest, res.(Refs) = anchorRefs w.(w_db) act ws ++ rest /\
       if worthSearching w.(w_db) act ws (lastUserMessage messages) now then
         res.(Gate) = (if bool_decide (rest = []) then GatePartial else GateFull) /\
         res.(NeedsAggregationPass) = looksLikeOrderingRequest (lastUserMessage messages) /\
         RuneCount res.(ContextMessage) <= contextCharBudget Getenv + RuneCount budgetMarker
       else res.(Gate) = GateSkipped /\ rest = [] /\ res.(NeedsAggregationPass) = false) w.
Proof.
  destruct w as [d p fs]. intros Hek Hpk. eapply wp_mono; [by apply (Retrieve_spec kek Getenv localOffset d act ws)|].
  intros [res|e] w'; [|done]. intros [[_ H] _] res' [= <-]. exact H.
Qed.
End Claims.

(** ** A concrete turn *)

#[local] Existing Instances asciiUnicode toyEmbedder toyFormat.
Import Toy.

Definition turnLog : MathLog := {| Log x := x |}.
Definition turnSearch : SearchOps := {| cosDistance a b := if String.eqb a b then Some f0 else Some f1; ParseFloat _ := None |}.
#[local] Existing Instances turnLog turnSearch.

Definition adaScope : Scope := MkScope ScopeKindPrivate "ada".
Definition selfRow : EntityRow :=
  MkEntityRow "self_model:ada" adaScope "self_model" "Ada" None 1 None None (MkEntityDates 0 0).

(** The day stored by [runDay], and a self model. *)
Definition turnWorld : world := set_db (set_entities (fun l => selfRow :: l)) afterFirst.

Definition noon : Z := midnight 19845.
Definition asks (text : string) : list Message := [MkMessage "user" text; MkMessage "assistant" "Let me think."].

Definition turn (text : string) : M RetrievalResult :=
  Retrieve kek (fun _ => "") (fun _ => 0) adaScope adaScope (asks text) noon.

Lemma turnWorld_def : turnWorld = set_db (set_entities (fun l => selfRow :: l)) afterFirst.
Proof. reflexivity. Qed.

Lemma turn_keys : entityKeys (w_db turnWorld) /\ episodeKeys (w_db turnWorld).
Proof.
  assert (E1 : map (fun n => (n.(n_scope), n.(n_id))) (entities (w_db turnWorld)) =
    [(adaScope, "self_model:ada"); (adaScope, "person:ada"); (adaScope, "organization:acme")]) by (vm_compute; reflexivity).
  assert (E2 : map e_id (episodes (w_db turnWorld)) = []) by (vm_compute; reflexivity).
  unfold entityKeys, episodeKeys. rewrite E1, E2. split; [|constructor].
  repeat (constructor; [rewrite ?elem_of_cons; intros H; repeat (destruct H as [[=]|H]); by apply elem_of_nil in H|]).
  constructor.
Qed.

Lemma turn_def text : turn text = Retrieve kek (fun _ => "") (fun _ => 0) adaScope adaScope (asks text) noon.
Proof. reflexivity. Qed.

(** What a turn answers: its gate and what it refers to. *)
Definition answer (text : string) : option (string * list string) :=
  match (turn text turnWorld).1 with
  | Ok res => Some (res.(Gate), map ref_id res.(Refs))
  | Err _ => None
  end.

Lemma retrieval_cites_stored_witness :
  wp (turn "What did Acme do?")
    (fun r w' =>
       match r with
       | Err _ => w'.(w_db) = w_db turnWorld
       | Ok res =>
           (w'.(w_db) = w_db turnWorld \/
            w'.(w_db) = set_audit_log (fun l => l ++ [retrieveEntry adaScope adaScope res]) (w_db turnWorld)) /\
           NoDup res.(Refs) /\ Forall (cited (w_db turnWorld) adaScope adaScope) res.(Refs) /\
           map c_ref res.(Citations) = res.(Refs)
       end) turnWorld /\
  answer "What did Acme do?" =
    Some ("full", ["self_model:ada"; "organization:acme"; "sum_ada_2024-05-01_daily_v1"; "person:ada"]).
Proof.
  split; [|vm_compute; reflexivity]. destruct turn_keys as [H1 H2].
  rewrite turn_def.
  exact (retrieval_cites_stored kek (fun _ => "") (fun _ => 0) adaScope adaScope (asks "What did Acme do?") noon turnWorld H1 H2).
Defined.

Lemma retrieval_gate_witness :
  wp (turn "Hello") (fun r _ => forall res, r = Ok res ->
    exists rest, res.(Refs) = anchorRefs (w_db turnWorld) adaScope adaScope ++ rest /\
    if worthSearching (w_db turnWorld) adaScope adaScope (lastUserMessage (asks "Hello")) noon then
      res.(Gate) = (if bool_decide (rest = []) then GatePartial else GateFull) /\
      res.(NeedsAggregationPass) = looksLikeOrderingRequest (lastUserMessage (asks "Hello")) /\
      RuneCount res.(ContextMessage) <= contextCharBudget (fun _ => "") + RuneCount budgetMarker
    else res.(Gate) = GateSkipped /\ rest = [] /\ res.(NeedsAggregationPass) = false) turnWorld /\
  answer "Hello" = Some ("skipped", ["self_model:ada"]) /\
  answer "What did she recall last month?" = Some ("full", ["self_model:ada"; "sum_ada_2024-05-01_daily_v1"]).
Proof.
  split; [|vm_compute; split; reflexivity]. destruct turn_keys as [H1 H2].
  rewrite turn_def.
  exact (retrieval_gate kek (fun _ => "") (fun _ => 0) adaScope adaScope (asks "Hello") noon turnWorld H1 H2).
Defined.
