(* ===== verification/Passes.v ===== *)
(** * Passes: the passes around an answer
    ([src/internal/gateway/aggregation.go], [attribution.go], [importance.go],
    [id.go], [hash.go])

    The hint for a question about consecutive events, which snippets an answer
    relied on, and what is estimated of a turn.  A pass that fails adds
    nothing. *)

From Stdlib Require Import SpecFloat.
From stdpp Require Import gmap pretty.
From S2P Require Import Prelude Identity Schema Db KeyStore Utf8 Json Float Text Civil Temporal Slug Entities Relations.
From S2P Require Import Output Grounding Signals.
#[local] Open Scope string_scope.
#[local] Open Scope list_scope.
#[local] Open Scope Z_scope.

(** [%q] of a string, [sha256.Sum256] in hexadecimal. *)
Class Quoting := { Quote : string -> string }.
Class Hashing := { sha256Hex : string -> string }.

(** ** A provider of live answers *)

Definition RoleSystem : string := "system".
Definition RoleAssistant : string := "assistant".

Definition validRole (r : string) : bool :=
  String.eqb r RoleSystem || String.eqb r RoleUser || String.eqb r RoleAssistant.

Record ChatRequest := MkChatRequest {
  q_messages : list Message;
  q_temperature : option f64;
  q_maxTokens : option Z
}.

Record Usage := MkUsage { PromptTokens : Z; CompletionTokens : Z; TotalTokens : Z }.

Record ChatResponse := MkChatResponse { p_message : Message; p_model : string; p_usage : Usage }.

(** A chunk of a streamed answer. *)
Record StreamChunk := MkStreamChunk { ch_delta : string; ch_done : bool; ch_err : bool }.

(** What the drain loop sees next: a chunk, or that the client is gone.  The
    list's end is the closed channel. *)
Inductive streamEvent := Chunk (c : StreamChunk) | CtxDone.

(** A service outside this code: what it answers to its n-th call, if it does;
    with a stream, whether the client is gone when it has ended. *)
Record Provider := MkProvider {
  pv_name : string;
  pv_vendor : string;
  pv_model : string;
  pv_chat : nat -> ChatRequest -> option ChatResponse;
  pv_stream : nat -> ChatRequest -> option (list streamEvent * bool)
}.

(** A call across the network. *)
Definition callProvider {A} (answer : nat -> option A) : M A :=
  wrapErr "provider" roundTrip ;;
  i ← getProc draws;
  modProc (fun pr => MkProcess pr.(cache) (S pr.(draws))) ;;
  match answer i with
  | Some a => mret a
  | None => throw (ErrMsg "provider refused the request")
  end.

Definition chat (p : Provider) (req : ChatRequest) : M ChatResponse := callProvider (fun i => p.(pv_chat) i req).

(** A question put to a judge. *)
Definition askJudge (judge : Provider) (system user : string) : M string :=
  r ← chat judge (MkChatRequest [MkMessage RoleSystem system; MkMessage RoleUser user] None None);
  mret r.(p_message).(Content).

(** ** Aggregation *)

Record aggregationFact := MkAggregationFact { af_description : string; af_date : string }.

Definition decodeAggregationFact : json -> option aggregationFact :=
  decodeObject (MkAggregationFact "" "") (fun ms =>
    description ← field decodeString "" "description" ms;
    date ← field decodeString "" "date" ms;
    Some (MkAggregationFact description date)).

Definition buildAggregationExtractionPrompt (question contextMessage : string) : string :=
  "Question: " +:+ (question +:+ (blankLine +:+ ("Retrieved context:" +:+ (newline +:+ contextMessage)))).

(** The date as a day number. *)
Record parsedAggregationFact := MkParsed { pa_description : string; pa_date : Z }.

Definition consecutiveKeywords : list string := ["in a row"; "consecutive"; "back to back"].
Definition maxConsecutivePairGapDays : Z := 2.

Definition pluralAgo (n : f64) (unit : string) : string :=
  let count := truncZ n in
  let count := if count <=? 0 then 1 else count in
  if count =? 1 then "1 " +:+ (unit +:+ " ago")
  else pretty count +:+ (" " +:+ (unit +:+ "s ago")).

Definition agoLabel (days : Z) : string :=
  if days <? 0 then ""
  else if days =? 0 then "today"
  else if days =? 1 then "1 day ago"
  else if days <? 7 then pretty days +:+ " days ago"
  else if days <? 60 then pluralAgo (Round (fdiv (fofZ days) (fofZ 7))) "week"
  else
    let months := Round (fdiv (fofZ days) (fratio 3044 100)) in
    if flt months (fofZ 12) then pluralAgo months "month"
    else pluralAgo (Round (fdiv (fofZ days) (fratio 36525 100))) "year".

Definition relativeDelta (start now : Z) : string := agoLabel (truncZ (fdiv (Hours (Sub now start)) (fofZ 24))).

(** The loop over adjacent pairs: the first of the closest ones. *)
Fixpoint adjacentPair (sorted : list parsedAggregationFact) (best : option (parsedAggregationFact * parsedAggregationFact))
    (bestGap : Z) : option (parsedAggregationFact * parsedAggregationFact) * Z :=
  match sorted with
  | a :: ((b :: _) as rest) =>
      let gap := Sub (midnight b.(pa_date)) (midnight a.(pa_date)) in
      if gap <? bestGap then adjacentPair rest (Some (a, b)) gap else adjacentPair rest best bestGap
  | _ => (best, bestGap)
  end.

Definition maxDuration : Z := 2 ^ 63 - 1.

Section Passes.
Context `{HU : Unicode, HQ : Quoting, HH : Hashing}.

Definition parseAggregationFacts (facts : list aggregationFact) : list parsedAggregationFact :=
  omap (fun f => if isBlank f.(af_description) then None
                 else d ← parseDay f.(af_date); Some (MkParsed f.(af_description) d)) facts.

Definition looksLikeConsecutivePairRequest (question : string) : bool := containsAny question consecutiveKeywords.

Definition pairHint (a b : parsedAggregationFact) (gapDays : Z) (sinceLater : string) : string :=
  "A separate computation over the retrieved facts found a pair of matching events on consecutive days: " +:+
    (Quote a.(pa_description) +:+ (" on " +:+ (formatDay a.(pa_date) +:+ (" and " +:+ (Quote b.(pa_description) +:+
      (" on " +:+ (formatDay b.(pa_date) +:+ (" (" +:+ (pretty gapDays +:+
        (" day(s) apart). As of now, the later of those two was " +:+ (sinceLater +:+
          ". Use this only if it directly answers the question — otherwise ignore it."))))))))))).

Definition resolveConsecutivePairHint (sorted : list parsedAggregationFact) (now : Z) : string :=
  match adjacentPair sorted None maxDuration with
  | (None, _) => ""
  | (Some (a, b), bestGap) =>
      let gapDays := truncZ (fdiv (Hours bestGap) (fofZ 24)) in
      if maxConsecutivePairGapDays <? gapDays then ""
      else
        let sinceLater := relativeDelta (midnight b.(pa_date)) now in
        if String.eqb sinceLater "" then "" else pairHint a b gapDays sinceLater
  end.

Definition resolveAggregationHint (question : string) (facts : list parsedAggregationFact) (now : Z) : string :=
  if (length facts <? 2)%nat || negb (looksLikeConsecutivePairRequest question) then ""
  else
    (* sort.Slice may reorder equal dates of more than twelve facts *)
    resolveConsecutivePairHint (sort_by (fun a b => pa_date a <? pa_date b) facts) now.

Variable aggregationExtractionSystemPrompt : string.
Variable attributionSystemPrompt : string.

Definition extractAggregationFacts (judge : Provider) (question contextMessage : string) : M (list aggregationFact) :=
  r ← catch (askJudge judge aggregationExtractionSystemPrompt (buildAggregationExtractionPrompt question contextMessage));
  mret (match r with
        | Ok content => default [] (parseReply (decodeObject [] (field (decodeList decodeAggregationFact) [] "facts")) content)
        | Err _ => []
        end).

Definition AggregationHint (judge : Provider) (question contextMessage : string) (now : Z) : M string :=
  if negb (looksLikeConsecutivePairRequest question) then mret ""
  else
    facts ← extractAggregationFacts judge question contextMessage;
    mret (resolveAggregationHint question (parseAggregationFacts facts) now).

(** ** Attribution *)

Fixpoint snippetLines (i : Z) (citations : list Citation) : string :=
  match citations with
  | [] => ""
  | c :: rest => pretty i +:+ (". " +:+ (c.(c_snippet) +:+ (newline +:+ snippetLines (i + 1) rest)))
  end.

Definition buildAttributionPrompt (answer : string) (citations : list Citation) : string :=
  "Generated answer:" +:+ (newline +:+ (answer +:+ (blankLine +:+ ("Candidate memory snippets:" +:+ (newline +:+
    snippetLines 1 citations))))).

Definition attributionCheck (judge : Provider) (answer : string) (citations : list Citation) : M (list bool) :=
  if (length citations =? 0)%nat then mret []
  else
    content ← wrapErr "attribution LLM call" (askJudge judge attributionSystemPrompt (buildAttributionPrompt answer citations));
    match parseReply (decodeObject [] (field (decodeList decodeBool) [] "used")) content with
    | None => throw (ErrMsg "attribution: parse judge response")
    | Some used => if (length used =? length citations)%nat then mret used
                   else throw (ErrMsg "attribution: mismatched verdict count")
    end.

(** ** What is estimated of a turn *)

Definition importanceKeywords : list string :=
  ["decide"; "decided"; "prefer"; "always"; "never"; "remember";
   "project"; "working directory"; "plan to"; "going forward"].

Definition estimateImportance (input output : string) : f64 :=
  let text := ToLower (input +:+ (" " +:+ output)) in
  let score := foldl (fun s kw => if Contains text kw then fadd s (fratio 1 10) else s) (fratio 2 10) importanceKeywords in
  let score := if Contains input "?" then fadd score (fratio 5 100) else score in
  if fgt score f1 then f1 else score.

Definition hashText (s : string) : string := "sha256:" +:+ sha256Hex s.
End Passes.

(** ** Episode ids *)

Definition hexDigitOf (n : N) : ascii := ascii_of_N (if (n <? 10)%N then 48 + n else 87 + n)%N.

(** [hex.EncodeToString] *)
Fixpoint hexString (s : string) : string :=
  match s with
  | EmptyString => ""
  | String c s' => let n := N_of_ascii c in String (hexDigitOf (n / 16)) (String (hexDigitOf (n mod 16)) (hexString s'))
  end.

Fixpoint zeros (n : nat) : string := match n with O => "" | S n' => String "0" (zeros n') end.

(** [%013d] of a count that is not negative. *)
Definition pad13 (n : Z) : string := let s := pretty n in zeros (13 - String.length s) +:+ s.

(** [newEpisodeID]; a random source that fails leaves zero bytes. *)
Definition newEpisodeID `{Rand} (t : Z) : M string :=
  suffix ← catch (readRand 10);
  let bytes := match suffix with Ok s => s | Err _ => String.string_of_list_ascii (repeat "000"%char 10) end in
  mret ("ep_" +:+ (pad13 (t / 1000000) +:+ hexString bytes)).
