(* ===== verification/Gateway.v ===== *)
(** * Gateway: a chat turn ([src/internal/gateway/handler.go],
    [attachments.go])

    Memory is retrieved, the provider answers, the turn is captured, the client
    is told it is done.  A handler returns the sequence of what it wrote to the
    client and of its attempts at capturing, in their order.  An error of the
    model that is a Go panic ends the request: nothing catches it here. *)

From Stdlib Require Import SpecFloat.
From stdpp Require Import gmap pretty.
From S2P Require Import Prelude PgFmt Identity Schema Db KeyStore Capture Utf8 Json Float Text Bm25 Embed.
From S2P Require Import Output Signals Search Retrieve Passes.
#[local] Open Scope string_scope.
#[local] Open Scope list_scope.
#[local] Open Scope Z_scope.

(** ** Panics *)

Definition panicError : error := ErrMsg "panic: slice bounds out of range".

(** An error made a value, a panic going on. *)
Definition attempt {A} (m : M A) : M (result error A) :=
  r ← catch m;
  match r with
  | Err e => if errors_Is e panicError then throw e else mret (Err e)
  | Ok a => mret (Ok a)
  end.

(** The text of an error of this code; those of its libraries are left out. *)
Definition message (e : error) : string := match e with ErrMsg m => m | Wrap m _ => m | _ => "" end.

(** A database or provider call under a request's context: once that is
    cancelled, the call fails before it reaches the server. *)
Definition onContext {A} (cancelled : bool) (m : M A) : M A :=
  if cancelled then throw (ErrMsg "context canceled") else m.

(** ** Requests *)

Record chatAttachment := MkAttachment { at_type : string; at_filename : string; at_contentType : string; at_data : string }.

Record chatCompletionRequest := MkRequest {
  rq_model : string;
  rq_messages : list Message;
  rq_attachments : list chatAttachment;
  rq_stream : bool;
  rq_temperature : option f64;
  rq_maxTokens : option Z
}.

(** What decoding the body comes to. *)
Inductive body :=
| BodyTooLarge
| BodyInvalid
| BodyOk (req : chatCompletionRequest).

(** The headers a handler reads; [flushes] if the writer can stream. *)
Record httpRequest := MkHttp {
  ht_method : string;
  ht_authorization : string;
  ht_memory : string;
  ht_capture : string;
  ht_explain : string;
  ht_body : body;
  flushes : bool
}.

(** ** What a client sees, and the attempts at capturing *)

Record chatCompletionResponse := MkResponse {
  rs_id : string;
  rs_created : Z;
  rs_model : string;
  rs_message : Message;
  rs_usage : Usage;
  rs_citations : list (Citation * option bool);
  rs_warnings : list string
}.

Inductive ev :=
| EvError (status : Z) (msg : string)
| EvResponse (r : chatCompletionResponse)
| EvDelta (id delta : string)
| EvCapture (ok : bool)
| EvTerminal (id : string) (citations : list (Citation * option bool)) (warnings : list string)
| EvDone
| EvCreated (id : string).

(** ** Attachments *)

Definition maxAttachmentBytes : Z := 8388608.
Definition maxAttachmentsPerRequest : nat := 5.
Definition attachmentKindDocument : string := "document".
Definition attachmentKindImage : string := "image".
Definition allowedImageMIME : list string := ["image/png"; "image/jpeg"; "image/webp"; "image/gif"].
Definition imageDescribeInstruction : string :=
  "Describe this image factually and specifically: what it shows, any visible text, notable objects, people, or scenes. Be concise but concrete enough that someone who can't see the image would understand what's in it.".

(** base64, the extraction of a document's text ([internal/ingest]) and the
    captioning of an image, if the vision provider can; or an error's text. *)
Class Ingest := {
  base64Decode : string -> option string;
  extractDocument : string -> string -> string -> result string (string * string);
  describeImage : option (string -> string -> string -> result string string)
}.

Section Attachments.
Context `{HI : Ingest}.

(** The raw bytes, or why the request is refused. *)
Definition validateAttachment (att : chatAttachment) : result error string :=
  if negb (String.eqb att.(at_type) attachmentKindDocument || String.eqb att.(at_type) attachmentKindImage)
  then Err (ErrMsg "attachment: invalid type")
  else
    match base64Decode att.(at_data) with
    | None => Err (ErrMsg "attachment: invalid base64 data")
    | Some data =>
        if maxAttachmentBytes <? strLen data then Err (ErrMsg "attachment: exceeds size limit")
        else if String.eqb att.(at_type) attachmentKindImage && negb (bool_decide (att.(at_contentType) ∈ allowedImageMIME))
        then Err (ErrMsg "attachment: content_type is not an allowed image type")
        else Ok data
    end.

Fixpoint validateAll (atts : list chatAttachment) : result error (list string) :=
  match atts with
  | [] => Ok []
  | a :: rest =>
      match validateAttachment a with
      | Err e => Err e
      | Ok d => match validateAll rest with Err e => Err e | Ok ds => Ok (d :: ds) end
      end
  end.

Definition extractDocumentAttachment (filename contentType data : string) : string * string :=
  match extractDocument filename contentType data with
  | Err why => ("[Attached file: " +:+ (filename +:+ " — could not be read]"), filename +:+ (": could not be read (" +:+ (why +:+ ")")))
  | Ok (text, warning) =>
      ("[Attached file: " +:+ (filename +:+ ("]" +:+ (newline +:+ (text +:+ (newline +:+
         ("[End of attached file: " +:+ (filename +:+ "]"))))))),
       if String.eqb warning "" then "" else filename +:+ (": " +:+ warning))
  end.

Definition describeImageAttachment (filename mimeType data : string) : string * string :=
  let unavailable := "[Shared image: " +:+ (filename +:+ " — description unavailable]") in
  match describeImage with
  | None => (unavailable, filename +:+ ": the configured vision provider does not support image description")
  | Some describe =>
      match describe mimeType data imageDescribeInstruction with
      | Err why => (unavailable, filename +:+ (": description unavailable (" +:+ (why +:+ ")")))
      | Ok caption => ("[Shared image: " +:+ (filename +:+ ("]" +:+ (newline +:+ caption))), "")
      end
  end.

(** The block to append, and a warning. *)
Definition processAttachment (att : chatAttachment) (data : string) : string * string :=
  let filename := if String.eqb att.(at_filename) "" then "attachment" else att.(at_filename) in
  if String.eqb att.(at_type) attachmentKindImage then describeImageAttachment filename att.(at_contentType) data
  else extractDocumentAttachment filename att.(at_contentType) data.

(** The index of the last user message. *)
Fixpoint lastUserIdx (messages : list Message) (i : nat) (found : option nat) : option nat :=
  match messages with
  | [] => found
  | m :: rest => lastUserIdx rest (S i) (if String.eqb m.(Role) RoleUser then Some i else found)
  end.

Definition setContent (content : string) (m : Message) : Message := MkMessage m.(Role) content.

Definition mergeAttachments (messages : list Message) (atts : list chatAttachment) :
    result error (list Message * list string) :=
  if (length atts =? 0)%nat then Ok (messages, [])
  else if (maxAttachmentsPerRequest <? length atts)%nat then Err (ErrMsg "too many attachments")
  else
    match lastUserIdx messages 0 None with
    | None => Err (ErrMsg "attachments require at least one user message")
    | Some i =>
        match validateAll atts with
        | Err e => Err e
        | Ok decoded =>
            let results := zip_with processAttachment atts decoded in
            let appended := String.concat "" (map (fun r => blankLine +:+ r.1) results) in
            Ok (alter (fun m => setContent (m.(Content) +:+ appended) m) i messages,
                List.filter (fun w => negb (String.eqb w "")) (map snd results))
        end
    end.
End Attachments.

(** ** The handler *)

Record registry := MkRegistry { named : string -> option Provider; activeChat : Provider }.

(** [strings.EqualFold(value, "off")] *)
Definition isOff (value : string) : bool := sameField "off" (runes value).

(** [Authorization: Bearer <token>]; empty if missing. *)
Definition bearerToken (authorization : string) : string :=
  if String.prefix "Bearer " authorization then substring 7 (String.length authorization - 7) authorization else "".

Definition ratings : list string := ["memory_correct"; "memory_wrong"; "memory_missing"].

Definition validRating (r : string) : bool := bool_decide (r ∈ ratings).

Record feedbackRequest := MkFeedback { fb_episodeID : string; fb_rating : string; fb_note : string }.

Section Handler.
Context `{HA : AEAD, HR : Rand, HU : Unicode, HL : MathLog, EM : Embedder, FF : FloatFormat, SO : SearchOps}.
Context `{HQ : Quoting, HH : Hashing, HI : Ingest}.
Variable kek : string.
Variable Getenv : string -> string.
Variable localOffset : Z -> Z.
(** The clock at its n-th reading. *)
Variable Tick : nat -> Z.
Variable Registry : registry.
(** [None] is the mode without authentication. *)
Variable Auth : option (string -> M Identity).
Variables aggregationExtractionSystemPrompt attributionSystemPrompt : string.

Definition now : M Z :=
  i ← getProc draws;
  modProc (fun pr => MkProcess pr.(cache) (S pr.(draws))) ;;
  mret (Tick i).

Definition newID : M string := t ← now; newEpisodeID t.

Definition resolveIdentity (authorization : string) : M Identity :=
  match Auth with
  | None => mret (MkIdentity DefaultUserID [])
  | Some resolve =>
      let token := bearerToken authorization in
      if String.eqb token "" then throw (ErrMsg "missing Authorization: Bearer <api key> header")
      else
        r ← attempt (resolve token);
        match r with
        | Ok id => mret id
        | Err _ => throw (ErrMsg "invalid API key")
        end
  end.

Definition resolveScope (authorization : string) : M Scope :=
  id ← resolveIdentity authorization; mret (PrivateScope id).

Definition resolveProvider (model : string) : Provider := default (activeChat Registry) (named Registry model).

Definition buildEpisode (id : string) (p : Provider) (inputText outputText : string) (result : RetrievalResult)
    (truncated : bool) (actor : string) : M Episode :=
  ts ← now;
  mret {| ID := id; TS := ts; Type_ := "interaction"; ProviderVendor := p.(pv_vendor); ProviderModel := p.(pv_model);
          InputText := inputText; OutputText := outputText; Importance := estimateImportance inputText outputText;
          Hash := hashText (inputText +:+ String "000" outputText); Truncated := truncated;
          MemoryGate := result.(Gate); RetrievedRefs := result.(Refs); ActorUserID := actor;
          RefersTo := ""; Rating := ""; Note := "" |}.

(** A capture's failure is logged. *)
Definition captureTurn (skipCapture cancelled : bool) (scope : Scope) (ep : Episode) : M (list ev) :=
  if skipCapture then mret []
  else
    r ← attempt (onContext cancelled (Capture kek scope ep));
    mret [EvCapture (is_ok r)].

(** The citations a client asked for; marked only by a complete verdict. *)
Definition explained (mode : string) (cancelled : bool) (target : Provider) (answer : string) (citations : list Citation) :
    M (list (Citation * option bool)) :=
  if String.eqb mode "" then mret []
  else
    let unmarked := map (fun c => (c, None)) citations in
    if String.eqb mode "deep" && negb (length citations =? 0)%nat then
      r ← attempt (onContext cancelled (attributionCheck attributionSystemPrompt target answer citations));
      mret (match r with
            | Ok used => zip citations (map Some used)
            | Err _ => unmarked
            end)
    else mret unmarked.

Definition handleNonStream (scope : Scope) (req : chatCompletionRequest) (augmented : list Message) (target : Provider)
    (result : RetrievalResult) (inputText actor : string) (skipCapture : bool) (explainMode : string)
    (warnings : list string) : M (list ev) :=
  r ← attempt (chat target (MkChatRequest augmented req.(rq_temperature) req.(rq_maxTokens)));
  match r with
  | Err _ => mret [EvError 502 "upstream provider error"]
  | Ok resp =>
      let answer := resp.(p_message).(Content) in
      id ← newID;
      ep ← buildEpisode id target inputText answer result false actor;
      cap ← captureTurn skipCapture false scope ep;
      created ← now;
      citations ← explained explainMode false target answer result.(Citations);
      mret (cap ++ [EvResponse (MkResponse id created resp.(p_model) resp.(p_message) resp.(p_usage) citations warnings)])
  end.

(** The drain loop: what is written, the answer so far, whether it is cut
    short and whether the loop stopped because the client is gone. *)
Fixpoint drain (id : string) (events : list streamEvent) (buf : string) : list ev * string * bool * bool :=
  match events with
  | [] => ([], buf, false, false)
  | CtxDone :: _ => ([], buf, true, true)
  | Chunk c :: rest =>
      if c.(ch_err) then ([], buf, true, false)
      else
        let '(out, buf) := if String.eqb c.(ch_delta) "" then ([], buf)
                           else ([EvDelta id c.(ch_delta)], buf +:+ c.(ch_delta)) in
        if c.(ch_done) then (out, buf, false, false)
        else
          let '(out', buf', truncated, cancelled) := drain id rest buf in
          (out ++ out', buf', truncated, cancelled)
  end.

Definition handleStream (canFlush : bool) (scope : Scope) (req : chatCompletionRequest) (augmented : list Message)
    (target : Provider) (result : RetrievalResult) (inputText actor : string) (skipCapture : bool)
    (explainMode : string) (warnings : list string) : M (list ev) :=
  if negb canFlush then mret [EvError 500 "streaming not supported"]
  else
    let upstream := MkChatRequest augmented req.(rq_temperature) req.(rq_maxTokens) in
    r ← attempt (callProvider (fun i => target.(pv_stream) i upstream));
    match r with
    | Err _ => mret [EvError 502 "upstream provider error"]
    | Ok (events, gone) =>
        id ← newID;
        _ ← now;
        let '(out, answer, truncated, stopped) := drain id events "" in
        let cancelled := stopped || gone in
        ep ← buildEpisode id target inputText answer result truncated actor;
        cap ← captureTurn skipCapture cancelled scope ep;
        citations ← explained explainMode cancelled target answer result.(Citations);
        mret (out ++ cap ++ [EvTerminal id citations warnings; EvDone])
    end.

Definition noMemory : RetrievalResult := MkRetrieval GateSkipped "" [] [] false.

(** A retrieval that fails is no memory this turn. *)
Definition recall (memory : string) (actingUser workspace : Scope) (messages : list Message) : M RetrievalResult :=
  if isOff memory then mret noMemory
  else
    t ← now;
    r ← attempt (Retrieve kek Getenv localOffset actingUser workspace messages t);
    mret (match r with Ok res => res | Err _ => noMemory end).

Definition systemMessage (content : string) : list Message :=
  if String.eqb content "" then [] else [MkMessage RoleSystem content].

Definition aggregationHint (target : Provider) (result : RetrievalResult) (inputText : string) : M string :=
  if result.(NeedsAggregationPass) && negb (String.eqb result.(ContextMessage) "") then
    t ← now;
    AggregationHint aggregationExtractionSystemPrompt target inputText result.(ContextMessage) t
  else mret "".

Definition handleChatCompletionsScoped (r : httpRequest) (actingUser workspace : Scope) : M (list ev) :=
  match r.(ht_body) with
  | BodyTooLarge => mret [EvError 413 "request body exceeds byte limit"]
  | BodyInvalid => mret [EvError 400 "invalid request body"]
  | BodyOk req =>
      if (length req.(rq_messages) =? 0)%nat then mret [EvError 400 "messages must not be empty"]
      else if negb (forallb (fun m => validRole m.(Role)) req.(rq_messages)) then mret [EvError 400 "invalid message role"]
      else
        result ← recall r.(ht_memory) actingUser workspace req.(rq_messages);
        let skipCapture := isOff r.(ht_capture) in
        match mergeAttachments req.(rq_messages) req.(rq_attachments) with
        | Err e => mret [EvError 400 ("invalid attachments: " +:+ message e)]
        | Ok (messages, warnings) =>
            let target := resolveProvider req.(rq_model) in
            let inputText := lastUserMessage messages in
            hint ← aggregationHint target result inputText;
            let augmented := systemMessage result.(ContextMessage) ++ systemMessage hint ++ messages in
            if req.(rq_stream) then
              handleStream r.(flushes) workspace req augmented target result inputText actingUser.(Owner) skipCapture
                r.(ht_explain) warnings
            else
              handleNonStream workspace req augmented target result inputText actingUser.(Owner) skipCapture
                r.(ht_explain) warnings
        end
  end.

Definition HandleChatCompletions (r : httpRequest) : M (list ev) :=
  if negb (String.eqb r.(ht_method) "POST") then mret [EvError 405 "method not allowed"]
  else
    s ← attempt (resolveScope r.(ht_authorization));
    match s with
    | Err e => mret [EvError 401 (message e)]
    | Ok scope => handleChatCompletionsScoped r scope scope
    end.

(** ** Feedback *)

(** [None]: the body does not decode. *)
Definition handleFeedbackScoped (req : option feedbackRequest) (scope : Scope) (actor : string) : M (list ev) :=
  match req with
  | None => mret [EvError 400 "invalid request body"]
  | Some req =>
      if String.eqb req.(fb_episodeID) "" then mret [EvError 400 "episode_id is required"]
      else if negb (validRating req.(fb_rating)) then mret [EvError 400 "invalid rating"]
      else
        id ← newID;
        ts ← now;
        let ep := {| ID := id; TS := ts; Type_ := "feedback"; ProviderVendor := ""; ProviderModel := "";
                     InputText := ""; OutputText := ""; Importance := f0; Hash := ""; Truncated := false;
                     MemoryGate := ""; RetrievedRefs := []; ActorUserID := actor;
                     RefersTo := req.(fb_episodeID); Rating := req.(fb_rating); Note := req.(fb_note) |} in
        r ← attempt (Capture kek scope ep);
        mret (match r with
              | Ok _ => [EvCapture true; EvCreated id]
              | Err e => if errors_Is e ErrFeedbackEpisodeNotFound
                         then [EvCapture false; EvError 400 "episode_id does not refer to an episode in this scope"]
                         else [EvCapture false; EvError 500 "failed to record feedback"]
              end)
  end.

Definition HandleFeedback (method authorization : string) (req : option feedbackRequest) : M (list ev) :=
  if negb (String.eqb method "POST") then mret [EvError 405 "method not allowed"]
  else
    s ← attempt (resolveScope authorization);
    match s with
    | Err e => mret [EvError 401 (message e)]
    | Ok scope => handleFeedbackScoped req scope scope.(Owner)
    end.
End Handler.
