(* ===== verification/GatewayFacts.v ===== *)
(** * GatewayFacts: what a turn promises, whatever fails

    Before the capture a turn adds nothing but audit rows; it answers whenever
    its provider does, unless the code panics; a streamed turn is captured as it
    was sent; but not when the client has gone. *)

From Stdlib Require Import SpecFloat.
From stdpp Require Import gmap.
From S2P Require Import Prelude PgFmt Identity Schema Db KeyStore Capture Utf8 Json Float Text Bm25 Mmr Embed Keeps Reembed.
From S2P Require Import Civil Temporal Slug Entities Relations Output Grounding Vectors Summaries SummaryStore.
From S2P Require Import Sources Runner Daily Reads Facts Signals Search Retrieve Passes Gateway.
#[local] Open Scope string_scope.
#[local] Open Scope list_scope.
#[local] Open Scope Z_scope.

(** ** Audit rows only *)

Definition auditOnly (d d' : db) : Prop := exists l, d' = set_audit_log (fun a => a ++ l) d.

Lemma set_audit_nil d : set_audit_log (fun a => a ++ []) d = d.
Proof. destruct d. unfold set_audit_log. cbn. by rewrite app_nil_r. Qed.

#[export] Instance auditOnly_rel : DbRel auditOnly.
Proof.
  split.
  - intros d. exists []. by rewrite set_audit_nil.
  - intros d1 d2 d3 [l1 ->] [l2 ->]. exists (l1 ++ l2). unfold set_audit_log. cbn. by rewrite app_assoc.
  - by intros d d' [l ->].
Qed.

(** Binds and branches of an operation that keeps a relation. *)
Section KeepsMore.
Context `{HA : AEAD} (D : db -> db -> Prop) `{HD : !DbRel D}.
Variable kek : string.
#[local] Abbreviation K := (keeps D kek).

Lemma keeps_getProc {A} (f : process -> A) : K (getProc f).
Proof. intros w. apply wp_getProc, step_refl. exact _. Qed.

Lemma keeps_draw (f : nat -> nat) : K (modProc (fun p => MkProcess p.(cache) (f p.(draws)))).
Proof. intros w. apply wp_modProc. split; [apply rel_refl|done|apply quiet_refl]. Qed.

Lemma keeps_scanRows {A B} (f : A -> M B) rows : (forall a, K (f a)) -> K (scanRows f rows).
Proof.
  intros Hf. induction rows as [|r rows IH]; cbn [scanRows]; [by apply keeps_ret|].
  apply keeps_bind; [exact _|apply Hf|intros b]. apply keeps_bind; [exact _|exact IH|intros bs]. by apply keeps_ret.
Qed.

Lemma keeps_foldM {A B} (f : B -> A -> M B) l : (forall b a, K (f b a)) -> forall b, K (foldM f b l).
Proof.
  intros Hf. induction l as [|a l IH]; intros b; cbn [foldM]; [by apply keeps_ret|].
  apply keeps_bind; [exact _|apply Hf|exact IH].
Qed.
End KeepsMore.

#[export] Hint Resolve keeps_getProc keeps_draw : keeps.
#[export] Hint Extern 0 (DbRel _) => exact _ : keeps.

Ltac keeps_head :=
  lazymatch goal with
  | |- keeps _ _ (mbind _ _) => apply keeps_bind; [typeclasses eauto| |intros ?]
  | |- keeps _ _ (wrapErr _ _) => apply keeps_wrap
  | |- keeps _ _ (catch _) => apply keeps_catch
  | |- keeps _ _ (Run _ _ _) => apply keeps_Run; [typeclasses eauto|intros ?]
  | |- keeps _ _ (scanRows _ _) => apply keeps_scanRows; [typeclasses eauto|intros ?]
  | |- keeps _ _ (foldM _ _ _) => apply keeps_foldM; [typeclasses eauto|intros ? ?]
  end.
Ltac keeps_solve := repeat first [progress auto 4 with keeps | keeps_head | case_match].

Section Turns.
Context `{HA : AEAD, HR : Rand, HU : Unicode, HL : MathLog, EM : Embedder, FF : FloatFormat, SO : SearchOps}.
Context `{HQ : Quoting, HH : Hashing, HI : Ingest}.
Variable kek : string.
Variable Getenv : string -> string.
Variable localOffset : Z -> Z.
Variable Tick : nat -> Z.
Variable Registry : registry.
Variables aggregationPrompt attributionPrompt : string.
#[local] Abbreviation K := (keeps auditOnly kek).

Lemma keeps_attempt {A} (m : M A) : K m -> K (attempt m).
Proof. intros Hm. unfold attempt. keeps_solve. Qed.

Lemma keeps_now : K (now Tick).
Proof. unfold now. keeps_solve. Qed.

Lemma keeps_readRand n : K (readRand n).
Proof. unfold readRand. keeps_solve. Qed.

Lemma keeps_newID : K (newID Tick).
Proof. pose proof keeps_now. pose proof keeps_readRand. unfold newID, newEpisodeID. keeps_solve. Qed.

Lemma keeps_call {A} (answer : nat -> option A) : K (callProvider answer).
Proof. unfold callProvider. keeps_solve. Qed.

Lemma keeps_judge judge system user : K (askJudge judge system user).
Proof. pose proof @keeps_call. unfold askJudge, chat. keeps_solve. Qed.

Lemma keeps_audit e se : K (Write se e).
Proof. unfold Write. keeps_solve. apply keeps_exec; [exact _|]. intros d. by exists [e]. Qed.

Lemma keeps_fallible {A} (f : db -> option A) : K (queryFallible f).
Proof. unfold queryFallible. keeps_solve. Qed.

Lemma keeps_orPanic {A} (o : option A) : K (orPanic o).
Proof. unfold orPanic. keeps_solve. Qed.
End Turns.

#[export] Hint Resolve keeps_attempt keeps_now keeps_readRand keeps_newID keeps_call keeps_judge keeps_audit
  keeps_fallible keeps_orPanic : keeps.

Section Recall.
Context `{HA : AEAD, HR : Rand, HU : Unicode, HL : MathLog, EM : Embedder, FF : FloatFormat, SO : SearchOps}.
Variable kek : string.
Variable Getenv : string -> string.
Variable localOffset : Z -> Z.
#[local] Abbreviation K := (keeps auditOnly kek).

Lemma keeps_formatEntity se scope id label : K (formatEntity kek se scope id label).
Proof. unfold formatEntity. keeps_solve. Qed.

Lemma keeps_stage1 act ws query now : K (stage1 kek act ws query now).
Proof.
  pose proof keeps_formatEntity. unfold stage1, buildAnchor, stage1EntityMatches, matchedLine. keeps_solve.
Qed.

Lemma keeps_openSummary scope r : K (openSummary kek scope r).
Proof. unfold openSummary. keeps_solve. Qed.

Lemma keeps_candidates se scope qv qs threshold maxResults tier ids :
  K (candidates kek se scope qv qs threshold maxResults tier ids).
Proof.
  pose proof keeps_openSummary. unfold candidates, vectorStep, keywordPass, keywordStep, factStep. keeps_solve.
Qed.

Lemma keeps_summaries se scope qv qs threshold maxResults query now tier ids :
  K (fusedSearchSummaries kek Getenv se scope qv qs threshold maxResults query now tier ids).
Proof.
  pose proof keeps_candidates. unfold fusedSearchSummaries, loadPick, loadKeyFacts, guaranteeLine, depthOf. keeps_solve.
Qed.

Lemma keeps_openEntity scope r : K (openEntity kek scope r).
Proof. unfold openEntity. keeps_solve. Qed.

Lemma keeps_openEpisode scope r : K (openEpisode kek scope r).
Proof. unfold openEpisode. keeps_solve. Qed.

Lemma keeps_exchange scope qs now how m : K (exchangeFound localOffset scope qs now how m).
Proof. unfold exchangeFound. keeps_solve. Qed.

Lemma keeps_hops hops se scope seen l frontier : K (walkHops hops se scope seen l frontier).
Proof. revert seen l frontier. induction hops as [|hops IH]; intros; cbn [walkHops]; keeps_solve. Qed.

Lemma keeps_walk se scope seeds : K (graphWalkRelationships kek Getenv se scope seeds).
Proof.
  pose proof keeps_formatEntity. pose proof keeps_hops. unfold graphWalkRelationships, walked. keeps_solve.
Qed.

Lemma keeps_searches se ws query qv now sofar ids : K (searches kek Getenv localOffset se ws query qv now sofar ids).
Proof.
  pose proof keeps_summaries. pose proof keeps_openEntity. pose proof keeps_openEpisode. pose proof keeps_exchange.
  pose proof keeps_walk.
  unfold searches, andThen, keywordSearchTierForScope, vectorSearchEpisodes, vectorSearchEntities,
    keywordSearchEpisodes, keywordSearchEntities. keeps_solve.
Qed.

Lemma keeps_Retrieve act ws messages now : K (Retrieve kek Getenv localOffset act ws messages now).
Proof.
  pose proof keeps_stage1. pose proof keeps_searches.
  unfold Retrieve, retrieve, embedQuery, logged. keeps_solve.
Qed.
End Recall.

(** What an operation returns, whatever else it does. *)
Definition returns {A} (m : M A) (P : A -> Prop) : Prop :=
  forall w, wp m (fun r _ => match r with Ok a => P a | Err _ => True end) w.

Lemma returns_ret {A} (a : A) (P : A -> Prop) : P a -> returns (mret a) P.
Proof. by intros H w. Qed.

Lemma returns_bind {A B} (m : M A) (f : A -> M B) (P : A -> Prop) Q :
  returns m P -> (forall a, P a -> returns (f a) Q) -> returns (m ≫= f) Q.
Proof.
  intros Hm Hf w. apply wp_bind. eapply wp_mono; [apply Hm|]. intros [a|e] w' H; [by apply Hf|done].
Qed.

Lemma returns_any {A} (m : M A) : returns m (fun _ => True).
Proof. intros w. apply wp_intro. by intros [a|e] w' _. Qed.

(** The gate a retrieval reports is one of the three the table allows. *)
Lemma returns_Retrieve `{HA : AEAD, HU : Unicode, ML : MathLog, EM : Embedder, FF : FloatFormat, SO : SearchOps}
    kek Getenv localOffset act ws messages now :
  returns (Retrieve kek Getenv localOffset act ws messages now) (fun r => r.(Gate) ∈ memoryGates).
Proof.
  assert (Hs : GateSkipped ∈ memoryGates) by by left.
  assert (Hp : GatePartial ∈ memoryGates) by (right; by left).
  assert (Hf : GateFull ∈ memoryGates) by (right; right; by left).
  unfold Retrieve. apply (returns_bind _ _ (fun r => r.(Gate) ∈ memoryGates)).
  - unfold retrieve. eapply returns_bind; [apply returns_any|intros s1 _]. cbv zeta.
    case_match; [by apply returns_ret|]. case_match; [by apply returns_ret|].
    do 3 (eapply returns_bind; [apply returns_any|intros ? _]). apply returns_ret. by case_match.
  - intros r Hr. eapply returns_bind; [apply returns_any|intros ? _]. by apply returns_ret.
Qed.

(** The importance a turn is given is between 0 and 1. *)
Lemma foldl_steps {A} (P : A -> bool) (g : f64 -> f64) l s :
  exists n, (n <= length l)%nat /\ foldl (fun s a => if P a then g s else s) s l = Nat.iter n g s.
Proof.
  revert s. induction l as [|a l IH]; intros s; cbn [foldl length]; [by exists O|].
  destruct (P a); [|destruct (IH s) as (n & Hn & ->); exists n; split; [lia|done]].
  destruct (IH (g s)) as (n & Hn & ->). exists (S n). split; [lia|]. by rewrite Nat.iter_succ_r.
Qed.

Lemma estimateImportance_unit `{Unicode} input output : unitInterval (estimateImportance input output) = true.
Proof.
  unfold estimateImportance. cbv zeta.
  destruct (foldl_steps (Contains (ToLower (input +:+ (" " +:+ output)))) (fun s => fadd s (fratio 1 10))
    importanceKeywords (fratio 2 10)) as (n & Hn & ->).
  destruct (Contains input "?");
    do 11 (destruct n as [|n]; [vm_compute; reflexivity|]); cbn in Hn; lia.
Qed.

(** ** Operations that only panic *)

Definition panics (e : error) : Prop := errors_Is e panicError = true.

Section Does.
Context `{HA : AEAD}.
Variable kek : string.
#[local] Abbreviation adds := (step auditOnly kek).

(** Adds audit rows, and returns something of [P] unless the code panics. *)
Definition does {A} (m : M A) (P : A -> Prop) : Prop :=
  forall w, wp m (fun r w' => adds w w' /\ match r with Ok a => P a | Err e => panics e end) w.

Lemma does_ret {A} (a : A) (P : A -> Prop) : P a -> does (mret a) P.
Proof. intros Ha w. apply wp_ret. split; [apply step_refl, _|done]. Qed.

Lemma does_bind {A B} (m : M A) (f : A -> M B) (P : A -> Prop) Q :
  does m P -> (forall a, P a -> does (f a) Q) -> does (m ≫= f) Q.
Proof.
  intros Hm Hf w. apply wp_bind. eapply wp_mono; [apply Hm|]. intros [a|e] w' [Hs Ha]; [|done].
  eapply wp_mono; [by apply Hf|]. intros r w'' [Hs' Hr]. split; [eapply step_trans; [exact _|done|done]|done].
Qed.

Lemma does_mono {A} (m : M A) (P Q : A -> Prop) : does m P -> (forall a, P a -> Q a) -> does m Q.
Proof. intros Hm HPQ w. eapply wp_mono; [apply Hm|]. intros [a|e] w' [Hs H]; split; auto. Qed.

(** Sequencing with an operation of another kind. *)
Lemma wp_does {A B} (m : M A) (f : A -> M B) (P : A -> Prop) Q w :
  does m P -> (forall a w', adds w w' -> P a -> wp (f a) Q w') ->
  (forall e w', panics e -> Q (Err e) w') -> wp (m ≫= f) Q w.
Proof.
  intros Hm Hf He. apply wp_bind. eapply wp_mono; [apply Hm|]. intros [a|e] w' [Hs H]; [by apply Hf|by apply He].
Qed.

Lemma wp_tried {A} (m : M A) Q w :
  wp m (fun r w' => match r with
                    | Ok a => Q (Ok (Ok a)) w'
                    | Err e => (panics e -> Q (Err e) w') /\ (~ panics e -> Q (Ok (Err e)) w')
                    end) w ->
  wp (attempt m) Q w.
Proof.
  intros H. unfold attempt. apply wp_bind, wp_catch. eapply wp_mono; [apply H|]. intros [a|e] w' HQ; [done|].
  destruct HQ as [H1 H2]. unfold panics in *. destruct (errors_Is e panicError); [by apply wp_throw, H1|].
  by apply wp_ret, H2.
Qed.

Lemma does_attempt {A} (m : M A) : keeps auditOnly kek m -> does (attempt m) (fun _ => True).
Proof.
  intros Hm w. apply wp_tried. eapply wp_mono; [apply Hm|]. intros [a|e] w' Hs; [done|]. by split.
Qed.

Lemma does_attempt_returns {A} (m : M A) (P : A -> Prop) :
  keeps auditOnly kek m -> returns m P ->
  does (attempt m) (fun r => match r with Ok a => P a | Err _ => True end).
Proof.
  intros Hm HP w. apply wp_tried. specialize (Hm w). specialize (HP w). unfold wp in *.
  destruct (m w) as [[a|e] w']; [done|]. by split.
Qed.

(** An operation that keeps, and cannot fail. *)
Lemma does_catch {A} (m : M A) : keeps auditOnly kek m -> does (catch m) (fun _ => True).
Proof. intros Hm w. apply wp_catch. eapply wp_mono; [apply Hm|]. by intros [a|e] w' Hs. Qed.

Lemma does_getProc {A} (f : process -> A) : does (getProc f) (fun _ => True).
Proof. intros w. apply wp_getProc. split; [apply step_refl, _|done]. Qed.

Lemma does_draw (f : nat -> nat) : does (modProc (fun p => MkProcess p.(cache) (f p.(draws)))) (fun _ => True).
Proof. intros w. apply wp_modProc. split; [|done]. split; [apply rel_refl|done|apply quiet_refl]. Qed.
End Does.

Create HintDb does.
#[export] Hint Resolve does_attempt does_catch does_getProc does_draw : does.

(** ** What a turn comes to *)

Definition delivered (e : ev) : string :=
  match e with
  | EvDelta _ delta => delta
  | EvResponse r => Content r.(rs_message)
  | _ => ""
  end.

(** The text the client is given. *)
Definition said (trace : list ev) : string := foldr (fun e s => delivered e +:+ s) "" trace.

Definition isDelta (e : ev) : bool := match e with EvDelta _ _ => true | _ => false end.

(** What tells the client that the turn is done. *)
Inductive ending : list ev -> Prop :=
| ending_response r : ending [EvResponse r]
| ending_stream id citations warnings : ending [EvTerminal id citations warnings; EvDone].

(** Answers every call, to a client that stays. *)
Record reliable (p : Provider) : Prop := MkReliable {
  rl_chat : forall i q, is_Some (p.(pv_chat) i q);
  rl_stream : forall i q, exists events, p.(pv_stream) i q = Some (events, false) /\ ~ CtxDone ∈ events
}.

(** Whether a request can be answered: what is sent on, and its last question. *)
Definition accepted `{Ingest} (r : httpRequest) (req : chatCompletionRequest) (messages : list Message)
    (warnings : list string) : Prop :=
  r.(ht_body) = BodyOk req /\ req.(rq_messages) <> [] /\
  forallb (fun m => validRole m.(Role)) req.(rq_messages) = true /\
  mergeAttachments req.(rq_messages) req.(rq_attachments) = Ok (messages, warnings) /\
  (req.(rq_stream) = true -> r.(flushes) = true).

Section Outcome.
Context `{HA : AEAD, HR : Rand, HL : !AEADLaws}.
Variable kek : string.
Variable scope : Scope.

(** One more episode of the scope, read back as the exchange it was. *)
Definition remembered (input output : string) (d d' : db) : Prop :=
  exists ep, ep.(InputText) = input /\ ep.(OutputText) = output /\ ep.(Type_) = "interaction" /\
    (ep.(ID) ∈ map e_id d.(episodes) -> d'.(episodes) = d.(episodes)) /\
    (ep.(ID) ∉ map e_id d.(episodes) ->
       exists row, d'.(episodes) = d.(episodes) ++ [row] /\ capturedRow kek scope ep d' row).

(** The attempts at capturing, [unlucky] if one may fail. *)
Inductive capturing (skip : bool) (input output : string) (unlucky : Prop) (d d' : db) : list ev -> Prop :=
| capturing_skipped : skip = true -> d'.(episodes) = d.(episodes) -> capturing skip input output unlucky d d' []
| capturing_done : skip = false -> remembered input output d d' -> capturing skip input output unlucky d d' [EvCapture true]
| capturing_failed : skip = false -> unlucky -> d'.(episodes) = d.(episodes) ->
    capturing skip input output unlucky d d' [EvCapture false].

(** A turn is refused, and nothing is stored; or it is answered, and what was
    said is stored before the client is told that it is done. *)
Inductive concluded (skip : bool) (input : string) (refusable unlucky : Prop) (d d' : db) : list ev -> Prop :=
| concluded_refused status msg : refusable \/ unlucky -> d'.(episodes) = d.(episodes) ->
    concluded skip input refusable unlucky d d' [EvError status msg]
| concluded_answered out cap fin : Forall (fun e => isDelta e = true) out -> ending fin ->
    capturing skip input (said (out ++ fin)) unlucky d d' cap ->
    concluded skip input refusable unlucky d d' (out ++ cap ++ fin).

(** ** Audit rows do not matter *)

Lemma auditOnly_episodes d d' : auditOnly d d' -> d'.(episodes) = d.(episodes).
Proof. by intros [l ->]. Qed.

Lemma auditOnly_readField d d' v ct :
  auditOnly d d' -> readField kek d' scope v ct = readField kek d scope v ct.
Proof. by intros [l ->]. Qed.

Lemma auditOnly_row ep d d' row : auditOnly d d' -> capturedRow kek scope ep d row -> capturedRow kek scope ep d' row.
Proof. by intros [l ->]. Qed.

Lemma remembered_audit input output d0 d d' d3 :
  auditOnly d0 d -> auditOnly d' d3 -> remembered input output d d' -> remembered input output d0 d3.
Proof.
  intros H0 H3 (ep & Ei & Eo & Et & Hold & Hnew). exists ep. rewrite (auditOnly_episodes _ _ H3).
  rewrite <- (auditOnly_episodes _ _ H0). split_and!; [done..|].
  intros Hid. destruct (Hnew Hid) as (row & Er & Hrow). exists row. split; [done|]. by eapply auditOnly_row.
Qed.

Lemma capturing_audit skip input output (unlucky unlucky' : Prop) d0 d d' d3 cap :
  auditOnly d0 d -> auditOnly d' d3 -> (unlucky -> unlucky') ->
  capturing skip input output unlucky d d' cap -> capturing skip input output unlucky' d0 d3 cap.
Proof.
  intros H0 H3 Hu. pose proof (auditOnly_episodes _ _ H0) as E0. pose proof (auditOnly_episodes _ _ H3) as E3.
  intros []; constructor; try done; try congruence; [by eapply remembered_audit|by apply Hu].
Qed.

(** ** The capture *)

(** What may keep the episode of a turn from being stored. *)
Definition unluckyCapture (w : world) : Prop :=
  w.(w_faults) <> [] \/ ~ (rand_ok /\ String.length kek = 32%nat) \/ ~ scope.(Kind) ∈ scopeKinds.

(** What the table asks of an episode, but for its scope. *)
Definition storable (ep : Episode) : Prop :=
  ep.(Type_) = "interaction" /\ unitInterval ep.(Importance) = true /\
  ep.(MemoryGate) ∈ memoryGates /\ ep.(Rating) = "" /\ ep.(RefersTo) = "".

Lemma storable_admissible ep d : storable ep -> scope.(Kind) ∈ scopeKinds -> admissible scope ep d.
Proof.
  intros (Ht & Hi & Hg & Hr & Hf) Hk. unfold admissible. rewrite Ht, Hr, Hf.
  split_and!; [by left|done|by right|by left|done|by right; left].
Qed.

Lemma wp_captureTurn skip cancelled ep w :
  storeInv kek w.(w_db) w.(w_proc).(cache) -> storable ep ->
  wp (captureTurn kek skip cancelled scope ep)
    (fun r w' => match r with
                 | Ok cap => capturing skip ep.(InputText) ep.(OutputText) (cancelled = true \/ unluckyCapture w) w.(w_db) w'.(w_db) cap
                 | Err e => panics e
                 end) w.
Proof.
  intros Hinv Hep. pose proof Hep as (Ht & _). unfold captureTurn. destruct skip; [apply wp_ret; by constructor|].
  apply wp_bind, wp_tried. unfold onContext. destruct cancelled.
  { apply wp_throw. split; [done|]. intros _. apply wp_ret. constructor; [done|by left|done]. }
  eapply wp_mono; [by apply wp_Capture|]. intros [[]|e] w' [_ Hpost].
  - apply wp_ret. destruct Hpost as (_ & _ & _ & Hold & Hnew). constructor; [done|]. by exists ep.
  - split; [done|]. intros _. apply wp_ret. destruct Hpost as [Hs Hwhy]. constructor; [done| |by apply same_rows_episodes].
    right. destruct Hwhy as [?|[?|[[_ Hno]|Hno]]]; [by left|by right; left| |].
    + exfalso. apply Hno. intros Hf. congruence.
    + right. right. intros Hk. by apply Hno, storable_admissible.
Qed.
End Outcome.

Lemma said_app l k : said (l ++ k) = said l +:+ said k.
Proof. induction l as [|e l IH]; cbn; [done|]. fold (said (l ++ k)) (said l). by rewrite IH, sapp_assoc. Qed.

Lemma said_ending fin : ending fin -> (exists r, fin = [EvResponse r]) \/ said fin = "".
Proof. intros []; [left; by eexists|by right]. Qed.

(** The drain loop writes what it collects. *)
Lemma drain_said id events buf out buf' truncated stopped :
  drain id events buf = (out, buf', truncated, stopped) ->
  buf' = buf +:+ said out /\ Forall (fun e => isDelta e = true) out /\ (stopped = true -> CtxDone ∈ events).
Proof.
  revert buf out buf' truncated stopped. induction events as [|[c|] events IH]; intros buf out buf' tr st; cbn [drain].
  - intros [= <- <- <- <-]. by rewrite sapp_nil_r.
  - destruct (ch_err c); [intros [= <- <- <- <-]; by rewrite sapp_nil_r|].
    set (o := if String.eqb (ch_delta c) "" then [] else [EvDelta id (ch_delta c)]).
    set (b := if String.eqb (ch_delta c) "" then buf else buf +:+ ch_delta c).
    assert (Eo : (if String.eqb (ch_delta c) "" then ([], buf) else ([EvDelta id (ch_delta c)], buf +:+ ch_delta c)) = (o, b))
      by (unfold o, b; by case_match).
    rewrite Eo. assert (Hb : b = buf +:+ said o /\ Forall (fun e => isDelta e = true) o).
    { unfold o, b. case_match; cbn; rewrite ?sapp_nil_r; by repeat constructor. }
    destruct (ch_done c); [by intros [= <- <- <- <-]; destruct Hb; split_and!|].
    destruct (drain id events b) as [[[out1 buf1] tr1] st1] eqn:Ed. intros [= <- <- <- <-].
    destruct (IH _ _ _ _ _ Ed) as (-> & Hf & Hst), Hb as [-> Ho]. split_and!.
    + by rewrite said_app, sapp_assoc.
    + by apply Forall_app.
    + intros Hs. right. by apply Hst.
  - intros [= <- <- <- <-]. rewrite sapp_nil_r. split_and!; [done|done|by left].
Qed.

Section Answering.
Context `{HA : AEAD, HR : Rand, HL : !AEADLaws, HU : Unicode, ML : MathLog, EM : Embedder, FF : FloatFormat, SO : SearchOps}.
Context `{HQ : Quoting, HH : Hashing, HI : Ingest}.
Variable kek : string.
Variable Getenv : string -> string.
Variable localOffset : Z -> Z.
Variable Tick : nat -> Z.
Variable Registry : registry.
Variables aggregationPrompt attributionPrompt : string.
#[local] Abbreviation does' := (does kek).
#[local] Abbreviation adds := (step auditOnly kek).

Lemma does_now : does' (now Tick) (fun _ => True).
Proof.
  unfold now. eapply does_bind; [apply does_getProc|intros i _].
  eapply does_bind; [apply does_draw|intros ? _]. by apply does_ret.
Qed.

Lemma does_newID : does' (newID Tick) (fun _ => True).
Proof.
  unfold newID, newEpisodeID. eapply does_bind; [apply does_now|intros t _].
  eapply does_bind; [apply does_catch, keeps_readRand|intros ? _]. by apply does_ret.
Qed.

Lemma does_episode id p input output result truncated actor :
  does' (buildEpisode Tick id p input output result truncated actor)
    (fun ep => ep.(InputText) = input /\ ep.(OutputText) = output /\ (result.(Gate) ∈ memoryGates -> storable ep)).
Proof.
  unfold buildEpisode. eapply does_bind; [apply does_now|intros ts _]. apply does_ret.
  split_and!; [done..|]. intros Hg. split_and!; [done|apply estimateImportance_unit|done..].
Qed.

Lemma does_explained mode cancelled target answer citations :
  does' (explained attributionPrompt mode cancelled target answer citations) (fun _ => True).
Proof.
  pose proof keeps_judge. unfold explained. case_match; [by apply does_ret|]. case_match; [|by apply does_ret].
  eapply does_bind; [|intros ? _; by apply does_ret]. apply does_attempt. unfold onContext, attributionCheck. keeps_solve.
Qed.

Lemma does_recall memory act ws messages :
  does' (recall kek Getenv localOffset Tick memory act ws messages) (fun r => r.(Gate) ∈ memoryGates).
Proof.
  unfold recall. case_match; [apply does_ret; by left|]. eapply does_bind; [apply does_now|intros t _].
  eapply (does_bind _ _ _ (fun r => match r with Ok res => res.(Gate) ∈ memoryGates | Err _ => True end)).
  - apply does_attempt_returns; [apply keeps_Retrieve|apply returns_Retrieve].
  - intros [res|e] Hres; apply does_ret; [done|by left].
Qed.

Lemma does_hint target result input : does' (aggregationHint Tick aggregationPrompt target result input) (fun _ => True).
Proof.
  unfold aggregationHint. case_match; [|by apply does_ret]. eapply does_bind; [apply does_now|intros t _].
  unfold AggregationHint. case_match; [by apply does_ret|]. unfold extractAggregationFacts.
  apply (does_bind _ _ _ (fun _ => True)); [|intros ? _; by apply does_ret].
  eapply does_bind; [apply does_catch, keeps_judge|intros ? _; by apply does_ret].
Qed.

(** A call of the provider that fails is a fault, or refused. *)
Lemma wp_call {A} (answer : nat -> option A) w :
  wp (attempt (callProvider answer))
    (fun r w' => adds w w' /\
       match r with
       | Ok (Ok a) => exists i, answer i = Some a
       | Ok (Err _) => w.(w_faults) <> [] \/ exists i, answer i = None
       | Err e => panics e
       end) w.
Proof.
  destruct w as [d p fs]. apply wp_tried. unfold callProvider. apply wp_bind, wp_wrap, wp_trip.
  - apply wp_bind, wp_getProc, wp_bind, wp_modProc. set (w1 := set_proc _ _).
    assert (Hs : adds (MkWorld d p fs) w1).
    { split; [apply rel_refl|done|]. cbn. oracle. }
    destruct (answer _) as [a|] eqn:Ea; [apply wp_ret; split; [done|by eexists]|].
    apply wp_throw. split; [done|]. intros _. split; [done|]. right. by eexists.
  - intros Hf. split; [done|]. intros _. split; [|by left].
    split; [apply rel_refl|done|apply quiet_tail, quiet_refl].
Qed.

(** ** The two ways of answering *)

Definition unluckyTurn (scope : Scope) (target : Provider) (w : world) : Prop :=
  ~ reliable target \/ unluckyCapture kek scope w.

Lemma unlucky_adds scope target w w' : adds w w' -> unluckyTurn scope target w' -> unluckyTurn scope target w.
Proof.
  intros [_ _ Hq] [?|[?|?]]; [by left| |by right; right]. right. left. by eapply quiet_not_nil.
Qed.

Lemma turn_audit scope skip input refusable unlucky (unlucky' : Prop) d0 d d' trace :
  auditOnly d0 d -> (unlucky -> unlucky') ->
  concluded kek scope skip input refusable unlucky d d' trace -> concluded kek scope skip input refusable unlucky' d0 d' trace.
Proof.
  intros H0 Hu []; econstructor; try done; [naive_solver|by rewrite <- (auditOnly_episodes _ _ H0)|].
  eapply capturing_audit; [exact H0|apply rel_refl|exact Hu|done].
Qed.

(** What a step of a turn leaves to prove. *)
Definition turns (scope : Scope) (skip : bool) (input : string) (refusable : Prop) (target : Provider) (m : M (list ev)) : Prop :=
  forall w, storeInv kek w.(w_db) w.(w_proc).(cache) ->
    wp m (fun r w' => match r with
                      | Ok trace => concluded kek scope skip input refusable (unluckyTurn scope target w) w.(w_db) w'.(w_db) trace
                      | Err e => panics e
                      end) w.

Lemma turns_after {A} scope skip input refusable target (m : M A) (f : A -> M (list ev)) (P : A -> Prop) :
  does' m P -> (forall a, P a -> turns scope skip input refusable target (f a)) ->
  turns scope skip input refusable target (m ≫= f).
Proof.
  intros Hm Hf w Hinv. eapply wp_does; [exact Hm| |done]. intros a w' Hs Ha.
  eapply wp_mono; [apply (Hf a Ha); by apply Hs|]. intros [trace|e] w''; [|done].
  apply turn_audit; [by apply Hs|by apply unlucky_adds].
Qed.

Lemma turns_refused scope skip input (refusable : Prop) target status msg :
  refusable -> turns scope skip input refusable target (mret [EvError status msg]).
Proof. intros Hr w _. apply wp_ret. constructor; [by left|done]. Qed.

(** A capture, then what the client is told. *)
Lemma turns_capture scope skip input refusable target cancelled ep out (told : list ev -> M (list ev)) :
  ep.(InputText) = input -> storable ep -> (cancelled = true -> ~ reliable target) ->
  Forall (fun e => isDelta e = true) out ->
  (forall cap, does' (told cap) (fun trace => exists fin,
     trace = out ++ cap ++ fin /\ ending fin /\ ep.(OutputText) = said (out ++ fin))) ->
  turns scope skip input refusable target (captureTurn kek skip cancelled scope ep ≫= told).
Proof.
  intros <- Ht Hc Ho Hm w Hinv. apply wp_bind. eapply wp_mono; [by apply wp_captureTurn|]. intros [cap|e] w1; [|done].
  intros Hcap. eapply wp_mono; [apply Hm|]. intros [trace|e] w2 [Hs H]; [|done]. destruct H as (fin & -> & He & Hsaid).
  apply concluded_answered; [done|done|]. rewrite <- Hsaid.
  eapply capturing_audit; [apply rel_refl|by apply Hs| |exact Hcap]. intros [?|?]; [left|right]; auto.
Qed.

(** The provider's answer, or an error of its. *)
Lemma turns_call {A} scope skip input refusable target (answer : nat -> option A) status msg (f : A -> M (list ev)) :
  (forall i, answer i = None -> ~ reliable target) ->
  (forall i a, answer i = Some a -> turns scope skip input refusable target (f a)) ->
  turns scope skip input refusable target (r ← attempt (callProvider answer);
    match r with Err _ => mret [EvError status msg] | Ok a => f a end).
Proof.
  intros Hn Hf w Hinv. apply wp_bind. eapply wp_mono; [apply wp_call|]. intros [[a|e]|e] w1 [Hs Hr]; [| |done].
  - destruct Hr as [i Hi]. eapply wp_mono; [apply (Hf i a Hi); by apply Hs|]. intros [trace|e] w2; [|done].
    apply turn_audit; [by apply Hs|by apply unlucky_adds].
  - apply wp_ret. constructor; [|by apply auditOnly_episodes, Hs].
    right. destruct Hr as [?|[i Hi]]; [right; by left|left; by eapply Hn].
Qed.

Lemma turns_nonStream scope req augmented target result input actor skip mode warnings refusable :
  result.(Gate) ∈ memoryGates ->
  turns scope skip input refusable target
    (handleNonStream kek Tick attributionPrompt scope req augmented target result input actor skip mode warnings).
Proof.
  intros Hg. unfold handleNonStream, chat. apply (turns_call _ _ _ _ _ (fun i => pv_chat target i _)).
  { intros i Hi [Hc _]. destruct (Hc i (MkChatRequest augmented (rq_temperature req) (rq_maxTokens req))) as [? E]. congruence. }
  intros i resp _. eapply turns_after; [apply does_newID|intros id _].
  eapply turns_after; [apply does_episode|intros ep (Ei & Eo & Hep)].
  apply (turns_capture _ _ _ _ _ false ep []); [done|by apply Hep|done|done|]. intros cap.
  eapply does_bind; [apply does_now|intros created _]. eapply does_bind; [apply does_explained|intros citations _].
  apply does_ret. eexists. split_and!; [done|constructor|]. rewrite Eo. cbn. by rewrite sapp_nil_r.
Qed.

Lemma turns_stream canFlush scope req augmented target result input actor skip mode warnings (refusable : Prop) :
  (canFlush = false -> refusable) -> result.(Gate) ∈ memoryGates ->
  turns scope skip input refusable target
    (handleStream kek Tick attributionPrompt canFlush scope req augmented target result input actor skip mode warnings).
Proof.
  intros Hflush Hg. unfold handleStream. destruct canFlush; cbn [negb]; [|by apply turns_refused, Hflush].
  set (q := MkChatRequest _ _ _). apply (turns_call _ _ _ _ _ (fun i => pv_stream target i q)).
  { intros i Hi [_ Hs]. destruct (Hs i q) as (? & E & _). congruence. }
  intros i [events gone] Hev. eapply turns_after; [apply does_newID|intros id _].
  eapply turns_after; [apply does_now|intros ? _].
  destruct (drain id events "") as [[[out answer] truncated] stopped] eqn:Ed.
  destruct (drain_said _ _ _ _ _ _ _ Ed) as (Ea & Ho & Hst).
  eapply turns_after; [apply does_episode|intros ep (Ei & Eo & Hep)].
  apply (turns_capture _ _ _ _ _ (stopped || gone) ep out); [done|by apply Hep| |done|].
  { intros Hc [_ Hs]. destruct (Hs i q) as (events' & E & Hno). rewrite Hev in E. injection E as -> ->.
    rewrite orb_false_r in Hc. by apply Hno, Hst. }
  intros cap. eapply does_bind; [apply does_explained|intros citations _].
  apply does_ret. eexists. split_and!; [done|constructor|]. rewrite Eo, Ea, said_app. cbn. by rewrite sapp_nil_r.
Qed.

(** The question as it is stored. *)
Definition asked (r : httpRequest) : string :=
  match r.(ht_body) with
  | BodyOk req => match mergeAttachments req.(rq_messages) req.(rq_attachments) with
                  | Ok (messages, _) => lastUserMessage messages
                  | Err _ => ""
                  end
  | _ => ""
  end.

Definition targetOf (r : httpRequest) : Provider :=
  match r.(ht_body) with BodyOk req => resolveProvider Registry req.(rq_model) | _ => activeChat Registry end.

Definition acceptable (r : httpRequest) : Prop := exists req messages warnings, accepted r req messages warnings.

Lemma turns_scoped r act ws :
  turns ws (isOff r.(ht_capture)) (asked r) (~ acceptable r) (targetOf r)
    (handleChatCompletionsScoped kek Getenv localOffset Tick Registry aggregationPrompt attributionPrompt r act ws).
Proof.
  unfold handleChatCompletionsScoped, asked, targetOf. destruct (ht_body r) as [| |req] eqn:Eb.
  1, 2: by apply turns_refused; intros (? & ? & ? & E & _); rewrite Eb in E.
  assert (Hno : forall req', ht_body r = BodyOk req' -> req' = req) by (intros req' E; rewrite Eb in E; by injection E).
  destruct (Nat.eqb_spec (length (rq_messages req)) 0) as [El|El].
  { apply turns_refused. intros (req' & ? & ? & E & Hne & _). rewrite (Hno _ E) in Hne. by apply length_zero_iff_nil in El. }
  destruct (forallb _ _) eqn:Er; cbn [negb].
  2: { apply turns_refused. intros (req' & ? & ? & E & _ & Hr & _). rewrite (Hno _ E) in Hr. congruence. }
  eapply turns_after; [apply does_recall|intros result Hg].
  destruct (mergeAttachments _ _) as [[messages warnings]|e] eqn:Em.
  2: { apply turns_refused. intros (req' & ? & ? & E & _ & _ & Hm & _). rewrite (Hno _ E) in Hm. congruence. }
  eapply turns_after; [apply does_hint|intros hint _].
  destruct (rq_stream req) eqn:Es; [|by apply turns_nonStream]. apply turns_stream; [|done].
  intros Hf (req' & ? & ? & E & _ & _ & _ & H). rewrite (Hno _ E) in H. specialize (H Es). congruence.
Qed.
End Answering.
