(* ===== verification/GatewayClaims.v ===== *)
(** * GatewayClaims: what a chat turn promises, with turns that are run

    A turn is stored as it was told, before the client is told that it is done;
    without faults every acceptable request is answered and remembered; what a
    client that goes away was told is lost. *)

From Stdlib Require Import SpecFloat.
From stdpp Require Import gmap.
From S2P Require Import Prelude PgFmt Identity Schema Db KeyStore Capture Utf8 Json Float Text Bm25 Mmr Embed Keeps Reembed.
From S2P Require Import Civil Temporal Slug Entities Relations Output Grounding Vectors Summaries SummaryStore.
From S2P Require Import Sources Runner Daily Reads Facts Signals Search Retrieve Passes Gateway GatewayFacts.
#[local] Open Scope string_scope.
#[local] Open Scope list_scope.
#[local] Open Scope Z_scope.

Section Claims.
Context `{HA : AEAD, HR : Rand, HL : !AEADLaws, HU : Unicode, ML : MathLog, EM : Embedder, FF : FloatFormat, SO : SearchOps}.
Context `{HQ : Quoting, HH : Hashing, HI : Ingest}.
Variable kek : string.
Variable Getenv : string -> string.
Variable localOffset : Z -> Z.
Variable Tick : nat -> Z.
Variable Registry : registry.
Variables aggregationPrompt attributionPrompt : string.
(** A turn of this process. *)
Definition chatTurn : httpRequest -> Scope -> Scope -> M (list ev) :=
  handleChatCompletionsScoped kek Getenv localOffset Tick Registry aggregationPrompt attributionPrompt.

(** C17: A turn is stored as it was told.  Whatever fails (memory, the provider,
    a judge, the capture), a chat request, streamed or not, either panics, or
    is refused with an error and no episode is stored, or is answered: first
    the deltas, then the attempt at capturing, then what tells the client that
    the turn is done.  An attempt that succeeded has added one episode to the
    workspace (unless its id was taken), which reads back as the request's last
    user message and exactly the text the client was given; one that failed has
    added none, and no attempt is made exactly if the client asked for none. *)
Theorem turn_stored_as_told (r : httpRequest) (act ws : Scope) (w : world) :
  storeInv kek w.(w_db) w.(w_proc).(cache) ->
  wp (chatTurn r act ws)
    (fun res w' =>
       match res with
       | Ok trace =>
           (exists status msg, trace = [EvError status msg] /\ w'.(w_db).(episodes) = w.(w_db).(episodes)) \/
           (exists out cap fin, trace = out ++ cap ++ fin /\ Forall (fun e => isDelta e = true) out /\ ending fin /\
              ((cap = [] /\ isOff r.(ht_capture) = true /\ w'.(w_db).(episodes) = w.(w_db).(episodes)) \/
               (cap = [EvCapture false] /\ isOff r.(ht_capture) = false /\ w'.(w_db).(episodes) = w.(w_db).(episodes)) \/
               (cap = [EvCapture true] /\ isOff r.(ht_capture) = false /\
                remembered kek ws (asked r) (said (out ++ fin)) w.(w_db) w'.(w_db))))
       | Err e => panics e
       end) w.
Proof.
  intros Hinv. eapply wp_mono; [by apply turns_scoped|]. intros [trace|e] w'; [|done].
  intros [status msg _ He|out cap fin Ho He Hc]; [left; by eexists _, _|right]. exists out, cap, fin.
  split_and!; [done..|]. destruct Hc; naive_solver.
Qed.

(** C18: Nothing but a refusal of the provider or of the database keeps a turn
    from being answered and remembered.  If the request is acceptable, the
    provider answers every call and the client stays, no database round trip
    fails, and the random source and the key-encryption key work, then the turn
    panics or it is answered; and it is captured if the client did not ask
    otherwise.  The workspace is a private or a shared scope, the two kinds the
    episodes table admits. *)
Theorem turn_answered_remembered (r : httpRequest) (act ws : Scope) (w : world) :
  storeInv kek w.(w_db) w.(w_proc).(cache) ->
  acceptable r -> reliable (targetOf Registry r) -> w.(w_faults) = [] -> rand_ok -> String.length kek = 32%nat ->
  ws.(Kind) ∈ scopeKinds ->
  wp (chatTurn r act ws)
    (fun res w' =>
       match res with
       | Ok trace =>
           exists out cap fin, trace = out ++ cap ++ fin /\ Forall (fun e => isDelta e = true) out /\ ending fin /\
             if isOff r.(ht_capture) then cap = []
             else cap = [EvCapture true] /\ remembered kek ws (asked r) (said (out ++ fin)) w.(w_db) w'.(w_db)
       | Err e => panics e
       end) w.
Proof.
  intros Hinv Hacc Hrel Hf Hrand Hlen Hkind. eapply wp_mono; [by apply turns_scoped|]. intros [trace|e] w'; [|done].
  assert (Hlucky : ~ unluckyTurn kek ws (targetOf Registry r) w)
    by (intros [?|[?|[Hn|?]]]; [done|done|by apply Hn|done]).
  intros [status msg [?|?] He|out cap fin Ho He Hc]; [done|done|]. exists out, cap, fin.
  split_and!; [done..|]. by destruct Hc as [-> ?| -> ?| ? ? ?].
Qed.

(** What a client was sent before it went. *)
Definition leavesAfter (deltas : list string) : list streamEvent :=
  map (fun d => Chunk (MkStreamChunk d false false)) deltas ++ [CtxDone].

Lemma drain_leaves id deltas buf :
  exists out, drain id (leavesAfter deltas) buf = (out, buf +:+ String.concat "" deltas, true, true).
Proof.
  unfold leavesAfter. revert buf. induction deltas as [|d deltas IH]; intros buf; cbn.
  { eexists. by rewrite sapp_nil_r. }
  assert (E : String.concat "" (d :: deltas) = d +:+ String.concat "" deltas).
  { cbn. destruct deltas; [by rewrite sapp_nil_r|done]. }
  cbn in E. rewrite E. destruct (String.eqb_spec d "") as [-> |_].
  - destruct (IH buf) as [out Eo]. rewrite Eo. by exists out.
  - destruct (IH (buf +:+ d)) as [out Eo]. rewrite Eo, sapp_assoc. by eexists.
Qed.

(** C19: What is told to a client that goes away is lost.  When the client goes
    while its answer is streamed, the attempt at capturing uses the request's
    cancelled context and fails: the deltas were sent, but no episode is stored,
    although the loop marks the answer as cut short so that the part that
    arrived is kept. *)
Theorem cancelled_turn_lost (scope : Scope) (req : chatCompletionRequest) (augmented : list Message) (target : Provider)
    (result : RetrievalResult) (input actor mode : string) (warnings deltas : list string) (gone : bool) (w : world) :
  (forall i q, target.(pv_stream) i q = Some (leavesAfter deltas, gone)) ->
  wp (handleStream kek Tick attributionPrompt true scope req augmented target result input actor false mode warnings)
    (fun res w' =>
       w'.(w_db).(episodes) = w.(w_db).(episodes) /\
       match res with
       | Ok trace => trace = [EvError 502 "upstream provider error"] \/
                     (said trace = String.concat "" deltas /\ EvCapture false ∈ trace)
       | Err e => panics e
       end) w.
Proof.
  intros Hs. unfold handleStream. cbn [negb]. set (q := MkChatRequest _ _ _).
  apply wp_bind. eapply wp_mono; [apply (wp_call kek)|]. intros [[[events g]|e]|e] w1 [Hw Hr]; cycle 1.
  - apply wp_ret. split; [by apply auditOnly_episodes, Hw|by left].
  - split; [by apply auditOnly_episodes, Hw|done].
  - destruct Hr as [i Hi]. rewrite Hs in Hi. injection Hi as <- <-.
    assert (H : does kek (id ← newID Tick; _ ← now Tick;
        let '(out, answer, truncated, stopped) := drain id (leavesAfter deltas) "" in
        let cancelled := stopped || gone in
        ep ← buildEpisode Tick id target input answer result truncated actor;
        cap ← captureTurn kek false cancelled scope ep;
        citations ← explained attributionPrompt mode cancelled target answer result.(Citations);
        mret (out ++ cap ++ [EvTerminal id citations warnings; EvDone]))
        (fun trace => said trace = String.concat "" deltas /\ EvCapture false ∈ trace)).
    { eapply does_bind; [apply does_newID|intros id _]. eapply does_bind; [apply does_now|intros ? _].
      destruct (drain_leaves id deltas "") as [out Ed]. destruct (drain_said _ _ _ _ _ _ _ Ed) as (Ea & _). rewrite Ed.
      eapply does_bind; [apply does_episode|intros ep _]. cbn [orb].
      apply (does_bind _ _ _ (fun cap => cap = [EvCapture false])).
      { apply (does_bind _ _ _ (fun r => exists e, r = Err e)); [|intros ? [e ->]; by apply does_ret].
        intros w'. apply wp_tried, wp_throw. split; [done|]. intros _. split; [apply step_refl, _|by eexists]. }
      intros cap ->. eapply does_bind; [apply does_explained|intros citations _]. apply does_ret.
      rewrite said_app. cbn in *. rewrite sapp_nil_r. split; [done|]. apply elem_of_app. right. by left. }
    eapply wp_mono; [apply H|]. intros [trace|e] w2 [Hw2 Ht]; (split; [|by auto]);
      rewrite (auditOnly_episodes _ _ (step_db _ _ _ _ Hw2)); by apply auditOnly_episodes, Hw.
Qed.
End Claims.

(** ** Concrete turns *)

Import Toy.
#[local] Existing Instance latinUnicode.

Definition plainLog : MathLog := {| Log x := x |}.
Definition plainSearch : SearchOps := {| cosDistance _ _ := Some f0; ParseFloat _ := None |}.
Definition plainEmbedder : Embedder := {| Vendor := "openai"; Model := "m"; EmbedAnswer inputs := Some (map (fun _ => [f1]) inputs) |}.
Definition plainFormat : FloatFormat := {| FormatFloat32 _ := "1" |}.
Definition plainQuoting : Quoting := {| Quote s := s |}.
Definition plainHashing : Hashing := {| sha256Hex s := s |}.
Definition plainIngest : Ingest := {| base64Decode s := Some s; extractDocument _ _ data := Ok (data, ""); describeImage := None |}.
#[local] Existing Instances plainLog plainSearch plainEmbedder plainFormat plainQuoting plainHashing plainIngest.

Definition delta (s : string) : streamEvent := Chunk (MkStreamChunk s false false).

(** Answers in two parts, to a client that stays. *)
Definition plainProvider : Provider := {|
  pv_name := "p"; pv_vendor := "v"; pv_model := "m";
  pv_chat _ _ := Some (MkChatResponse (MkMessage RoleAssistant "It purrs.") "m" (MkUsage 1 1 2));
  pv_stream _ _ := Some ([delta "It "; delta "purrs."; Chunk (MkStreamChunk "" true false)], false)
|}.

Lemma plainProvider_reliable : reliable plainProvider.
Proof.
  split; [by intros i q; eexists|]. intros i q. eexists. split; [reflexivity|].
  rewrite !elem_of_cons, elem_of_nil. by intros [|[|[|]]].
Qed.

Definition plainRegistry : registry := {| named _ := None; activeChat := plainProvider |}.

Definition request (text : string) (stream : bool) : httpRequest :=
  MkHttp "POST" "" "" "" "deep" (BodyOk (MkRequest "" [MkMessage RoleUser text] [] stream None None)) true.

Definition toyTurn (text : string) (stream : bool) : M (list ev) :=
  chatTurn kek (fun _ => "") (fun _ => 0) (fun n => Z.of_nat n) plainRegistry "" ""
    (request text stream) toyScope toyScope.

Lemma toyTurn_def text stream : toyTurn text stream =
  chatTurn kek (fun _ => "") (fun _ => 0) (fun n => Z.of_nat n) plainRegistry "" ""
    (request text stream) toyScope toyScope.
Proof. reflexivity. Qed.

Lemma request_acceptable text stream : acceptable (request text stream).
Proof. by eexists _, _, _. Qed.


(** What a turn says, and whether it is captured. *)
Definition told (text : string) (stream : bool) (w : world) : option (string * bool) :=
  match (toyTurn text stream w).1 with
  | Ok trace => Some (said trace, existsb (fun e => match e with EvCapture true => true | _ => false end) trace)
  | Err _ => None
  end.

Lemma turn_stored_as_told_witness :
  wp (toyTurn "What does a cat do?" true)
    (fun res w' =>
       match res with
       | Ok trace =>
           (exists status msg, trace = [EvError status msg] /\ w'.(w_db).(episodes) = world0.(w_db).(episodes)) \/
           (exists out cap fin, trace = out ++ cap ++ fin /\ Forall (fun e => isDelta e = true) out /\ ending fin /\
              ((cap = [] /\ isOff "" = true /\ w'.(w_db).(episodes) = world0.(w_db).(episodes)) \/
               (cap = [EvCapture false] /\ isOff "" = false /\ w'.(w_db).(episodes) = world0.(w_db).(episodes)) \/
               (cap = [EvCapture true] /\ isOff "" = false /\
                remembered kek toyScope (asked (request "What does a cat do?" true)) (said (out ++ fin)) world0.(w_db) w'.(w_db))))
       | Err e => panics e
       end) world0 /\
  told "What does a cat do?" true world0 = Some ("It purrs.", true).
Proof.
  split; [|vm_compute; reflexivity]. rewrite toyTurn_def.
  exact (turn_stored_as_told kek (fun _ => "") (fun _ => 0) (fun n => Z.of_nat n) plainRegistry "" ""
    (request "What does a cat do?" true) toyScope toyScope world0 storeInv_empty).
Defined.

Lemma turn_answered_remembered_witness :
  wp (toyTurn "What does a cat do?" false)
    (fun res w' =>
       match res with
       | Ok trace =>
           exists out cap fin, trace = out ++ cap ++ fin /\ Forall (fun e => isDelta e = true) out /\ ending fin /\
             if isOff "" then cap = []
             else cap = [EvCapture true] /\
                  remembered kek toyScope (asked (request "What does a cat do?" false)) (said (out ++ fin)) world0.(w_db) w'.(w_db)
       | Err e => panics e
       end) world0 /\
  told "What does a cat do?" false world0 = Some ("It purrs.", true).
Proof.
  split; [|vm_compute; reflexivity]. rewrite toyTurn_def.
  exact (turn_answered_remembered kek (fun _ => "") (fun _ => 0) (fun n => Z.of_nat n) plainRegistry "" ""
    (request "What does a cat do?" false) toyScope toyScope world0 storeInv_empty
    (request_acceptable "What does a cat do?" false) plainProvider_reliable eq_refl rand_ok_toy eq_refl (list_elem_of_here _ _)).
Defined.

(** Its client goes after two deltas. *)
Definition leavingProvider : Provider := {|
  pv_name := "p"; pv_vendor := "v"; pv_model := "m"; pv_chat _ _ := None;
  pv_stream _ _ := Some (leavesAfter ["It "; "pur"], false)
|}.

Definition plainRequest : chatCompletionRequest := MkRequest "" [MkMessage RoleUser "Hi"] [] true None None.

Lemma cancelled_turn_lost_witness :
  wp (handleStream kek (fun n => Z.of_nat n) "" true toyScope plainRequest [] leavingProvider noMemory "Hi" "a" false "" [])
    (fun res w' =>
       w'.(w_db).(episodes) = world0.(w_db).(episodes) /\
       match res with
       | Ok trace => trace = [EvError 502 "upstream provider error"] \/
                     (said trace = String.concat "" ["It "; "pur"] /\ EvCapture false ∈ trace)
       | Err e => panics e
       end) world0.
Proof.
  exact (cancelled_turn_lost kek (fun n => Z.of_nat n) "" toyScope plainRequest [] leavingProvider noMemory "Hi" "a" ""
    [] ["It "; "pur"] false world0 (fun _ _ => eq_refl)).
Defined.
