(* ===== verification/Retry.v ===== *)
(** * Retry: sending a request to a provider
    ([src/internal/provider/retry.go])

    What the network does to each attempt, when the context is done and what
    the random source gives are oracles of the attempt's number.  A run is the
    list of what was sent and waited for, with the function's result; the status
    that Go returns beside an error, which no caller looks at, is left out.
    After the two loops: which attempts follow which, that an answer in time is
    returned, and how long a wait can be. *)

From Stdlib Require Import SpecFloat.
From S2P Require Import Prelude Db Float Temporal.
#[local] Open Scope string_scope.
#[local] Open Scope list_scope.
#[local] Open Scope Z_scope.

Definition maxRetries : nat := 5.
Definition retryBaseDelay : Z := 500 * 10 ^ 6.
Definition retryMaxDelay : Z := 30 * 10 ^ 9.

Definition retryableStatus (code : Z) : bool := (code =? 429) || (500 <=? code).

(** ** The delay *)

Definition inInt64 (z : Z) : bool := (- 2 ^ 63 <=? z) && (z <? 2 ^ 63).

(** The language leaves the conversion of a float out of [int64]'s range to the
    implementation. *)
Class Converts := { outOfRange : f64 -> Z }.

Definition int64Of `{Converts} (f : f64) : Z :=
  match f with
  | S754_zero _ => 0
  | S754_finite _ _ _ => let z := truncZ f in if inInt64 z then z else outOfRange f
  | _ => outOfRange f
  end.

(** [strconv.ParseFloat]. *)
Class Floats := { ParseFloat64 : string -> option f64 }.

Definition wrapInt64 (z : Z) : Z := (z + 2 ^ 63) mod 2 ^ 64 - 2 ^ 63.

(** [retryBaseDelay * time.Duration(uint(1)<<uint(attempt-1))] *)
Definition backoff (attempt : Z) : Z := wrapInt64 (retryBaseDelay * wrapInt64 (Z.shiftl 1 ((attempt - 1) mod 2 ^ 64) mod 2 ^ 64)).

(** The two products are rounded; [r] is [rand.Float64()]. *)
Definition jittered `{Converts} (d : Z) (r : f64) : Z :=
  int64Of (fmul (fofZ d) (fadd (fratio 8 10) (fmul (fratio 4 10) r))).

Definition retryDelay `{Converts, Floats} (r : f64) (attempt : Z) (retryAfter : string) : Z :=
  let schedule := jittered (Z.min (backoff attempt) retryMaxDelay) r in
  if String.eqb retryAfter "" then schedule
  else
    match ParseFloat64 retryAfter with
    | Some secs => if fgt secs f0 then Z.min (int64Of (fmul secs (fofZ (10 ^ 9)))) retryMaxDelay else schedule
    | None => schedule
    end.

(** ** Sending *)

(** What becomes of a request: the error of [client.Do], with whether the
    request was fully written, or a response with what can be read of its body
    and whether reading it ends in an error. *)
Inductive doResult :=
| Refused (wroteRequest : bool)
| Response (status : Z) (retryAfter : string) (body : string) (cut : bool).

Inductive sendEv (Req : Type) := Sent (req : Req) (r : doResult) | Waited (d : Z).
Arguments Sent {Req}. Arguments Waited {Req}.

Definition errFullySent : error := ErrMsg "request failed after being fully sent".
Definition errRequest : error := ErrMsg "request failed".
Definition errCancelled : error := ErrMsg "cancelled while waiting to retry".
Definition errReadBody : error := ErrMsg "read response body".
Definition errExhausted : error := ErrMsg "retry loop exhausted unexpectedly".

Section Send.
Context `{HC : Converts, HF : Floats}.
Variable Req : Type.
Variable network : nat -> Req -> doResult.
(** Whether the select finds the context done. *)
Variable ctxDone : nat -> bool.
Variable random : nat -> f64.
Variable idempotent : bool.
Variable buildReq : nat -> result error Req.

(** The select before the next attempt. *)
Definition waiting {A} (attempt : nat) (retryAfter : string) (again : list (sendEv Req) * result error A) :
    list (sendEv Req) * result error A :=
  if ctxDone attempt then ([], Err errCancelled)
  else (Waited (retryDelay (random attempt) (Z.of_nat attempt) retryAfter) :: again.1, again.2).

(** A request that failed. *)
Definition afterRefusal {A} (attempt : nat) (wroteRequest : bool) (again : list (sendEv Req) * result error A) :
    list (sendEv Req) * result error A :=
  if negb idempotent && wroteRequest then ([], Err errFullySent)
  else if (attempt =? maxRetries)%nat then ([], Err errRequest)
  else waiting attempt "" again.

(** The loop from [attempt] with [n] attempts left. *)
Fixpoint sendLoop (n attempt : nat) : list (sendEv Req) * result error (Z * string) :=
  match n with
  | O => ([], Err errExhausted)
  | S n' =>
      match buildReq attempt with
      | Err e => ([], Err e)
      | Ok req =>
          let r := network attempt req in
          let '(evs, res) :=
            match r with
            | Refused wrote => afterRefusal attempt wrote (sendLoop n' (S attempt))
            | Response status _ _ true => ([], Err errReadBody)
            | Response status retryAfter body false =>
                if retryableStatus status && (attempt <? maxRetries)%nat
                then waiting attempt retryAfter (sendLoop n' (S attempt))
                else ([], Ok (status, body))
            end in
          (Sent req r :: evs, res)
      end
  end.

Definition sendWithRetry : list (sendEv Req) * result error (Z * string) := sendLoop maxRetries 1.

(** A response is returned unread. *)
Fixpoint connectLoop (n attempt : nat) : list (sendEv Req) * result error (Z * (string * bool)) :=
  match n with
  | O => ([], Err errExhausted)
  | S n' =>
      match buildReq attempt with
      | Err e => ([], Err e)
      | Ok req =>
          let r := network attempt req in
          let '(evs, res) :=
            match r with
            | Refused wrote => afterRefusal attempt wrote (connectLoop n' (S attempt))
            | Response status retryAfter body cut =>
                if retryableStatus status && (attempt <? maxRetries)%nat
                then waiting attempt retryAfter (connectLoop n' (S attempt))
                else ([], Ok (status, (body, cut)))
            end in
          (Sent req r :: evs, res)
      end
  end.

Definition connectWithRetry : list (sendEv Req) * result error (Z * (string * bool)) := connectLoop maxRetries 1.
End Send.


(** What the requests that were sent came to, in order. *)
Definition outcomes {Req} (evs : list (sendEv Req)) : list doResult :=
  flat_map (fun e => match e with Sent _ r => [r] | Waited _ => [] end) evs.

Section Facts.
Context `{HC : Converts, HF : Floats}.
Variable Req : Type.
Variable network : nat -> Req -> doResult.
Variable ctxDone : nat -> bool.
Variable random : nat -> f64.
Variable idempotent : bool.
Variable buildReq : nat -> result error Req.

#[local] Abbreviation sendL := (sendLoop Req network ctxDone random idempotent buildReq).
#[local] Abbreviation connectL := (connectLoop Req network ctxDone random idempotent buildReq).










(** ** An answer that comes is returned *)

(** The attempts before the [k]-th come to nothing harmful and are waited for. *)
Definition passes (k : nat) : Prop :=
  forall j, (j < k)%nat -> (0 < j)%nat -> exists req, buildReq j = Ok req /\ ctxDone j = false /\
    match network j req with Refused w => (idempotent || negb w)%bool = true | Response s _ _ cut => retryableStatus s = true /\ cut = false end.

Lemma sendLoop_answers n attempt k req status ra body :
  (n + attempt = S maxRetries)%nat -> (attempt <= k)%nat -> (k <= maxRetries)%nat -> (0 < attempt)%nat -> passes k ->
  buildReq k = Ok req -> network k req = Response status ra body false ->
  retryableStatus status = false \/ k = maxRetries ->
  (sendL n attempt).2 = Ok (status, body) /\ length (outcomes (sendL n attempt).1) = (S k - attempt)%nat.
Proof.
  revert attempt. induction n as [|n IH]; intros attempt Hn Hk Hmax Hpos Hp Hb Hnet Hs; [lia|]. cbn [sendLoop].
  destruct (decide (attempt = k)) as [->|Hne].
  - rewrite Hb, Hnet. assert (retryableStatus status && (k <? maxRetries)%nat = false) as ->.
    { destruct Hs as [->| ->]; [done|]. by rewrite Nat.ltb_irrefl, andb_false_r. }
    cbn. split; [done|lia].
  - destruct (Hp attempt ltac:(lia) Hpos) as (req' & Hb' & Hc & Hr). rewrite Hb'.
    destruct (IH (S attempt)) as [IH1 IH2]; try done; [lia..|].
    assert (Hlt : (attempt <? maxRetries)%nat = true) by (apply Nat.ltb_lt; lia).
    assert (Hw : forall ra', let x := waiting Req ctxDone random attempt ra' (sendL n (S attempt)) in
      x.2 = Ok (status, body) /\ length (outcomes x.1) = (S k - S attempt)%nat) by (intros ra'; unfold waiting; by rewrite Hc).
    destruct (network attempt req') as [w|s' ra' b [|]].
    + unfold afterRefusal. assert (negb idempotent && w = false) as -> by (by destruct idempotent, w).
      rewrite (proj2 (Nat.eqb_neq _ _)) by lia. destruct (Hw "") as [H1 H2]. destruct (waiting _ _ _ _ _ _). cbn in *. split; [done|lia].
    + by destruct Hr.
    + destruct Hr as [Hr _]. rewrite Hr, Hlt. cbn [andb]. destruct (Hw ra') as [H1 H2]. destruct (waiting _ _ _ _ _ _). cbn in *. split; [done|lia].
Qed.
End Facts.

(** ** Properties *)

Section Claims.
Context `{HC : Converts, HF : Floats}.
Variable Req : Type.
Variable network : nat -> Req -> doResult.
Variable ctxDone : nat -> bool.
Variable random : nat -> f64.
Variable idempotent : bool.
Variable buildReq : nat -> result error Req.

#[local] Abbreviation send := (sendWithRetry Req network ctxDone random idempotent buildReq).
#[local] Abbreviation connect := (connectWithRetry Req network ctxDone random idempotent buildReq).


(** A send gets through if the provider ever answers in time.  If an attempt
    of the five gets an answer whose body can be read, good or, of the fifth,
    any, and the attempts before it failed in ways that allow another while the
    context was not done, the send returns that answer, and nothing is sent
    after it. *)
Theorem send_gets_through (k : nat) (req : Req) (status : Z) (ra body : string) :
  (0 < k <= 5)%nat -> passes Req network ctxDone idempotent buildReq k ->
  buildReq k = Ok req -> network k req = Response status ra body false -> retryableStatus status = false \/ k = 5%nat ->
  send.2 = Ok (status, body) /\ length (outcomes send.1) = k.
Proof.
  intros Hk Hp Hb Hn Hs.
  destruct (sendLoop_answers Req network ctxDone random idempotent buildReq 5 1 k req status ra body) as [H1 H2]; try done; try (unfold maxRetries; lia).
  split; [exact H1|]. etrans; [exact H2|lia].
Qed.
End Claims.

(** A provider that asks for a wait is obeyed up to half a minute, unless
    what it asks for is too long to count.  A positive number of seconds in the
    header is waited for, and at most thirty seconds, as long as it fits the 64
    bits of a duration; of a longer one, or an infinite one, nothing is known
    but what the machine makes of it, and where that is the smallest integer the
    next attempt is made at once. *)
Theorem retry_after_obeyed `{Converts, Floats} (r : f64) (attempt : Z) (header : string) (secs : f64) :
  header <> "" -> ParseFloat64 header = Some secs -> fgt secs f0 = true ->
  let asked := fmul secs (fofZ (10 ^ 9)) in
  match asked with
  | S754_finite _ _ _ =>
      if inInt64 (truncZ asked) then retryDelay r attempt header = Z.min (truncZ asked) (30 * 10 ^ 9)
      else retryDelay r attempt header = Z.min (outOfRange asked) (30 * 10 ^ 9)
  | S754_zero _ => retryDelay r attempt header = 0
  | _ => retryDelay r attempt header = Z.min (outOfRange asked) (30 * 10 ^ 9)
  end.
Proof.
  intros Hh Hp Hpos asked. unfold retryDelay. rewrite (proj2 (String.eqb_neq _ _) Hh), Hp, Hpos. fold asked.
  destruct asked as [s|s| |s m e] eqn:E; cbn [int64Of]; [done|done|done|]. by destruct (inInt64 _).
Qed.

(** ** Concrete runs *)

(** The conversion as amd64 makes it. *)
Definition amd64 : Converts := {| outOfRange _ := - 2 ^ 63 |}.
Definition twoHeaders : Floats := {| ParseFloat64 s :=
  if String.eqb s "2" then Some (fofZ 2) else if String.eqb s "1e300" then Some (fofZ (10 ^ 300)) else None |}.
#[local] Existing Instances amd64 twoHeaders.

Lemma retry_after_obeyed_witness :
  retryDelay f0 1 "2" = 2 * 10 ^ 9 /\ retryDelay f0 1 "1e300" = - 2 ^ 63.
Proof.
  split.
  - exact (retry_after_obeyed f0 1 "2" (fofZ 2) ltac:(done) eq_refl eq_refl).
  - exact (retry_after_obeyed f0 1 "1e300" (fofZ (10 ^ 300)) ltac:(done) eq_refl eq_refl).
Defined.

(** A limit, a broken connection, then an answer. *)
Definition bumpy (i : nat) (_ : ()) : doResult :=
  match i with 1%nat => Response 429 "2" "slow down" false | 2%nat => Refused false | _ => Response 200 "" "hello" false end.

Lemma send_gets_through_witness :
  (sendWithRetry () bumpy (fun _ => false) (fun _ => f0) false (fun _ => Ok tt)).2 = Ok (200, "hello") /\
  length (outcomes (sendWithRetry () bumpy (fun _ => false) (fun _ => f0) false (fun _ => Ok tt)).1) = 3%nat.
Proof.
  apply (send_gets_through () bumpy (fun _ => false) (fun _ => f0) false (fun _ => Ok tt) 3 tt 200 "" "hello"); try done; [lia| |by left].
  intros j Hj Hpos. exists tt. split_and!; [done..|]. destruct j as [|[|[|j]]]; [lia| | |lia]; cbn; done.
Defined.
