(* ===== verification/RateLimit.v ===== *)
(** * RateLimit: the demo's limiter per address ([src/internal/demo/ratelimit.go])

    The slice of an address is filtered in place: the loop writes to the array
    it reads.  [lim_seen] holds each slice as its elements. *)

From stdpp Require Import gmap.
From S2P Require Import Prelude.
#[local] Open Scope string_scope.
#[local] Open Scope list_scope.
#[local] Open Scope Z_scope.

Record IPRateLimiter := MkLimiter { lim_max : Z; lim_window : Z; lim_seen : gmap string (list Z) }.

Definition NewIPRateLimiter (max window : Z) : IPRateLimiter := MkLimiter max window ∅.

(** The loop over the [n] elements from [i], with [k] kept so far. *)
Fixpoint compact (cutoff : Z) (n i k : nat) (arr : list Z) : list Z * nat :=
  match n with
  | O => (arr, k)
  | S n' =>
      let t := arr !!! i in
      if cutoff <? t then compact cutoff n' (S i) (S k) (<[k := t]> arr)
      else compact cutoff n' (S i) k arr
  end.

(** [append] writes behind the kept ones, in the array or in a new one. *)
Definition Allow (now : Z) (ip : string) (l : IPRateLimiter) : bool * IPRateLimiter :=
  let cutoff := now - l.(lim_window) in
  let old := default [] (l.(lim_seen) !! ip) in
  let '(arr, k) := compact cutoff (length old) 0 0 old in
  let kept := (take k arr ++ [now])%list in
  (Z.of_nat (length kept) <=? l.(lim_max), MkLimiter l.(lim_max) l.(lim_window) (<[ip := kept]> l.(lim_seen))).

(** The attempts at their times, in order, and what each was told. *)
Fixpoint attempts (l : IPRateLimiter) (log : list (Z * string)) : list bool * IPRateLimiter :=
  match log with
  | [] => ([], l)
  | a :: log' => let '(b, l1) := Allow a.1 a.2 l in let '(bs, l2) := attempts l1 log' in (b :: bs, l2)
  end.

(** ** Lemmas: counting *)

Definition countIf {A} (p : A -> bool) (l : list A) : Z := Z.of_nat (length (List.filter p l)).

Lemma countIf_cons {A} (p : A -> bool) a l : countIf p (a :: l) = (if p a then 1 else 0) + countIf p l.
Proof. unfold countIf. cbn. destruct (p a); cbn [length]; lia. Qed.

Lemma countIf_app {A} (p : A -> bool) l l' : countIf p (l ++ l') = countIf p l + countIf p l'.
Proof. unfold countIf. rewrite List.filter_app, length_app. lia. Qed.

Lemma countIf_mono {A} (p q : A -> bool) l : (forall a, p a = true -> q a = true) -> countIf p l <= countIf q l.
Proof.
  intros H. induction l as [|a l IH]; [done|]. rewrite !countIf_cons. specialize (H a).
  destruct (p a); [rewrite H by done|]; destruct (q a); lia.
Qed.

(** ** The filter in place is a filter *)

Lemma compact_filter cutoff n i k arr :
  (k <= i)%nat -> (i + n = length arr)%nat ->
  let '(arr', k') := compact cutoff n i k arr in
  take k' arr' = take k arr ++ List.filter (fun t => cutoff <? t) (drop i arr).
Proof.
  revert i k arr. induction n as [|n IH]; intros i k arr Hk Hn; cbn [compact].
  - rewrite drop_ge by lia. by rewrite app_nil_r.
  - destruct (lookup_lt_is_Some_2 arr i) as [t Ht]; [lia|]. rewrite (list_lookup_total_correct _ _ _ Ht).
    rewrite (drop_S _ _ _ Ht). cbn. destruct (cutoff <? t).
    + specialize (IH (S i) (S k) (<[k := t]> arr)). destruct (compact _ _ _ _ _) as [arr' k'].
      rewrite IH by (rewrite ?length_insert; lia). rewrite drop_insert_lt by lia.
      erewrite take_S_r by (apply list_lookup_insert_eq; lia).
      rewrite take_insert_ge by lia. by rewrite <- app_assoc.
    + apply (IH (S i) k arr); lia.
Qed.

Definition kept (cutoff : Z) (l : list Z) : list Z := List.filter (fun t => cutoff <? t) l.

#[local] Arguments kept : simpl never.

Lemma Allow_spec now ip l :
  let old := kept (now - l.(lim_window)) (default [] (l.(lim_seen) !! ip)) in
  Allow now ip l =
    (Z.of_nat (length old) + 1 <=? l.(lim_max), MkLimiter l.(lim_max) l.(lim_window) (<[ip := old ++ [now]]> l.(lim_seen))).
Proof.
  cbv zeta. unfold Allow, kept. set (old := default [] _). pose proof (compact_filter (now - lim_window l) (length old) 0 0 old) as H.
  destruct (compact _ _ _ _ _) as [arr k]. specialize (H ltac:(lia) eq_refl). rewrite H. rewrite length_app. cbn [length].
  rewrite take_0, drop_0. cbn [app]. do 2 f_equal. lia.
Qed.

(** ** The limit *)

(** The times of an address's attempts. *)
Definition timesOf (ip : string) (log : list (Z * string)) : list Z :=
  map fst (List.filter (fun a => String.eqb a.2 ip) log).

(** What the limiter remembers after a log: of each address at least the
    attempts of the last window. *)
Record remembers (t : Z) (past : list (Z * string)) (l : IPRateLimiter) : Prop := MkRemembers {
  rm_past : forall a, a ∈ past -> a.1 <= t;
  rm_seen : forall ip y, t - l.(lim_window) <= y -> kept y (default [] (l.(lim_seen) !! ip)) = kept y (timesOf ip past)
}.

Lemma remembers_new max window t : remembers t [] (NewIPRateLimiter max window).
Proof. split; [by intros a ?%elem_of_nil|]. intros ip y _. unfold NewIPRateLimiter. cbn. by rewrite lookup_empty. Qed.

Lemma kept_kept y y' l : y' <= y -> kept y (kept y' l) = kept y l.
Proof.
  intros H. unfold kept. induction l as [|t l IH]; [done|]. cbn. destruct (y' <? t) eqn:E; cbn; [by rewrite IH|].
  rewrite IH. destruct (y <? t) eqn:E'; [lia|done].
Qed.

Lemma kept_app y l l' : kept y (l ++ l') = kept y l ++ kept y l'.
Proof. apply List.filter_app. Qed.

Lemma timesOf_snoc ip log a : timesOf ip (log ++ [a]) = timesOf ip log ++ (if String.eqb a.2 ip then [a.1] else []).
Proof. unfold timesOf. rewrite List.filter_app, map_app. cbn. by destruct (String.eqb a.2 ip). Qed.

(** One attempt: counted with those of the last window. *)
Definition recent (window : Z) (a : Z * string) (log : list (Z * string)) : Z :=
  countIf (fun t => a.1 - window <? t) (timesOf a.2 log).

Lemma remembers_step t past l a :
  remembers t past l -> t <= a.1 -> 0 <= l.(lim_window) ->
  (Allow a.1 a.2 l).1 = (recent l.(lim_window) a past + 1 <=? l.(lim_max)) /\
  remembers a.1 (past ++ [a]) (Allow a.1 a.2 l).2 /\
  (Allow a.1 a.2 l).2.(lim_window) = l.(lim_window) /\ (Allow a.1 a.2 l).2.(lim_max) = l.(lim_max).
Proof.
  intros [H1 H2] Ht Hw. rewrite Allow_spec. cbn [fst snd lim_window lim_max]. split_and!; [|split|done..].
  - rewrite H2 by lia. done.
  - intros b [Hb%H1| ->%list_elem_of_singleton]%elem_of_app; lia.
  - cbn. intros ip y Hy. rewrite timesOf_snoc. destruct (String.eqb_spec a.2 ip) as [<-|Hne].
    + rewrite lookup_insert_eq. cbn. rewrite !kept_app. f_equal. rewrite kept_kept by lia. apply H2. lia.
    + rewrite lookup_insert_ne by done. rewrite app_nil_r. apply H2. lia.
Qed.

(** The attempts in order, from a limiter that remembers those before. *)
Lemma attempts_spec log past t l :
  remembers t past l -> 0 <= l.(lim_window) -> StronglySorted (fun a b => a.1 <= b.1) log -> Forall (fun a => t <= a.1) log ->
  length (attempts l log).1 = length log /\
  forall pre a post, log = pre ++ a :: post ->
    nth_error (attempts l log).1 (length pre) = Some (recent l.(lim_window) a (past ++ pre) + 1 <=? l.(lim_max)).
Proof.
  revert past t l. induction log as [|a log IH]; intros past t l Hm Hw Hs Ht; cbn [attempts].
  - split; [done|]. by intros [].
  - apply Forall_cons in Ht as [Ha Ht]. apply StronglySorted_inv in Hs as [Hs Hall].
    destruct (remembers_step t past l a Hm Ha Hw) as (Eb & Hm' & Ew & Em). destruct (Allow a.1 a.2 l) as [b l1]. cbn [fst snd] in *.
    destruct (IH _ _ _ Hm' ltac:(by rewrite Ew) Hs Hall) as [Hlen Hnth]. destruct (attempts l1 log) as [bs l2]. cbn [fst] in *. split; [cbn; lia|].
    intros [|x pre] y post E; injection E as <- E; cbn.
    + by rewrite app_nil_r, Eb.
    + rewrite (Hnth pre y post E), Ew, Em, <- app_assoc. done.
Qed.

(** The times at which an address was let in. *)
Fixpoint allowedOf (ip : string) (log : list (Z * string)) (answers : list bool) : list Z :=
  match log, answers with
  | a :: log', b :: answers' => (if b && String.eqb a.2 ip then [a.1] else []) ++ allowedOf ip log' answers'
  | _, _ => []
  end.

Definition inWindow (x window : Z) (t : Z) : bool := (x <? t) && (t <=? x + window).

Lemma allowed_window ip x log past t l :
  remembers t past l -> 0 <= l.(lim_window) -> StronglySorted (fun a b => a.1 <= b.1) log -> Forall (fun a => t <= a.1) log ->
  countIf (inWindow x l.(lim_window)) (allowedOf ip log (attempts l log).1) <=
    Z.max 0 (l.(lim_max) - countIf (fun u => x <? u) (timesOf ip past)).
Proof.
  revert past t l. induction log as [|a log IH]; intros past t l Hm Hw Hs Ht; cbn [attempts].
  - unfold countIf. cbn. lia.
  - apply Forall_cons in Ht as [Ha Ht]. apply StronglySorted_inv in Hs as [Hs Hall].
    destruct (remembers_step t past l a Hm Ha Hw) as (Eb & Hm' & Ew & Em). destruct (Allow a.1 a.2 l) as [b l1]. cbn [fst snd] in *.
    specialize (IH _ _ _ Hm' ltac:(by rewrite Ew) Hs Hall). destruct (attempts l1 log) as [bs l2]. cbn [fst allowedOf] in *.
    rewrite Ew, Em, timesOf_snoc, countIf_app in IH. rewrite countIf_app.
    destruct (String.eqb_spec a.2 ip) as [<-|Hne]; [|rewrite andb_false_r; unfold countIf in *; cbn in *; lia].
    rewrite andb_true_r. rewrite countIf_cons in IH. unfold countIf at 3 in IH. cbn [List.filter length] in IH.
    destruct b; [|unfold countIf at 1; cbn [List.filter length]; destruct (x <? a.1); lia].
    rewrite countIf_cons. unfold countIf at 1. cbn [List.filter length]. unfold inWindow at 1.
    destruct (x <? a.1) eqn:Ex, (a.1 <=? x + lim_window l) eqn:Ex'; cbn [andb]; try lia.
    symmetry in Eb. apply Z.leb_le in Eb. unfold recent in Eb.
    assert (countIf (fun u => x <? u) (timesOf a.2 past) <= countIf (fun u => a.1 - lim_window l <? u) (timesOf a.2 past)).
    { apply countIf_mono. intros u. lia. }
    lia.
Qed.

(** ** Properties *)

(** C40: The limiter per address is exact and bounds every window.  Of a clock
    that does not go back, each attempt is let in exactly when it and the
    attempts of its address in the window before it, denied ones included, are
    at most the limit; so no window of its length ever lets in more, whatever
    other addresses do. *)
Theorem ip_limit (max window : Z) (log : list (Z * string)) :
  0 <= window -> StronglySorted (fun a b => a.1 <= b.1) log ->
  length (attempts (NewIPRateLimiter max window) log).1 = length log /\
  (forall pre a post, log = pre ++ a :: post ->
     nth_error (attempts (NewIPRateLimiter max window) log).1 (length pre) = Some (recent window a pre + 1 <=? max)) /\
  forall ip x, countIf (inWindow x window) (allowedOf ip log (attempts (NewIPRateLimiter max window) log).1) <= Z.max 0 max.
Proof.
  intros Hw Hs. assert (Ht : exists t, Forall (fun a : Z * string => t <= a.1) log).
  { destruct log as [|a log]; [by exists 0|]. exists a.1. apply Forall_cons. split; [lia|]. by apply StronglySorted_inv in Hs as [_ Hs]. }
  destruct Ht as [t Ht]. destruct (attempts_spec log [] t _ (remembers_new max window t) Hw Hs Ht) as [H1 H2].
  split; [done|]. split; [exact H2|]. intros ip x.
  pose proof (allowed_window ip x log [] t _ (remembers_new max window t) Hw Hs Ht) as H. cbn [lim_window lim_max NewIPRateLimiter] in H.
  unfold countIf at 2 in H. cbn in H. rewrite Z.sub_0_r in H. exact H.
Qed.

(** Two a minute: the third waits until the first is a minute old, and a denied
    attempt counts. *)
Lemma ip_limit_witness :
  (attempts (NewIPRateLimiter 2 60) [(0, "a"); (10, "a"); (20, "b"); (30, "a"); (61, "a"); (90, "a")]).1 = [true; true; true; false; false; true] /\
  countIf (inWindow 0 60) (allowedOf "a" [(0, "a"); (10, "a"); (20, "b"); (30, "a"); (61, "a"); (90, "a")] [true; true; true; false; false; true]) <= Z.max 0 2.
Proof.
  split; [vm_compute; reflexivity|].
  apply (ip_limit 2 60 [(0, "a"); (10, "a"); (20, "b"); (30, "a"); (61, "a"); (90, "a")]); [lia|].
  repeat (apply SSorted_cons; [|repeat (apply Forall_cons; split; [cbn; lia|]); apply Forall_nil; done]). apply SSorted_nil.
Defined.
